(** * HIts (HIP Transfer Streams): a shallow embedding of [hits.c]

    The program is a single C file.  It parses its options with argp,
    allocates, for every requested transfer, two buffers, two timing events
    and a stream, issues [n_iter] rounds of asynchronous copies on all
    transfers, synchronises, prints one bandwidth figure per transfer and
    frees its host buffers.

    The embedding keeps the shape of the C code.  Every call that leaves the
    program (HIP runtime, libc, libnuma, the terminal) is logged as a [Call];
    a computation is a function from the number of calls already made to an
    [Outcome]: a value or a stop ([exit], a failed [assert]), together with
    the calls it made.  What the outside world answers is read from a
    [Platform]. *)

From Stdlib Require Import ZArith String Ascii Bool Lia QArith Qpower Lqa List.
From Stdlib Require Import Floats.SpecFloat.
From Stdlib Require DecimalString.
Import ListNotations.

Local Open Scope Z_scope.

(** ** Machine integers *)

Definition LONG_MAX : Z := 9223372036854775807.
Definition LONG_MIN : Z := -9223372036854775808.

(** Conversion to [size_t] (64 bits, unsigned). *)
Definition to_size_t (z : Z) : Z := z mod 2 ^ 64.

(** Conversion to [int] (32 bits, two's complement). *)
Definition to_int (z : Z) : Z := (z + 2 ^ 31) mod 2 ^ 32 - 2 ^ 31.

(** Conversion to [unsigned int], as [printf("%x")] reads its argument. *)
Definition to_uint (z : Z) : Z := z mod 2 ^ 32.

(** ** Constants of [hits.c] and of the headers it uses *)

Definition N_SIZE_MAX : Z := 1073741824.
Definition N_SIZE_DEFAULT : Z := N_SIZE_MAX.
Definition N_ITER_DEFAULT : Z := 100.

Definition is_numa_aware : Z := Z.shiftl 1 0.
Definition is_pinned : Z := Z.shiftl 1 1.

Definition hipSuccess : Z := 0.
Definition hipHostMallocDefault : Z := 0.
Definition hipHostMallocNumaUser : Z := 536870912.
Definition hipStreamNonBlocking : Z := 1.

Definition EINVAL : Z := 22.
Definition ERANGE : Z := 34.
Definition ARGP_ERR_UNKNOWN : Z := 7.
Definition ARGP_KEY_ARG : Z := 0.
Definition ARGP_KEY_END : Z := 16777217.
Definition ARGP_KEY_ARGS : Z := 16777222.
Definition OPT_PROGNAME : Z := -2.
Definition OPT_USAGE : Z := -3.
Definition OPT_HANG : Z := -4.
Definition EX_USAGE : Z := 64.
Definition EOF : Z := -1.

(** Option keys, the characters of the [options] table. *)
Definition key (c : ascii) : Z := Z.of_nat (nat_of_ascii c).

(** ** C strings: [strtol], [strtok], [fscanf("%d")], [sprintf("%x")] *)

Definition isspace (c : ascii) : bool :=
  let n := nat_of_ascii c in
  (Nat.eqb n 32 || (Nat.leb 9 n && Nat.leb n 13))%bool.

Definition digit_of (c : ascii) : option Z :=
  let n := Z.of_nat (nat_of_ascii c) in
  if (48 <=? n) && (n <=? 57) then Some (n - 48) else None.

Fixpoint skip_spaces (s : string) : nat * string :=
  match s with
  | String c r => if isspace c then let (n, r') := skip_spaces r in (S n, r')
                  else (O, s)
  | EmptyString => (O, s)
  end.

(** Value and number of the leading decimal digits of [s]. *)
Fixpoint scan_digits (s : string) (acc : Z) : Z * nat :=
  match s with
  | String c r =>
      match digit_of c with
      | Some d => let (v, n) := scan_digits r (10 * acc + d) in (v, S n)
      | None => (acc, O)
      end
  | EmptyString => (acc, O)
  end.

Definition scan_sign (s : string) : bool * nat * string :=
  match s with
  | String "-"%char r => (true, 1%nat, r)
  | String "+"%char r => (false, 1%nat, r)
  | _ => (false, O, s)
  end.

(** The result of [strtol(s, &endptr, 10)]: the value, [endptr - s], and
    whether the call stored [ERANGE] in [errno].  Without a digit the value
    is 0, [endptr] is [s] and [errno] is left alone. *)
Record strtol_t := { st_val : Z; st_end : nat; st_erange : bool }.

Definition strtol (s : string) : strtol_t :=
  let (ws, s1) := skip_spaces s in
  let '(neg, sg, s2) := scan_sign s1 in
  let (mag, nd) := scan_digits s2 0 in
  match nd with
  | O => {| st_val := 0; st_end := O; st_erange := false |}
  | _ =>
      let v := if neg then - mag else mag in
      let e := (ws + sg + nd)%nat in
      if LONG_MAX <? v then {| st_val := LONG_MAX; st_end := e; st_erange := true |}
      else if v <? LONG_MIN then {| st_val := LONG_MIN; st_end := e; st_erange := true |}
      else {| st_val := v; st_end := e; st_erange := false |}
  end.

(** [errno] after a [strtol] call. *)
Definition errno_after (errno : Z) (r : strtol_t) : Z :=
  if st_erange r then ERANGE else errno.

Fixpoint drop (n : nat) (s : string) : string :=
  match n, s with
  | S n', String _ r => drop n' r
  | _, _ => s
  end.

(** [strtok] with the single delimiter [","], on offsets into the argument:
    from the saved offset [o], the start of the next token and the next saved
    offset; [None] is the NULL pointer.  The NUL that [strtok] writes over
    the delimiter changes nothing for [strtol], which stops at either. *)
Fixpoint skip_commas (s : string) : nat :=
  match s with
  | String ","%char r => S (skip_commas r)
  | _ => O
  end.

Fixpoint token_length (s : string) : nat :=
  match s with
  | String c r => if Ascii.eqb c ","%char then O else S (token_length r)
  | EmptyString => O
  end.

Definition strtok (arg : string) (o : nat) : option nat * nat :=
  let p := (o + skip_commas (drop o arg))%nat in
  match drop p arg with
  | EmptyString => (None, p)
  | _ =>
      let q := (p + token_length (drop p arg))%nat in
      match drop q arg with
      | EmptyString => (Some p, q)
      | _ => (Some p, S q)
      end
  end.

(** [fscanf(file, "%d", &x)] on a file holding [s]: the returned count and
    the stored [int], if any.  The count is [EOF] when the file ends before
    anything but white space is read, and 0 when what is read is no number
    (a sign alone included). *)
Definition fscanf_d (s : string) : Z * option Z :=
  let (_, s1) := skip_spaces s in
  let '(neg, _, s2) := scan_sign s1 in
  let (mag, nd) := scan_digits s2 0 in
  match nd with
  | O => match s1 with
         | EmptyString => (EOF, None)
         | _ => (0, None)
         end
  | _ =>
      let v := if neg then - mag else mag in
      let v := if LONG_MAX <? v then LONG_MAX else if v <? LONG_MIN then LONG_MIN else v in
      (1, Some (to_int v))
  end.

Definition hex_digit (d : Z) : ascii :=
  if d <? 10 then ascii_of_nat (Z.to_nat (48 + d)) else ascii_of_nat (Z.to_nat (87 + d)).

(** The [n] low hexadecimal digits of [z], most significant first. *)
Fixpoint hex_low (n : nat) (z : Z) : string :=
  match n with
  | O => EmptyString
  | S n' => hex_low n' (z / 16) ++ String (hex_digit (z mod 16)) EmptyString
  end.

Fixpoint hex_length (fuel : nat) (z : Z) : nat :=
  match fuel with
  | O => O
  | S f => if z =? 0 then O else S (hex_length f (z / 16))
  end.

(** [printf("%0<w>x", i)] for an [int] [i]. *)
Definition fmt_0x (w : nat) (i : Z) : string :=
  let u := to_uint i in
  hex_low (Nat.max w (hex_length 8 u)) u.

(** ** Single and double precision *)

Definition f32_of_f64 (x : spec_float) : spec_float :=
  match x with
  | S754_finite s m e => binary_round 24 128 s m e
  | _ => x
  end.

Definition f64_of_f32 (x : spec_float) : spec_float :=
  match x with
  | S754_finite s m e => binary_round 53 1024 s m e
  | _ => x
  end.

(** Conversion of an unsigned integer to [float]. *)
Definition f32_of_Z (z : Z) : spec_float := binary_normalize 24 128 z 0 false.
Definition f64_of_Z (z : Z) : spec_float := binary_normalize 53 1024 z 0 false.

Definition f32_div := SFdiv 24 128.
Definition f32_mul := SFmul 24 128.
Definition f64_div := SFdiv 53 1024.

(** The rational a finite float stands for. *)
Definition Q_of_float (x : spec_float) : option Q :=
  match x with
  | S754_zero _ => Some 0%Q
  | S754_finite s m e =>
      let q := match e with
               | Zneg p => (Zpos m # Pos.shiftl 1 (Npos p))%Q
               | _ => inject_Z (Zpos m * 2 ^ e)
               end in
      Some (if s then Qopp q else q)
  | _ => None
  end.

(** [m * 2^e], the value of the mantissa [m] at the exponent [e]. *)
Definition F2Q (m e : Z) : Q := (inject_Z m * 2 ^ e)%Q.

(** The largest relative error of one rounding to [prec] bits: a result with
    [prec] significant bits is at most one unit of its last bit away from
    what is rounded. *)
Definition ulp_rel (prec : Z) : Q := (/ inject_Z (2 ^ (prec - 1)))%Q.

(** [v] is [x] up to the relative error [u]. *)
Definition near (u v x : Q) : Prop := (x * (1 - u) <= v /\ v <= x * (1 + u))%Q.

(** [v] lies between [lo * x] and [hi * x]. *)
Definition within (lo hi v x : Q) : Prop := (lo * x <= v /\ v <= hi * x)%Q.

(** ** Data model *)

Inductive TransferType_t := HTOD | DTOH | DTOD.

(** The two fields of [hipDeviceProp_t] the program reads. *)
Record hipDeviceProp_t := { pciDomainID : Z; pciBusID : Z }.

(** A pointer or runtime handle is named by the position, in the run, of the
    call that returned it. *)
Definition Handle := nat.

Record Transfer_t := {
  start : Handle;
  stop : Handle;
  device : Z;
  device2 : Z;
  dest : Handle;
  src : Handle;
  stream : Handle;
  type : TransferType_t;
  numa_node : Z;
  is_started : bool;
  prop_device : hipDeviceProp_t;
  prop_device2 : hipDeviceProp_t
}.

(** [transfer] is a pointer in C: [transfer_p] is the address it holds and
    [transfer] the array behind it. *)
Record Hits_t := {
  transfer_p : Handle;
  transfer : list Transfer_t;
  n_transfers : Z;
  n_iter : Z;
  n_size : Z;
  alloc_flags : Z
}.

(** Field assignments. *)
Definition set_start (t : Transfer_t) (v : Handle) : Transfer_t :=
  {| start := v; stop := stop t; device := device t; device2 := device2 t;
     dest := dest t; src := src t; stream := stream t; type := type t;
     numa_node := numa_node t; is_started := is_started t;
     prop_device := prop_device t; prop_device2 := prop_device2 t |}.
Definition set_stop (t : Transfer_t) (v : Handle) : Transfer_t :=
  {| start := start t; stop := v; device := device t; device2 := device2 t;
     dest := dest t; src := src t; stream := stream t; type := type t;
     numa_node := numa_node t; is_started := is_started t;
     prop_device := prop_device t; prop_device2 := prop_device2 t |}.
Definition set_device (t : Transfer_t) (v : Z) : Transfer_t :=
  {| start := start t; stop := stop t; device := v; device2 := device2 t;
     dest := dest t; src := src t; stream := stream t; type := type t;
     numa_node := numa_node t; is_started := is_started t;
     prop_device := prop_device t; prop_device2 := prop_device2 t |}.
Definition set_device2 (t : Transfer_t) (v : Z) : Transfer_t :=
  {| start := start t; stop := stop t; device := device t; device2 := v;
     dest := dest t; src := src t; stream := stream t; type := type t;
     numa_node := numa_node t; is_started := is_started t;
     prop_device := prop_device t; prop_device2 := prop_device2 t |}.
Definition set_dest (t : Transfer_t) (v : Handle) : Transfer_t :=
  {| start := start t; stop := stop t; device := device t; device2 := device2 t;
     dest := v; src := src t; stream := stream t; type := type t;
     numa_node := numa_node t; is_started := is_started t;
     prop_device := prop_device t; prop_device2 := prop_device2 t |}.
Definition set_src (t : Transfer_t) (v : Handle) : Transfer_t :=
  {| start := start t; stop := stop t; device := device t; device2 := device2 t;
     dest := dest t; src := v; stream := stream t; type := type t;
     numa_node := numa_node t; is_started := is_started t;
     prop_device := prop_device t; prop_device2 := prop_device2 t |}.
Definition set_stream (t : Transfer_t) (v : Handle) : Transfer_t :=
  {| start := start t; stop := stop t; device := device t; device2 := device2 t;
     dest := dest t; src := src t; stream := v; type := type t;
     numa_node := numa_node t; is_started := is_started t;
     prop_device := prop_device t; prop_device2 := prop_device2 t |}.
Definition set_type (t : Transfer_t) (v : TransferType_t) : Transfer_t :=
  {| start := start t; stop := stop t; device := device t; device2 := device2 t;
     dest := dest t; src := src t; stream := stream t; type := v;
     numa_node := numa_node t; is_started := is_started t;
     prop_device := prop_device t; prop_device2 := prop_device2 t |}.
Definition set_numa_node (t : Transfer_t) (v : Z) : Transfer_t :=
  {| start := start t; stop := stop t; device := device t; device2 := device2 t;
     dest := dest t; src := src t; stream := stream t; type := type t;
     numa_node := v; is_started := is_started t;
     prop_device := prop_device t; prop_device2 := prop_device2 t |}.
Definition set_is_started (t : Transfer_t) (v : bool) : Transfer_t :=
  {| start := start t; stop := stop t; device := device t; device2 := device2 t;
     dest := dest t; src := src t; stream := stream t; type := type t;
     numa_node := numa_node t; is_started := v;
     prop_device := prop_device t; prop_device2 := prop_device2 t |}.
Definition set_prop_device (t : Transfer_t) (v : hipDeviceProp_t) : Transfer_t :=
  {| start := start t; stop := stop t; device := device t; device2 := device2 t;
     dest := dest t; src := src t; stream := stream t; type := type t;
     numa_node := numa_node t; is_started := is_started t;
     prop_device := v; prop_device2 := prop_device2 t |}.
Definition set_prop_device2 (t : Transfer_t) (v : hipDeviceProp_t) : Transfer_t :=
  {| start := start t; stop := stop t; device := device t; device2 := device2 t;
     dest := dest t; src := src t; stream := stream t; type := type t;
     numa_node := numa_node t; is_started := is_started t;
     prop_device := prop_device t; prop_device2 := v |}.

Definition set_transfer (h : Hits_t) (v : list Transfer_t) : Hits_t :=
  {| transfer_p := transfer_p h; transfer := v; n_transfers := n_transfers h; n_iter := n_iter h;
     n_size := n_size h; alloc_flags := alloc_flags h |}.
Definition set_n_transfers (h : Hits_t) (v : Z) : Hits_t :=
  {| transfer_p := transfer_p h; transfer := transfer h; n_transfers := v; n_iter := n_iter h;
     n_size := n_size h; alloc_flags := alloc_flags h |}.
Definition set_n_iter (h : Hits_t) (v : Z) : Hits_t :=
  {| transfer_p := transfer_p h; transfer := transfer h; n_transfers := n_transfers h; n_iter := v;
     n_size := n_size h; alloc_flags := alloc_flags h |}.
Definition set_n_size (h : Hits_t) (v : Z) : Hits_t :=
  {| transfer_p := transfer_p h; transfer := transfer h; n_transfers := n_transfers h; n_iter := n_iter h;
     n_size := v; alloc_flags := alloc_flags h |}.
Definition set_alloc_flags (h : Hits_t) (v : Z) : Hits_t :=
  {| transfer_p := transfer_p h; transfer := transfer h; n_transfers := n_transfers h; n_iter := n_iter h;
     n_size := n_size h; alloc_flags := v |}.

(** ** Calls to the outside *)

Inductive hipMemcpyKind := hipMemcpyHostToDevice | hipMemcpyDeviceToHost.

(** What the program prints, by format string, with the arguments. *)
Inductive Message :=
  | CheckHip (code : Z)
  | Err_dtoh
  | Err_htod
  | Err_iter
  | Err_dtod_first
  | Err_dtod_second
  | Err_dtod_extra
  | Err_size
  | Err_size_max (max : Z)
  | Err_main_alloc
  | Err_p2p (d d2 : Z)
  | Launching_direct (ty : TransferType_t) (d bus : Z)
  | Host_buffer_numa (node : Z)
  | Newline
  | Launching_p2p (d2 bus2 d bus : Z)
  | Completed
  | Result_p2p (i d2 bus2 d bus : Z) (gbs sec : spec_float)
  | Result_direct (i : Z) (ty : TransferType_t) (d bus : Z) (gbs sec : spec_float).

(** What argp prints by itself while it parses the command line. *)
Inductive ArgpText :=
  | Help                  (* [--help], [-?]: the help, on stdout *)
  | Usage                 (* [--usage]: the short usage, on stdout *)
  | Version               (* [--version], [-V]: [argp_program_version], on stdout *)
  | Bad_option            (* an option argp rejects: the error and "Try ...", on stderr *)
  | Too_many_arguments.   (* an argument that is no option: the same, on stderr *)

(** The calls.  [hipFree], [hipStreamDestroy] and [hipEventDestroy] are the
    runtime's release calls for device buffers, streams and events; they are
    part of the interface although [hits.c] has no call site for them. *)
Inductive Call :=
  | malloc (n : Z)
  | free (p : Handle)
  | fopen (path : string)
  | fscanf (file : Handle)
  | fclose (file : Handle)
  | numa_set_preferred (node : Z)
  | pthread_create
  | argp_usage
  | argp_print (text : ArgpText)
  | printf (m : Message)
  | fprintf_stderr (m : Message)
  | hipGetDeviceProperties (dev : Z)
  | hipSetDevice (dev : Z)
  | hipEventCreate
  | hipStreamCreateWithFlags (flags : Z)
  | hipHostMalloc (n flags : Z)
  | hipMalloc (n : Z)
  | hipDeviceCanAccessPeer (dev peer : Z)
  | hipDeviceEnablePeerAccess (peer flags : Z)
  | hipEventRecord (ev strm : Handle)
  | hipMemcpyAsync (dst from : Handle) (n : Z) (kind : hipMemcpyKind) (strm : Handle)
  | hipMemcpyPeerAsync (dst : Handle) (dst_dev : Z) (from : Handle) (from_dev : Z)
                       (n : Z) (strm : Handle)
  | hipDeviceSynchronize
  | hipEventElapsedTime (ev_start ev_stop : Handle)
  | hipHostFree (p : Handle)
  | hipFree (p : Handle)
  | hipStreamDestroy (strm : Handle)
  | hipEventDestroy (ev : Handle).

(** The answers of the outside world.  A call is identified by its position
    [k] in the run (the number of calls made before it). *)
Record Platform := {
  (** status returned by the runtime call at position [k] *)
  hip_ret : nat -> Z;
  (** whether the allocation at position [k] produced a NULL pointer *)
  null_result : nat -> bool;
  (** what [hipGetDeviceProperties] stores for a device *)
  device_prop : Z -> hipDeviceProp_t;
  (** what [hipDeviceCanAccessPeer] stores in [is_access] *)
  peer_access : Z -> Z -> Z;
  (** the files [fopen(path, "r")] can open, with their contents *)
  sysfs : string -> option string;
  (** what [hipEventElapsedTime] at position [k] stores, a [float] *)
  elapsed_msec : nat -> spec_float;
  (** [sizeof(Transfer_t)] *)
  sizeof_Transfer_t : Z;
  (** the indeterminate contents of a freshly allocated [Transfer_t] *)
  indeterminate : Transfer_t
}.

(** ** Computations *)

Inductive Stop :=
  | Exit (code : Z)     (* exit(code) *)
  | Abort               (* a failed assert *)
  | Undefined.          (* an access outside the transfer array *)

Inductive Outcome (A : Type) :=
  | Ret (a : A) (d : list Call)
  | Halt (s : Stop) (d : list Call).
Arguments Ret {A} a d.
Arguments Halt {A} s d.

(** The calls made, whatever the outcome. *)
Definition calls {A} (o : Outcome A) : list Call :=
  match o with Ret _ d => d | Halt _ d => d end.

Definition M (A : Type) : Type := nat -> Outcome A.

Definition ret {A} (a : A) : M A := fun _ => Ret a [].

Definition bind {A B} (m : M A) (f : A -> M B) : M B := fun pos =>
  match m pos with
  | Ret a d =>
      match f a (pos + length d)%nat with
      | Ret b d' => Ret b (d ++ d')
      | Halt s d' => Halt s (d ++ d')
      end
  | Halt s d => Halt s d
  end.

(** One call; the value is its position. *)
Definition call (c : Call) : M nat := fun pos => Ret pos [c].

Definition halt {A} (s : Stop) : M A := fun _ => Halt s [].

Definition exit {A} (code : Z) : M A := halt (Exit code).

Declare Scope comp_scope.
Delimit Scope comp_scope with comp.
Notation "x <- m ;; k" := (bind m (fun x => k))
  (at level 61, m at next level, right associativity) : comp_scope.
Notation "m ;; k" := (bind m (fun _ => k))
  (at level 61, right associativity) : comp_scope.
Local Open Scope comp_scope.

(** [for (i = i0; i < i0 + n; i++) body(i, &a[i])], where [a] starts at
    cell [i0]. *)
Fixpoint for_from (body : nat -> Transfer_t -> M Transfer_t) (i0 n : nat)
    (a : list Transfer_t) : M (list Transfer_t) :=
  match n with
  | O => ret a
  | S n' =>
      match a with
      | t :: rest =>
          t' <- body i0 t ;;
          rest' <- for_from body (S i0) n' rest ;;
          ret (t' :: rest')
      | [] => halt Undefined
      end
  end.

(** [for (i = 0; i < n; i++) body(i, &a[i])] *)
Definition for_each (body : nat -> Transfer_t -> M Transfer_t) (n : nat)
    (a : list Transfer_t) : M (list Transfer_t) :=
  for_from body O n a.

(** [a[i] = v] *)
Fixpoint store (i : nat) (v : Transfer_t) (a : list Transfer_t) : list Transfer_t :=
  match a, i with
  | [], _ => []
  | _ :: rest, O => v :: rest
  | t :: rest, S i' => t :: store i' v rest
  end.

(** ** The program *)

Section Program.

Variable P : Platform.

(** [assertHip], behind the macro [checkHip]. *)
Definition assertHip (code : Z) : M unit :=
  if code =? hipSuccess then ret tt
  else (call (fprintf_stderr (CheckHip code)) ;; exit code).

(** [checkHip( c )] for a runtime call [c]; the value is the handle the call
    returns through its first argument, if it returns one. *)
Definition checkHip (c : Call) : M Handle :=
  k <- call c ;;
  assertHip (hip_ret P k) ;;
  ret k.

(** [assert(p != NULL)] *)
Definition assert_not_null (p : Handle) : M unit :=
  if null_result P p then halt Abort else ret tt.

(** *** Options *)

(** What [parse_opt] reads and writes: the [Hits_t] behind [state->input]
    and [errno]. *)
Record argp_state := { input : Hits_t; errno : Z }.

(** [a == b] for two pointers into the argument; [None] is NULL for a token
    and a not yet assigned [endptr]. *)
Definition ptr_eqb (a b : option nat) : bool :=
  match a, b with
  | Some x, Some y => Nat.eqb x y
  | _, _ => false
  end.

(** [token != NULL] *)
Definition not_null (a : option nat) : bool :=
  match a with Some _ => true | None => false end.

(** [errno == EINVAL || errno == ERANGE] *)
Definition errno_bad (e : Z) : bool := (e =? EINVAL) || (e =? ERANGE).

(** [(token != NULL) ? strtol(token, &endptr, 10) : -1], with the new
    [endptr] and [errno]. *)
Definition strtol_token (arg : string) (token : option nat) (endptr : option nat)
    (e : Z) : Z * option nat * Z :=
  match token with
  | Some p => let r := strtol (drop p arg) in
              (st_val r, Some (p + st_end r)%nat, errno_after e r)
  | None => (-1, endptr, e)
  end.

Definition parse_opt (k : Z) (arg : string) (state : argp_state)
    : M (Z * argp_state) :=
  let hits := input state in
  let idx := Z.to_nat (n_transfers hits) in
  let e := errno state in
  if k =? key "d" then
    match nth_error (transfer hits) idx with
    | None => halt Undefined
    | Some t =>
        let t := set_type t DTOH in
        let r := strtol arg in
        let t := set_device t (to_int (st_val r)) in
        let e := errno_after e r in
        if errno_bad e || (device t <? 0) then
          call (fprintf_stderr Err_dtoh) ;; exit 1
        else
          let t := set_device2 t (-1) in
          let hits := set_transfer hits (store idx t (transfer hits)) in
          let hits := set_n_transfers hits (n_transfers hits + 1) in
          ret (0, {| input := hits; errno := e |})
    end
  else if k =? key "h" then
    match nth_error (transfer hits) idx with
    | None => halt Undefined
    | Some t =>
        let t := set_type t HTOD in
        let r := strtol arg in
        let t := set_device t (to_int (st_val r)) in
        let e := errno_after e r in
        if errno_bad e || (device t <? 0) then
          call (fprintf_stderr Err_htod) ;; exit 1
        else
          let t := set_device2 t (-1) in
          let hits := set_transfer hits (store idx t (transfer hits)) in
          let hits := set_n_transfers hits (n_transfers hits + 1) in
          ret (0, {| input := hits; errno := e |})
    end
  else if k =? key "i" then
    let r := strtol arg in
    let hits := set_n_iter hits (st_val r) in
    let e := errno_after e r in
    if errno_bad e || (n_iter hits <? 0) then
      call (fprintf_stderr Err_iter) ;; exit 1
    else ret (0, {| input := hits; errno := e |})
  else if k =? key "n" then
    let hits := set_alloc_flags hits (Z.land (alloc_flags hits) (Z.lnot is_numa_aware)) in
    ret (0, {| input := hits; errno := e |})
  else if k =? key "m" then
    let hits := set_alloc_flags hits (Z.land (alloc_flags hits) (Z.lnot is_pinned)) in
    ret (0, {| input := hits; errno := e |})
  else if k =? key "p" then
    match nth_error (transfer hits) idx with
    | None => halt Undefined
    | Some t =>
        let t := set_type t DTOD in
        (* first GPU id *)
        let (token, save) := strtok arg O in
        let '(v, endptr, e) := strtol_token arg token None e in
        let t := set_device t (to_int v) in
        if errno_bad e || ptr_eqb token endptr || (device t <? 0) then
          call (fprintf_stderr Err_dtod_first) ;; exit 1
        else
          (* second GPU id *)
          let (token, save) := strtok arg save in
          let '(v, endptr, e) := strtol_token arg token endptr e in
          let t := set_device2 t (to_int v) in
          if errno_bad e || ptr_eqb token endptr || (device2 t <? 0) then
            call (fprintf_stderr Err_dtod_second) ;; exit 1
          else
            (* no further id *)
            let (token, save) := strtok arg save in
            if negb (ptr_eqb token endptr) && not_null token then
              call (fprintf_stderr Err_dtod_extra) ;; exit 1
            else
              let hits := set_transfer hits (store idx t (transfer hits)) in
              let hits := set_n_transfers hits (n_transfers hits + 1) in
              ret (0, {| input := hits; errno := e |})
    end
  else if k =? key "s" then
    let r := strtol arg in
    let hits := set_n_size hits (st_val r) in
    let e := errno_after e r in
    if errno_bad e || (n_iter hits <? 0) then
      call (fprintf_stderr Err_size) ;; exit 1
    else if n_size hits >? N_SIZE_MAX then
      call (fprintf_stderr (Err_size_max N_SIZE_MAX)) ;; exit 1
    else ret (0, {| input := hits; errno := e |})
  else if k =? ARGP_KEY_END then
    if n_transfers hits =? 0 then
      call argp_usage ;; exit EX_USAGE
    else ret (0, state)
  else ret (ARGP_ERR_UNKNOWN, state).

(** The keys of the [options] table. *)
Definition is_option (k : Z) : bool :=
  existsb (Z.eqb k)
    [key "d"; key "h"; key "p"; key "i"; key "n"; key "m"; key "s"].

(** [argp_parse] with flags 0.  [opts] is the command line as argp's parser
    goes through it: the options in their order, then the arguments that are
    no options (argp moves them behind the options).  An item is a key with
    its argument:
    - a key of the [options] table: the option goes to [parse_opt], and argp
      takes it as a program error when [parse_opt] answers
      [ARGP_ERR_UNKNOWN];
    - a key of argp's own options: [-?]/[--help], [--usage] and, since
      [argp_program_version] is set, [-V]/[--version] print on stdout and
      call [exit(0)]; the hidden [--program-name] and [--HANG] change nothing
      that is recorded here;
    - [ARGP_KEY_ARG], an argument that is no option: it goes to [parse_opt]
      as [ARGP_KEY_ARG] and as [ARGP_KEY_ARGS]; [parse_opt] has a case for
      neither and argp has no way to hand the argument back, so it prints
      "Too many arguments" and exits with [argp_err_exit_status], which is
      [EX_USAGE];
    - any other key stands for what the parser rejects, an option that is
      in no table or one without the argument it needs: argp prints the
      error and exits with [EX_USAGE].
    When the command line is through, [parse_opt] gets [ARGP_KEY_END].  (It
    also gets [ARGP_KEY_INIT] first and [ARGP_KEY_NO_ARGS],
    [ARGP_KEY_SUCCESS] and [ARGP_KEY_FINI] at the end; they reach its default
    case, which does nothing.) *)
Fixpoint argp_options (opts : list (Z * string)) (state : argp_state)
    : M argp_state :=
  match opts with
  | [] => ret state
  | (k, arg) :: rest =>
      if is_option k then
        r <- parse_opt k arg state ;;
        if fst r =? ARGP_ERR_UNKNOWN then
          call (argp_print Bad_option) ;; exit EX_USAGE
        else argp_options rest (snd r)
      else if k =? key "?" then call (argp_print Help) ;; exit 0
      else if k =? OPT_USAGE then call (argp_print Usage) ;; exit 0
      else if k =? key "V" then call (argp_print Version) ;; exit 0
      else if (k =? OPT_PROGNAME) || (k =? OPT_HANG) then argp_options rest state
      else if k =? ARGP_KEY_ARG then
        parse_opt ARGP_KEY_ARG arg state ;;
        parse_opt ARGP_KEY_ARGS "" state ;;
        call (argp_print Too_many_arguments) ;; exit EX_USAGE
      else call (argp_print Bad_option) ;; exit EX_USAGE
  end.

Definition argp_parse (opts : list (Z * string)) (hits : Hits_t) : M Hits_t :=
  state <- argp_options opts {| input := hits; errno := 0 |} ;;
  r <- parse_opt ARGP_KEY_END "" state ;;
  ret (input (snd r)).

(** *** Allocation *)

Definition _transfer_init_common (t : Transfer_t) : M Transfer_t :=
  let t := set_numa_node t (-1) in
  let t := set_is_started t false in
  checkHip (hipGetDeviceProperties (device t)) ;;
  let t := set_prop_device t (device_prop P (device t)) in
  t <- (if device2 t >=? 0 then
          checkHip (hipGetDeviceProperties (device2 t)) ;;
          ret (set_prop_device2 t (device_prop P (device2 t)))
        else ret t) ;;
  checkHip (hipSetDevice (device t)) ;;
  e1 <- checkHip hipEventCreate ;;
  let t := set_start t e1 in
  e2 <- checkHip hipEventCreate ;;
  let t := set_stop t e2 in
  s <- checkHip (hipStreamCreateWithFlags hipStreamNonBlocking) ;;
  ret (set_stream t s).

(** The path [set_numa_affinity] prints into [numa_file]. *)
Definition numa_file (prop : hipDeviceProp_t) : string :=
  ("/sys/class/pci_bus/" ++ fmt_0x 4 (pciDomainID prop) ++ ":"
     ++ fmt_0x 2 (pciBusID prop) ++ "/device/numa_node")%string.

Definition set_numa_affinity (t : Transfer_t) : M Transfer_t :=
  let prop := prop_device t in
  file <- call (fopen (numa_file prop)) ;;
  match sysfs P (numa_file prop) with
  | None => ret t
  | Some content =>
      call (fscanf file) ;;
      let (r, v) := fscanf_d content in
      let t := match v with Some n => set_numa_node t n | None => t end in
      call (fclose file) ;;
      if r =? 1 then call (numa_set_preferred (numa_node t)) ;; ret t
      else ret t
  end.

Definition dtoh_transfer_init (t : Transfer_t) (n_bytes alloc_flags : Z)
    : M Transfer_t :=
  t <- _transfer_init_common t ;;
  t <- (if Z.land alloc_flags is_numa_aware =? 0 then ret t
        else set_numa_affinity t) ;;
  p <- (if Z.land alloc_flags is_pinned =? 0 then call (malloc n_bytes)
        else checkHip (hipHostMalloc n_bytes
                         (Z.lor hipHostMallocDefault hipHostMallocNumaUser))) ;;
  let t := set_dest t p in
  assert_not_null (dest t) ;;
  q <- checkHip (hipMalloc n_bytes) ;;
  ret (set_src t q).

Definition htod_transfer_init (t : Transfer_t) (n_bytes alloc_flags : Z)
    : M Transfer_t :=
  t <- _transfer_init_common t ;;
  t <- (if Z.land alloc_flags is_numa_aware =? 0 then ret t
        else set_numa_affinity t) ;;
  p <- (if Z.land alloc_flags is_pinned =? 0 then call (malloc n_bytes)
        else checkHip (hipHostMalloc n_bytes
                         (Z.lor hipHostMallocDefault hipHostMallocNumaUser))) ;;
  let t := set_src t p in
  assert_not_null (src t) ;;
  q <- checkHip (hipMalloc n_bytes) ;;
  ret (set_dest t q).

Definition dtod_transfer_init (t : Transfer_t) (n_bytes : Z) : M Transfer_t :=
  t <- _transfer_init_common t ;;
  (* Ensure peer-to-peer access is possible between the two GPUs *)
  call (hipDeviceCanAccessPeer (device t) (device2 t)) ;;
  let is_access := peer_access P (device t) (device2 t) in
  if is_access =? 0 then
    call (fprintf_stderr (Err_p2p (device t) (device2 t))) ;; exit 1
  else
    checkHip (hipSetDevice (device t)) ;;
    p <- checkHip (hipMalloc n_bytes) ;;
    let t := set_dest t p in
    checkHip (hipDeviceEnablePeerAccess (device2 t) 0) ;;
    checkHip (hipSetDevice (device2 t)) ;;
    q <- checkHip (hipMalloc n_bytes) ;;
    ret (set_src t q).

(** The body of the loop of [transfer_init]. *)
Definition init_one (n_size alloc_flags : Z) (t : Transfer_t) : M Transfer_t :=
  match type t with
  | DTOH => dtoh_transfer_init t (to_size_t n_size) alloc_flags
  | HTOD => htod_transfer_init t (to_size_t n_size) alloc_flags
  | DTOD => dtod_transfer_init t (to_size_t n_size)
  end.

Definition transfer_init (hits : Hits_t) : M Hits_t :=
  (* Initialize all streams and buffers *)
  a <- for_each (fun _ => init_one (n_size hits) (alloc_flags hits))
         (Z.to_nat (n_transfers hits)) (transfer hits) ;;
  ret (set_transfer hits a).

(** [hits] in [init] after "Set defaults", with the array of [argc - 1]
    transfers at [p]. *)
Definition default_hits (p : Handle) (argc : Z) : Hits_t :=
  {| transfer_p := p;
     transfer := repeat (indeterminate P) (Z.to_nat (argc - 1));
     n_transfers := 0;
     n_iter := N_ITER_DEFAULT;
     n_size := N_SIZE_DEFAULT;
     alloc_flags := Z.lor is_numa_aware is_pinned |}.

(** [init]; [opts] is what argp reads from [argv]. *)
Definition init (argc : Z) (opts : list (Z * string)) : M Hits_t :=
  p <- call (malloc (to_size_t (sizeof_Transfer_t P * (argc - 1)))) ;;
  if null_result P p then
    call (fprintf_stderr Err_main_alloc) ;; exit 1
  else
    hits <- argp_parse opts (default_hits p argc) ;;
    transfer_init hits.

(** *** Teardown *)

(** The body of the loop of [fini]. *)
Definition fini_one (alloc_flags : Z) (t : Transfer_t) : M Transfer_t :=
  match type t with
  | DTOH =>
      (if Z.land alloc_flags is_pinned =? 0 then call (free (dest t))
       else checkHip (hipHostFree (dest t))) ;;
      ret t
  | HTOD =>
      (if Z.land alloc_flags is_pinned =? 0 then call (free (src t))
       else checkHip (hipHostFree (src t))) ;;
      ret t
  | DTOD => ret t
  end.

Definition fini (hits : Hits_t) : M unit :=
  (* Free host buffers *)
  for_each (fun _ => fini_one (alloc_flags hits))
    (Z.to_nat (n_transfers hits)) (transfer hits) ;;
  call (free (transfer_p hits)) ;;
  ret tt.

(** *** Issuing *)

Definition direct_transfer (t : Transfer_t) (n_bytes : Z) (is_last_iter : bool)
    : M Transfer_t :=
  checkHip (hipSetDevice (device t)) ;;
  t <- (if is_started t then ret t
        else
          call (printf (Launching_direct (type t) (device t)
                          (pciBusID (prop_device t)))) ;;
          (if numa_node t >=? 0 then
             call (printf (Host_buffer_numa (numa_node t))) ;; ret tt
           else ret tt) ;;
          call (printf Newline) ;;
          checkHip (hipEventRecord (start t) (stream t)) ;;
          ret (set_is_started t true)) ;;
  checkHip (hipMemcpyAsync (dest t) (src t) n_bytes
              (match type t with
               | DTOH => hipMemcpyDeviceToHost
               | _ => hipMemcpyHostToDevice
               end) (stream t)) ;;
  (if is_last_iter then checkHip (hipEventRecord (stop t) (stream t)) ;; ret tt
   else ret tt) ;;
  ret t.

Definition dtod_transfer (t : Transfer_t) (n_bytes : Z) (is_last_iter : bool)
    : M Transfer_t :=
  checkHip (hipSetDevice (device t)) ;;
  t <- (if is_started t then ret t
        else
          call (printf (Launching_p2p (device2 t) (pciBusID (prop_device2 t))
                          (device t) (pciBusID (prop_device t)))) ;;
          checkHip (hipEventRecord (start t) (stream t)) ;;
          ret (set_is_started t true)) ;;
  checkHip (hipMemcpyPeerAsync (dest t) (device t) (src t) (device2 t) n_bytes
              (stream t)) ;;
  (if is_last_iter then checkHip (hipEventRecord (stop t) (stream t)) ;; ret tt
   else ret tt) ;;
  ret t.

(** The body of the inner loop of [main]. *)
Definition issue (n_bytes : Z) (is_last : bool) (t : Transfer_t) : M Transfer_t :=
  match type t with
  | DTOD => dtod_transfer t n_bytes is_last
  | _ => direct_transfer t n_bytes is_last
  end.

(** One pass of the outer loop of [main], at index [i]. *)
Definition issue_round (n_iter n_bytes : Z) (n_transfers : nat) (i : Z)
    (a : list Transfer_t) : M (list Transfer_t) :=
  let is_last := i =? to_size_t (n_iter - 1) in
  for_each (fun _ => issue n_bytes is_last) n_transfers a.

(** [for (size_t i = i0; i < n_iter; i++)], with [count = n_iter - i0] passes
    left. *)
Fixpoint issue_loop (n_iter n_bytes : Z) (n_transfers : nat) (count : nat)
    (i : Z) (a : list Transfer_t) : M (list Transfer_t) :=
  match count with
  | O => ret a
  | S count' =>
      a <- issue_round n_iter n_bytes n_transfers i a ;;
      issue_loop n_iter n_bytes n_transfers count' (i + 1) a
  end.

(** *** Reporting *)

(** [(float)n_bytes / 1E9], stored in a [float]. *)
Definition gbytes_of (n_bytes : Z) : spec_float :=
  f32_of_f64 (f64_div (f64_of_f32 (f32_of_Z n_bytes)) (f64_of_Z 1000000000)).

(** [dt_msec / 1E3], stored in a [float]. *)
Definition sec_of (dt_msec : spec_float) : spec_float :=
  f32_of_f64 (f64_div (f64_of_f32 dt_msec) (f64_of_Z 1000)).

(** [n_gbytes / dt_sec * n_iter], the figure printed before "GB/s". *)
Definition bandwidth (n_gbytes dt_sec : spec_float) (n_iter : Z) : spec_float :=
  f32_mul (f32_div n_gbytes dt_sec) (f32_of_Z n_iter).

Definition report (n_gbytes : spec_float) (n_iter : Z) (i : nat) (t : Transfer_t)
    : M Transfer_t :=
  checkHip (hipSetDevice (device t)) ;;
  k <- checkHip (hipEventElapsedTime (start t) (stop t)) ;;
  let dt_msec := elapsed_msec P k in
  let dt_sec := sec_of dt_msec in
  (if match type t with DTOD => true | _ => false end then
     call (printf (Result_p2p (Z.of_nat i) (device2 t) (pciBusID (prop_device2 t))
                     (device t) (pciBusID (prop_device t))
                     (bandwidth n_gbytes dt_sec n_iter) dt_sec))
   else
     call (printf (Result_direct (Z.of_nat i) (type t) (device t)
                     (pciBusID (prop_device t))
                     (bandwidth n_gbytes dt_sec n_iter) dt_sec))) ;;
  ret t.

Definition synchronize (t : Transfer_t) : M Transfer_t :=
  checkHip (hipSetDevice (device t)) ;;
  checkHip hipDeviceSynchronize ;;
  ret t.

(** [main].  The heartbeat thread only prints dots; its output is not part
    of the calls recorded here. *)
Definition main (argc : Z) (opts : list (Z * string)) : M Z :=
  hits <- init argc opts ;;
  let n_transfers := Z.to_nat (n_transfers hits) in
  let n_iter := to_size_t (n_iter hits) in
  let n_bytes := to_size_t (n_size hits) in
  let n_gbytes := gbytes_of n_bytes in
  (* Starting heartbeat thread *)
  call pthread_create ;;
  (* Start all transfers at the same time *)
  a <- issue_loop n_iter n_bytes n_transfers (Z.to_nat n_iter) 0 (transfer hits) ;;
  (* Synchronize the GPU from each transfer *)
  a <- for_each (fun _ => synchronize) n_transfers a ;;
  call (printf Completed) ;;
  (* Print bandwidth results *)
  a <- for_each (report n_gbytes n_iter) n_transfers a ;;
  fini (set_transfer hits a) ;;
  ret 0.

End Program.

(** ** Reading a run *)

(** The run of a whole program starts with no call made. *)
Definition run {A} (m : M A) : Outcome A := m O.

(** How often the event [h] is recorded in [d]. *)
Definition is_record (h : Handle) (c : Call) : bool :=
  match c with
  | hipEventRecord ev _ => Nat.eqb ev h
  | _ => false
  end.

Definition records (h : Handle) (d : list Call) : nat :=
  length (filter (is_record h) d).

(** Asynchronous copy submissions. *)
Definition is_copy (c : Call) : bool :=
  match c with
  | hipMemcpyAsync _ _ _ _ _ => true
  | hipMemcpyPeerAsync _ _ _ _ _ _ => true
  | _ => false
  end.

(** The copy a transfer submits in one round. *)
Definition copy_call (n_bytes : Z) (t : Transfer_t) : Call :=
  match type t with
  | DTOD => hipMemcpyPeerAsync (dest t) (device t) (src t) (device2 t) n_bytes (stream t)
  | DTOH => hipMemcpyAsync (dest t) (src t) n_bytes hipMemcpyDeviceToHost (stream t)
  | HTOD => hipMemcpyAsync (dest t) (src t) n_bytes hipMemcpyHostToDevice (stream t)
  end.

(** The timing events of the transfers of an array. *)
Definition marks (a : list Transfer_t) : list Handle :=
  flat_map (fun t => [start t; stop t]) a.

(** Buffer allocations: host ([malloc], [hipHostMalloc]) and device
    ([hipMalloc]). *)
Definition is_buffer_alloc (c : Call) : bool :=
  match c with
  | malloc _ | hipHostMalloc _ _ | hipMalloc _ => true
  | _ => false
  end.

Definition is_numa_preference (c : Call) : bool :=
  match c with
  | numa_set_preferred _ => true
  | _ => false
  end.

(** The calls of one [issue] when no runtime call fails. *)
Definition launch_calls (t : Transfer_t) : list Call :=
  match type t with
  | DTOD => [printf (Launching_p2p (device2 t) (pciBusID (prop_device2 t))
                       (device t) (pciBusID (prop_device t)))]
  | _ => printf (Launching_direct (type t) (device t) (pciBusID (prop_device t)))
         :: (if numa_node t >=? 0 then [printf (Host_buffer_numa (numa_node t))]
             else [])
         ++ [printf Newline]
  end.

Definition issue_calls (n_bytes : Z) (is_last : bool) (t : Transfer_t) : list Call :=
  hipSetDevice (device t)
  :: (if is_started t then []
      else launch_calls t ++ [hipEventRecord (start t) (stream t)])
  ++ copy_call n_bytes t
  :: (if is_last then [hipEventRecord (stop t) (stream t)] else []).

(** The pure counterparts of [for_from]: the cells rewritten and the calls
    made when every body returns. *)
Fixpoint map_from (f : nat -> Transfer_t -> Transfer_t) (i0 n : nat)
    (a : list Transfer_t) : list Transfer_t :=
  match n, a with
  | S n', t :: rest => f i0 t :: map_from f (S i0) n' rest
  | _, _ => a
  end.

Fixpoint calls_from (g : nat -> Transfer_t -> list Call) (i0 n : nat)
    (a : list Transfer_t) : list Call :=
  match n, a with
  | S n', t :: rest => g i0 t ++ calls_from g (S i0) n' rest
  | _, _ => []
  end.

(** A transfer after its first [issue]. *)
Definition mark_started (t : Transfer_t) : Transfer_t :=
  if is_started t then t else set_is_started t true.

(** The calls of one round and of the rounds [i], [i+1], ... when no runtime
    call fails. *)
Definition round_calls (n_iter n_bytes : Z) (n_transfers : nat) (i : Z)
    (a : list Transfer_t) : list Call :=
  calls_from (fun _ => issue_calls n_bytes (i =? to_size_t (n_iter - 1)))
    O n_transfers a.

Fixpoint loop_calls (n_iter n_bytes : Z) (n_transfers : nat) (count : nat)
    (i : Z) (a : list Transfer_t) : list Call :=
  match count with
  | O => []
  | S count' =>
      round_calls n_iter n_bytes n_transfers i a
      ++ loop_calls n_iter n_bytes n_transfers count' (i + 1)
           (map_from (fun _ => mark_started) O n_transfers a)
  end.

(** The transfer array at the start of round [k]. *)
Definition array_at (n_transfers : nat) (k : nat) (a : list Transfer_t)
    : list Transfer_t :=
  match k with
  | O => a
  | S _ => map_from (fun _ => mark_started) O n_transfers a
  end.

(** Every call a computation makes, from any position and whatever the
    outcome, satisfies [Q]. *)
Definition emits (Q : Call -> Prop) {A} (m : M A) : Prop :=
  forall pos, Forall Q (calls (m pos)).

(** What holds of the parser state between two options. *)
Definition parse_inv (state : argp_state) : Prop :=
  errno_bad (errno state) = false /\
  0 <= n_iter (input state) <= LONG_MAX /\
  0 <= n_transfers (input state).

(** The calls [init] can make. *)
Definition init_call (c : Call) : bool :=
  match c with
  | malloc _ | fprintf_stderr _ | argp_usage | argp_print _
  | hipGetDeviceProperties _ | hipSetDevice _ | hipEventCreate
  | hipStreamCreateWithFlags _ | fopen _ | fscanf _ | fclose _
  | numa_set_preferred _ | hipHostMalloc _ _ | hipMalloc _
  | hipDeviceCanAccessPeer _ _ | hipDeviceEnablePeerAccess _ _ => true
  | _ => false
  end.

(** The calls [main] can make after the issue loop. *)
Definition late_call (c : Call) : bool :=
  match c with
  | hipSetDevice _ | hipDeviceSynchronize | printf _ | fprintf_stderr _
  | hipEventElapsedTime _ _ | hipHostFree _ | free _ => true
  | _ => false
  end.

(** The calls of the issue loop. *)
Definition issue_call (c : Call) : bool :=
  match c with
  | hipSetDevice _ | printf _ | fprintf_stderr _ | hipEventRecord _ _
  | hipMemcpyAsync _ _ _ _ _ | hipMemcpyPeerAsync _ _ _ _ _ _ => true
  | _ => false
  end.

(** Releases of device buffers, streams and events. *)
Definition is_device_release (c : Call) : bool :=
  match c with
  | hipFree _ | hipStreamDestroy _ | hipEventDestroy _ => true
  | _ => false
  end.

(** ** A machine for the examples

    Two devices that can reach each other, no readable NUMA file, no failing
    call; every measured interval is 2000 ms. *)
Definition blank_transfer : Transfer_t :=
  {| start := O; stop := O; device := 0; device2 := 0; dest := O; src := O;
     stream := O; type := HTOD; numa_node := 0; is_started := false;
     prop_device := {| pciDomainID := 0; pciBusID := 0 |};
     prop_device2 := {| pciDomainID := 0; pciBusID := 0 |} |}.

Definition two_gpus : Platform :=
  {| hip_ret := fun _ => hipSuccess;
     null_result := fun _ => false;
     device_prop := fun d => {| pciDomainID := 0; pciBusID := 195 + d |};
     peer_access := fun _ _ => 1;
     sysfs := fun _ => None;
     elapsed_msec := fun _ => f32_of_Z 2000;
     sizeof_Transfer_t := 1552;
     indeterminate := blank_transfer |}.

(** The same machine without peer access between its devices. *)
Definition no_peer_access : Platform :=
  {| hip_ret := hip_ret two_gpus;
     null_result := null_result two_gpus;
     device_prop := device_prop two_gpus;
     peer_access := fun _ _ => 0;
     sysfs := sysfs two_gpus;
     elapsed_msec := elapsed_msec two_gpus;
     sizeof_Transfer_t := sizeof_Transfer_t two_gpus;
     indeterminate := indeterminate two_gpus |}.

(** The same machine with NUMA files that hold [content]. *)
Definition with_numa_files (content : string) : Platform :=
  {| hip_ret := hip_ret two_gpus;
     null_result := null_result two_gpus;
     device_prop := device_prop two_gpus;
     peer_access := peer_access two_gpus;
     sysfs := fun _ => Some content;
     elapsed_msec := elapsed_msec two_gpus;
     sizeof_Transfer_t := sizeof_Transfer_t two_gpus;
     indeterminate := indeterminate two_gpus |}.

(** Command lines: [--htod=0 --iter=3 --size=1024], the same with
    [--iter=0], and [--dtod=1,0]. *)
Definition argv_htod : list (Z * string) :=
  [(key "h", "0"%string); (key "i", "3"%string); (key "s", "1024"%string)].
Definition argv_htod_iter0 : list (Z * string) :=
  [(key "h", "0"%string); (key "i", "0"%string); (key "s", "1024"%string)].
Definition argv_dtod : list (Z * string) :=
  [(key "p", "1,0"%string)].

(** [--htod=0 --iter=10 --size=1000000000]: 10 rounds of 10^9 bytes. *)
Definition argv_billion : list (Z * string) :=
  [(key "h", "0"%string); (key "i", "10"%string); (key "s", "1000000000"%string)].

(** The transfer [init] builds for [--htod=0] on [two_gpus]. *)
Definition htod0 : Transfer_t :=
  {| start := 3%nat; stop := 4%nat; device := 0; device2 := -1;
     dest := 8%nat; src := 7%nat; stream := 5%nat; type := HTOD; numa_node := -1; is_started := false;
     prop_device := {| pciDomainID := 0; pciBusID := 195 |};
     prop_device2 := {| pciDomainID := 0; pciBusID := 0 |} |}.

(** The calls of [_transfer_init_common]. *)
Definition common_call (c : Call) : bool :=
  match c with
  | hipGetDeviceProperties _ | hipSetDevice _ | hipEventCreate
  | hipStreamCreateWithFlags _ | fprintf_stderr _ => true
  | _ => false
  end.

(** The host allocation of a direct transfer: pinned or pageable. *)
Definition host_alloc_call (alloc_flags n_bytes : Z) : Call :=
  if Z.land alloc_flags is_pinned =? 0 then malloc n_bytes
  else hipHostMalloc n_bytes (Z.lor hipHostMallocDefault hipHostMallocNumaUser).

(** A NUMA file as sysfs prints it for a device without locality. *)
Definition minus_one_line : string :=
  String "-" (String "1" (String (ascii_of_nat 10) EmptyString)).

(** The command line [--htod=0 --size=-5]. *)
Definition argv_negative_size : list (Z * string) :=
  [(key "h", "0"%string); (key "s", "-5"%string)].

(** ** Resources

    What a call acquires, named by the position [k] of the call, and what a
    call releases. *)
Inductive Resource :=
  | HostBuffer (h : Handle)      (* malloc / free *)
  | PinnedBuffer (h : Handle)    (* hipHostMalloc / hipHostFree *)
  | DeviceBuffer (h : Handle)    (* hipMalloc / hipFree *)
  | Stream (h : Handle)          (* hipStreamCreateWithFlags / hipStreamDestroy *)
  | TimingEvent (h : Handle).    (* hipEventCreate / hipEventDestroy *)

Definition acquires (k : nat) (c : Call) : option Resource :=
  match c with
  | malloc _ => Some (HostBuffer k)
  | hipHostMalloc _ _ => Some (PinnedBuffer k)
  | hipMalloc _ => Some (DeviceBuffer k)
  | hipStreamCreateWithFlags _ => Some (Stream k)
  | hipEventCreate => Some (TimingEvent k)
  | _ => None
  end.

Definition releases (c : Call) : option Resource :=
  match c with
  | free p => Some (HostBuffer p)
  | hipHostFree p => Some (PinnedBuffer p)
  | hipFree p => Some (DeviceBuffer p)
  | hipStreamDestroy s => Some (Stream s)
  | hipEventDestroy e => Some (TimingEvent e)
  | _ => None
  end.

Definition option_list {A} (o : option A) : list A :=
  match o with Some a => [a] | None => [] end.

(** The resources acquired by the calls [d], the first of which is at
    position [k], and the resources released by [d], in order. *)
Fixpoint acquired (k : nat) (d : list Call) : list Resource :=
  match d with
  | [] => []
  | c :: rest => option_list (acquires k c) ++ acquired (S k) rest
  end.

Definition released (d : list Call) : list Resource :=
  flat_map (fun c => option_list (releases c)) d.

Definition Resource_eqb (r1 r2 : Resource) : bool :=
  match r1, r2 with
  | HostBuffer a, HostBuffer b => Nat.eqb a b
  | PinnedBuffer a, PinnedBuffer b => Nat.eqb a b
  | DeviceBuffer a, DeviceBuffer b => Nat.eqb a b
  | Stream a, Stream b => Nat.eqb a b
  | TimingEvent a, TimingEvent b => Nat.eqb a b
  | _, _ => false
  end.

(** Every resource acquired in the run [d] is released in it. *)
Definition all_released (d : list Call) : bool :=
  forallb (fun r => existsb (Resource_eqb r) (released d)) (acquired O d).

Definition is_direct (t : Transfer_t) : bool :=
  match type t with DTOD => false | _ => true end.

(** The host buffer of a direct transfer. *)
Definition host_buffer (alloc_flags : Z) (t : Transfer_t) : Resource :=
  let h := match type t with HTOD => src t | _ => dest t end in
  if Z.land alloc_flags is_pinned =? 0 then HostBuffer h else PinnedBuffer h.

(** The resources of a transfer, in the order of their allocation. *)
Definition resources_of (alloc_flags : Z) (t : Transfer_t) : list Resource :=
  [TimingEvent (start t); TimingEvent (stop t); Stream (stream t)]
  ++ match type t with
     | HTOD => [host_buffer alloc_flags t; DeviceBuffer (dest t)]
     | DTOH => [host_buffer alloc_flags t; DeviceBuffer (src t)]
     | DTOD => [DeviceBuffer (dest t); DeviceBuffer (src t)]
     end.

(** The calls of the synchronisation and of the reports. *)
Definition report_call (c : Call) : bool :=
  match c with
  | hipSetDevice _ | hipDeviceSynchronize | printf _ | fprintf_stderr _
  | hipEventElapsedTime _ _ => true
  | _ => false
  end.

(** The calls of one pass of the loop of [fini] that returns. *)
Definition fini_calls (alloc_flags : Z) (t : Transfer_t) : list Call :=
  match type t with
  | DTOH => [if Z.land alloc_flags is_pinned =? 0 then free (dest t)
             else hipHostFree (dest t)]
  | HTOD => [if Z.land alloc_flags is_pinned =? 0 then free (src t)
             else hipHostFree (src t)]
  | DTOD => []
  end.

(** ** The bandwidth figure *)

(** The figure of a result line, the value printed before "GB/s". *)
Definition figure (m : Message) : option spec_float :=
  match m with
  | Result_p2p _ _ _ _ _ gbs _ => Some gbs
  | Result_direct _ _ _ _ gbs _ => Some gbs
  | _ => None
  end.

(** The bandwidth of the specification, in bytes per second:
    [bytes_total / elapsed] with [bytes_total = size_per_iteration * n_iter],
    for an interval of [elapsed] seconds. *)
Definition spec_bandwidth (size_per_iteration n_iter : Z) (elapsed : Q) : Q :=
  (inject_Z (size_per_iteration * n_iter) / elapsed)%Q.

(** A computation that returns from every position. *)
Definition returns {A} (m : M A) : Prop :=
  forall pos, exists a d, m pos = Ret a d.

(** A machine on which no runtime call fails, no allocation gives NULL and
    every device can access every other. *)
Definition well_behaved (P : Platform) : Prop :=
  (forall k, hip_ret P k = hipSuccess) /\
  (forall k, null_result P k = false) /\
  (forall dev peer, peer_access P dev peer <> 0).

(** ** Staying inside the transfer array *)

(** The transfer an option adds: [--dtoh], [--htod], [--dtod]. *)
Definition type_of_key (k : Z) : option TransferType_t :=
  if k =? key "d" then Some DTOH
  else if k =? key "h" then Some HTOD
  else if k =? key "p" then Some DTOD
  else None.

Definition is_transfer_key (k : Z) : bool :=
  match type_of_key k with Some _ => true | None => false end.

(** The transfers a command line asks for, in its order. *)
Definition requested (opts : list (Z * string)) : list TransferType_t :=
  flat_map (fun o => option_list (type_of_key (fst o))) opts.

(** A computation that never leaves the transfer array. *)
Definition in_bounds {A} (m : M A) : Prop :=
  forall pos d, m pos <> Halt Undefined d.

(** How the parsing can stop on an item that adds no transfer: with what
    argp prints for [--help], [--usage] or [--version] and code 0; with the
    usage message of [argp_usage], or with what argp prints for a command
    line it rejects, and [EX_USAGE]; or with an error message about [--iter]
    or [--size] and code 1. *)
Definition quiet_stop (s : Stop) (d : list Call) : Prop :=
  (s = Exit 0 /\
   exists text, d = [argp_print text] /\
                (text = Help \/ text = Usage \/ text = Version)) \/
  (s = Exit EX_USAGE /\
   (d = [argp_usage] \/
    exists text, d = [argp_print text] /\
                 (text = Bad_option \/ text = Too_many_arguments))) \/
  (s = Exit 1 /\
   exists m, d = [fprintf_stderr m] /\
             (m = Err_iter \/ m = Err_size \/ m = Err_size_max N_SIZE_MAX)).

(** ** Failing runtime calls *)

(** The runtime calls [hits.c] wraps in [checkHip]: all it makes but
    [hipDeviceCanAccessPeer]. *)
Definition is_checked (c : Call) : bool :=
  match c with
  | hipGetDeviceProperties _ | hipSetDevice _ | hipEventCreate
  | hipStreamCreateWithFlags _ | hipHostMalloc _ _ | hipMalloc _
  | hipDeviceEnablePeerAccess _ _ | hipEventRecord _ _
  | hipMemcpyAsync _ _ _ _ _ | hipMemcpyPeerAsync _ _ _ _ _ _
  | hipDeviceSynchronize | hipEventElapsedTime _ _ | hipHostFree _ => true
  | _ => false
  end.

(** The position of the first of these calls, in [d] starting at position
    [pos], that the runtime answers with a status other than [hipSuccess]. *)
Fixpoint first_failure (P : Platform) (pos : nat) (d : list Call) : option nat :=
  match d with
  | [] => None
  | c :: rest =>
      if is_checked c && negb (hip_ret P pos =? hipSuccess) then Some pos
      else first_failure P (S pos) rest
  end.

(** A computation that stops at the first failing call, after the message
    of [assertHip], with the status as exit code. *)
Definition fail_stop (P : Platform) {A} (m : M A) : Prop :=
  forall pos,
    match first_failure P pos (calls (m pos)) with
    | None => True
    | Some k =>
        m pos = Halt (Exit (hip_ret P k))
                  (firstn (S (k - pos)) (calls (m pos))
                   ++ [fprintf_stderr (CheckHip (hip_ret P k))])
    end.

(** ** How a run stops *)

(** The last call before [exit(code)]: what argp prints for [--help],
    [--usage] or [--version] with 0, the usage message of [argp_usage] or
    what argp prints for a command line it rejects with [EX_USAGE], the
    message of [assertHip] with the status of the runtime call, any other
    error message with 1. *)
Definition exit_message (code : Z) (c : Call) : bool :=
  match c with
  | argp_print (Help | Usage | Version) => code =? 0
  | argp_print (Bad_option | Too_many_arguments) => code =? EX_USAGE
  | argp_usage => code =? EX_USAGE
  | fprintf_stderr (CheckHip k) => (code =? k) && negb (k =? hipSuccess)
  | fprintf_stderr _ => code =? 1
  | _ => false
  end.

(** Allocations of host memory. *)
Definition is_host_alloc (c : Call) : bool :=
  match c with
  | malloc _ | hipHostMalloc _ _ => true
  | _ => false
  end.

(** What the calls [d], made from position [pos], say about the stop [s]
    they end in. *)
Definition stop_explained (P : Platform) (pos : nat) (s : Stop) (d : list Call)
    : Prop :=
  match s with
  | Exit code => exists d' c, d = d' ++ [c] /\ exit_message code c = true
  | Abort =>
      exists d' c,
        d = d' ++ [c] /\ is_host_alloc c = true /\
        null_result P (pos + length d') = true
  | Undefined => True
  end.

Definition explained (P : Platform) {A} (m : M A) : Prop :=
  forall pos s d, m pos = Halt s d -> stop_explained P pos s d.

(** [two_gpus] with a runtime call that fails: the one at position [k]
    returns [code]. *)
Definition failing_at (k : nat) (code : Z) : Platform :=
  {| hip_ret := fun j => if Nat.eqb j k then code else hipSuccess;
     null_result := null_result two_gpus;
     device_prop := device_prop two_gpus;
     peer_access := peer_access two_gpus;
     sysfs := sysfs two_gpus;
     elapsed_msec := elapsed_msec two_gpus;
     sizeof_Transfer_t := sizeof_Transfer_t two_gpus;
     indeterminate := indeterminate two_gpus |}.

(** [two_gpus] with an allocation that gives NULL: the one at position [k]. *)
Definition null_at (k : nat) : Platform :=
  {| hip_ret := hip_ret two_gpus;
     null_result := fun j => Nat.eqb j k;
     device_prop := device_prop two_gpus;
     peer_access := peer_access two_gpus;
     sysfs := sysfs two_gpus;
     elapsed_msec := elapsed_msec two_gpus;
     sizeof_Transfer_t := sizeof_Transfer_t two_gpus;
     indeterminate := indeterminate two_gpus |}.

Definition hipErrorOutOfMemory : Z := 2.

(** What a transfer of the array says about its devices: a device id is not
    negative, and a second device is there for a device-to-device transfer
    only. *)
Definition devices_set (t : Transfer_t) : Prop :=
  0 <= device t /\
  match type t with
  | DTOD => 0 <= device2 t
  | _ => device2 t = -1
  end.

(** Whether an option of key [k] is on the command line. *)
Definition has_key (k : Z) (opts : list (Z * string)) : bool :=
  existsb (fun o => fst o =? k) opts.

(** Calls about pinned host memory, and the calls of the NUMA lookup. *)
Definition is_pinned_call (c : Call) : bool :=
  match c with
  | hipHostMalloc _ _ | hipHostFree _ => true
  | _ => false
  end.

Definition is_numa_call (c : Call) : bool :=
  match c with
  | fopen _ | fscanf _ | fclose _ | numa_set_preferred _ => true
  | _ => false
  end.

(** ** Allocation, call by call *)

(** The calls of [_transfer_init_common] when no runtime call fails. *)
Definition common_calls (t : Transfer_t) : list Call :=
  hipGetDeviceProperties (device t)
  :: (if device2 t >=? 0 then [hipGetDeviceProperties (device2 t)] else [])
  ++ [hipSetDevice (device t); hipEventCreate; hipEventCreate;
      hipStreamCreateWithFlags hipStreamNonBlocking].

(** The calls of the allocation of a device-to-device transfer after
    [_transfer_init_common], when the devices have peer access and no
    runtime call fails. *)
Definition peer_calls (n_bytes : Z) (t : Transfer_t) : list Call :=
  [hipDeviceCanAccessPeer (device t) (device2 t);
   hipSetDevice (device t); hipMalloc n_bytes;
   hipDeviceEnablePeerAccess (device2 t) 0;
   hipSetDevice (device2 t); hipMalloc n_bytes].

(** ** Buffers and copies *)

Inductive Place := Host | Device.

(** The buffer a handle names in the run [d]: where it is and its size in
    bytes. *)
Definition buffer_of (d : list Call) (h : Handle) : option (Place * Z) :=
  match nth_error d h with
  | Some (malloc n) | Some (hipHostMalloc n _) => Some (Host, n)
  | Some (hipMalloc n) => Some (Device, n)
  | _ => None
  end.

(** The copy [c], at position [k] of the run [d], is between two buffers
    allocated before it in the run, each of the size of the copy, of the
    places the direction of the copy says. *)
Definition copy_fits (d : list Call) (k : nat) (c : Call) : Prop :=
  match c with
  | hipMemcpyAsync dst from n hipMemcpyHostToDevice _ =>
      (from < k)%nat /\ (dst < k)%nat /\ dst <> from /\
      buffer_of d from = Some (Host, n) /\ buffer_of d dst = Some (Device, n)
  | hipMemcpyAsync dst from n hipMemcpyDeviceToHost _ =>
      (from < k)%nat /\ (dst < k)%nat /\ dst <> from /\
      buffer_of d from = Some (Device, n) /\ buffer_of d dst = Some (Host, n)
  | hipMemcpyPeerAsync dst _ from _ n _ =>
      (from < k)%nat /\ (dst < k)%nat /\ dst <> from /\
      buffer_of d from = Some (Device, n) /\ buffer_of d dst = Some (Device, n)
  | _ => True
  end.

(** ** Streams *)

(** The calls that put work on the stream [s]: event records and copies. *)
Definition on_stream (s : Handle) (c : Call) : bool :=
  match c with
  | hipEventRecord _ s' => Nat.eqb s' s
  | hipMemcpyAsync _ _ _ _ s' => Nat.eqb s' s
  | hipMemcpyPeerAsync _ _ _ _ _ s' => Nat.eqb s' s
  | _ => false
  end.

(** ** The current device *)

(** The current device after the calls [d], when it was [cur] before them:
    the device of the last [hipSetDevice]. *)
Fixpoint device_after (cur : option Z) (d : list Call) : option Z :=
  match d with
  | [] => cur
  | hipSetDevice v :: rest => device_after (Some v) rest
  | _ :: rest => device_after cur rest
  end.

(** The current device when the call at position [k] of the run [d] is made;
    for a handle, the current device when it was created. *)
Definition current_device (d : list Call) (k : nat) : option Z :=
  device_after None (firstn k d).

(** Every call of [d] with the device that is current when it is made. *)
Fixpoint trace_devices (cur : option Z) (d : list Call) : list (option Z * Call) :=
  match d with
  | [] => []
  | c :: rest =>
      (cur, c) :: trace_devices (device_after cur [c]) rest
  end.

(** The call [c], made in the run [d] while [cur] is the current device,
    only uses what was created on the current device: the stream and the
    events of a record, the stream and the device buffer of a copy between
    host and device; a peer copy is made on the device of its destination
    buffer, names that device for the destination, and names for the source
    the device its buffer was allocated on. *)
Definition device_fits (d : list Call) (cur : option Z) (c : Call) : Prop :=
  match c with
  | hipEventRecord ev s =>
      cur <> None /\ current_device d ev = cur /\ current_device d s = cur
  | hipMemcpyAsync dst from _ hipMemcpyHostToDevice s =>
      cur <> None /\ current_device d s = cur /\ current_device d dst = cur
  | hipMemcpyAsync dst from _ hipMemcpyDeviceToHost s =>
      cur <> None /\ current_device d s = cur /\ current_device d from = cur
  | hipMemcpyPeerAsync dst dst_dev from from_dev _ s =>
      cur = Some dst_dev /\ current_device d s = Some dst_dev /\
      current_device d dst = Some dst_dev /\
      current_device d from = Some from_dev
  | _ => True
  end.

Definition is_set_device (c : Call) : bool :=
  match c with hipSetDevice _ => true | _ => false end.

(** Calls that name a stream. *)
Definition uses_stream (c : Call) : bool :=
  match c with
  | hipEventRecord _ _ | hipMemcpyAsync _ _ _ _ _
  | hipMemcpyPeerAsync _ _ _ _ _ _ => true
  | _ => false
  end.

(** The devices on which what a transfer holds was created. *)
Definition created_on_devices (d : list Call) (t : Transfer_t) : Prop :=
  current_device d (start t) = Some (device t) /\
  current_device d (stop t) = Some (device t) /\
  current_device d (stream t) = Some (device t) /\
  match type t with
  | HTOD => current_device d (dest t) = Some (device t)
  | DTOH => current_device d (src t) = Some (device t)
  | DTOD => current_device d (dest t) = Some (device t) /\
            current_device d (src t) = Some (device2 t)
  end.

(** ** Decimal arguments *)

(** The string of a decimal numeral, and the number it stands for. *)
Definition decimal (u : Decimal.uint) : string :=
  DecimalString.NilEmpty.string_of_uint u.

Definition value_of (u : Decimal.uint) : Z := Z.of_nat (Nat.of_uint u).

(** A string that does not go on with a digit. *)
Definition no_digit_ahead (s : string) : Prop :=
  match s with
  | EmptyString => True
  | String c _ => digit_of c = None
  end.

(** What may follow an id in the argument of [--dtod]: the end, or a comma
    and the rest. *)
Definition id_end (rest : string) : Prop :=
  rest = EmptyString \/ exists r, rest = String "," r.

(** A string that starts with no number: it is empty, or its first
    character is neither white space, nor a sign, nor a digit. *)
Definition no_number (s : string) : Prop :=
  match s with
  | EmptyString => True
  | String c _ =>
      isspace c = false /\ c <> "-"%char /\ c <> "+"%char /\ digit_of c = None
  end.

(** ** NUMA files *)

(** Where [set_numa_affinity] is with the file it reads. *)
Inductive FileState :=
  | Closed
  | Opened (file : Handle)      (* after a successful [fopen] *)
  | Scanned (file : Handle).    (* after the [fscanf] on it *)

(** The state after the calls [d], the first of which is at position
    [pos]; [None] when a call does not fit the state: an [fscanf] or [fclose]
    on a file that is not the open one, or out of turn, or any other call
    while a file is open. *)
Fixpoint files_run (P : Platform) (st : FileState) (pos : nat) (d : list Call)
    : option FileState :=
  match d with
  | [] => Some st
  | c :: rest =>
      match st, c with
      | Closed, fopen path =>
          files_run P (match sysfs P path with
                       | Some _ => Opened pos
                       | None => Closed
                       end) (S pos) rest
      | Closed, (fscanf _ | fclose _) => None
      | Closed, _ => files_run P Closed (S pos) rest
      | Opened f, fscanf f' =>
          if Nat.eqb f f' then files_run P (Scanned f) (S pos) rest else None
      | Scanned f, fclose f' =>
          if Nat.eqb f f' then files_run P Closed (S pos) rest else None
      | _, _ => None
      end
  end.

(** A computation that leaves no file open, from any position and whatever
    the outcome. *)
Definition closes_files (P : Platform) {A} (m : M A) : Prop :=
  forall pos, files_run P Closed pos (calls (m pos)) = Some Closed.

Definition PATH_MAX : Z := 4096.

(** ** After the loop *)

(** The calls of the synchronisation of one transfer. *)
Definition sync_calls (t : Transfer_t) : list Call :=
  [hipSetDevice (device t); hipDeviceSynchronize].

(** What a result line says about its transfer: the index, whether it is
    the line of a peer transfer, and the device. *)
Definition result_of (c : Call) : option (Z * bool * Z) :=
  match c with
  | printf (Result_p2p i _ _ dev _ _ _) => Some (i, true, dev)
  | printf (Result_direct i _ dev _ _ _) => Some (i, false, dev)
  | _ => None
  end.

Definition results (d : list Call) : list (Z * bool * Z) :=
  flat_map (fun c => option_list (result_of c)) d.

(** The result line expected for the transfer [t] of index [i]. *)
Definition expected_result (i : nat) (t : Transfer_t) : Z * bool * Z :=
  (Z.of_nat i, match type t with DTOD => true | _ => false end, device t).

Fixpoint expected_results (i : nat) (a : list Transfer_t) : list (Z * bool * Z) :=
  match a with
  | [] => []
  | t :: rest => expected_result i t :: expected_results (S i) rest
  end.

(** ** Fresh cells *)

(** The machine [P] with other contents in freshly allocated cells. *)
Definition with_indeterminate (P : Platform) (t : Transfer_t) : Platform :=
  {| hip_ret := hip_ret P;
     null_result := null_result P;
     device_prop := device_prop P;
     peer_access := peer_access P;
     sysfs := sysfs P;
     elapsed_msec := elapsed_msec P;
     sizeof_Transfer_t := sizeof_Transfer_t P;
     indeterminate := t |}.

(** Two outcomes with the same stop or return, the same calls, and values
    related by [R]. *)
Definition same_run {A} (R : A -> A -> Prop) (o o' : Outcome A) : Prop :=
  match o, o' with
  | Ret a d, Ret a' d' => d = d' /\ R a a'
  | Halt s d, Halt s' d' => s = s' /\ d = d'
  | _, _ => False
  end.

Definition alike {A} (R : A -> A -> Prop) (m m' : M A) : Prop :=
  forall pos, same_run R (m pos) (m' pos).

(** Two cells with the same fields written by [parse_opt]: the type and the
    devices. *)
Definition assigned (t t' : Transfer_t) : Prop :=
  type t = type t' /\ device t = device t' /\ device2 t = device2 t' /\
  (type t = DTOD -> 0 <= device2 t).

(** Two cells with the same fields written by [parse_opt] and
    [_transfer_init_common]: all but the buffers, and but the properties of
    the second device of a direct transfer. *)
Definition prepared (t t' : Transfer_t) : Prop :=
  start t = start t' /\ stop t = stop t' /\ device t = device t' /\
  device2 t = device2 t' /\ stream t = stream t' /\ type t = type t' /\
  numa_node t = numa_node t' /\ is_started t = is_started t' /\
  prop_device t = prop_device t' /\
  (type t = DTOD -> prop_device2 t = prop_device2 t').

(** Two cells with the same fields written by the allocation: all but the
    properties of the second device of a direct transfer. *)
Definition allocated (t t' : Transfer_t) : Prop :=
  prepared t t' /\ dest t = dest t' /\ src t = src t'.

(** Two arrays whose first [n] cells are related by [R]. *)
Definition alike_cells (R : Transfer_t -> Transfer_t -> Prop) (n : nat)
    (a a' : list Transfer_t) : Prop :=
  length a = length a' /\ Forall2 R (firstn n a) (firstn n a').

(** Two [Hits_t] that differ in what their cells hold only. *)
Definition alike_hits (R : Transfer_t -> Transfer_t -> Prop) (h h' : Hits_t)
    : Prop :=
  transfer_p h = transfer_p h' /\ n_transfers h = n_transfers h' /\
  n_iter h = n_iter h' /\ n_size h = n_size h' /\
  alloc_flags h = alloc_flags h' /\ 0 <= n_transfers h /\
  alike_cells R (Z.to_nat (n_transfers h)) (transfer h) (transfer h').

Definition alike_state (R : Transfer_t -> Transfer_t -> Prop)
    (s s' : argp_state) : Prop :=
  errno s = errno s' /\ alike_hits R (input s) (input s').

(** Two cells with the same fields written before the events and the stream
    are created. *)
Definition described (t t' : Transfer_t) : Prop :=
  device t = device t' /\ device2 t = device2 t' /\ type t = type t' /\
  numa_node t = numa_node t' /\ is_started t = is_started t' /\
  prop_device t = prop_device t' /\
  (type t = DTOD -> prop_device2 t = prop_device2 t').

(** ** Facts about computations *)

Lemma bind_Ret {A B} (m : M A) (f : A -> M B) pos b d :
  bind m f pos = Ret b d ->
  exists a d1 d2,
    m pos = Ret a d1 /\ f a (pos + length d1)%nat = Ret b d2 /\ d = d1 ++ d2.
Proof.
  unfold bind. destruct (m pos) as [a d1|s d1]; [|discriminate].
  destruct (f a (pos + length d1)%nat) as [b' d2|s d2] eqn:E; [|discriminate].
  intros H. inversion H; subst. exists a, d1, d2. auto.
Qed.

Lemma bind_run {A B} (m : M A) (f : A -> M B) pos a d1 :
  m pos = Ret a d1 ->
  bind m f pos =
    match f a (pos + length d1)%nat with
    | Ret b d2 => Ret b (d1 ++ d2)
    | Halt s d2 => Halt s (d1 ++ d2)
    end.
Proof. intros H. unfold bind. now rewrite H. Qed.

Lemma bind_stop {A B} (m : M A) (f : A -> M B) pos s d :
  m pos = Halt s d -> bind m f pos = Halt s d.
Proof. intros H. unfold bind. now rewrite H. Qed.

Lemma ret_Ret {A} (a b : A) pos d : ret a pos = Ret b d -> b = a /\ d = [].
Proof. unfold ret. intros H. now inversion H. Qed.

Lemma call_Ret c pos k d : call c pos = Ret k d -> k = pos /\ d = [c].
Proof. unfold call. intros H. now inversion H. Qed.

Section Facts.

Variable P : Platform.

Lemma assertHip_Ret code pos u d :
  assertHip code pos = Ret u d -> code = hipSuccess /\ d = [].
Proof.
  unfold assertHip. destruct (code =? hipSuccess) eqn:E.
  - intros H. apply ret_Ret in H. split; [now apply Z.eqb_eq|tauto].
  - unfold bind, call, exit, halt. simpl. discriminate.
Qed.

Lemma checkHip_Ret c pos k d :
  checkHip P c pos = Ret k d ->
  k = pos /\ d = [c] /\ hip_ret P pos = hipSuccess.
Proof.
  unfold checkHip. intros H.
  apply bind_Ret in H as (k0 & d1 & d2 & H1 & H2 & ->).
  apply call_Ret in H1 as [-> ->].
  apply bind_Ret in H2 as (u & d3 & d4 & H3 & H4 & ->).
  apply assertHip_Ret in H3 as [H3 ->].
  apply ret_Ret in H4 as [-> ->]. auto.
Qed.

Lemma assert_not_null_Ret p pos u d :
  assert_not_null P p pos = Ret u d -> null_result P p = false /\ d = [].
Proof.
  unfold assert_not_null. destruct (null_result P p); [discriminate|].
  intros H. now apply ret_Ret in H.
Qed.

Lemma checkHip_ok c pos :
  hip_ret P pos = hipSuccess -> checkHip P c pos = Ret pos [c].
Proof.
  intros H. unfold checkHip, bind, call, assertHip. rewrite H. reflexivity.
Qed.

Lemma checkHip_fail c pos :
  hip_ret P pos <> hipSuccess ->
  checkHip P c pos =
    Halt (Exit (hip_ret P pos)) [c; fprintf_stderr (CheckHip (hip_ret P pos))].
Proof.
  intros H. unfold checkHip, bind, call, assertHip.
  apply Z.eqb_neq in H. rewrite H. reflexivity.
Qed.

End Facts.

(** Inversion of a run that returned, one step at a time. *)
Ltac step_ret :=
  match goal with
  | H : bind _ _ _ = Ret _ _ |- _ =>
      apply bind_Ret in H; destruct H as (? & ? & ? & ? & ? & ?)
  | H : ret _ _ = Ret _ _ |- _ => apply ret_Ret in H; destruct H
  | H : call _ _ = Ret _ _ |- _ => apply call_Ret in H; destruct H
  | H : checkHip _ _ _ = Ret _ _ |- _ =>
      apply checkHip_Ret in H; destruct H as (? & ? & ?)
  | H : assert_not_null _ _ _ = Ret _ _ |- _ =>
      apply assert_not_null_Ret in H; destruct H
  | H : (if ?c then _ else _) _ = Ret _ _ |- _ => destruct c eqn:?
  | H : halt _ _ = Ret _ _ |- _ => discriminate H
  | H : exit _ _ = Ret _ _ |- _ => discriminate H
  | H : (match ?c with _ => _ end) _ = Ret _ _ |- _ => destruct c eqn:?
  end; subst.

(** *** Loops over the transfer array *)

Lemma for_from_Ret body f g :
  (forall i t pos t' d, body i t pos = Ret t' d -> t' = f i t /\ d = g i t) ->
  forall n i a pos a' d,
    for_from body i n a pos = Ret a' d ->
    (n <= length a)%nat /\ a' = map_from f i n a /\ d = calls_from g i n a.
Proof.
  intros Hbody. induction n as [|n IH]; intros i a pos a' d H; simpl in H.
  - apply ret_Ret in H as [-> ->]. simpl. repeat split; auto. lia.
  - destruct a as [|t rest]; [discriminate|].
    repeat step_ret.
    match goal with H : body _ _ _ = _ |- _ => apply Hbody in H as [-> ->] end.
    match goal with H : for_from _ _ _ _ _ = _ |- _ => apply IH in H as (Hn & -> & ->) end.
    simpl. rewrite app_nil_r. repeat split; auto. lia.
Qed.

Lemma calls_from_flat_map g : forall n i a,
  calls_from (fun _ => g) i n a = flat_map g (firstn n a).
Proof.
  induction n as [|n IH]; intros i [|t rest]; simpl; auto.
  now rewrite IH.
Qed.

Lemma map_from_map f : forall n i a,
  map_from (fun _ => f) i n a = map f (firstn n a) ++ skipn n a.
Proof.
  induction n as [|n IH]; intros i [|t rest]; simpl; auto.
  now rewrite IH.
Qed.

Lemma firstn_map_from f : forall n i a,
  firstn n (map_from (fun _ => f) i n a) = map f (firstn n a).
Proof.
  induction n as [|n IH]; intros i [|t rest]; simpl; auto.
  now rewrite IH.
Qed.

Section Issue.

Variable P : Platform.

Lemma issue_Ret n_bytes is_last t pos t' d :
  issue P n_bytes is_last t pos = Ret t' d ->
  t' = mark_started t /\ d = issue_calls n_bytes is_last t.
Proof.
  unfold issue, issue_calls, launch_calls, copy_call, mark_started.
  destruct (type t) eqn:Ety; unfold direct_transfer, dtod_transfer; intros H;
    repeat step_ret;
    repeat match goal with H : is_started _ = _ |- _ => rewrite H; clear H end;
    simpl; rewrite ?Ety; auto.
Qed.

Lemma issue_round_Ret n_iter n_bytes n i a pos a' d :
  issue_round P n_iter n_bytes n i a pos = Ret a' d ->
  (n <= length a)%nat /\
  a' = map_from (fun _ => mark_started) O n a /\
  d = round_calls n_iter n_bytes n i a.
Proof.
  unfold issue_round, for_each, round_calls. intros H.
  eapply for_from_Ret in H; [exact H|].
  intros j t p t' d' Hj. now apply issue_Ret in Hj.
Qed.

Lemma issue_loop_Ret n_iter n_bytes n : forall count i a pos a' d,
  issue_loop P n_iter n_bytes n count i a pos = Ret a' d ->
  d = loop_calls n_iter n_bytes n count i a /\
  a' = match count with
       | O => a
       | S _ => map_from (fun _ => mark_started) O n a
       end /\
  (count <> O -> n <= length a)%nat.
Proof.
  induction count as [|count IH]; intros i a pos a' d H; simpl in H.
  - apply ret_Ret in H as [-> ->]. simpl. repeat split; auto. congruence.
  - repeat step_ret.
    match goal with H : issue_round _ _ _ _ _ _ _ = _ |- _ =>
      apply issue_round_Ret in H as (Hn & -> & ->) end.
    match goal with H : issue_loop _ _ _ _ _ _ _ _ = _ |- _ =>
      apply IH in H as (-> & -> & Hc) end.
    simpl. repeat split; auto.
    destruct count; auto.
    rewrite !map_from_map, firstn_app, firstn_map.
    rewrite firstn_firstn, Nat.min_id.
    rewrite length_map, firstn_length_le by lia.
    rewrite Nat.sub_diag. simpl. rewrite app_nil_r.
    rewrite map_map.
    rewrite skipn_app, skipn_map, length_map, firstn_length_le by lia.
    rewrite skipn_firstn_comm, Nat.sub_diag. simpl.
    f_equal. apply map_ext. intros t. unfold mark_started.
    destruct (is_started t) eqn:E; [now rewrite E|]. reflexivity.
Qed.

End Issue.

(** *** Counting event records *)

Lemma records_app h d1 d2 : records h (d1 ++ d2) = (records h d1 + records h d2)%nat.
Proof. unfold records. now rewrite filter_app, length_app. Qed.

Lemma records_launch h t : records h (launch_calls t) = O.
Proof.
  unfold launch_calls. destruct (type t); simpl;
    destruct (numa_node t >=? 0); reflexivity.
Qed.

Lemma records_issue h n_bytes is_last t :
  records h (issue_calls n_bytes is_last t) =
    ((if is_started t then O else if Nat.eqb (start t) h then 1 else O)
     + (if is_last then if Nat.eqb (stop t) h then 1 else O else O))%nat.
Proof.
  unfold issue_calls.
  change (hipSetDevice (device t) :: ?l) with ([hipSetDevice (device t)] ++ l).
  rewrite !records_app.
  change (copy_call n_bytes t :: ?l) with ([copy_call n_bytes t] ++ l).
  rewrite !records_app.
  replace (records h [copy_call n_bytes t]) with O
    by (unfold copy_call; destruct (type t); reflexivity).
  destruct (is_started t), is_last; simpl; rewrite ?records_app, ?records_launch;
    unfold records; simpl;
    repeat match goal with |- context [Nat.eqb ?a ?b] => destruct (Nat.eqb a b) end;
    reflexivity.
Qed.

Lemma records_unmarked h n_bytes is_last : forall l,
  ~ In h (marks l) -> records h (flat_map (issue_calls n_bytes is_last) l) = O.
Proof.
  induction l as [|t l IH]; intros Hn; [reflexivity|].
  simpl in Hn. cbn [flat_map].
  rewrite records_app, records_issue, IH by tauto.
  destruct (Nat.eqb_spec (start t) h); [tauto|].
  destruct (Nat.eqb_spec (stop t) h); [tauto|].
  destruct (is_started t), is_last; reflexivity.
Qed.

Lemma records_stop_round n_bytes is_last : forall l t,
  NoDup (marks l) -> In t l ->
  records (stop t) (flat_map (issue_calls n_bytes is_last) l) =
    if is_last then 1%nat else O.
Proof.
  induction l as [|u l IH]; intros t Hnd Hin; [destruct Hin|].
  simpl in Hnd, Hin. cbn [flat_map].
  apply NoDup_cons_iff in Hnd as [Hs Hnd].
  apply NoDup_cons_iff in Hnd as [Hp Hnd].
  rewrite records_app, records_issue.
  assert (Hmk : forall x, In x l -> In (stop x) (marks l)).
  { intros x Hx. unfold marks. apply in_flat_map. exists x. simpl. auto. }
  destruct Hin as [<-|Hin].
  - rewrite records_unmarked by exact Hp.
    rewrite Nat.eqb_refl.
    destruct (Nat.eqb_spec (start u) (stop u)) as [E|_].
    { exfalso. apply Hs. simpl. auto. }
    destruct (is_started u), is_last; reflexivity.
  - rewrite IH by assumption.
    destruct (Nat.eqb_spec (start u) (stop t)) as [E|_].
    { exfalso. apply Hs. simpl. right. rewrite E. auto. }
    destruct (Nat.eqb_spec (stop u) (stop t)) as [E|_].
    { exfalso. apply Hp. rewrite E. auto. }
    destruct (is_started u), is_last; reflexivity.
Qed.

Lemma records_start_round n_bytes is_last : forall l t,
  NoDup (marks l) -> In t l ->
  records (start t) (flat_map (issue_calls n_bytes is_last) l) =
    if is_started t then O else 1%nat.
Proof.
  induction l as [|u l IH]; intros t Hnd Hin; [destruct Hin|].
  simpl in Hnd, Hin. cbn [flat_map].
  apply NoDup_cons_iff in Hnd as [Hs Hnd].
  apply NoDup_cons_iff in Hnd as [Hp Hnd].
  rewrite records_app, records_issue.
  assert (Hmk : forall x, In x l -> In (start x) (marks l)).
  { intros x Hx. unfold marks. apply in_flat_map. exists x. simpl. auto. }
  destruct Hin as [<-|Hin].
  - rewrite records_unmarked
      by (intros Hc; apply Hs; simpl; auto).
    rewrite Nat.eqb_refl.
    destruct (Nat.eqb_spec (stop u) (start u)) as [E|_].
    { exfalso. apply Hs. simpl. auto. }
    destruct (is_started u), is_last; reflexivity.
  - rewrite IH by assumption.
    destruct (Nat.eqb_spec (start u) (start t)) as [E|_].
    { exfalso. apply Hs. simpl. right. rewrite E. auto. }
    destruct (Nat.eqb_spec (stop u) (start t)) as [E|_].
    { exfalso. apply Hp. rewrite E. auto. }
    destruct (is_started u), is_last; reflexivity.
Qed.

(** *** The rounds of the issue loop *)

Lemma mark_started_idem t : mark_started (mark_started t) = mark_started t.
Proof.
  unfold mark_started. destruct (is_started t) eqn:E; [now rewrite E|reflexivity].
Qed.

Lemma map_from_idem (f : Transfer_t -> Transfer_t) :
  (forall t, f (f t) = f t) ->
  forall n i j a,
    map_from (fun _ => f) i n (map_from (fun _ => f) j n a)
    = map_from (fun _ => f) j n a.
Proof.
  intros Hf. induction n as [|n IH]; intros i j [|t rest]; simpl; auto.
  now rewrite Hf, IH.
Qed.

Section Rounds.

Variable P : Platform.
Variables n_iter n_bytes : Z.
Variable n : nat.

(** A loop that returns is a sequence of rounds that return, one per index. *)
Lemma issue_loop_rounds : forall count i a pos a' d,
  issue_loop P n_iter n_bytes n count i a pos = Ret a' d ->
  exists rounds,
    d = concat rounds /\ length rounds = count /\
    forall k r, nth_error rounds k = Some r ->
      exists pk,
        issue_round P n_iter n_bytes n (i + Z.of_nat k) (array_at n k a) pk
        = Ret (array_at n 1 a) r.
Proof.
  induction count as [|count IH]; intros i a pos a' d H; simpl in H.
  - apply ret_Ret in H as [-> ->]. exists []. repeat split; auto.
    intros [|k] r Hk; discriminate.
  - repeat step_ret.
    match goal with H : issue_round _ _ _ _ _ _ _ = _ |- _ =>
      pose proof (issue_round_Ret _ _ _ _ _ _ _ _ _ H) as (Hn & Ha & Hd) end.
    match goal with H : issue_loop _ _ _ _ _ _ _ _ = _ |- _ =>
      apply IH in H as (rounds & -> & Hlen & Hr) end.
    subst x.
    exists (x0 :: rounds). simpl. repeat split; auto.
    intros [|k] r Hk; simpl in Hk.
    + inversion Hk; subst r. exists pos. simpl. rewrite Z.add_0_r. assumption.
    + apply Hr in Hk as (pk & Hk). exists pk.
      replace (i + Z.of_nat (S k)) with (i + 1 + Z.of_nat k) by lia.
      replace (array_at n (S k) a)
        with (array_at n k (map_from (fun _ => mark_started) O n a)).
      2:{ destruct k; simpl; auto. apply map_from_idem, mark_started_idem. }
      rewrite Hk. f_equal. simpl.
      apply map_from_idem, mark_started_idem.
Qed.

End Rounds.

(** *** Copies *)

Lemma filter_concat {A} (f : A -> bool) : forall l,
  filter f (concat l) = concat (map (filter f) l).
Proof.
  induction l as [|x l IH]; simpl; auto. now rewrite filter_app, IH.
Qed.

Lemma map_const_repeat {A B} (g : A -> B) (y : B) : forall l,
  (forall x, In x l -> g x = y) -> map g l = repeat y (length l).
Proof.
  induction l as [|x l IH]; simpl; intros H; auto.
  rewrite H, IH; auto.
Qed.

Lemma copies_launch t : filter is_copy (launch_calls t) = [].
Proof.
  unfold launch_calls. destruct (type t); simpl;
    destruct (numa_node t >=? 0); reflexivity.
Qed.

Lemma copies_issue n_bytes is_last t :
  filter is_copy (issue_calls n_bytes is_last t) = [copy_call n_bytes t].
Proof.
  unfold issue_calls.
  change (hipSetDevice (device t) :: ?l) with ([hipSetDevice (device t)] ++ l).
  rewrite filter_app.
  change (copy_call n_bytes t :: ?l) with ([copy_call n_bytes t] ++ l).
  rewrite !filter_app.
  replace (filter is_copy [copy_call n_bytes t]) with [copy_call n_bytes t]
    by (unfold copy_call; destruct (type t); reflexivity).
  destruct (is_started t), is_last; simpl; rewrite ?filter_app, ?copies_launch;
    reflexivity.
Qed.

Lemma copy_call_mark_started n_bytes t :
  copy_call n_bytes (mark_started t) = copy_call n_bytes t.
Proof. unfold mark_started. now destruct (is_started t). Qed.

Lemma copies_round n_iter n_bytes n i k a :
  filter is_copy (round_calls n_iter n_bytes n i (array_at n k a))
  = map (copy_call n_bytes) (firstn n a).
Proof.
  unfold round_calls. rewrite calls_from_flat_map.
  assert (E : map (copy_call n_bytes) (firstn n (array_at n k a))
              = map (copy_call n_bytes) (firstn n a)).
  { destruct k; simpl; auto. rewrite firstn_map_from, map_map.
    apply map_ext. intros t. apply copy_call_mark_started. }
  rewrite <- E. generalize (firstn n (array_at n k a)).
  induction l as [|t l IH]; [reflexivity|].
  cbn [flat_map map]. now rewrite filter_app, copies_issue, IH.
Qed.

(** *** What a computation can emit *)

Lemma emits_ret Q {A} (a : A) : emits Q (ret a).
Proof. intros pos. constructor. Qed.

Lemma emits_halt Q {A} s : emits Q (@halt A s).
Proof. intros pos. constructor. Qed.

Lemma emits_exit Q {A} code : emits Q (@exit A code).
Proof. apply emits_halt. Qed.

Lemma emits_call (Q : Call -> Prop) c : Q c -> emits Q (call c).
Proof. intros H pos. simpl. auto. Qed.

Lemma emits_bind Q {A B} (m : M A) (f : A -> M B) :
  emits Q m -> (forall a, emits Q (f a)) -> emits Q (bind m f).
Proof.
  intros Hm Hf pos. unfold bind. specialize (Hm pos).
  destruct (m pos) as [a d1|s d1]; simpl in *; auto.
  specialize (Hf a (pos + length d1)%nat).
  destruct (f a (pos + length d1)%nat); simpl in *; apply Forall_app; auto.
Qed.

Lemma emits_if Q {A} (c : bool) (m1 m2 : M A) :
  emits Q m1 -> emits Q m2 -> emits Q (if c then m1 else m2).
Proof. now destruct c. Qed.

Lemma emits_checkHip P (Q : Call -> Prop) c :
  Q c -> (forall code, Q (fprintf_stderr (CheckHip code))) -> emits Q (checkHip P c).
Proof.
  intros Hc Hm. unfold checkHip, assertHip.
  apply emits_bind; [now apply emits_call|]. intros k.
  apply emits_bind; [|intros; apply emits_ret].
  apply emits_if; [apply emits_ret|].
  apply emits_bind; [now apply emits_call|]. intros; apply emits_exit.
Qed.

Lemma emits_assert_not_null P Q p : emits Q (assert_not_null P p).
Proof. unfold assert_not_null. apply emits_if; [apply emits_halt|apply emits_ret]. Qed.

Lemma emits_for_from Q body :
  (forall i t, emits Q (body i t)) ->
  forall n i a, emits Q (for_from body i n a).
Proof.
  intros Hb. induction n as [|n IH]; intros i a; simpl.
  - apply emits_ret.
  - destruct a as [|t rest]; [apply emits_halt|].
    apply emits_bind; [apply Hb|]. intros t'.
    apply emits_bind; [apply IH|]. intros; apply emits_ret.
Qed.

Lemma emits_for_each Q body n a :
  (forall i t, emits Q (body i t)) -> emits Q (for_each body n a).
Proof. intros H. now apply emits_for_from. Qed.

(** Goals [emits Q m] for a computation [m] written with the combinators;
    what is left is [Q c] for the calls [c] of [m]. *)
Ltac emits_step :=
  match goal with
  | |- emits _ (ret _) => apply emits_ret
  | |- emits _ (halt _) => apply emits_halt
  | |- emits _ (exit _) => apply emits_exit
  | |- emits _ (call _) => apply emits_call
  | |- emits _ (checkHip _ _) => apply emits_checkHip; [|intros ?]
  | |- emits _ (assert_not_null _ _) => apply emits_assert_not_null
  | |- emits _ (bind _ _) => apply emits_bind; [|intros ?]
  | |- emits _ (for_each _ _ _) => apply emits_for_each; intros ? ?
  | |- emits _ (if _ then _ else _) => apply emits_if
  | |- emits _ (match ?x with _ => _ end) => destruct x
  end.

Ltac emits_all := repeat emits_step.

(** *** What the allocation of a transfer returns *)

Section Allocation.

Variable P : Platform.

Lemma common_Ret t pos t' d :
  _transfer_init_common P t pos = Ret t' d ->
  (pos <= start t')%nat /\ (start t' < stop t')%nat /\
  (stop t' < pos + length d)%nat /\
  is_started t' = false /\ numa_node t' = -1 /\
  type t' = type t /\ device t' = device t /\ device2 t' = device2 t /\
  prop_device t' = device_prop P (device t).
Proof.
  unfold _transfer_init_common. intros H. repeat step_ret; simpl;
    rewrite ?length_app; simpl; repeat split; auto; lia.
Qed.

Lemma set_numa_affinity_Ret t pos t' d :
  set_numa_affinity P t pos = Ret t' d ->
  start t' = start t /\ stop t' = stop t /\ is_started t' = is_started t /\
  type t' = type t /\ device t' = device t /\ device2 t' = device2 t.
Proof.
  unfold set_numa_affinity. intros H. repeat step_ret; simpl;
    try match goal with |- context [match ?o with _ => _ end] => destruct o end;
    simpl; repeat split; reflexivity.
Qed.

(** What the allocation of one transfer leaves in its timing fields. *)
Lemma init_one_Ret n_size alloc_flags t pos t' d :
  init_one P n_size alloc_flags t pos = Ret t' d ->
  (pos <= start t')%nat /\ (start t' < stop t')%nat /\
  (stop t' < pos + length d)%nat /\
  is_started t' = false /\ type t' = type t.
Proof.
  unfold init_one, dtoh_transfer_init, htod_transfer_init, dtod_transfer_init.
  intros H. destruct (type t) eqn:Ety; repeat step_ret;
    repeat match goal with
      | H : _transfer_init_common _ _ _ = Ret _ _ |- _ =>
          apply common_Ret in H;
          destruct H as (? & ? & ? & ? & ? & ? & ? & ? & ?)
      | H : set_numa_affinity _ _ _ = Ret _ _ |- _ =>
          apply set_numa_affinity_Ret in H;
          destruct H as (? & ? & ? & ? & ? & ?)
      end;
    simpl; rewrite ?length_app; simpl; repeat split; try congruence; try lia.
Qed.

End Allocation.

(** *** Fresh timing events *)

Lemma for_from_fresh_marks body :
  (forall i t pos t' d, body i t pos = Ret t' d ->
     (pos <= start t')%nat /\ (start t' < stop t')%nat /\
     (stop t' < pos + length d)%nat /\ is_started t' = false) ->
  forall n i a pos a' d,
    for_from body i n a pos = Ret a' d ->
    NoDup (marks (firstn n a')) /\
    (forall h, In h (marks (firstn n a')) -> (pos <= h < pos + length d)%nat) /\
    (forall t, In t (firstn n a') -> is_started t = false).
Proof.
  intros Hbody. induction n as [|n IH]; intros i a pos a' d H; simpl in H.
  - apply ret_Ret in H as [-> ->]. simpl. repeat split; try constructor; tauto.
  - destruct a as [|t rest]; [discriminate|].
    repeat step_ret.
    match goal with H : body _ _ _ = _ |- _ =>
      apply Hbody in H as (H1 & H2 & H3 & H4) end.
    match goal with H : for_from _ _ _ _ _ = _ |- _ =>
      apply IH in H as (Hnd & Hin & Hst) end.
    cbn [firstn marks flat_map app]. fold (marks (firstn n x2)).
    rewrite !length_app. simpl length.
    split; [|split].
    + constructor.
      { simpl. intros [E|Hc]; [lia|]. apply Hin in Hc. lia. }
      constructor; auto.
      intros Hc. apply Hin in Hc. lia.
    + intros h [<-|[<-|Hh]]; try lia. apply Hin in Hh. lia.
    + intros u [<-|Hu]; auto.
Qed.

(** *** Options *)

Lemma strtol_range s : LONG_MIN <= st_val (strtol s) <= LONG_MAX.
Proof.
  unfold strtol. destruct (skip_spaces s) as [ws s1].
  destruct (scan_sign s1) as [[neg sg] s2].
  destruct (scan_digits s2 0) as [mag nd].
  destruct nd; simpl; [unfold LONG_MIN, LONG_MAX; lia|].
  destruct (LONG_MAX <? _) eqn:E1; simpl; [unfold LONG_MIN, LONG_MAX; lia|].
  destruct (_ <? LONG_MIN) eqn:E2; simpl; [unfold LONG_MIN, LONG_MAX; lia|].
  apply Z.ltb_ge in E1, E2. lia.
Qed.

Lemma errno_after_ok e r :
  errno_bad (errno_after e r) = false ->
  st_erange r = false /\ errno_after e r = e /\ errno_bad e = false.
Proof.
  unfold errno_after. destruct (st_erange r); [discriminate|auto].
Qed.

Section Parsing.

Variable P : Platform.

(** An option that is accepted makes no call and keeps the invariant. *)
Lemma parse_opt_Ret k arg state pos r d :
  parse_opt k arg state pos = Ret r d ->
  d = [] /\
  (parse_inv state -> parse_inv (snd r)) /\
  transfer_p (input (snd r)) = transfer_p (input state) /\
  (k <> key "s" -> n_size (input (snd r)) = n_size (input state)).
Proof.
  unfold parse_opt, parse_inv. intros H.
  repeat step_ret; simpl;
    repeat match goal with
      | H : (_ || _)%bool = false |- _ => apply orb_false_elim in H; destruct H
      | H : errno_bad (errno_after _ _) = false |- _ =>
          apply errno_after_ok in H; destruct H as (? & ? & ?)
      | H : (_ =? _) = true |- _ => apply Z.eqb_eq in H
      | H : (_ <? _) = false |- _ => apply Z.ltb_ge in H
      end;
    (split; [reflexivity|]); (split; [|split; [reflexivity|]]);
    try (intros (? & ? & ?); repeat split; auto; simpl in *; try lia);
    try congruence.
  all: try (pose proof (strtol_range arg); lia).
Qed.

(** [parse_opt] has no case for an argument that is no option. *)
Lemma parse_opt_no_argument arg state :
  parse_opt ARGP_KEY_ARG arg state = ret (ARGP_ERR_UNKNOWN, state) /\
  parse_opt ARGP_KEY_ARGS arg state = ret (ARGP_ERR_UNKNOWN, state).
Proof. split; reflexivity. Qed.

(** [parse_opt] takes every option of the table. *)
Lemma parse_opt_takes_options k arg state pos r d :
  is_option k = true -> parse_opt k arg state pos = Ret r d -> fst r = 0.
Proof.
  unfold is_option. cbn [existsb]. intros Hk. unfold parse_opt.
  intros H. repeat step_ret; try reflexivity.
  rewrite !orb_false_r in Hk.
  repeat match goal with H : (_ =? _) = false |- _ => rewrite H in Hk end.
  discriminate Hk.
Qed.

(** A key that is none of the table. *)
Lemma not_option_keys k :
  is_option k = false ->
  (k =? key "d") = false /\ (k =? key "h") = false /\ (k =? key "p") = false /\
  (k =? key "i") = false /\ (k =? key "n") = false /\ (k =? key "m") = false /\
  (k =? key "s") = false.
Proof.
  unfold is_option. cbn [existsb]. intros H.
  repeat (apply orb_false_elim in H; destruct H as (? & H)). tauto.
Qed.

(** How [argp_options] goes on after one item of the command line, by its
    key. *)
Lemma argp_options_cons k :
  (is_option k = true /\
   forall arg rest state pos,
     argp_options ((k, arg) :: rest) state pos
     = match parse_opt k arg state pos with
       | Ret r d =>
           match argp_options rest (snd r) (pos + length d)%nat with
           | Ret b d' => Ret b (d ++ d')
           | Halt s d' => Halt s (d ++ d')
           end
       | Halt s d => Halt s d
       end) \/
  (is_option k = false /\ (k = OPT_PROGNAME \/ k = OPT_HANG) /\
   forall arg rest state pos,
     argp_options ((k, arg) :: rest) state pos = argp_options rest state pos) \/
  (is_option k = false /\
   exists text,
     (text = Help \/ text = Usage \/ text = Version) /\
     forall arg rest state pos,
       argp_options ((k, arg) :: rest) state pos
       = Halt (Exit 0) [argp_print text]) \/
  (is_option k = false /\
   exists text,
     (text = Bad_option \/ text = Too_many_arguments) /\
     forall arg rest state pos,
       argp_options ((k, arg) :: rest) state pos
       = Halt (Exit EX_USAGE) [argp_print text]).
Proof.
  cbn [argp_options]. destruct (is_option k) eqn:Ek.
  { left. split; [reflexivity|]. intros arg rest state pos. unfold bind at 1.
    destruct (parse_opt k arg state pos) as [r d|s d] eqn:E; [|reflexivity].
    now rewrite (parse_opt_takes_options _ _ _ _ _ _ Ek E). }
  right.
  destruct (k =? key "?"); [right; left; split; [reflexivity|]; exists Help; auto|].
  destruct (k =? OPT_USAGE);
    [right; left; split; [reflexivity|]; exists Usage; auto|].
  destruct (k =? key "V");
    [right; left; split; [reflexivity|]; exists Version; auto|].
  destruct ((k =? OPT_PROGNAME) || (k =? OPT_HANG)) eqn:Eh.
  { left. split; [reflexivity|]. split; [|reflexivity].
    apply orb_true_iff in Eh as [Eh|Eh]; apply Z.eqb_eq in Eh; auto. }
  right. right. split; [reflexivity|].
  destruct (k =? ARGP_KEY_ARG); [exists Too_many_arguments|exists Bad_option];
    auto.
Qed.

End Parsing.

Section Vocabulary.

Variable P : Platform.

Lemma parse_opt_emits k arg state :
  emits (fun c => init_call c = true) (parse_opt k arg state).
Proof. unfold parse_opt. emits_all; reflexivity. Qed.

Lemma argp_parse_emits opts hits :
  emits (fun c => init_call c = true) (argp_parse opts hits).
Proof.
  unfold argp_parse. apply emits_bind.
  - generalize {| input := hits; errno := 0 |}.
    induction opts as [|[k arg] opts IH]; intros st; simpl.
    + apply emits_ret.
    + emits_all; try reflexivity; try apply parse_opt_emits; apply IH.
  - intros st. apply emits_bind; [apply parse_opt_emits|].
    intros; apply emits_ret.
Qed.

Lemma init_one_emits n_size alloc_flags t :
  emits (fun c => init_call c = true) (init_one P n_size alloc_flags t).
Proof.
  unfold init_one, dtoh_transfer_init, htod_transfer_init, dtod_transfer_init,
    _transfer_init_common, set_numa_affinity.
  emits_all; reflexivity.
Qed.

Lemma init_emits argc opts :
  emits (fun c => init_call c = true) (init P argc opts).
Proof.
  unfold init, transfer_init. emits_all; try reflexivity.
  - apply argp_parse_emits.
  - apply init_one_emits.
Qed.

Lemma issue_emits n_bytes is_last t :
  emits (fun c => issue_call c = true) (issue P n_bytes is_last t).
Proof.
  unfold issue, direct_transfer, dtod_transfer. emits_all; reflexivity.
Qed.

Lemma issue_loop_emits n_iter n_bytes n : forall count i a,
  emits (fun c => issue_call c = true) (issue_loop P n_iter n_bytes n count i a).
Proof.
  induction count as [|count IH]; intros i a; simpl.
  - apply emits_ret.
  - apply emits_bind; [|intros; apply IH].
    unfold issue_round. apply emits_for_each. intros; apply issue_emits.
Qed.

Lemma synchronize_emits t :
  emits (fun c => late_call c = true) (synchronize P t).
Proof. unfold synchronize. emits_all; reflexivity. Qed.

Lemma report_emits g n_iter i t :
  emits (fun c => late_call c = true) (report P g n_iter i t).
Proof. unfold report. emits_all; reflexivity. Qed.

Lemma fini_emits hits :
  emits (fun c => late_call c = true) (fini P hits).
Proof. unfold fini, fini_one. emits_all; reflexivity. Qed.

End Vocabulary.

Section Init.

Variable P : Platform.

Lemma argp_options_Ret : forall opts state pos state' d,
  argp_options opts state pos = Ret state' d ->
  d = [] /\
  (parse_inv state -> parse_inv state') /\
  transfer_p (input state') = transfer_p (input state) /\
  ((forall k arg, In (k, arg) opts -> k <> key "s") ->
   n_size (input state') = n_size (input state)).
Proof.
  induction opts as [|[k arg] opts IH]; intros state pos state' d H; simpl in H.
  - apply ret_Ret in H as [-> ->]. auto.
  - repeat step_ret.
    + match goal with H : parse_opt _ _ _ _ = _ |- _ =>
        apply parse_opt_Ret in H as (-> & Hi & Hp & Hs) end.
      match goal with H : argp_options _ _ _ = _ |- _ =>
        apply IH in H as (-> & Hi' & Hp' & Hs') end.
      split; [reflexivity|]. split; [auto|]. split; [congruence|].
      intros Hk. rewrite Hs', Hs; auto.
      * apply (Hk k arg). now left.
      * intros k' arg' Hin. apply (Hk k' arg'). now right.
    + match goal with H : argp_options _ _ _ = _ |- _ =>
        apply IH in H as (-> & Hi' & Hp' & Hs') end.
      split; [reflexivity|]. split; [auto|]. split; [congruence|].
      intros Hk. apply Hs'. intros k' arg' Hin. apply (Hk k' arg'). now right.
Qed.

Lemma argp_parse_Ret opts hits pos hits' d :
  argp_parse opts hits pos = Ret hits' d ->
  d = [] /\
  (0 <= n_iter hits <= LONG_MAX -> 0 <= n_transfers hits ->
   0 <= n_iter hits' <= LONG_MAX /\ 0 <= n_transfers hits') /\
  transfer_p hits' = transfer_p hits /\
  ((forall k arg, In (k, arg) opts -> k <> key "s") -> n_size hits' = n_size hits).
Proof.
  unfold argp_parse. intros H. repeat step_ret.
  match goal with H : argp_options _ _ _ = _ |- _ =>
    apply argp_options_Ret in H as (-> & Hi & Hp & Hs) end.
  match goal with H : parse_opt _ _ _ _ = _ |- _ =>
    apply parse_opt_Ret in H as (-> & Hi' & Hp' & Hs') end.
  simpl in *. split; [reflexivity|]. split; [|split].
  - intros H1 H2. destruct Hi' as (_ & ? & ?); [apply Hi|]; auto.
    unfold parse_inv. simpl. auto.
  - congruence.
  - intros Hk. rewrite Hs', Hs; auto. discriminate.
Qed.

(** What [init] hands to [main]. *)
Lemma init_Ret argc opts pos hits d :
  init P argc opts pos = Ret hits d ->
  0 <= n_iter hits <= LONG_MAX /\ 0 <= n_transfers hits /\
  transfer_p hits = pos /\
  NoDup (marks (firstn (Z.to_nat (n_transfers hits)) (transfer hits))) /\
  (forall t, In t (firstn (Z.to_nat (n_transfers hits)) (transfer hits)) ->
     is_started t = false) /\
  ((forall k arg, In (k, arg) opts -> k <> key "s") -> n_size hits = N_SIZE_DEFAULT).
Proof.
  unfold init, transfer_init. intros H. repeat step_ret.
  match goal with H : argp_parse _ _ _ = _ |- _ =>
    apply argp_parse_Ret in H as (-> & Hi & Hp & Hs) end.
  simpl in Hi, Hp, Hs.
  destruct Hi as [Hi Hn]; [unfold N_ITER_DEFAULT, LONG_MAX; lia|lia|].
  match goal with H : for_each _ _ _ _ = _ |- _ => rename H into Hfor end.
  unfold for_each in Hfor. eapply for_from_fresh_marks in Hfor.
  2:{ intros i t p t' d' Hb. apply init_one_Ret in Hb. tauto. }
  destruct Hfor as (Hnd & _ & Hst).
  simpl. repeat split; auto; try tauto.
Qed.

(** A run of [main] that returns: its parts, in order. *)
Lemma main_Ret argc opts pos r d :
  main P argc opts pos = Ret r d ->
  exists hits d0 a1 d1 a2 d2 a3 d3 d4 p1,
    init P argc opts pos = Ret hits d0 /\
    issue_loop P (n_iter hits) (to_size_t (n_size hits))
      (Z.to_nat (n_transfers hits)) (Z.to_nat (n_iter hits)) 0 (transfer hits) p1
    = Ret a1 d1 /\
    for_each (fun _ => synchronize P) (Z.to_nat (n_transfers hits)) a1
      (p1 + length d1)%nat = Ret a2 d2 /\
    for_each (report P (gbytes_of (to_size_t (n_size hits))) (n_iter hits))
      (Z.to_nat (n_transfers hits)) a2
      (p1 + length d1 + length d2 + 1)%nat = Ret a3 d3 /\
    fini P (set_transfer hits a3)
      (p1 + length d1 + length d2 + 1 + length d3)%nat = Ret tt d4 /\
    p1 = (pos + length d0 + 1)%nat /\
    d = d0 ++ pthread_create :: d1 ++ d2 ++ printf Completed :: d3 ++ d4 /\
    r = 0.
Proof.
  unfold main. intros H. repeat step_ret.
  match goal with H : init _ _ _ _ = Ret ?h _ |- _ =>
    pose proof (init_Ret _ _ _ _ _ H) as (Hi & _);
    assert (E : to_size_t (n_iter h) = n_iter h)
      by (unfold to_size_t; apply Z.mod_small; unfold LONG_MAX in Hi; lia)
  end.
  rewrite E in *. simpl length in *.
  match goal with H : fini _ _ _ = Ret ?u _ |- _ => destruct u end.
  do 10 eexists. split; [eassumption|].
  split; [eassumption|]. split; [eassumption|].
  split; [eassumption|]. split; [eassumption|].
  split; [reflexivity|]. split; [|reflexivity].
  simpl. rewrite ?app_nil_r. reflexivity.
Qed.

End Init.

(** *** The whole run *)

Lemma Forall_no_records (Q : Call -> bool) h d :
  Forall (fun c => Q c = true) d ->
  (forall c, Q c = true -> is_record h c = false) ->
  records h d = O.
Proof.
  intros Hd HQ. unfold records.
  induction Hd as [|c l Hc Hl IH]; simpl; auto. now rewrite (HQ c Hc).
Qed.

Lemma init_call_no_record h c : init_call c = true -> is_record h c = false.
Proof. destruct c; simpl; auto; discriminate. Qed.

Lemma late_call_no_record h c : late_call c = true -> is_record h c = false.
Proof. destruct c; simpl; auto; discriminate. Qed.

Lemma marks_map_mark_started l : marks (map mark_started l) = marks l.
Proof.
  induction l as [|t l IH]; simpl; auto. rewrite IH.
  unfold mark_started. now destruct (is_started t).
Qed.

Lemma firstn_array_at n k a :
  firstn n (array_at n k a)
  = match k with O => firstn n a | S _ => map mark_started (firstn n a) end.
Proof. destruct k; simpl; auto. apply firstn_map_from. Qed.

(** Counting in rounds of which exactly the one with index [j] counts one. *)
Lemma records_concat_one h : forall rounds (j : Z),
  (forall k r, nth_error rounds k = Some r ->
     records h r = if Z.of_nat k =? j then 1%nat else O) ->
  records h (concat rounds)
  = if (0 <=? j) && (j <? Z.of_nat (length rounds)) then 1%nat else O.
Proof.
  induction rounds as [|r0 rounds IH]; intros j H.
  - simpl. destruct (Z.leb_spec 0 j); simpl; [|reflexivity].
    destruct (Z.ltb_spec j 0); [lia|reflexivity].
  - cbn [concat]. rewrite records_app, (H O r0 eq_refl), (IH (j - 1)).
    + cbn [length]. rewrite Nat2Z.inj_succ. simpl Z.of_nat.
      destruct (Z.eqb_spec 0 j) as [<-|Hj]; simpl.
      * destruct (Z.ltb_spec 0 (Z.succ (Z.of_nat (length rounds)))); [reflexivity|lia].
      * destruct (Z.leb_spec 0 (j - 1)), (Z.leb_spec 0 j); try lia; simpl; auto.
        destruct (Z.ltb_spec (j - 1) (Z.of_nat (length rounds))),
                 (Z.ltb_spec j (Z.succ (Z.of_nat (length rounds)))); auto; lia.
    + intros k r Hk. rewrite (H (S k) r Hk). rewrite Nat2Z.inj_succ.
      destruct (Z.eqb_spec (Z.succ (Z.of_nat k)) j),
               (Z.eqb_spec (Z.of_nat k) (j - 1)); auto; lia.
Qed.

Lemma for_each_keep body n a pos a' d :
  (forall i t p t' d', body i t p = Ret t' d' -> t' = t) ->
  for_each body n a pos = Ret a' d -> a' = a.
Proof.
  intros Hb. unfold for_each. generalize O.
  revert a pos a' d. induction n as [|n IH]; intros a pos a' d i H; simpl in H.
  - now apply ret_Ret in H as [-> _].
  - destruct a as [|t rest]; [discriminate|]. repeat step_ret.
    match goal with H : body _ _ _ = _ |- _ => apply Hb in H; subst end.
    match goal with H : for_from _ _ _ _ _ = _ |- _ => apply IH in H; subst end.
    reflexivity.
Qed.

Section WholeRun.

Variable P : Platform.

Lemma synchronize_Ret t pos t' d : synchronize P t pos = Ret t' d -> t' = t.
Proof. unfold synchronize. intros H. now repeat step_ret. Qed.

Lemma report_Ret g n_iter i t pos t' d : report P g n_iter i t pos = Ret t' d -> t' = t.
Proof. unfold report. intros H. now repeat step_ret. Qed.

Lemma synchronize_quiet t :
  emits (fun c => report_call c = true) (synchronize P t).
Proof. unfold synchronize. emits_all; reflexivity. Qed.

Lemma report_quiet g n_iter i t :
  emits (fun c => report_call c = true) (report P g n_iter i t).
Proof. unfold report. emits_all; reflexivity. Qed.

(** A run of [main] that returns, round by round. *)
Lemma main_rounds argc opts r d :
  run (main P argc opts) = Ret r d ->
  exists hits d0 rounds d1 d2 p,
    let n := Z.to_nat (n_transfers hits) in
    let a := transfer hits in
    run (init P argc opts) = Ret hits d0 /\
    0 <= n_iter hits <= LONG_MAX /\
    d = d0 ++ pthread_create :: concat rounds ++ d1 ++ d2 /\
    length rounds = Z.to_nat (n_iter hits) /\
    (forall k r, nth_error rounds k = Some r ->
       r = round_calls (n_iter hits) (to_size_t (n_size hits)) n (Z.of_nat k)
             (array_at n k a) /\
       exists pk,
         issue_round P (n_iter hits) (to_size_t (n_size hits)) n (Z.of_nat k)
           (array_at n k a) pk = Ret (array_at n 1 a) r) /\
    Forall (fun c => init_call c = true) d0 /\
    Forall (fun c => late_call c = true) (d1 ++ d2) /\
    Forall (fun c => issue_call c = true) (concat rounds) /\
    Forall (fun c => report_call c = true) d1 /\
    NoDup (marks (firstn n a)) /\
    (forall t, In t (firstn n a) -> is_started t = false) /\
    fini P (set_transfer hits (array_at n (Z.to_nat (n_iter hits)) a)) p = Ret tt d2 /\
    r = 0.
Proof.
  unfold run. intros H.
  apply main_Ret in H
    as (hits & d0 & a1 & d1 & a2 & d2 & a3 & d3 & d4 & p1 & Hinit & Hloop
        & Hsync & Hrep & Hfini & -> & -> & ->).
  pose proof (init_Ret _ _ _ _ _ _ Hinit) as (Hi & Hn & _ & Hnd & Hst & _).
  pose proof (issue_loop_Ret _ _ _ _ _ _ _ _ _ _ Hloop) as (_ & Ha1 & _).
  pose proof Hloop as Hloop0.
  apply issue_loop_rounds in Hloop as (rounds & -> & Hlen & Hr).
  assert (Ea2 : a2 = a1).
  { eapply for_each_keep; [|exact Hsync].
    intros i t p t' d' Hb. simpl in Hb. now apply synchronize_Ret in Hb. }
  assert (Ea3 : a3 = a2).
  { eapply for_each_keep; [|exact Hrep].
    intros i t p t' d' Hb. now apply report_Ret in Hb. }
  subst a3 a2.
  exists hits, d0, rounds, (d2 ++ printf Completed :: d3), d4. eexists.
  cbv zeta. split; [exact Hinit|]. split; [exact Hi|].
  split; [now rewrite <- !app_assoc|]. split; [exact Hlen|].
  repeat match goal with |- _ /\ _ => split end;
    [|  |  |  |  |exact Hnd|exact Hst|  |reflexivity].
  - intros k r Hk. apply Hr in Hk as (pk & Hk). rewrite Z.add_0_l in Hk.
    split; [|now exists pk].
    now apply issue_round_Ret in Hk as (_ & _ & ->).
  - pose proof (init_emits P argc opts O) as H. now rewrite Hinit in H.
  - rewrite <- app_assoc. apply Forall_app. split;
      [|apply Forall_cons; [reflexivity|apply Forall_app; split]].
    + pose proof (emits_for_each (fun c => late_call c = true)
                    (fun _ => synchronize P) (Z.to_nat (n_transfers hits)) a1
                    (fun _ t => synchronize_emits P t)) as H.
      specialize (H (O + length d0 + 1 + length (concat rounds))%nat).
      now rewrite Hsync in H.
    + pose proof (emits_for_each (fun c => late_call c = true) _
                    (Z.to_nat (n_transfers hits)) a1
                    (fun i t => report_emits P (gbytes_of (to_size_t (n_size hits)))
                                  (n_iter hits) i t)) as H.
      specialize (H (O + length d0 + 1 + length (concat rounds) + length d2 + 1)%nat).
      now rewrite Hrep in H.
    + pose proof (fini_emits P (set_transfer hits a1)
                    (O + length d0 + 1 + length (concat rounds) + length d2 + 1
                     + length d3)%nat) as H.
      now rewrite Hfini in H.
  - pose proof (issue_loop_emits P (n_iter hits) (to_size_t (n_size hits))
                  (Z.to_nat (n_transfers hits)) (Z.to_nat (n_iter hits)) 0
                  (transfer hits) (O + length d0 + 1)%nat) as H.
    now rewrite Hloop0 in H.
  - apply Forall_app. split; [|apply Forall_cons; [reflexivity|]].
    + pose proof (emits_for_each (fun c => report_call c = true)
                    (fun _ => synchronize P) (Z.to_nat (n_transfers hits)) a1
                    (fun _ t => synchronize_quiet t)) as H.
      specialize (H (O + length d0 + 1 + length (concat rounds))%nat).
      now rewrite Hsync in H.
    + pose proof (emits_for_each (fun c => report_call c = true) _
                    (Z.to_nat (n_transfers hits)) a1
                    (fun i t => report_quiet (gbytes_of (to_size_t (n_size hits)))
                                  (n_iter hits) i t)) as H.
      specialize (H (O + length d0 + 1 + length (concat rounds) + length d2 + 1)%nat).
      now rewrite Hrep in H.
  - rewrite <- Hfini. f_equal. f_equal. rewrite Ha1.
    destruct (Z.to_nat (n_iter hits)); reflexivity.
Qed.

End WholeRun.

(** *** Timing marks, round by round *)

Lemma records_stop_in_round n_iter n_bytes n i k a t :
  NoDup (marks (firstn n a)) -> In t (firstn n a) ->
  records (stop t) (round_calls n_iter n_bytes n i (array_at n k a))
  = if i =? to_size_t (n_iter - 1) then 1%nat else O.
Proof.
  intros Hnd Hin. unfold round_calls. rewrite calls_from_flat_map.
  rewrite firstn_array_at. destruct k.
  - now apply records_stop_round.
  - replace (stop t) with (stop (mark_started t))
      by (unfold mark_started; now destruct (is_started t)).
    apply records_stop_round.
    + now rewrite marks_map_mark_started.
    + now apply in_map.
Qed.

Lemma records_start_in_round n_iter n_bytes n i k a t :
  NoDup (marks (firstn n a)) -> In t (firstn n a) -> is_started t = false ->
  records (start t) (round_calls n_iter n_bytes n i (array_at n k a))
  = match k with O => 1%nat | S _ => O end.
Proof.
  intros Hnd Hin Hst. unfold round_calls. rewrite calls_from_flat_map.
  rewrite firstn_array_at. destruct k.
  - rewrite records_start_round by assumption. now rewrite Hst.
  - replace (start t) with (start (mark_started t))
      by (unfold mark_started; now destruct (is_started t)).
    rewrite records_start_round.
    + unfold mark_started. now rewrite Hst.
    + now rewrite marks_map_mark_started.
    + now apply in_map.
Qed.

Lemma started_array_at n k a t :
  (forall u, In u (firstn n a) -> is_started u = false) ->
  In t (firstn n (array_at n k a)) ->
  is_started t = match k with O => false | S _ => true end.
Proof.
  intros Hst Hin. rewrite firstn_array_at in Hin. destruct k; auto.
  apply in_map_iff in Hin as (u & <- & Hu).
  unfold mark_started. destruct (is_started u) eqn:E; auto.
Qed.

(** *** Peer access *)

Lemma In_before {A} (q c : A) : forall d1 rest x y,
  d1 ++ q :: rest = x ++ c :: y -> ~ In c d1 -> c <> q -> In q x.
Proof.
  induction d1 as [|e d1 IH]; intros rest x y E Hn Hq; destruct x as [|e' x];
    simpl in E; inversion E; subst.
  - congruence.
  - now left.
  - exfalso. apply Hn. now left.
  - right. eapply IH; eauto. intros Hc. apply Hn. now right.
Qed.

Lemma calls_prefixed {A} (o : Outcome A) d1 :
  calls match o with
        | Ret b d2 => Ret b (d1 ++ d2)
        | Halt s d2 => Halt s (d1 ++ d2)
        end = d1 ++ calls o.
Proof. now destruct o. Qed.

Lemma calls_call_bind {B} c (f : nat -> M B) pos :
  exists rest, calls (bind (call c) f pos) = c :: rest.
Proof.
  unfold bind, call. destruct (f pos (pos + length [c])%nat); simpl; eauto.
Qed.

Lemma common_emits P t :
  emits (fun c => common_call c = true) (_transfer_init_common P t).
Proof. unfold _transfer_init_common. emits_all; reflexivity. Qed.

(** *** NUMA affinity *)

Lemma calls_checkHip_bind {B} P c (f : nat -> M B) pos :
  exists rest, calls (bind (checkHip P c) f pos) = c :: rest.
Proof.
  destruct (Z.eq_dec (hip_ret P pos) hipSuccess) as [E|E].
  - rewrite (bind_run _ _ _ _ _ (checkHip_ok P c pos E)).
    rewrite calls_prefixed. simpl. eauto.
  - rewrite (bind_stop _ _ _ _ _ (checkHip_fail P c pos E)). simpl. eauto.
Qed.

Lemma set_numa_affinity_no_file P t pos :
  sysfs P (numa_file (prop_device t)) = None ->
  set_numa_affinity P t pos = Ret t [fopen (numa_file (prop_device t))].
Proof.
  intros H. unfold set_numa_affinity, bind, call. rewrite H. reflexivity.
Qed.

Lemma first_call_after {A} (o : Outcome A) (x : list Call) (y c : Call) :
  (exists rest, calls o = c :: rest) ->
  exists rest, x ++ [y] ++ calls o = x ++ y :: c :: rest.
Proof. intros (rest & ->). now exists rest. Qed.

(** Use [H : f P q = v] where the goal asks [f P x] for an [x] equal to [q]. *)
Ltac answer_at H :=
  match type of H with
  | ?f ?P ?q = _ =>
      match goal with
      | |- context [f P ?x] =>
          replace x with q by lia; rewrite H
      end
  end.

(** *** The size option *)

Lemma argp_options_app : forall pre rest state pos state',
  argp_options pre state pos = Ret state' [] ->
  argp_options (pre ++ rest) state pos = argp_options rest state' pos.
Proof.
  induction pre as [|[k arg] pre IH]; intros rest state pos state' H; simpl in *.
  - now apply ret_Ret in H as [-> _].
  - destruct (is_option k).
    + apply bind_Ret in H as (r & d1 & d2 & H1 & H2 & E).
      symmetry in E. apply app_eq_nil in E as [-> ->].
      rewrite (bind_run _ _ _ _ _ H1). simpl length in *.
      rewrite Nat.add_0_r in *.
      destruct (fst r =? ARGP_ERR_UNKNOWN); [now repeat step_ret|].
      rewrite (IH rest _ _ _ H2).
      now destruct (argp_options rest state' pos).
    + repeat match goal with
             | H : (if ?c then _ else _) _ = Ret _ _ |- _ => destruct c
             end; try (now repeat step_ret).
      now apply IH.
Qed.

(** What the ['s'] case of [parse_opt] does, by cases. *)
Lemma parse_opt_size arg state pos :
  let r := strtol arg in
  let e := errno_after (errno state) r in
  parse_opt (key "s") arg state pos =
    if errno_bad e || (n_iter (input state) <? 0) then
      Halt (Exit 1) [fprintf_stderr Err_size]
    else if st_val r >? N_SIZE_MAX then
      Halt (Exit 1) [fprintf_stderr (Err_size_max N_SIZE_MAX)]
    else
      Ret (0, {| input := set_n_size (input state) (st_val r); errno := e |}) [].
Proof.
  cbv zeta. unfold parse_opt.
  change (key "s" =? key "d") with false.
  change (key "s" =? key "h") with false.
  change (key "s" =? key "i") with false.
  change (key "s" =? key "n") with false.
  change (key "s" =? key "m") with false.
  change (key "s" =? key "p") with false.
  change (key "s" =? key "s") with true.
  cbv iota.
  change (n_iter (set_n_size (input state) (st_val (strtol arg))))
    with (n_iter (input state)).
  change (n_size (set_n_size (input state) (st_val (strtol arg))))
    with (st_val (strtol arg)).
  destruct (errno_bad _ || _)%bool; [reflexivity|].
  destruct (_ >? _); reflexivity.
Qed.

(** *** Resources acquired and released *)

Lemma acquired_app : forall d1 d2 k,
  acquired k (d1 ++ d2) = acquired k d1 ++ acquired (k + length d1) d2.
Proof.
  induction d1 as [|c d1 IH]; intros d2 k; simpl.
  - now rewrite Nat.add_0_r.
  - rewrite IH, <- app_assoc. do 3 f_equal. lia.
Qed.

Lemma released_app d1 d2 : released (d1 ++ d2) = released d1 ++ released d2.
Proof. apply flat_map_app. Qed.

Lemma quiet_acquired (Q : Call -> bool) d :
  Forall (fun c => Q c = true) d ->
  (forall c, Q c = true -> forall k, acquires k c = None) ->
  forall k, acquired k d = [].
Proof.
  intros Hd HQ. induction Hd as [|c l Hc Hl IH]; intros k; simpl; auto.
  now rewrite (HQ c Hc), IH.
Qed.

Lemma quiet_released (Q : Call -> bool) d :
  Forall (fun c => Q c = true) d ->
  (forall c, Q c = true -> releases c = None) ->
  released d = [].
Proof.
  intros Hd HQ. induction Hd as [|c l Hc Hl IH]; simpl; auto.
  now rewrite (HQ c Hc), IH.
Qed.

Lemma issue_call_acquires c : issue_call c = true -> forall k, acquires k c = None.
Proof. destruct c; simpl; auto; discriminate. Qed.

Lemma issue_call_releases c : issue_call c = true -> releases c = None.
Proof. destruct c; simpl; auto; discriminate. Qed.

Lemma report_call_acquires c : report_call c = true -> forall k, acquires k c = None.
Proof. destruct c; simpl; auto; discriminate. Qed.

Lemma report_call_releases c : report_call c = true -> releases c = None.
Proof. destruct c; simpl; auto; discriminate. Qed.

Lemma init_call_releases c : init_call c = true -> releases c = None.
Proof. destruct c; simpl; auto; discriminate. Qed.

Lemma late_call_acquires c : late_call c = true -> forall k, acquires k c = None.
Proof. destruct c; simpl; auto; discriminate. Qed.

Section Resources.

Variable P : Platform.

(** The resources one allocation acquires are those the transfer holds. *)
Lemma init_one_acquired n_size alloc_flags t pos t' d :
  init_one P n_size alloc_flags t pos = Ret t' d ->
  acquired pos d = resources_of alloc_flags t'.
Proof.
  unfold init_one, dtoh_transfer_init, htod_transfer_init, dtod_transfer_init,
    _transfer_init_common, set_numa_affinity, resources_of, host_buffer.
  intros H. destruct (type t) eqn:Ety; repeat step_ret; simpl; rewrite ?Ety;
    repeat match goal with
      | |- context [match ?o with Some _ => _ | None => _ end] => destruct o
      | H : (_ =? _) = _ |- _ => rewrite H
      end;
    simpl; rewrite ?Ety; simpl;
    repeat (f_equal; try lia).
Qed.

Lemma for_from_acquired body f :
  (forall i t pos t' d, body i t pos = Ret t' d -> acquired pos d = f t') ->
  forall n i a pos a' d,
    for_from body i n a pos = Ret a' d ->
    acquired pos d = flat_map f (firstn n a').
Proof.
  intros Hb. induction n as [|n IH]; intros i a pos a' d H; simpl in H.
  - now apply ret_Ret in H as [-> ->].
  - destruct a as [|t rest]; [discriminate|]. repeat step_ret.
    match goal with H : body _ _ _ = _ |- _ => apply Hb in H; rename H into H1 end.
    match goal with H : for_from _ _ _ _ _ = _ |- _ => apply IH in H; rename H into H2 end.
    cbn [firstn flat_map]. rewrite app_nil_r, acquired_app, H1, H2. reflexivity.
Qed.

(** The resources [init] acquires: the transfer array and, for every
    transfer, its events, stream and buffers. *)
Lemma init_acquired argc opts hits d :
  run (init P argc opts) = Ret hits d ->
  acquired O d
  = HostBuffer (transfer_p hits)
    :: flat_map (resources_of (alloc_flags hits))
         (firstn (Z.to_nat (n_transfers hits)) (transfer hits)) /\
  released d = [].
Proof.
  intros H. split.
  - unfold run, init, transfer_init in H. repeat step_ret.
    match goal with H : argp_parse _ _ _ = _ |- _ =>
      apply argp_parse_Ret in H as (-> & _ & Hp & _) end.
    match goal with H : for_each _ _ _ _ = _ |- _ =>
      unfold for_each in H; eapply for_from_acquired in H; [rename H into Hf|] end.
    2:{ intros i t p t' d' Hb. apply init_one_acquired in Hb. exact Hb. }
    simpl in *. rewrite app_nil_r. rewrite Hp. f_equal. exact Hf.
  - eapply quiet_released; [|apply init_call_releases].
    pose proof (init_emits P argc opts O) as He. unfold run in H.
    now rewrite H in He.
Qed.

Lemma fini_one_Ret alloc_flags t pos t' d :
  fini_one P alloc_flags t pos = Ret t' d ->
  t' = t /\ d = fini_calls alloc_flags t.
Proof.
  unfold fini_one, fini_calls. intros H.
  destruct (type t); repeat step_ret; auto.
Qed.

Lemma fini_Ret hits pos u d :
  fini P hits pos = Ret u d ->
  d = flat_map (fini_calls (alloc_flags hits))
        (firstn (Z.to_nat (n_transfers hits)) (transfer hits))
      ++ [free (transfer_p hits)].
Proof.
  unfold fini, for_each. intros H. repeat step_ret.
  match goal with H : for_from _ _ _ _ _ = _ |- _ =>
    eapply for_from_Ret in H;
    [destruct H as (_ & _ & ->)
    |intros i t p t' d' Hb; apply (fini_one_Ret _ _ _ _ _ Hb)] end.
  now rewrite calls_from_flat_map.
Qed.

End Resources.

Lemma released_fini_one alloc_flags t :
  released (fini_calls alloc_flags t)
  = if is_direct t then [host_buffer alloc_flags t] else [].
Proof.
  unfold fini_calls, is_direct, host_buffer.
  destruct (type t); simpl; destruct (Z.land alloc_flags is_pinned =? 0); reflexivity.
Qed.

Lemma released_fini_calls alloc_flags : forall l,
  released (flat_map (fini_calls alloc_flags) l)
  = map (host_buffer alloc_flags) (filter is_direct l).
Proof.
  induction l as [|t l IH]; [reflexivity|].
  cbn [flat_map filter]. rewrite released_app, IH, released_fini_one.
  now destruct (is_direct t).
Qed.

Lemma host_buffers_array_at alloc_flags n k a :
  map (host_buffer alloc_flags) (filter is_direct (firstn n (array_at n k a)))
  = map (host_buffer alloc_flags) (filter is_direct (firstn n a)).
Proof.
  rewrite firstn_array_at. destruct k; [reflexivity|].
  induction (firstn n a) as [|t l IH]; [reflexivity|].
  cbn [map filter].
  assert (E1 : is_direct (mark_started t) = is_direct t)
    by (unfold mark_started; now destruct (is_started t)).
  assert (E2 : host_buffer alloc_flags (mark_started t) = host_buffer alloc_flags t)
    by (unfold mark_started; now destruct (is_started t)).
  rewrite E1. destruct (is_direct t); cbn [map]; now rewrite ?E2, IH.
Qed.

(** *** The reported bandwidth *)

Lemma report_calls P n_gbytes n_iter i t pos t' d :
  report P n_gbytes n_iter i t pos = Ret t' d ->
  exists m,
    d = [hipSetDevice (device t); hipEventElapsedTime (start t) (stop t); printf m] /\
    figure m = Some (bandwidth n_gbytes (sec_of (elapsed_msec P (S pos))) n_iter).
Proof.
  unfold report. intros H. repeat step_ret; simpl;
    replace (pos + 1)%nat with (S pos) by lia; eexists; split; reflexivity.
Qed.

(** *** Runs that return *)

Lemma returns_ret {A} (a : A) : returns (ret a).
Proof. intros pos. unfold ret. eauto. Qed.

Lemma returns_call c : returns (call c).
Proof. intros pos. unfold call. eauto. Qed.

Lemma returns_bind {A B} (m : M A) (f : A -> M B) :
  returns m -> (forall a, returns (f a)) -> returns (bind m f).
Proof.
  intros Hm Hf pos. destruct (Hm pos) as (a & d1 & H1).
  destruct (Hf a (pos + length d1)%nat) as (b & d2 & H2).
  rewrite (bind_run _ _ _ _ _ H1), H2. eauto.
Qed.

Lemma returns_if {A} (c : bool) (m1 m2 : M A) :
  returns m1 -> returns m2 -> returns (if c then m1 else m2).
Proof. now destruct c. Qed.

Lemma for_from_length body : forall n i a pos a' d,
  for_from body i n a pos = Ret a' d -> length a' = length a.
Proof.
  induction n as [|n IH]; intros i a pos a' d H; simpl in H.
  - now apply ret_Ret in H as [-> _].
  - destruct a as [|t rest]; [discriminate|]. repeat step_ret.
    match goal with H : for_from _ _ _ _ _ = _ |- _ => apply IH in H end.
    simpl. congruence.
Qed.

Lemma returns_for_from body :
  (forall i t, returns (body i t)) ->
  forall n i a, (n <= length a)%nat -> returns (for_from body i n a).
Proof.
  intros Hb. induction n as [|n IH]; intros i a Hn; simpl.
  - apply returns_ret.
  - destruct a as [|t rest]; [simpl in Hn; lia|].
    apply returns_bind; [apply Hb|]. intros t'.
    apply returns_bind; [apply IH; simpl in Hn; lia|].
    intros; apply returns_ret.
Qed.

Section Returns.

Variable P : Platform.
Hypothesis HP : well_behaved P.

Lemma returns_checkHip c : returns (checkHip P c).
Proof.
  intros pos. rewrite checkHip_ok by apply HP. eauto.
Qed.

Lemma returns_assert_not_null p : returns (assert_not_null P p).
Proof.
  intros pos. unfold assert_not_null.
  destruct HP as (_ & Hn & _). rewrite Hn. apply returns_ret.
Qed.

Ltac returns_step :=
  match goal with
  | |- returns (ret _) => apply returns_ret
  | |- returns (call _) => apply returns_call
  | |- returns (checkHip _ _) => apply returns_checkHip
  | |- returns (assert_not_null _ _) => apply returns_assert_not_null
  | |- returns (bind _ _) => apply returns_bind; [|intros ?]
  | |- returns (if peer_access _ ?a ?b =? 0 then _ else _) =>
      destruct (Z.eqb_spec (peer_access P a b) 0) as [Hno|_];
      [exfalso; revert Hno; apply HP|]
  | |- returns (if _ then _ else _) => apply returns_if
  | |- returns (match ?x with _ => _ end) => destruct x
  end.

Lemma returns_issue n_bytes is_last t : returns (issue P n_bytes is_last t).
Proof. unfold issue, direct_transfer, dtod_transfer. repeat returns_step. Qed.

Lemma returns_issue_loop n_iter n_bytes n : forall count i a,
  (n <= length a)%nat ->
  returns (issue_loop P n_iter n_bytes n count i a).
Proof.
  induction count as [|count IH]; intros i a Hn; simpl.
  - apply returns_ret.
  - intros pos.
    destruct (returns_for_from (fun _ => issue P n_bytes (i =? to_size_t (n_iter - 1)))
                (fun _ t => returns_issue n_bytes _ t) n O a Hn pos)
      as (a1 & d1 & H1).
    unfold issue_round, for_each. rewrite (bind_run _ _ _ _ _ H1).
    apply for_from_length in H1.
    destruct (IH (i + 1) a1 ltac:(lia) (pos + length d1)%nat) as (a2 & d2 & H2).
    rewrite H2. eauto.
Qed.

Lemma returns_init_one n_size alloc_flags t :
  returns (init_one P n_size alloc_flags t).
Proof.
  unfold init_one, dtoh_transfer_init, htod_transfer_init, dtod_transfer_init,
    _transfer_init_common, set_numa_affinity.
  destruct (type t); repeat returns_step.
Qed.

Lemma returns_synchronize t : returns (synchronize P t).
Proof. unfold synchronize. repeat returns_step. Qed.

Lemma returns_report g n_iter i t : returns (report P g n_iter i t).
Proof. unfold report. repeat returns_step. Qed.

Lemma returns_fini_one alloc_flags t : returns (fini_one P alloc_flags t).
Proof. unfold fini_one. repeat returns_step. Qed.

End Returns.

(** *** The transfer array is large enough *)

Lemma store_length v : forall a i, length (store i v a) = length a.
Proof.
  induction a as [|t a IH]; intros [|i]; simpl; auto.
Qed.

Lemma parse_opt_bound k arg state pos r d :
  parse_opt k arg state pos = Ret r d ->
  0 <= n_transfers (input state)
       <= Z.of_nat (length (transfer (input state))) ->
  0 <= n_transfers (input (snd r))
       <= Z.of_nat (length (transfer (input (snd r)))).
Proof.
  unfold parse_opt. intros H Hb.
  repeat step_ret; simpl; rewrite ?store_length; try lia.
  all: match goal with H : nth_error ?l ?i = Some _ |- _ =>
         assert (i < length l)%nat by (apply nth_error_Some; congruence)
       end; lia.
Qed.

Lemma argp_options_bound : forall opts state pos state' d,
  argp_options opts state pos = Ret state' d ->
  0 <= n_transfers (input state)
       <= Z.of_nat (length (transfer (input state))) ->
  0 <= n_transfers (input state')
       <= Z.of_nat (length (transfer (input state'))).
Proof.
  induction opts as [|[k arg] opts IH]; intros state pos state' d H Hb; simpl in H.
  - now apply ret_Ret in H as [-> _].
  - repeat step_ret.
    + match goal with H : parse_opt _ _ _ _ = _ |- _ =>
        apply parse_opt_bound in H; [|exact Hb] end.
      eapply IH; eauto.
    + eapply IH; eauto.
Qed.

Lemma argp_parse_bound opts hits pos hits' d :
  argp_parse opts hits pos = Ret hits' d ->
  0 <= n_transfers hits <= Z.of_nat (length (transfer hits)) ->
  0 <= n_transfers hits' <= Z.of_nat (length (transfer hits')).
Proof.
  unfold argp_parse. intros H Hb. repeat step_ret.
  match goal with H : argp_options _ _ _ = _ |- _ =>
    apply argp_options_bound in H; [|exact Hb] end.
  match goal with H : parse_opt _ _ _ _ = _ |- _ =>
    apply parse_opt_bound in H; [exact H|assumption] end.
Qed.

(** On a well-behaved machine [main] returns 0 whenever [argp_parse] accepts
    the options. *)
Lemma main_returns (P : Platform) argc opts hits0 d0 :
  well_behaved P ->
  argp_parse opts (default_hits P O argc) 1%nat = Ret hits0 d0 ->
  exists d, run (main P argc opts) = Ret 0 d.
Proof.
  intros HP Hparse.
  pose proof (argp_parse_bound _ _ _ _ _ Hparse) as Hb.
  simpl in Hb. specialize (Hb ltac:(lia)).
  pose proof (argp_parse_Ret _ _ _ _ _ Hparse) as (-> & _).
  assert (Hn : (Z.to_nat (n_transfers hits0) <= length (transfer hits0))%nat) by lia.
  (* init *)
  destruct (returns_for_from (fun _ => init_one P (n_size hits0) (alloc_flags hits0))
              (fun _ t => returns_init_one P HP _ _ t)
              (Z.to_nat (n_transfers hits0)) O (transfer hits0) Hn 1%nat)
    as (a0 & di & Hinit).
  assert (Hi : init P argc opts O = Ret (set_transfer hits0 a0) (malloc
                 (to_size_t (sizeof_Transfer_t P * (argc - 1))) :: di)).
  { unfold init. unfold bind at 1, call. cbn [length Nat.add].
    destruct HP as (_ & Hnull & _). rewrite Hnull.
    rewrite (bind_run _ _ _ _ _ Hparse). cbn [length Nat.add].
    unfold transfer_init, for_each. rewrite (bind_run _ _ _ _ _ Hinit).
    unfold ret. simpl. now rewrite app_nil_r. }
  pose proof (for_from_length _ _ _ _ _ _ _ Hinit) as Hl0.
  unfold run, main. rewrite (bind_run _ _ _ _ _ Hi).
  cbn [n_transfers n_iter n_size transfer set_transfer].
  set (p1 := (0 + length (malloc (to_size_t (sizeof_Transfer_t P * (argc - 1))) :: di))%nat).
  unfold bind at 1, call. cbn [length].
  (* the issue loop *)
  destruct (returns_issue_loop P HP (to_size_t (n_iter hits0)) (to_size_t (n_size hits0))
              (Z.to_nat (n_transfers hits0)) (Z.to_nat (to_size_t (n_iter hits0)))
              0 a0 ltac:(lia) (p1 + 1)%nat) as (a1 & d1 & H1).
  rewrite (bind_run _ _ _ _ _ H1).
  assert (Hl1 : length a1 = length a0).
  { apply issue_loop_Ret in H1 as (_ & -> & _).
    destruct (Z.to_nat (to_size_t (n_iter hits0))); [reflexivity|].
    rewrite map_from_map, length_app, length_map, <- length_app, firstn_skipn.
    reflexivity. }
  (* synchronisation *)
  destruct (returns_for_from (fun _ => synchronize P)
              (fun _ t => returns_synchronize P HP t)
              (Z.to_nat (n_transfers hits0)) O a1 ltac:(lia)
              (p1 + 1 + length d1)%nat) as (a2 & d2 & H2).
  unfold for_each at 1. rewrite (bind_run _ _ _ _ _ H2).
  pose proof (for_from_length _ _ _ _ _ _ _ H2) as Hl2.
  unfold bind at 1, call. cbn [length].
  (* reports *)
  destruct (returns_for_from (report P (gbytes_of (to_size_t (n_size hits0)))
                                (to_size_t (n_iter hits0)))
              (fun i t => returns_report P HP _ _ i t)
              (Z.to_nat (n_transfers hits0)) O a2 ltac:(lia)
              (p1 + 1 + length d1 + length d2 + 1)%nat) as (a3 & d3 & H3).
  unfold for_each at 1. rewrite (bind_run _ _ _ _ _ H3).
  pose proof (for_from_length _ _ _ _ _ _ _ H3) as Hl3.
  (* teardown *)
  destruct (returns_for_from (fun _ => fini_one P (alloc_flags hits0))
              (fun _ t => returns_fini_one P HP _ t)
              (Z.to_nat (n_transfers hits0)) O a3 ltac:(lia)
              (p1 + 1 + length d1 + length d2 + 1 + length d3)%nat)
    as (a4 & d4 & H4).
  assert (Hf : fini P (set_transfer (set_transfer hits0 a0) a3)
                 (p1 + 1 + length d1 + length d2 + 1 + length d3)%nat
               = Ret tt (d4 ++ [free (transfer_p hits0)])).
  { unfold fini, for_each.
    cbn [n_transfers alloc_flags transfer transfer_p set_transfer].
    rewrite (bind_run _ _ _ _ _ H4). reflexivity. }
  rewrite (bind_run _ _ _ _ _ Hf). unfold ret. eexists. reflexivity.
Qed.

(** ** More facts about computations *)
(** *** Staying inside the transfer array *)

Lemma in_bounds_ret {A} (a : A) : in_bounds (ret a).
Proof. intros pos d. discriminate. Qed.

Lemma in_bounds_call c : in_bounds (call c).
Proof. intros pos d. discriminate. Qed.

Lemma in_bounds_exit {A} code : in_bounds (@exit A code).
Proof. intros pos d. discriminate. Qed.

Lemma in_bounds_abort {A} : in_bounds (@halt A Abort).
Proof. intros pos d. discriminate. Qed.

(** [bind], when what the first computation returns satisfies [R]. *)
Lemma in_bounds_bind_post {A B} (R : A -> Prop) (m : M A) (f : A -> M B) :
  in_bounds m ->
  (forall pos a d, m pos = Ret a d -> R a) ->
  (forall a, R a -> in_bounds (f a)) ->
  in_bounds (bind m f).
Proof.
  intros Hm HR Hf pos d. unfold bind.
  destruct (m pos) as [a d1|s d1] eqn:E.
  - pose proof (Hf a (HR _ _ _ E) (pos + length d1)%nat) as Hfa.
    destruct (f a (pos + length d1)%nat) as [b d2|s d2]; [discriminate|].
    intros H. inversion H; subst. now apply (Hfa d2).
  - intros H. inversion H; subst. now apply (Hm pos d).
Qed.

Lemma in_bounds_bind {A B} (m : M A) (f : A -> M B) :
  in_bounds m -> (forall a, in_bounds (f a)) -> in_bounds (bind m f).
Proof.
  intros Hm Hf. apply (in_bounds_bind_post (fun _ => True)); auto.
Qed.

Lemma in_bounds_if {A} (c : bool) (m1 m2 : M A) :
  in_bounds m1 -> in_bounds m2 -> in_bounds (if c then m1 else m2).
Proof. now destruct c. Qed.

Lemma in_bounds_checkHip P c : in_bounds (checkHip P c).
Proof.
  intros pos d. unfold checkHip, bind, call, assertHip.
  destruct (hip_ret P pos =? hipSuccess); simpl; discriminate.
Qed.

Lemma in_bounds_assert_not_null P p : in_bounds (assert_not_null P p).
Proof.
  intros pos d. unfold assert_not_null. destruct (null_result P p); discriminate.
Qed.

Lemma in_bounds_for_from body :
  (forall i t, in_bounds (body i t)) ->
  forall n i a, (n <= length a)%nat -> in_bounds (for_from body i n a).
Proof.
  intros Hb. induction n as [|n IH]; intros i a Hn.
  - apply in_bounds_ret.
  - destruct a as [|t rest]; [simpl in Hn; lia|]. cbn [for_from].
    apply in_bounds_bind; [apply Hb|]. intros t'.
    apply in_bounds_bind; [apply IH; simpl in Hn; lia|].
    intros rest'. apply in_bounds_ret.
Qed.

Ltac in_bounds_step :=
  match goal with
  | |- in_bounds (ret _) => apply in_bounds_ret
  | |- in_bounds (call _) => apply in_bounds_call
  | |- in_bounds (exit _) => apply in_bounds_exit
  | |- in_bounds (halt Abort) => apply in_bounds_abort
  | |- in_bounds (checkHip _ _) => apply in_bounds_checkHip
  | |- in_bounds (assert_not_null _ _) => apply in_bounds_assert_not_null
  | |- in_bounds (bind _ _) => apply in_bounds_bind; [|intros ?]
  | |- in_bounds (if _ then _ else _) => apply in_bounds_if
  | |- in_bounds (match ?x with _ => _ end) => destruct x
  end.

Lemma in_bounds_init_one P n_size alloc_flags t :
  in_bounds (init_one P n_size alloc_flags t).
Proof.
  unfold init_one, dtoh_transfer_init, htod_transfer_init, dtod_transfer_init,
    _transfer_init_common, set_numa_affinity.
  repeat in_bounds_step.
Qed.

Lemma in_bounds_issue P n_bytes is_last t : in_bounds (issue P n_bytes is_last t).
Proof.
  unfold issue, direct_transfer, dtod_transfer. repeat in_bounds_step.
Qed.

Lemma map_from_length f : forall n i a, length (map_from f i n a) = length a.
Proof.
  induction n as [|n IH]; intros i [|t rest]; simpl; auto.
Qed.

Lemma in_bounds_issue_loop P n_iter n_bytes n : forall count i a,
  (n <= length a)%nat ->
  in_bounds (issue_loop P n_iter n_bytes n count i a).
Proof.
  induction count as [|count IH]; intros i a Hn; cbn [issue_loop].
  - apply in_bounds_ret.
  - apply (in_bounds_bind_post (fun a' => n <= length a')%nat).
    + unfold issue_round, for_each. apply in_bounds_for_from; [|exact Hn].
      intros j t. apply in_bounds_issue.
    + intros pos a' d H. apply issue_round_Ret in H as (_ & -> & _).
      now rewrite map_from_length.
    + intros a' Ha'. now apply IH.
Qed.

Lemma in_bounds_fini P hits :
  (Z.to_nat (n_transfers hits) <= length (transfer hits))%nat ->
  in_bounds (fini P hits).
Proof.
  intros Hn. unfold fini, for_each.
  apply in_bounds_bind; [|intros ?; repeat in_bounds_step].
  apply in_bounds_for_from; [|exact Hn].
  intros i t. unfold fini_one. repeat in_bounds_step.
Qed.

Ltac now_stops :=
  cbv beta iota zeta delta [bind call exit halt ret]; discriminate.

(** [parse_opt] stays inside the array when a cell is left for the transfer
    an option adds. *)
Lemma in_bounds_parse_opt k arg state pos d :
  (is_transfer_key k = true ->
   (Z.to_nat (n_transfers (input state)) < length (transfer (input state)))%nat) ->
  parse_opt k arg state pos <> Halt Undefined d.
Proof.
  intros Hk. unfold parse_opt. cbv zeta.
  unfold is_transfer_key, type_of_key in Hk.
  destruct (k =? key "d") eqn:Ed.
  { specialize (Hk eq_refl). destruct (nth_error _ _) eqn:En.
    - destruct (_ || _); now_stops.
    - apply nth_error_None in En. lia. }
  destruct (k =? key "h") eqn:Eh.
  { specialize (Hk eq_refl). destruct (nth_error _ _) eqn:En.
    - destruct (_ || _); now_stops.
    - apply nth_error_None in En. lia. }
  destruct (k =? key "i"); [destruct (_ || _); now_stops|].
  destruct (k =? key "n"); [now_stops|].
  destruct (k =? key "m"); [now_stops|].
  destruct (k =? key "p") eqn:Ep.
  { specialize (Hk eq_refl). destruct (nth_error _ _) eqn:En.
    - destruct (strtok arg 0) as [token save].
      destruct (strtol_token arg token None (errno state)) as [[v endptr] e].
      destruct (_ || _); [now_stops|].
      destruct (strtok arg save) as [token2 save2].
      destruct (strtol_token arg token2 endptr e) as [[v2 endptr2] e2].
      destruct (_ || _); [now_stops|].
      destruct (strtok arg save2) as [token3 save3].
      destruct (_ && _); now_stops.
    - apply nth_error_None in En. lia. }
  destruct (k =? key "s").
  { destruct (_ || _); [now_stops|].
    destruct (_ >? _); now_stops. }
  destruct (k =? ARGP_KEY_END); [|now_stops].
  destruct (_ =? 0); now_stops.
Qed.

Lemma nth_error_store_eq v : forall a i,
  (i < length a)%nat -> nth_error (store i v a) i = Some v.
Proof.
  induction a as [|t rest IH]; intros [|i] H; simpl in *; try lia; auto.
  apply IH. lia.
Qed.

Lemma nth_error_store_neq v : forall a i j,
  j <> i -> nth_error (store i v a) j = nth_error a j.
Proof.
  induction a as [|t rest IH]; intros [|i] [|j] H; simpl; auto; try congruence.
Qed.

(** What an accepted option does to the transfer array and to
    [n_transfers]. *)
Ltac case_if H :=
  match goal with
  | |- (if ?c then _ else _) _ = _ -> _ => destruct c eqn:H
  end.

Lemma parse_opt_adds k arg state pos r d :
  parse_opt k arg state pos = Ret r d ->
  let h := input state in
  let h' := input (snd r) in
  let idx := Z.to_nat (n_transfers h) in
  length (transfer h') = length (transfer h) /\
  match type_of_key k with
  | Some ty =>
      n_transfers h' = n_transfers h + 1 /\
      (idx < length (transfer h))%nat /\
      (exists t, nth_error (transfer h') idx = Some t /\ type t = ty /\
                 0 <= device t /\
                 match ty with
                 | DTOD => 0 <= device2 t
                 | _ => device2 t = -1
                 end) /\
      (forall j, j <> idx -> nth_error (transfer h') j = nth_error (transfer h) j)
  | None => n_transfers h' = n_transfers h /\ transfer h' = transfer h
  end.
Proof.
  unfold parse_opt, type_of_key. cbv zeta.
  destruct (k =? key "d") eqn:Ed.
  { destruct (nth_error _ _) as [t|] eqn:En; [|discriminate].
    assert (Hlt : (Z.to_nat (n_transfers (input state))
                   < length (transfer (input state)))%nat)
      by (apply nth_error_Some; congruence).
    case_if Ec; [now_stops|].
    intros H. apply ret_Ret in H as (-> & _). simpl.
    apply orb_false_elim in Ec as (_ & Ec). simpl in Ec. apply Z.ltb_ge in Ec.
    rewrite store_length. split; [reflexivity|]. split; [reflexivity|].
    split; [exact Hlt|]. split.
    - eexists. split; [now apply nth_error_store_eq|]. simpl. auto.
    - intros j Hj. now apply nth_error_store_neq. }
  destruct (k =? key "h") eqn:Eh.
  { destruct (nth_error _ _) as [t|] eqn:En; [|discriminate].
    assert (Hlt : (Z.to_nat (n_transfers (input state))
                   < length (transfer (input state)))%nat)
      by (apply nth_error_Some; congruence).
    case_if Ec; [now_stops|].
    intros H. apply ret_Ret in H as (-> & _). simpl.
    apply orb_false_elim in Ec as (_ & Ec). simpl in Ec. apply Z.ltb_ge in Ec.
    rewrite store_length. split; [reflexivity|]. split; [reflexivity|].
    split; [exact Hlt|]. split.
    - eexists. split; [now apply nth_error_store_eq|]. simpl. auto.
    - intros j Hj. now apply nth_error_store_neq. }
  destruct (k =? key "i") eqn:Ei.
  { assert (Hp : (k =? key "p") = false)
      by (apply Z.eqb_eq in Ei; subst k; reflexivity).
    rewrite Hp. cbv beta iota.
    case_if Ec; [now_stops|].
    intros H. apply ret_Ret in H as (-> & _). simpl. auto. }
  destruct (k =? key "n") eqn:En'.
  { assert (Hp : (k =? key "p") = false)
      by (apply Z.eqb_eq in En'; subst k; reflexivity).
    rewrite Hp. cbv beta iota.
    intros H. apply ret_Ret in H as (-> & _). simpl. auto. }
  destruct (k =? key "m") eqn:Em.
  { assert (Hp : (k =? key "p") = false)
      by (apply Z.eqb_eq in Em; subst k; reflexivity).
    rewrite Hp. cbv beta iota.
    intros H. apply ret_Ret in H as (-> & _). simpl. auto. }
  destruct (k =? key "p") eqn:Ep.
  { destruct (nth_error _ _) as [t|] eqn:En; [|discriminate].
    assert (Hlt : (Z.to_nat (n_transfers (input state))
                   < length (transfer (input state)))%nat)
      by (apply nth_error_Some; congruence).
    destruct (strtok arg 0) as [token save].
    destruct (strtol_token arg token None (errno state)) as [[v endptr] e].
    case_if Ec1; [now_stops|].
    destruct (strtok arg save) as [token2 save2].
    destruct (strtol_token arg token2 endptr e) as [[v2 endptr2] e2].
    case_if Ec2; [now_stops|].
    destruct (strtok arg save2) as [token3 save3].
    case_if Ec3; [now_stops|].
    intros H. apply ret_Ret in H as (-> & _). simpl.
    apply orb_false_elim in Ec1 as (_ & Ec1). simpl in Ec1. apply Z.ltb_ge in Ec1.
    apply orb_false_elim in Ec2 as (_ & Ec2). simpl in Ec2. apply Z.ltb_ge in Ec2.
    rewrite store_length. split; [reflexivity|]. split; [reflexivity|].
    split; [exact Hlt|]. split.
    - eexists. split; [now apply nth_error_store_eq|]. simpl. auto.
    - intros j Hj. now apply nth_error_store_neq. }
  destruct (k =? key "s") eqn:Es.
  { case_if Ec; [now_stops|].
    case_if Ec'; [now_stops|].
    intros H. apply ret_Ret in H as (-> & _). simpl. auto. }
  destruct (k =? ARGP_KEY_END).
  { case_if Ec; [now_stops|].
    intros H. apply ret_Ret in H as (-> & _). simpl. auto. }
  intros H. apply ret_Ret in H as (-> & _). simpl. auto.
Qed.

Lemma transfer_options_length opts :
  length (requested opts)
  = length (filter (fun o => is_transfer_key (fst o)) opts).
Proof.
  unfold requested, is_transfer_key.
  induction opts as [|[k arg] rest IH]; [reflexivity|]. simpl.
  destruct (type_of_key k); simpl; now rewrite ?IH.
Qed.

(** [argp_options] stays inside the array when it has a cell for every
    transfer the options add. *)
Lemma in_bounds_argp_options : forall opts state,
  0 <= n_transfers (input state) ->
  (Z.to_nat (n_transfers (input state)) + length (requested opts)
   <= length (transfer (input state)))%nat ->
  in_bounds (argp_options opts state).
Proof.
  induction opts as [|[k arg] rest IH]; intros state H0 Hn; cbn [argp_options].
  - apply in_bounds_ret.
  - unfold requested in Hn. cbn [flat_map fst] in Hn.
    rewrite length_app in Hn. fold (requested rest) in Hn.
    assert (Hrest : in_bounds (argp_options rest state))
      by (apply IH; [exact H0|lia]).
    apply in_bounds_if.
    2:{ repeat in_bounds_step; try exact Hrest;
          intros pos d; apply in_bounds_parse_opt; discriminate. }
    apply (in_bounds_bind_post
             (fun r => 0 <= n_transfers (input (snd r)) /\
                (Z.to_nat (n_transfers (input (snd r))) + length (requested rest)
                 <= length (transfer (input (snd r))))%nat)).
    + intros pos d. apply in_bounds_parse_opt.
      unfold is_transfer_key. intros Hk.
      destruct (type_of_key k); [simpl in Hn; lia|discriminate].
    + intros pos r d H. apply parse_opt_adds in H. cbv zeta in H.
      destruct H as (Hlen & H). rewrite Hlen.
      destruct (type_of_key k).
      * destruct H as (-> & _). simpl in Hn. lia.
      * destruct H as (-> & _). simpl in Hn. lia.
    + intros r (H1 & H2). apply in_bounds_if; [repeat in_bounds_step|].
      now apply IH.
Qed.

Lemma init_bound P argc opts pos hits d :
  init P argc opts pos = Ret hits d ->
  (Z.to_nat (n_transfers hits) <= length (transfer hits))%nat.
Proof.
  unfold init, transfer_init, for_each. intros H. repeat step_ret. simpl.
  match goal with H : argp_parse _ _ _ = Ret _ _ |- _ =>
    apply argp_parse_bound in H; [|simpl; lia] end.
  match goal with H : for_from _ _ _ _ _ = Ret _ _ |- _ =>
    apply for_from_length in H; rewrite H end.
  lia.
Qed.

Lemma in_bounds_argp_parse opts hits :
  0 <= n_transfers hits ->
  (Z.to_nat (n_transfers hits) + length (requested opts)
   <= length (transfer hits))%nat ->
  in_bounds (argp_parse opts hits).
Proof.
  intros H0 Hn. unfold argp_parse.
  apply in_bounds_bind; [now apply in_bounds_argp_options|].
  intros state. apply in_bounds_bind; [|intros r; apply in_bounds_ret].
  intros pos d. apply in_bounds_parse_opt. discriminate.
Qed.

Lemma in_bounds_init P argc opts :
  (length (requested opts) <= Z.to_nat (argc - 1))%nat ->
  in_bounds (init P argc opts).
Proof.
  intros Hn. unfold init.
  apply in_bounds_bind; [apply in_bounds_call|]. intros p.
  apply in_bounds_if; [repeat in_bounds_step|].
  apply (in_bounds_bind_post
           (fun hits => (Z.to_nat (n_transfers hits) <= length (transfer hits))%nat)).
  - apply in_bounds_argp_parse; simpl; [lia|]. now rewrite repeat_length.
  - intros pos hits d H. apply argp_parse_bound in H; [lia|simpl; lia].
  - intros hits Hb. unfold transfer_init, for_each.
    apply in_bounds_bind; [|intros a; apply in_bounds_ret].
    apply in_bounds_for_from; [|exact Hb].
    intros i t. apply in_bounds_init_one.
Qed.

Lemma in_bounds_main P argc opts :
  (length (requested opts) <= Z.to_nat (argc - 1))%nat ->
  in_bounds (main P argc opts).
Proof.
  intros Hn. unfold main.
  apply (in_bounds_bind_post
           (fun hits => (Z.to_nat (n_transfers hits) <= length (transfer hits))%nat)).
  - now apply in_bounds_init.
  - intros pos hits d. apply init_bound.
  - intros hits Hb.
    apply in_bounds_bind; [apply in_bounds_call|]. intros _.
    apply (in_bounds_bind_post
             (fun a => (Z.to_nat (n_transfers hits) <= length a)%nat)).
    + now apply in_bounds_issue_loop.
    + intros pos a d H. apply issue_loop_Ret in H as (_ & -> & _).
      destruct (Z.to_nat (to_size_t (n_iter hits))); [exact Hb|].
      now rewrite map_from_length.
    + intros a Ha.
      apply (in_bounds_bind_post
               (fun a' => (Z.to_nat (n_transfers hits) <= length a')%nat)).
      * unfold for_each. apply in_bounds_for_from; [|exact Ha].
        intros i t. unfold synchronize. repeat in_bounds_step.
      * intros pos a' d H. apply for_from_length in H. lia.
      * intros a' Ha'. apply in_bounds_bind; [apply in_bounds_call|]. intros _.
        apply (in_bounds_bind_post
                 (fun a2 => (Z.to_nat (n_transfers hits) <= length a2)%nat)).
        -- unfold for_each. apply in_bounds_for_from; [|exact Ha'].
           intros i t. unfold report. repeat in_bounds_step.
        -- intros pos a2 d H. apply for_from_length in H. lia.
        -- intros a2 Ha2. apply in_bounds_bind; [|intros ?; apply in_bounds_ret].
           now apply in_bounds_fini.
Qed.

(** *** Command lines without a transfer *)

Lemma not_option_no_transfer k : is_option k = false -> type_of_key k = None.
Proof.
  unfold is_option, type_of_key. cbn [existsb]. intros H.
  repeat (apply orb_false_elim in H; destruct H as (? & H)).
  repeat match goal with H : (_ =? _) = false |- _ => rewrite H; clear H end.
  reflexivity.
Qed.

Lemma parse_opt_no_transfer k arg state pos :
  type_of_key k = None ->
  match parse_opt k arg state pos with
  | Ret r d => d = [] /\ n_transfers (input (snd r)) = n_transfers (input state)
  | Halt s d => quiet_stop s d
  end.
Proof.
  unfold type_of_key, parse_opt, quiet_stop. cbv zeta.
  destruct (k =? key "d"); [discriminate|].
  destruct (k =? key "h"); [discriminate|].
  destruct (k =? key "p"); [discriminate|]. intros _.
  destruct (k =? key "i").
  { destruct (_ || _); cbv [bind call exit halt ret]; simpl; eauto 8. }
  destruct (k =? key "n"); [simpl; auto|].
  destruct (k =? key "m"); [simpl; auto|].
  destruct (k =? key "s").
  { destruct (_ || _); [cbv [bind call exit halt ret]; simpl; eauto 8|].
    destruct (_ >? _); cbv [bind call exit halt ret]; simpl; eauto 8. }
  destruct (k =? ARGP_KEY_END); [|simpl; auto].
  destruct (_ =? 0); cbv [bind call exit halt ret]; simpl; auto.
Qed.

Lemma argp_options_no_transfer : forall opts state pos,
  requested opts = [] ->
  match argp_options opts state pos with
  | Ret state' d => d = [] /\ n_transfers (input state') = n_transfers (input state)
  | Halt s d => quiet_stop s d
  end.
Proof.
  induction opts as [|[k arg] rest IH]; intros state pos Hr.
  - simpl. auto.
  - unfold requested in Hr. cbn [flat_map fst] in Hr.
    apply app_eq_nil in Hr as (Hk & Hr).
    assert (Hk' : type_of_key k = None) by (now destruct (type_of_key k)).
    pose proof (parse_opt_no_transfer k arg state pos Hk') as Hp.
    destruct (argp_options_cons k)
      as [(_ & E)|[(_ & _ & E)|[(_ & text & Ht & E)|(_ & text & Ht & E)]]];
      rewrite E; clear E.
    + destruct (parse_opt k arg state pos) as [r d|s d]; [|exact Hp].
      destruct Hp as (-> & Hn). simpl. rewrite Nat.add_0_r.
      specialize (IH (snd r) pos Hr).
      destruct (argp_options rest (snd r) pos) as [state' d'|s d']; [|exact IH].
      destruct IH as (-> & IH). split; [reflexivity|congruence].
    + now apply IH.
    + left. split; [reflexivity|]. now exists text.
    + right. left. split; [reflexivity|]. right. now exists text.
Qed.

(** *** Failing runtime calls *)

Lemma first_failure_range P : forall d pos k,
  first_failure P pos d = Some k -> (pos <= k < pos + length d)%nat.
Proof.
  induction d as [|c rest IH]; intros pos k; simpl; [discriminate|].
  destruct (_ && _).
  - intros H. inversion H. lia.
  - intros H. apply IH in H. lia.
Qed.

Lemma first_failure_app P : forall d1 d2 pos,
  first_failure P pos (d1 ++ d2)
  = match first_failure P pos d1 with
    | Some k => Some k
    | None => first_failure P (pos + length d1) d2
    end.
Proof.
  induction d1 as [|c rest IH]; intros d2 pos; simpl.
  - now rewrite Nat.add_0_r.
  - destruct (_ && _); [reflexivity|].
    rewrite IH. now replace (S pos + length rest)%nat with (pos + S (length rest))%nat by lia.
Qed.

Lemma fail_stop_ret P {A} (a : A) : fail_stop P (ret a).
Proof. intros pos. exact I. Qed.

Lemma fail_stop_halt P {A} s : fail_stop P (@halt A s).
Proof. intros pos. exact I. Qed.

Lemma fail_stop_exit P {A} code : fail_stop P (@exit A code).
Proof. intros pos. exact I. Qed.

Lemma fail_stop_call P c : is_checked c = false -> fail_stop P (call c).
Proof. intros Hc pos. simpl. now rewrite Hc. Qed.

Lemma fail_stop_checkHip P c : is_checked c = true -> fail_stop P (checkHip P c).
Proof.
  intros Hc pos. unfold checkHip, bind, call, assertHip.
  destruct (hip_ret P pos =? hipSuccess) eqn:E; simpl; rewrite Hc, E; simpl.
  - exact I.
  - now rewrite Nat.sub_diag.
Qed.

Lemma fail_stop_assert_not_null P p : fail_stop P (assert_not_null P p).
Proof. intros pos. unfold assert_not_null. now destruct (null_result P p). Qed.

Lemma fail_stop_bind P {A B} (m : M A) (f : A -> M B) :
  fail_stop P m -> (forall a, fail_stop P (f a)) -> fail_stop P (bind m f).
Proof.
  intros Hm Hf pos. specialize (Hm pos). unfold bind.
  destruct (m pos) as [a d1|s d1] eqn:E; cbn [calls] in Hm.
  - destruct (first_failure P pos d1) eqn:E1; [discriminate|].
    specialize (Hf a (pos + length d1)%nat).
    destruct (f a (pos + length d1)%nat) as [b d2|s d2] eqn:E2; cbn [calls] in *.
    + rewrite first_failure_app, E1.
      now destruct (first_failure P (pos + length d1) d2).
    + rewrite first_failure_app, E1.
      destruct (first_failure P (pos + length d1) d2) as [k|] eqn:E3; [|exact I].
      apply first_failure_range in E3.
      remember (firstn (S (k - (pos + length d1))) d2) as d2' eqn:Ed2.
      injection Hf as Hs Hd.
      rewrite Hs. f_equal. rewrite firstn_app.
      replace (S (k - pos) - length d1)%nat with (S (k - (pos + length d1))) by lia.
      rewrite firstn_all2 by lia. rewrite <- Ed2, <- app_assoc. now f_equal.
  - cbn [calls]. destruct (first_failure P pos d1); [|exact I].
    injection Hm as Hs Hd. rewrite Hs. now f_equal.
Qed.

Lemma fail_stop_if P {A} (c : bool) (m1 m2 : M A) :
  fail_stop P m1 -> fail_stop P m2 -> fail_stop P (if c then m1 else m2).
Proof. now destruct c. Qed.

Lemma fail_stop_for_from P body :
  (forall i t, fail_stop P (body i t)) ->
  forall n i a, fail_stop P (for_from body i n a).
Proof.
  intros Hb. induction n as [|n IH]; intros i a; cbn [for_from].
  - apply fail_stop_ret.
  - destruct a as [|t rest]; [apply fail_stop_halt|].
    apply fail_stop_bind; [apply Hb|]. intros t'.
    apply fail_stop_bind; [apply IH|]. intros rest'. apply fail_stop_ret.
Qed.

Ltac fail_stop_step :=
  match goal with
  | |- fail_stop _ (ret _) => apply fail_stop_ret
  | |- fail_stop _ (halt _) => apply fail_stop_halt
  | |- fail_stop _ (exit _) => apply fail_stop_exit
  | |- fail_stop _ (call _) => apply fail_stop_call; reflexivity
  | |- fail_stop _ (checkHip _ _) => apply fail_stop_checkHip; reflexivity
  | |- fail_stop _ (assert_not_null _ _) => apply fail_stop_assert_not_null
  | |- fail_stop _ (bind _ _) => apply fail_stop_bind; [|intros ?]
  | |- fail_stop _ (for_each _ _ _) => apply fail_stop_for_from; intros ? ?
  | |- fail_stop _ (if _ then _ else _) => apply fail_stop_if
  | |- fail_stop _ (match ?x with _ => _ end) => destruct x
  end.

Lemma fail_stop_parse_opt P k arg state : fail_stop P (parse_opt k arg state).
Proof. unfold parse_opt. cbv zeta. repeat fail_stop_step. Qed.

Lemma fail_stop_argp_options P : forall opts state,
  fail_stop P (argp_options opts state).
Proof.
  induction opts as [|[k arg] rest IH]; intros state; cbn [argp_options].
  - apply fail_stop_ret.
  - repeat first [apply IH | apply fail_stop_parse_opt | fail_stop_step].
Qed.

Lemma fail_stop_issue P n_bytes is_last t : fail_stop P (issue P n_bytes is_last t).
Proof. unfold issue, direct_transfer, dtod_transfer. repeat fail_stop_step. Qed.

Lemma fail_stop_issue_loop P n_iter n_bytes n : forall count i a,
  fail_stop P (issue_loop P n_iter n_bytes n count i a).
Proof.
  induction count as [|count IH]; intros i a; cbn [issue_loop].
  - apply fail_stop_ret.
  - apply fail_stop_bind; [|intros a'; apply IH].
    unfold issue_round. apply fail_stop_for_from. intros j t. apply fail_stop_issue.
Qed.

Lemma fail_stop_main P argc opts : fail_stop P (main P argc opts).
Proof.
  unfold main, init, argp_parse, transfer_init, init_one, dtoh_transfer_init,
    htod_transfer_init, dtod_transfer_init, _transfer_init_common,
    set_numa_affinity, synchronize, report, fini, fini_one.
  repeat first
    [ apply fail_stop_argp_options
    | apply fail_stop_parse_opt
    | apply fail_stop_issue_loop
    | fail_stop_step ].
Qed.

Lemma first_failure_Some P : forall d pos k,
  first_failure P pos d = Some k ->
  hip_ret P k <> hipSuccess /\
  (exists c, nth_error d (k - pos) = Some c /\ is_checked c = true) /\
  (forall j c, (pos <= j < k)%nat -> nth_error d (j - pos) = Some c ->
     is_checked c = true -> hip_ret P j = hipSuccess).
Proof.
  induction d as [|c rest IH]; intros pos k; cbn [first_failure]; [discriminate|].
  destruct (is_checked c) eqn:Ec; cbn [andb].
  - destruct (Z.eqb_spec (hip_ret P pos) hipSuccess) as [Hok|Hno]; cbn [negb].
    + intros H. pose proof (first_failure_range _ _ _ _ H) as Hr.
      apply IH in H as (H1 & (c' & H2 & H3) & H4). split; [exact H1|]. split.
      * exists c'. replace (k - pos)%nat with (S (k - S pos)) by lia. auto.
      * intros j c0 Hj. destruct (Nat.eq_dec j pos) as [->|Hne]; [auto|].
        replace (j - pos)%nat with (S (j - S pos)) by lia. cbn [nth_error].
        apply H4. lia.
    + intros H. inversion H; subst. split; [exact Hno|]. split.
      * exists c. now rewrite Nat.sub_diag.
      * intros j c0 Hj. lia.
  - intros H. pose proof (first_failure_range _ _ _ _ H) as Hr.
    apply IH in H as (H1 & (c' & H2 & H3) & H4). split; [exact H1|]. split.
    + exists c'. replace (k - pos)%nat with (S (k - S pos)) by lia. auto.
    + intros j c0 Hj. destruct (Nat.eq_dec j pos) as [->|Hne].
      * rewrite Nat.sub_diag. cbn [nth_error]. intros Hc. inversion Hc; subst.
        congruence.
      * replace (j - pos)%nat with (S (j - S pos)) by lia. cbn [nth_error].
        apply H4. lia.
Qed.

Lemma first_failure_None P : forall d pos,
  first_failure P pos d = None ->
  forall j c, nth_error d j = Some c -> is_checked c = true ->
    hip_ret P (pos + j) = hipSuccess.
Proof.
  induction d as [|c rest IH]; intros pos; cbn [first_failure].
  - intros _ [|j] c H; discriminate.
  - destruct (is_checked c) eqn:Ec; cbn [andb].
    + destruct (Z.eqb_spec (hip_ret P pos) hipSuccess) as [Hok|Hno]; cbn [negb];
        [|discriminate].
      intros H [|j] c0; cbn [nth_error].
      * intros _ _. now rewrite Nat.add_0_r.
      * intros Hc Hc0. replace (pos + S j)%nat with (S pos + j)%nat by lia.
        now apply (IH _ H j c0).
    + intros H [|j] c0; cbn [nth_error].
      * intros Hc. inversion Hc; subst. congruence.
      * intros Hc Hc0. replace (pos + S j)%nat with (S pos + j)%nat by lia.
        now apply (IH _ H j c0).
Qed.

(** *** How a run stops *)

Lemma explained_ret P {A} (a : A) : explained P (ret a).
Proof. intros pos s d H. discriminate. Qed.

Lemma explained_call P c : explained P (call c).
Proof. intros pos s d H. discriminate. Qed.

Lemma explained_undefined P {A} : explained P (@halt A Undefined).
Proof. intros pos s d H. inversion H. exact I. Qed.

Lemma explained_bind P {A B} (m : M A) (f : A -> M B) :
  explained P m -> (forall a, explained P (f a)) -> explained P (bind m f).
Proof.
  intros Hm Hf pos s d. unfold bind.
  destruct (m pos) as [a d1|s1 d1] eqn:E.
  - destruct (f a (pos + length d1)%nat) as [b d2|s2 d2] eqn:E2; [discriminate|].
    intros H. inversion H; subst. apply Hf in E2.
    destruct s; simpl in *; auto.
    + destruct E2 as (d' & c & -> & Hc). exists (d1 ++ d'), c.
      now rewrite app_assoc.
    + destruct E2 as (d' & c & -> & Hc & Hn). exists (d1 ++ d'), c.
      rewrite app_assoc, length_app, Nat.add_assoc. auto.
  - intros H. inversion H; subst. now apply Hm.
Qed.

(** [fprintf(stderr, ...); exit(code);] and [argp_usage(state);] *)
Lemma explained_call_exit P {A} c code :
  exit_message code c = true ->
  explained P (bind (call c) (fun _ => @exit A code)).
Proof.
  intros Hc pos s d H. inversion H; subst. exists [], c. auto.
Qed.

Lemma explained_checkHip P c : explained P (checkHip P c).
Proof.
  intros pos s d. unfold checkHip, bind, call, assertHip.
  destruct (hip_ret P pos =? hipSuccess) eqn:E; simpl; [discriminate|].
  intros H. inversion H; subst. exists [c], (fprintf_stderr (CheckHip (hip_ret P pos))).
  split; [reflexivity|]. simpl. now rewrite Z.eqb_refl, E.
Qed.

(** A host allocation followed by [assert(p != NULL)]. *)
Lemma explained_host_buffer P {B} (b : bool) (c1 c2 : Call)
    (f : Handle -> Handle) (k : Handle -> M B) :
  is_host_alloc c1 = true -> is_host_alloc c2 = true ->
  (forall p, f p = p) ->
  (forall p, explained P (k p)) ->
  explained P (bind (if b then call c1 else checkHip P c2)
                 (fun p => bind (assert_not_null P (f p)) (fun _ => k p))).
Proof.
  intros H1 H2 Hf Hk pos s d.
  assert (Hnull : forall s0 c d0,
            is_host_alloc c = true ->
            bind (assert_not_null P (f pos)) (fun _ => k pos) (pos + 1)%nat
            = Halt s0 d0 ->
            stop_explained P pos s0 (c :: d0)).
  { intros s0 c d0 Hc. unfold bind at 1, assert_not_null. rewrite Hf.
    destruct (null_result P pos) eqn:En; simpl.
    - intros H. inversion H; subst. exists [], c. simpl. now rewrite Nat.add_0_r.
    - rewrite Nat.add_0_r.
      destruct (k pos (pos + 1)%nat) as [x dx|sx dx] eqn:Ek; [discriminate|].
      intros H. inversion H; subst. apply Hk in Ek.
      destruct s0; simpl in *; auto.
      + destruct Ek as (d' & c' & -> & Hc'). exists (c :: d'), c'. auto.
      + destruct Ek as (d' & c' & -> & Hc' & Hn). exists (c :: d'), c'.
        simpl. replace (pos + S (length d'))%nat with (pos + 1 + length d')%nat by lia.
        auto. }
  destruct b.
  - rewrite (bind_run _ _ pos pos [c1] eq_refl). cbn [length].
    destruct (bind (assert_not_null P (f pos)) _ (pos + 1)%nat) as [x dx|sx dx] eqn:E;
      [discriminate|].
    intros H. inversion H; subst. now apply (Hnull _ c1 _ H1 eq_refl).
  - destruct (Z.eqb_spec (hip_ret P pos) hipSuccess) as [Hok|Hno].
    + rewrite (bind_run _ _ pos pos [c2] (checkHip_ok P c2 pos Hok)). cbn [length].
      destruct (bind (assert_not_null P (f pos)) _ (pos + 1)%nat) as [x dx|sx dx] eqn:E;
        [discriminate|].
      intros H. inversion H; subst. now apply (Hnull _ c2 _ H2 eq_refl).
    + rewrite (bind_stop _ _ pos _ _ (checkHip_fail P c2 pos Hno)).
      intros H. inversion H; subst.
      exists [c2], (fprintf_stderr (CheckHip (hip_ret P pos))).
      split; [reflexivity|]. simpl. rewrite Z.eqb_refl.
      now destruct (Z.eqb_spec (hip_ret P pos) hipSuccess).
Qed.

Lemma explained_if P {A} (c : bool) (m1 m2 : M A) :
  explained P m1 -> explained P m2 -> explained P (if c then m1 else m2).
Proof. now destruct c. Qed.

Lemma explained_for_from P body :
  (forall i t, explained P (body i t)) ->
  forall n i a, explained P (for_from body i n a).
Proof.
  intros Hb. induction n as [|n IH]; intros i a; cbn [for_from].
  - apply explained_ret.
  - destruct a as [|t rest]; [apply explained_undefined|].
    apply explained_bind; [apply Hb|]. intros t'.
    apply explained_bind; [apply IH|]. intros rest'. apply explained_ret.
Qed.

Ltac explained_step :=
  match goal with
  | |- explained _ (ret _) => apply explained_ret
  | |- explained _ (halt Undefined) => apply explained_undefined
  | |- explained _ (bind (call _) (fun _ => exit _)) =>
      apply explained_call_exit; reflexivity
  | |- explained _ (bind (if _ then call _ else checkHip _ _) _) =>
      apply explained_host_buffer; [reflexivity|reflexivity|reflexivity|intros ?]
  | |- explained _ (call _) => apply explained_call
  | |- explained _ (checkHip _ _) => apply explained_checkHip
  | |- explained _ (bind _ _) => apply explained_bind; [|intros ?]
  | |- explained _ (for_each _ _ _) => apply explained_for_from; intros ? ?
  | |- explained _ (if _ then _ else _) => apply explained_if
  | |- explained _ (match ?x with _ => _ end) => destruct x
  end.

Lemma explained_parse_opt P k arg state : explained P (parse_opt k arg state).
Proof. unfold parse_opt. cbv zeta. repeat explained_step. Qed.

Lemma explained_argp_options P : forall opts state,
  explained P (argp_options opts state).
Proof.
  induction opts as [|[k arg] rest IH]; intros state; cbn [argp_options].
  - apply explained_ret.
  - repeat first [apply IH | apply explained_parse_opt | explained_step].
Qed.

Lemma explained_issue P n_bytes is_last t : explained P (issue P n_bytes is_last t).
Proof. unfold issue, direct_transfer, dtod_transfer. repeat explained_step. Qed.

Lemma explained_issue_loop P n_iter n_bytes n : forall count i a,
  explained P (issue_loop P n_iter n_bytes n count i a).
Proof.
  induction count as [|count IH]; intros i a; cbn [issue_loop].
  - apply explained_ret.
  - apply explained_bind; [|intros a'; apply IH].
    unfold issue_round. apply explained_for_from. intros j t. apply explained_issue.
Qed.

Lemma explained_main P argc opts : explained P (main P argc opts).
Proof.
  unfold main, init, argp_parse, transfer_init, init_one, dtoh_transfer_init,
    htod_transfer_init, dtod_transfer_init, _transfer_init_common,
    set_numa_affinity, synchronize, report, fini, fini_one.
  cbv zeta.
  repeat first
    [ apply explained_argp_options
    | apply explained_parse_opt
    | apply explained_issue_loop
    | explained_step ].
Qed.

(** *** The configuration read from the command line *)

Lemma for_from_pointwise (R : Transfer_t -> Transfer_t -> Prop) body :
  (forall i t pos t' d, body i t pos = Ret t' d -> R t t') ->
  forall n i a pos a' d,
    for_from body i n a pos = Ret a' d ->
    Forall2 R (firstn n a) (firstn n a') /\ skipn n a' = skipn n a.
Proof.
  intros Hb. induction n as [|n IH]; intros i a pos a' d H; cbn [for_from] in H.
  - apply ret_Ret in H as (-> & _). simpl. auto.
  - destruct a as [|t rest]; [discriminate|]. repeat step_ret.
    match goal with H : body _ _ _ = _ |- _ => apply Hb in H end.
    match goal with H : for_from _ _ _ _ _ = _ |- _ => apply IH in H as (H1 & H2) end.
    simpl. auto.
Qed.

Lemma init_one_keeps P n_size alloc_flags t pos t' d :
  init_one P n_size alloc_flags t pos = Ret t' d ->
  type t' = type t /\ device t' = device t /\ device2 t' = device2 t.
Proof.
  unfold init_one, dtoh_transfer_init, htod_transfer_init, dtod_transfer_init.
  intros H. destruct (type t) eqn:Ety; repeat step_ret;
    repeat match goal with
      | H : _transfer_init_common _ _ _ = Ret _ _ |- _ =>
          apply common_Ret in H;
          destruct H as (? & ? & ? & ? & ? & ? & ? & ? & ?)
      | H : set_numa_affinity _ _ _ = Ret _ _ |- _ =>
          apply set_numa_affinity_Ret in H;
          destruct H as (? & ? & ? & ? & ? & ?)
      end;
    simpl; repeat split; congruence.
Qed.

Lemma argp_options_requested : forall opts state pos state' d,
  argp_options opts state pos = Ret state' d ->
  0 <= n_transfers (input state) ->
  let n := Z.to_nat (n_transfers (input state)) in
  n_transfers (input state')
  = n_transfers (input state) + Z.of_nat (length (requested opts)) /\
  length (transfer (input state')) = length (transfer (input state)) /\
  (forall j, (j < n)%nat ->
     nth_error (transfer (input state')) j = nth_error (transfer (input state)) j) /\
  (forall i ty, nth_error (requested opts) i = Some ty ->
     exists t, nth_error (transfer (input state')) (n + i) = Some t /\
               type t = ty /\ devices_set t).
Proof.
  induction opts as [|[k arg] rest IH]; intros state pos state' d H H0;
    cbn [argp_options] in H.
  - apply ret_Ret in H as (-> & _). cbv zeta. simpl.
    split; [lia|]. split; [reflexivity|]. split; [auto|].
    intros [|i] ty; discriminate.
  - repeat step_ret.
    match goal with H : parse_opt _ _ _ _ = _ |- _ =>
      pose proof (parse_opt_Ret _ _ _ _ _ _ H) as (-> & _);
      apply parse_opt_adds in H; cbv zeta in H; destruct H as (Hlen & Hk) end.
    match goal with H : argp_options _ _ _ = _ |- _ => rename H into Hr end.
    unfold requested. cbn [flat_map fst]. fold (requested rest).
    destruct (type_of_key k) as [ty0|] eqn:Ek.
    + destruct Hk as (Hn & Hlt & (t & Ht & Hty & Hdev) & Hframe).
      apply IH in Hr; [|lia]. cbv zeta in Hr.
      destruct Hr as (Hn' & Hlen' & Hfr' & Hreq). rewrite Hn in *.
      replace (Z.to_nat (n_transfers (input state) + 1))
        with (S (Z.to_nat (n_transfers (input state)))) in * by lia.
      cbv zeta. simpl option_list. cbn [app length]. split; [lia|].
      split; [congruence|]. split.
      * intros j Hj. rewrite Hfr' by lia. apply Hframe. lia.
      * intros [|i] ty; cbn [nth_error].
        -- intros Hty0. injection Hty0 as <-. exists t.
           rewrite Nat.add_0_r, Hfr' by lia.
           split; [exact Ht|]. split; [exact Hty|].
           unfold devices_set. rewrite Hty. exact Hdev.
        -- intros Hi. apply Hreq in Hi as (t1 & H1 & H2).
           exists t1. now rewrite Nat.add_succ_r.
    + destruct Hk as (Hn & Htr). apply IH in Hr; [|lia]. cbv zeta in Hr.
      rewrite Hn, Htr in Hr. exact Hr.
    + match goal with H : argp_options _ _ _ = _ |- _ => apply IH in H; [|lia] end.
      unfold requested. cbn [flat_map fst]. fold (requested rest).
      rewrite not_option_no_transfer by assumption. assumption.
Qed.

Lemma parse_opt_end arg state :
  parse_opt ARGP_KEY_END arg state
  = if n_transfers (input state) =? 0 then (call argp_usage ;; exit EX_USAGE)
    else ret (0, state).
Proof. reflexivity. Qed.

Lemma argp_parse_requested opts hits pos hits' d :
  argp_parse opts hits pos = Ret hits' d ->
  n_transfers hits = 0 ->
  n_transfers hits' = Z.of_nat (length (requested opts)) /\
  1 <= n_transfers hits' /\
  length (transfer hits') = length (transfer hits) /\
  (forall i ty, nth_error (requested opts) i = Some ty ->
     exists t, nth_error (transfer hits') i = Some t /\ type t = ty /\ devices_set t).
Proof.
  unfold argp_parse. intros H Hn. repeat step_ret.
  match goal with H : parse_opt _ _ _ _ = _ |- _ =>
    rewrite parse_opt_end in H;
    destruct (Z.eqb_spec (n_transfers (input x)) 0) as [|Hne]; [discriminate H|];
    apply ret_Ret in H as (-> & _) end.
  match goal with H : argp_options _ _ _ = _ |- _ =>
    apply argp_options_requested in H; [|simpl; lia] end.
  cbv zeta in H. simpl in H. rewrite Hn in H. simpl in H.
  destruct H as (H1 & H2 & _ & H3). simpl. auto with zarith.
Qed.

Lemma map_firstn_nth {A B} (f : A -> B) (l : list A) (r : list B) :
  (length r <= length l)%nat ->
  (forall i y, nth_error r i = Some y ->
     exists x, nth_error l i = Some x /\ f x = y) ->
  map f (firstn (length r) l) = r.
Proof.
  revert l. induction r as [|y r IH]; intros l Hlen H; [reflexivity|].
  destruct l as [|x l]; [simpl in Hlen; lia|]. simpl.
  destruct (H O y eq_refl) as (x0 & Hx & Hf). simpl in Hx. inversion Hx; subst.
  f_equal. apply IH; [simpl in Hlen; lia|].
  intros i y0 Hi. apply (H (S i)). exact Hi.
Qed.

(** *** The allocation flags *)

Lemma land_clear_same f a : Z.land (Z.land f (Z.lnot a)) a = 0.
Proof.
  apply Z.bits_inj'. intros i Hi.
  rewrite !Z.land_spec, Z.lnot_spec, Z.bits_0 by lia.
  now destruct (Z.testbit f i), (Z.testbit a i).
Qed.

Lemma land_clear_other f a b :
  Z.land a b = 0 -> Z.land (Z.land f (Z.lnot a)) b = Z.land f b.
Proof.
  intros H. apply Z.bits_inj'. intros i Hi.
  assert (Hab : Z.testbit a i && Z.testbit b i = false)
    by (now rewrite <- Z.land_spec, H, Z.bits_0).
  rewrite !Z.land_spec, Z.lnot_spec by lia.
  destruct (Z.testbit f i), (Z.testbit a i), (Z.testbit b i); auto.
Qed.

Lemma parse_opt_flags k arg state pos r d :
  parse_opt k arg state pos = Ret r d ->
  ((Z.land (alloc_flags (input (snd r))) is_pinned =? 0)
   = (Z.land (alloc_flags (input state)) is_pinned =? 0) || (k =? key "m")) /\
  ((Z.land (alloc_flags (input (snd r))) is_numa_aware =? 0)
   = (Z.land (alloc_flags (input state)) is_numa_aware =? 0) || (k =? key "n")).
Proof.
  unfold parse_opt. cbv zeta.
  destruct (k =? key "d") eqn:Ed.
  { apply Z.eqb_eq in Ed. subst k.
    destruct (nth_error _ _) as [t|]; [|discriminate].
    case_if Ec; [now_stops|]. intros H. apply ret_Ret in H as (-> & _).
    simpl. now rewrite !orb_false_r. }
  destruct (k =? key "h") eqn:Eh.
  { apply Z.eqb_eq in Eh. subst k.
    destruct (nth_error _ _) as [t|]; [|discriminate].
    case_if Ec; [now_stops|]. intros H. apply ret_Ret in H as (-> & _).
    simpl. now rewrite !orb_false_r. }
  destruct (k =? key "i") eqn:Ei.
  { apply Z.eqb_eq in Ei. subst k.
    case_if Ec; [now_stops|]. intros H. apply ret_Ret in H as (-> & _).
    simpl. now rewrite !orb_false_r. }
  destruct (k =? key "n") eqn:En.
  { apply Z.eqb_eq in En. subst k.
    intros H. apply ret_Ret in H as (-> & _). cbn [snd input alloc_flags set_alloc_flags].
    rewrite land_clear_same, land_clear_other by reflexivity.
    change (key "n" =? key "m") with false. now rewrite orb_false_r, orb_true_r. }
  destruct (k =? key "m") eqn:Em.
  { intros H. apply ret_Ret in H as (-> & _). cbn [snd input alloc_flags set_alloc_flags].
    rewrite land_clear_same, land_clear_other by reflexivity.
    now rewrite orb_false_r, orb_true_r. }
  destruct (k =? key "p") eqn:Ep.
  { destruct (nth_error _ _) as [t|]; [|discriminate].
    destruct (strtok arg 0) as [token save].
    destruct (strtol_token arg token None (errno state)) as [[v endptr] e].
    case_if Ec1; [now_stops|].
    destruct (strtok arg save) as [token2 save2].
    destruct (strtol_token arg token2 endptr e) as [[v2 endptr2] e2].
    case_if Ec2; [now_stops|].
    destruct (strtok arg save2) as [token3 save3].
    case_if Ec3; [now_stops|].
    intros H. apply ret_Ret in H as (-> & _). simpl. now rewrite !orb_false_r. }
  destruct (k =? key "s") eqn:Es.
  { case_if Ec; [now_stops|]. case_if Ec'; [now_stops|].
    intros H. apply ret_Ret in H as (-> & _). simpl. now rewrite !orb_false_r. }
  destruct (k =? ARGP_KEY_END).
  { case_if Ec; [now_stops|].
    intros H. apply ret_Ret in H as (-> & _). simpl. now rewrite !orb_false_r. }
  intros H. apply ret_Ret in H as (-> & _). simpl. now rewrite !orb_false_r.
Qed.

Lemma argp_options_flags : forall opts state pos state' d,
  argp_options opts state pos = Ret state' d ->
  ((Z.land (alloc_flags (input state')) is_pinned =? 0)
   = (Z.land (alloc_flags (input state)) is_pinned =? 0)
     || has_key (key "m") opts) /\
  ((Z.land (alloc_flags (input state')) is_numa_aware =? 0)
   = (Z.land (alloc_flags (input state)) is_numa_aware =? 0)
     || has_key (key "n") opts).
Proof.
  induction opts as [|[k arg] rest IH]; intros state pos state' d H;
    cbn [argp_options] in H.
  - apply ret_Ret in H as (-> & _). simpl. now rewrite !orb_false_r.
  - repeat step_ret.
    + match goal with H : parse_opt _ _ _ _ = _ |- _ =>
        apply parse_opt_flags in H as (H1 & H2) end.
      match goal with H : argp_options _ _ _ = _ |- _ =>
        apply IH in H as (H3 & H4) end.
      unfold has_key in *. cbn [existsb fst].
      rewrite H3, H4, H1, H2, !orb_assoc. auto.
    + match goal with H : is_option _ = false |- _ =>
        apply not_option_keys in H as (_ & _ & _ & _ & Hn & Hm & _) end.
      match goal with H : argp_options _ _ _ = _ |- _ =>
        apply IH in H as (H3 & H4) end.
      unfold has_key in *. cbn [existsb fst]. now rewrite Hn, Hm.
Qed.

(** The flags [init] returns: both set, unless [--disable-pinned-memory] or
    [--disable-numa-affinity] is on the command line. *)
Lemma argp_parse_flags P p argc opts pos hits d :
  argp_parse opts (default_hits P p argc) pos = Ret hits d ->
  (Z.land (alloc_flags hits) is_pinned =? 0) = has_key (key "m") opts /\
  (Z.land (alloc_flags hits) is_numa_aware =? 0) = has_key (key "n") opts.
Proof.
  unfold argp_parse. intros H. repeat step_ret.
  match goal with H : parse_opt _ _ _ _ = _ |- _ =>
    apply parse_opt_flags in H as (H1 & H2) end.
  match goal with H : argp_options _ _ _ = _ |- _ =>
    apply argp_options_flags in H as (H3 & H4) end.
  cbn [snd input] in *. simpl in H3, H4.
  rewrite H1, H2, H3, H4. change (ARGP_KEY_END =? key "m") with false.
  change (ARGP_KEY_END =? key "n") with false. now rewrite !orb_false_r.
Qed.

Lemma init_flags P argc opts pos hits d :
  init P argc opts pos = Ret hits d ->
  (Z.land (alloc_flags hits) is_pinned =? 0) = has_key (key "m") opts /\
  (Z.land (alloc_flags hits) is_numa_aware =? 0) = has_key (key "n") opts.
Proof.
  unfold init, transfer_init. intros H. repeat step_ret.
  match goal with H : argp_parse _ _ _ = _ |- _ =>
    apply argp_parse_flags in H end.
  exact H.
Qed.

Lemma emits_bind_post (Q : Call -> Prop) {A B} (R : A -> Prop) (m : M A)
    (f : A -> M B) :
  emits Q m ->
  (forall pos a d, m pos = Ret a d -> R a) ->
  (forall a, R a -> emits Q (f a)) ->
  emits Q (bind m f).
Proof.
  intros Hm HR Hf pos. specialize (Hm pos). unfold bind.
  destruct (m pos) as [a d1|s d1] eqn:E; simpl in *; [|exact Hm].
  specialize (Hf a (HR _ _ _ E) (pos + length d1)%nat).
  destruct (f a (pos + length d1)%nat); simpl in *; apply Forall_app; auto.
Qed.

Lemma emits_weaken (Q Q' : Call -> Prop) {A} (m : M A) :
  (forall c, Q c -> Q' c) -> emits Q m -> emits Q' m.
Proof. intros H Hm pos. eapply Forall_impl; [exact H|apply Hm]. Qed.

Lemma emits_argp_options Q : forall opts state,
  (forall k arg state, emits Q (parse_opt k arg state)) ->
  (forall text, Q (argp_print text)) ->
  emits Q (argp_options opts state).
Proof.
  intros opts state Hp Hq. revert state.
  induction opts as [|[k arg] rest IH]; intros state; cbn [argp_options].
  - apply emits_ret.
  - emits_all; try apply Hq; try apply Hp; apply IH.
Qed.

(** [parse_opt] only prints. *)
Lemma parse_opt_prints k arg state :
  emits (fun c => match c with
                  | fprintf_stderr _ | argp_usage => True
                  | _ => False
                  end) (parse_opt k arg state).
Proof. unfold parse_opt. cbv zeta. emits_all; exact I. Qed.

Lemma calls_bind_bind_call {A B} c (g : nat -> M A) (h : A -> M B) pos :
  calls (bind (bind (call c) g) h pos) = c :: calls (bind (g pos) h (pos + 1)%nat).
Proof.
  unfold bind, call. cbn [length].
  destruct (g pos (pos + 1)%nat) as [a d|s d]; cbn [app length]; [|reflexivity].
  replace (pos + S (length d))%nat with (pos + 1 + length d)%nat by lia.
  now destruct (h a (pos + 1 + length d)%nat).
Qed.

Lemma emits_for_from_In Q body : forall n i a,
  (forall j t, In t (firstn n a) -> emits Q (body j t)) ->
  emits Q (for_from body i n a).
Proof.
  induction n as [|n IH]; intros i a Hb; cbn [for_from].
  - apply emits_ret.
  - destruct a as [|t rest]; [apply emits_halt|].
    apply emits_bind; [apply Hb; now left|]. intros t'.
    apply emits_bind; [|intros ?; apply emits_ret].
    apply IH. intros j u Hu. apply Hb. now right.
Qed.

Lemma type_mark_started t : type (mark_started t) = type t.
Proof. unfold mark_started. now destruct (is_started t). Qed.

Lemma Forall2_type_In (R : Transfer_t -> Transfer_t -> Prop) l l' tys :
  (forall t t', R t t' -> type t' = type t) ->
  Forall2 R l l' ->
  (forall t, In t l -> In (type t) tys) ->
  forall t, In t l' -> In (type t) tys.
Proof.
  intros HR HF. induction HF as [|t t' l l' Ht _ IH]; intros Hl u Hu;
    [destruct Hu|].
  destruct Hu as [<-|Hu].
  - rewrite (HR _ _ Ht). apply Hl. now left.
  - apply IH; [|exact Hu]. intros v Hv. apply Hl. now right.
Qed.

(** The calls of [main] after the [malloc] of the transfer array all
    satisfy [Q], when the calls of the allocation and of the release of a
    transfer do, for the flags and the transfer types of the command line,
    and the other calls of [main] do. *)
Lemma main_calls_after_malloc (Q : Call -> Prop) P argc opts :
  (forall flags,
     (Z.land flags is_pinned =? 0) = has_key (key "m") opts ->
     (Z.land flags is_numa_aware =? 0) = has_key (key "n") opts ->
     forall t, In (type t) (requested opts) ->
       (forall n, emits Q (init_one P n flags t)) /\
       emits Q (fini_one P flags t)) ->
  Q (free O) ->
  (forall c, report_call c = true \/ issue_call c = true \/
             c = pthread_create \/ c = argp_usage \/
             (exists text, c = argp_print text) -> Q c) ->
  exists rest,
    calls (run (main P argc opts))
    = malloc (to_size_t (sizeof_Transfer_t P * (argc - 1))) :: rest /\
    Forall Q rest.
Proof.
  intros Hflags Hfree HQ. unfold run, main, init.
  rewrite calls_bind_bind_call. eexists. split; [reflexivity|].
  cbn [Nat.add].
  set (R := fun hits : Hits_t =>
              (Z.land (alloc_flags hits) is_pinned =? 0) = has_key (key "m") opts /\
              (Z.land (alloc_flags hits) is_numa_aware =? 0) = has_key (key "n") opts /\
              transfer_p hits = O /\
              forall t, In t (firstn (Z.to_nat (n_transfers hits)) (transfer hits)) ->
                        In (type t) (requested opts)).
  assert (Hmsg : forall m, Q (fprintf_stderr m)) by (intros m; apply HQ; auto).
  assert (Hpr : forall m, Q (printf m)) by (intros m; apply HQ; auto).
  apply (emits_bind_post Q R).
  - apply emits_if; [emits_all; apply Hmsg|].
    apply (emits_bind_post Q R).
    + unfold argp_parse. apply emits_bind; [|intros st; apply emits_bind;
        [|intros ?; apply emits_ret]].
      * apply emits_argp_options; [|intros text; apply HQ; eauto 6].
        intros k arg st.
        eapply emits_weaken; [|apply parse_opt_prints].
        intros c Hc. destruct c; try contradiction; apply HQ; auto.
      * eapply emits_weaken; [|apply parse_opt_prints].
        intros c Hc. destruct c; try contradiction; apply HQ; auto.
    + intros pos hits d H.
      pose proof (argp_parse_flags _ _ _ _ _ _ _ H) as (H1 & H2).
      pose proof (argp_parse_Ret _ _ _ _ _ H) as (_ & _ & Hp & _).
      pose proof (argp_parse_bound _ _ _ _ _ H) as Hb.
      apply argp_parse_requested in H as (Hn & _ & _ & Hreq); [|reflexivity].
      unfold R. split; [exact H1|]. split; [exact H2|]. split; [exact Hp|].
      intros t Ht. apply In_nth_error in Ht as (i & Hi).
      assert (Hlt : (i < length (firstn (Z.to_nat (n_transfers hits))
                                   (transfer hits)))%nat)
        by (apply nth_error_Some; congruence).
      rewrite length_firstn in Hlt. rewrite nth_error_firstn in Hi.
      destruct (Nat.ltb_spec i (Z.to_nat (n_transfers hits))); [|discriminate].
      destruct (nth_error (requested opts) i) as [ty|] eqn:Ety.
      * pose proof (nth_error_In _ _ Ety) as Hin.
        apply Hreq in Ety as (t0 & Ht0 & Hty & _). congruence.
      * apply nth_error_None in Ety. lia.
    + intros hits (H1 & H2 & H3 & H4). unfold transfer_init, for_each.
      apply emits_bind; [|intros ?; apply emits_ret].
      apply emits_for_from_In. intros j t Ht.
      apply (Hflags _ H1 H2 t (H4 t Ht)).
  - intros pos hits d H.
    destruct (null_result P O); [discriminate H|].
    unfold transfer_init, for_each in H. repeat step_ret.
    match goal with H : argp_parse _ _ _ = _ |- _ =>
      pose proof (argp_parse_flags _ _ _ _ _ _ _ H) as (H1 & H2);
      pose proof (argp_parse_Ret _ _ _ _ _ H) as (_ & _ & Hp & _);
      pose proof (argp_parse_bound _ _ _ _ _ H) as Hb;
      apply argp_parse_requested in H as (Hn & _ & _ & Hreq); [|reflexivity] end.
    match goal with H : for_from _ _ _ _ _ = _ |- _ =>
      apply (for_from_pointwise (fun t t' => type t' = type t)) in H;
        [|intros i t p t' d' Hi; now apply init_one_keeps in Hi];
      destruct H as (HF & _) end.
    unfold R. cbn [alloc_flags transfer_p n_transfers transfer set_transfer].
    split; [exact H1|]. split; [exact H2|]. split; [exact Hp|].
    eapply Forall2_type_In; [|exact HF|]; [auto|].
    intros t Ht. apply In_nth_error in Ht as (i & Hi).
    match type of Hi with nth_error (firstn ?n ?l) _ = _ =>
      assert (Hlt : (i < length (firstn n l))%nat)
        by (apply nth_error_Some; congruence) end.
    rewrite length_firstn in Hlt. rewrite nth_error_firstn in Hi.
    match type of Hi with (if ?b then _ else _) = _ =>
      destruct b; [|discriminate] end.
    destruct (nth_error (requested opts) i) as [ty|] eqn:Ety.
    + pose proof (nth_error_In _ _ Ety) as Hin.
      apply Hreq in Ety as (t0 & Ht0 & Hty & _). congruence.
    + apply nth_error_None in Ety. lia.
  - intros hits (H1 & H2 & H3 & H4).
    set (n := Z.to_nat (n_transfers hits)) in *.
    set (Ra := fun a : list Transfer_t =>
                 forall t, In t (firstn n a) -> In (type t) (requested opts)).
    apply emits_bind; [apply emits_call, HQ; auto|]. intros _.
    apply (emits_bind_post Q Ra).
    + eapply emits_weaken; [|apply issue_loop_emits]. intros c Hc. apply HQ. auto.
    + intros pos a d H. apply issue_loop_Ret in H as (_ & -> & _).
      destruct (Z.to_nat (to_size_t (n_iter hits))); [exact H4|].
      intros t. rewrite firstn_map_from. intros Ht.
      apply in_map_iff in Ht as (u & <- & Hu). rewrite type_mark_started. auto.
    + intros a Ha. apply (emits_bind_post Q Ra).
      * apply emits_for_each. intros i t.
        eapply emits_weaken; [|apply synchronize_quiet]. intros c Hc. apply HQ. auto.
      * intros pos a' d H. apply for_each_keep in H; [now subst|].
        intros i t p t' d'. apply synchronize_Ret.
      * intros a' Ha'. apply emits_bind; [apply emits_call, Hpr|]. intros _.
        apply (emits_bind_post Q Ra).
        -- apply emits_for_each. intros i t.
           eapply emits_weaken; [|apply report_quiet]. intros c Hc. apply HQ. auto.
        -- intros pos a2 d H. apply for_each_keep in H; [now subst|].
           intros i t p t' d'. apply report_Ret.
        -- intros a2 Ha2. apply emits_bind; [|intros ?; apply emits_ret].
           unfold fini. cbn [alloc_flags transfer_p n_transfers transfer set_transfer].
           apply emits_bind; [|intros ?; apply emits_bind;
                                [now apply emits_call; rewrite H3|intros ?; apply emits_ret]].
           unfold for_each. apply emits_for_from_In. intros j t Ht.
           apply (Hflags _ H1 H2 t (Ha2 t Ht)).
Qed.

(** *** Allocation, call by call *)

Lemma common_script P t pos t' d :
  _transfer_init_common P t pos = Ret t' d ->
  d = common_calls t /\
  start t' = (pos + length d - 3)%nat /\
  stop t' = (pos + length d - 2)%nat /\
  stream t' = (pos + length d - 1)%nat /\
  (3 <= length d)%nat /\
  dest t' = dest t /\ src t' = src t.
Proof.
  unfold _transfer_init_common, common_calls. intros H.
  destruct (device2 t >=? 0) eqn:E2; simpl in H; rewrite E2 in H;
    repeat step_ret; simpl; repeat split; try lia.
Qed.

Lemma numa_affinity_script P t pos t' d :
  set_numa_affinity P t pos = Ret t' d ->
  Forall (fun c => is_numa_call c = true) d /\
  stream t' = stream t /\ dest t' = dest t /\ src t' = src t.
Proof.
  unfold set_numa_affinity. intros H. repeat step_ret.
  - match goal with H : _ = (_, _) |- _ => clear H end.
    destruct o; simpl; repeat constructor.
  - destruct o; simpl; repeat constructor.
  - simpl. repeat constructor.
Qed.

(** The calls and the handles of the allocation of one transfer that
    returns. *)
Lemma init_one_script P n_size alloc_flags t pos t' d :
  init_one P n_size alloc_flags t pos = Ret t' d ->
  let n := to_size_t n_size in
  let base := (pos + length (common_calls t))%nat in
  start t' = (base - 3)%nat /\ stop t' = (base - 2)%nat /\
  stream t' = (base - 1)%nat /\
  match type t with
  | HTOD =>
      exists dn,
        Forall (fun c => is_numa_call c = true) dn /\
        d = common_calls t ++ dn ++ [host_alloc_call alloc_flags n; hipMalloc n] /\
        src t' = (base + length dn)%nat /\ dest t' = S (base + length dn)
  | DTOH =>
      exists dn,
        Forall (fun c => is_numa_call c = true) dn /\
        d = common_calls t ++ dn ++ [host_alloc_call alloc_flags n; hipMalloc n] /\
        dest t' = (base + length dn)%nat /\ src t' = S (base + length dn)
  | DTOD =>
      d = common_calls t ++ peer_calls n t /\
      dest t' = (base + 2)%nat /\ src t' = (base + 5)%nat
  end.
Proof.
  unfold init_one, dtoh_transfer_init, htod_transfer_init, dtod_transfer_init,
    host_alloc_call, peer_calls.
  intros H. cbv zeta.
  destruct (type t) eqn:Ety; repeat step_ret;
    repeat match goal with
      | H : _transfer_init_common _ _ _ = Ret _ _ |- _ =>
          let Hk := fresh "Hk" in
          pose proof (common_Ret _ _ _ _ _ H) as
            (_ & _ & _ & _ & _ & _ & Hk & Hk2 & _);
          apply common_script in H;
          destruct H as (? & ? & ? & ? & ? & ? & ?)
      | H : set_numa_affinity _ _ _ = Ret _ _ |- _ =>
          pose proof (set_numa_affinity_Ret _ _ _ _ _ H) as (? & ? & _);
          apply numa_affinity_script in H;
          destruct H as (? & ? & ? & ?)
      end; subst;
    cbn [start stop stream src dest set_dest set_src length app];
    (split; [congruence|split; [congruence|split; [congruence|]]]).
  all: try (eexists; split; [eassumption|]; rewrite ?app_nil_r;
            split; [reflexivity|]; split; lia).
  all: try (exists []; split; [constructor|]; rewrite ?app_nil_r;
            split; [reflexivity|]; cbn [length]; split; lia).
  cbn [device2 set_dest]. rewrite Hk, Hk2, ?app_nil_r.
  split; [reflexivity|]. cbn [length]. split; lia.
Qed.

(** *** The transfers [init] builds *)

(** Every cell a loop over the array has rewritten comes from one pass of
    its body, and the calls of that pass are a block of the calls of the
    loop. *)
Lemma for_from_each body : forall n i a pos a' d,
  for_from body i n a pos = Ret a' d ->
  forall t', In t' (firstn n a') ->
    exists j t p dj pre post,
      In t (firstn n a) /\
      body j t p = Ret t' dj /\ d = pre ++ dj ++ post /\
      p = (pos + length pre)%nat.
Proof.
  induction n as [|n IH]; intros i a pos a' d H t' Ht'; cbn [for_from] in H.
  - destruct Ht'.
  - destruct a as [|t rest]; [discriminate|]. repeat step_ret.
    match goal with H : for_from _ _ _ _ _ = Ret ?r ?dr |- _ =>
      rename H into Hrest; rename r into rest'; rename dr into drest end.
    match goal with H : body _ _ _ = Ret ?u ?du |- _ =>
      rename H into Hbody; rename u into t1; rename du into d1 end.
    cbn [firstn] in Ht'. destruct Ht' as [<-|Ht'].
    + exists i, t, pos, d1, [], (drest ++ []). cbn [app length firstn].
      rewrite Nat.add_0_r. split; [now left|]. auto.
    + destruct (IH _ _ _ _ _ Hrest t' Ht') as (j & u & p & dj & pre & post & Hu & Hj & -> & ->).
      exists j, u, (pos + length d1 + length pre)%nat, dj, (d1 ++ pre), (post ++ []).
      split; [now right|]. split; [exact Hj|].
      rewrite length_app, <- !app_assoc. split; [reflexivity|lia].
Qed.

Lemma nth_error_block {A} (pre dj post : list A) h :
  (length pre <= h < length pre + length dj)%nat ->
  nth_error (pre ++ dj ++ post) h = nth_error dj (h - length pre).
Proof.
  intros Hh. rewrite nth_error_app2 by lia. apply nth_error_app1. lia.
Qed.

(** The transfers of the array [init] returns: each comes from a pass of
    the loop of [transfer_init], whose calls are a block of the calls of
    [init], after the [malloc] of the array. *)
Lemma init_transfers P argc opts hits d :
  run (init P argc opts) = Ret hits d ->
  forall t', In t' (firstn (Z.to_nat (n_transfers hits)) (transfer hits)) ->
    exists t dj pre post,
      init_one P (n_size hits) (alloc_flags hits) t (length pre) = Ret t' dj /\
      d = pre ++ dj ++ post /\ pre <> [].
Proof.
  unfold run, init, transfer_init, for_each. intros H. repeat step_ret.
  match goal with H : argp_parse _ _ _ = _ |- _ =>
    apply argp_parse_Ret in H as (-> & _) end.
  cbn [n_transfers transfer set_transfer n_size alloc_flags].
  intros t' Ht'.
  match goal with H : for_from _ _ _ _ _ = _ |- _ =>
    destruct (for_from_each _ _ _ _ _ _ _ H t' Ht')
      as (j & t & p & dj & pre & post & _ & Hj & -> & ->) end.
  exists t, dj, (malloc (to_size_t (sizeof_Transfer_t P * (argc - 1))) :: pre),
    (post ++ []).
  cbn [length app Nat.add] in *. split; [exact Hj|].
  split; [now rewrite <- !app_assoc|discriminate].
Qed.

Lemma nth_error_app_at {A} (l1 l2 : list A) i :
  nth_error (l1 ++ l2) (length l1 + i) = nth_error l2 i.
Proof.
  rewrite nth_error_app2 by lia. f_equal. lia.
Qed.

Lemma buffer_of_host_alloc d h alloc_flags n :
  nth_error d h = Some (host_alloc_call alloc_flags n) ->
  buffer_of d h = Some (Host, n).
Proof.
  unfold buffer_of, host_alloc_call. intros ->.
  now destruct (Z.land alloc_flags is_pinned =? 0).
Qed.

Lemma buffer_of_hipMalloc d h n :
  nth_error d h = Some (hipMalloc n) -> buffer_of d h = Some (Device, n).
Proof. unfold buffer_of. now intros ->. Qed.

Lemma common_calls_length t : (5 <= length (common_calls t) <= 6)%nat.
Proof.
  unfold common_calls. destruct (device2 t >=? 0); cbn [length app]; lia.
Qed.

(** The handles of a transfer [init] has built, in the calls of [init]. *)
Lemma init_handles P argc opts hits d :
  run (init P argc opts) = Ret hits d ->
  forall t, In t (firstn (Z.to_nat (n_transfers hits)) (transfer hits)) ->
    let nb := to_size_t (n_size hits) in
    (src t < length d)%nat /\ (dest t < length d)%nat /\ src t <> dest t /\
    (stream t < length d)%nat /\ stream t = S (stop t) /\
    (start t < stop t)%nat /\
    nth_error d (stream t) = Some (hipStreamCreateWithFlags hipStreamNonBlocking) /\
    match type t with
    | HTOD => buffer_of d (src t) = Some (Host, nb) /\
              buffer_of d (dest t) = Some (Device, nb)
    | DTOH => buffer_of d (src t) = Some (Device, nb) /\
              buffer_of d (dest t) = Some (Host, nb)
    | DTOD => buffer_of d (src t) = Some (Device, nb) /\
              buffer_of d (dest t) = Some (Device, nb)
    end.
Proof.
  intros H t' Ht'.
  destruct (init_transfers _ _ _ _ _ H t' Ht') as (t & dj & pre & post & Hj & -> & _).
  pose proof (init_one_keeps _ _ _ _ _ _ _ Hj) as (Hty & _).
  apply init_one_script in Hj. cbv zeta in Hj.
  destruct Hj as (Hstart & Hstop & Hstream & Hj). cbv zeta.
  pose proof (common_calls_length t) as Hcc.
  assert (Hs : forall tail,
            nth_error (pre ++ (common_calls t ++ tail) ++ post) (stream t')
            = Some (hipStreamCreateWithFlags hipStreamNonBlocking)).
  { intros tail. rewrite Hstream.
    replace (length pre + length (common_calls t) - 1)%nat
      with (length pre + (length (common_calls t) - 1))%nat by lia.
    rewrite nth_error_app_at, <- app_assoc, nth_error_app1 by lia.
    unfold common_calls. destruct (device2 t >=? 0); reflexivity. }
  rewrite Hty. destruct (type t).
  - destruct Hj as (dn & _ & -> & Hsrc & Hdest).
    rewrite !length_app. cbn [length].
    split; [lia|]. split; [lia|]. split; [lia|]. split; [lia|]. split; [lia|].
    split; [lia|]. split; [apply Hs|]. split.
    + eapply buffer_of_host_alloc.
      replace (src t') with (length pre + (length (common_calls t) + (length dn + 0)))%nat by lia.
      rewrite nth_error_app_at, <- !app_assoc, nth_error_app_at, nth_error_app_at.
      reflexivity.
    + apply buffer_of_hipMalloc.
      replace (dest t') with (length pre + (length (common_calls t) + (length dn + 1)))%nat by lia.
      rewrite nth_error_app_at, <- !app_assoc, nth_error_app_at, nth_error_app_at.
      reflexivity.
  - destruct Hj as (dn & _ & -> & Hdest & Hsrc).
    rewrite !length_app. cbn [length].
    split; [lia|]. split; [lia|]. split; [lia|]. split; [lia|]. split; [lia|].
    split; [lia|]. split; [apply Hs|]. split.
    + apply buffer_of_hipMalloc.
      replace (src t') with (length pre + (length (common_calls t) + (length dn + 1)))%nat by lia.
      rewrite nth_error_app_at, <- !app_assoc, nth_error_app_at, nth_error_app_at.
      reflexivity.
    + eapply buffer_of_host_alloc.
      replace (dest t') with (length pre + (length (common_calls t) + (length dn + 0)))%nat by lia.
      rewrite nth_error_app_at, <- !app_assoc, nth_error_app_at, nth_error_app_at.
      reflexivity.
  - destruct Hj as (-> & Hdest & Hsrc). unfold peer_calls.
    rewrite !length_app. cbn [length].
    split; [lia|]. split; [lia|]. split; [lia|]. split; [lia|]. split; [lia|].
    split; [lia|]. split; [apply Hs|]. split.
    + apply buffer_of_hipMalloc.
      replace (src t') with (length pre + (length (common_calls t) + 5))%nat by lia.
      rewrite nth_error_app_at, <- !app_assoc, nth_error_app_at. reflexivity.
    + apply buffer_of_hipMalloc.
      replace (dest t') with (length pre + (length (common_calls t) + 2))%nat by lia.
      rewrite nth_error_app_at, <- !app_assoc, nth_error_app_at. reflexivity.
Qed.

(** *** The copies of a run *)

Lemma In_issue_copy n_bytes is_last t c :
  In c (issue_calls n_bytes is_last t) -> is_copy c = true ->
  c = copy_call n_bytes t.
Proof.
  intros Hin Hc.
  assert (H : In c (filter is_copy (issue_calls n_bytes is_last t)))
    by (apply filter_In; auto).
  rewrite copies_issue in H. destruct H as [<-|[]]. reflexivity.
Qed.

(** A copy of a run of [main] that returns is the copy of one of the
    transfers [init] built, and comes after the calls of [init]. *)
Lemma copy_of_run P argc opts r d :
  run (main P argc opts) = Ret r d ->
  exists hits d0 rest,
    run (init P argc opts) = Ret hits d0 /\ d = d0 ++ rest /\
    forall k c, nth_error d k = Some c -> is_copy c = true ->
      (length d0 < k)%nat /\
      exists t, In t (firstn (Z.to_nat (n_transfers hits)) (transfer hits)) /\
                c = copy_call (to_size_t (n_size hits)) t.
Proof.
  intros H. apply main_rounds in H
    as (hits & d0 & rounds & d1 & d2 & p & Hinit & _ & -> & _ & Hr & Hd0
        & Hd1 & _ & _ & _ & _ & _ & _).
  exists hits, d0, (pthread_create :: concat rounds ++ d1 ++ d2).
  split; [exact Hinit|]. split; [reflexivity|].
  intros k c Hk Hc.
  destruct (Nat.lt_ge_cases k (length d0)) as [Hlt|Hge].
  { rewrite nth_error_app1 in Hk by lia. apply nth_error_In in Hk.
    rewrite Forall_forall in Hd0. apply Hd0 in Hk. now destruct c. }
  rewrite nth_error_app2 in Hk by lia.
  destruct (k - length d0)%nat as [|k'] eqn:Ek.
  { simpl in Hk. inversion Hk; subst. discriminate. }
  split; [lia|]. cbn [nth_error] in Hk. apply nth_error_In in Hk.
  apply in_app_or in Hk as [Hk|Hk].
  2:{ rewrite Forall_forall in Hd1. apply Hd1 in Hk. now destruct c. }
  apply in_concat in Hk as (rd & Hrd & Hin).
  apply In_nth_error in Hrd as (j & Hj). apply Hr in Hj as (-> & _).
  unfold round_calls in Hin. rewrite calls_from_flat_map in Hin.
  apply in_flat_map in Hin as (u & Hu & Hin).
  apply In_issue_copy in Hin; [|exact Hc]. subst c.
  rewrite firstn_array_at in Hu. destruct j.
  - exists u. auto.
  - apply in_map_iff in Hu as (t & <- & Ht). exists t.
    split; [exact Ht|]. apply copy_call_mark_started.
Qed.

(** *** The work put on a stream *)

Lemma on_stream_launch s t : filter (on_stream s) (launch_calls t) = [].
Proof.
  unfold launch_calls. destruct (type t); simpl;
    destruct (numa_node t >=? 0); reflexivity.
Qed.

Lemma on_stream_copy s n_bytes t :
  on_stream s (copy_call n_bytes t) = Nat.eqb (stream t) s.
Proof. unfold copy_call. now destruct (type t). Qed.

(** What one [issue] puts on the stream [s]. *)
Lemma on_stream_issue s n_bytes is_last t :
  filter (on_stream s) (issue_calls n_bytes is_last t)
  = if Nat.eqb (stream t) s then
      (if is_started t then [] else [hipEventRecord (start t) (stream t)])
      ++ copy_call n_bytes t
      :: (if is_last then [hipEventRecord (stop t) (stream t)] else [])
    else [].
Proof.
  unfold issue_calls. cbn [filter on_stream].
  rewrite filter_app. cbn [filter]. rewrite on_stream_copy.
  destruct (is_started t), is_last; rewrite ?filter_app, ?on_stream_launch;
    cbn [filter on_stream app];
    destruct (Nat.eqb (stream t) s); reflexivity.
Qed.

Lemma on_stream_others s n_bytes is_last : forall l,
  ~ In s (map stream l) ->
  filter (on_stream s) (flat_map (issue_calls n_bytes is_last) l) = [].
Proof.
  induction l as [|u l IH]; intros Hs; [reflexivity|].
  cbn [flat_map]. rewrite filter_app, on_stream_issue, IH.
  - destruct (Nat.eqb_spec (stream u) s) as [E|_]; [|reflexivity].
    exfalso. apply Hs. left. exact E.
  - intros Hin. apply Hs. now right.
Qed.

(** What one round puts on the stream of a transfer, when the streams of
    the transfers are distinct. *)
Lemma on_stream_round n_bytes is_last : forall l t,
  NoDup (map stream l) -> In t l ->
  filter (on_stream (stream t)) (flat_map (issue_calls n_bytes is_last) l)
  = (if is_started t then [] else [hipEventRecord (start t) (stream t)])
    ++ copy_call n_bytes t
    :: (if is_last then [hipEventRecord (stop t) (stream t)] else []).
Proof.
  induction l as [|u l IH]; intros t Hnd Ht; [destruct Ht|].
  cbn [map] in Hnd. inversion Hnd as [|? ? Hu Hnd']; subst.
  cbn [flat_map]. rewrite filter_app, on_stream_issue.
  destruct Ht as [->|Ht].
  - rewrite Nat.eqb_refl, on_stream_others by exact Hu. now rewrite app_nil_r.
  - destruct (Nat.eqb_spec (stream u) (stream t)) as [E|_].
    + exfalso. apply Hu. rewrite E. now apply in_map.
    + now apply IH.
Qed.

Lemma NoDup_stops : forall l, NoDup (marks l) -> NoDup (map stop l).
Proof.
  induction l as [|t l IH]; intros H; [constructor|].
  cbn [marks flat_map app] in H. fold (marks l) in H.
  inversion H as [|? ? _ H1]; subst. inversion H1 as [|? ? H2 H3]; subst.
  cbn [map]. constructor; [|auto].
  intros Hin. apply H2. apply in_map_iff in Hin as (u & <- & Hu).
  unfold marks. apply in_flat_map. exists u. split; [exact Hu|]. simpl. auto.
Qed.

Lemma NoDup_map_S l : NoDup l -> NoDup (map S l).
Proof.
  induction 1 as [|x l Hx _ IH]; cbn [map]; constructor; [|exact IH].
  intros Hin. apply in_map_iff in Hin as (y & E & Hy). inversion E; subst. auto.
Qed.

(** A list given cell by cell. *)
Lemma list_by_nth {A} (g : nat -> A) : forall (l : list A),
  (forall k x, nth_error l k = Some x -> x = g k) ->
  l = map g (seq 0 (length l)).
Proof.
  intros l. generalize dependent g.
  induction l as [|x l IH]; intros g H; [reflexivity|].
  cbn [length seq map]. f_equal; [now apply (H O)|].
  rewrite <- seq_shift, map_map. apply IH.
  intros k y Hk. now apply (H (S k)).
Qed.

(** [m + 1] copies and one stop, by rounds. *)
Lemma concat_copies {A} (c e : A) : forall m i,
  concat (map (fun k => c :: (if Nat.eqb k (i + m) then [e] else []))
            (seq i (S m)))
  = repeat c (S m) ++ [e].
Proof.
  induction m as [|m IH]; intros i.
  - cbn [seq map concat app repeat]. now rewrite Nat.add_0_r, Nat.eqb_refl.
  - change (seq i (S (S m))) with (i :: seq (S i) (S m)).
    cbn [map concat]. destruct (Nat.eqb_spec i (i + S m)); [lia|].
    change (repeat c (S (S m)) ++ [e]) with (c :: (repeat c (S m) ++ [e])).
    rewrite <- (IH (S i)). cbn [app]. f_equal. f_equal.
    apply map_ext. intros k. now replace (S i + m)%nat with (i + S m)%nat by lia.
Qed.

(** One start, [n] copies and one stop, by rounds. *)
Lemma concat_blocks {A} (s c e : A) (n : nat) :
  (1 <= n)%nat ->
  concat (map (fun k => (match k with O => [s] | S _ => [] end)
                        ++ c :: (if Nat.eqb k (n - 1) then [e] else []))
            (seq 0 n))
  = s :: repeat c n ++ [e].
Proof.
  intros Hn. destruct n as [|[|m]]; [lia|reflexivity|].
  change (seq 0 (S (S m))) with (O :: seq 1 (S m)).
  cbn [map concat app Nat.eqb Nat.sub].
  change (repeat c (S (S m)) ++ [e]) with (c :: (repeat c (S m) ++ [e])).
  f_equal. f_equal.
  rewrite <- (concat_copies c e m 1). f_equal.
  apply map_ext_in. intros k Hk. apply in_seq in Hk.
  destruct k; [lia|]. reflexivity.
Qed.

Lemma filter_none {A} (f : A -> bool) (Q : A -> bool) d :
  Forall (fun c => Q c = true) d ->
  (forall c, Q c = true -> f c = false) ->
  filter f d = [].
Proof.
  intros Hd HQ. induction Hd as [|c d Hc _ IH]; [reflexivity|].
  cbn [filter]. now rewrite (HQ c Hc).
Qed.

(** *** The current device *)

Lemma device_after_app : forall d1 d2 cur,
  device_after cur (d1 ++ d2) = device_after (device_after cur d1) d2.
Proof.
  induction d1 as [|c d1 IH]; intros d2 cur; [reflexivity|].
  destruct c; cbn [app device_after]; apply IH.
Qed.

Lemma device_after_quiet : forall d cur,
  Forall (fun c => is_set_device c = false) d -> device_after cur d = cur.
Proof.
  induction d as [|c d IH]; intros cur H; [reflexivity|].
  inversion H; subst. destruct c; try discriminate; cbn [device_after]; auto.
Qed.

Lemma trace_devices_app : forall d1 d2 cur,
  trace_devices cur (d1 ++ d2)
  = trace_devices cur d1 ++ trace_devices (device_after cur d1) d2.
Proof.
  induction d1 as [|c d1 IH]; intros d2 cur; [reflexivity|].
  cbn [app trace_devices]. rewrite IH. f_equal. f_equal. f_equal.
  destruct c; reflexivity.
Qed.

Lemma trace_devices_quiet : forall d cur,
  Forall (fun c => is_set_device c = false) d ->
  trace_devices cur d = map (pair cur) d.
Proof.
  induction d as [|c d IH]; intros cur H; [reflexivity|].
  inversion H; subst. cbn [trace_devices map]. f_equal.
  rewrite <- IH by assumption. f_equal. now destruct c.
Qed.

Lemma current_device_block pre l i :
  current_device (pre ++ l) (length pre + i)
  = device_after (device_after None pre) (firstn i l).
Proof.
  unfold current_device. rewrite firstn_app_2. apply device_after_app.
Qed.

Lemma current_device_prefix d0 rest h :
  (h <= length d0)%nat -> current_device (d0 ++ rest) h = current_device d0 h.
Proof.
  intros Hh. unfold current_device. rewrite firstn_app.
  replace (h - length d0)%nat with O by lia. now rewrite app_nil_r.
Qed.

(** Calls that name no stream fit any device. *)
Lemma device_fits_others d : forall l cur,
  Forall (fun c => uses_stream c = false) l ->
  Forall (fun x => device_fits d (fst x) (snd x)) (trace_devices cur l).
Proof.
  induction l as [|c l IH]; intros cur H; [constructor|].
  inversion H; subst. cbn [trace_devices]. constructor; [|now apply IH].
  cbn [fst snd]. now destruct c.
Qed.

Lemma device_fits_flat_map d (f : Transfer_t -> list Call) : forall l cur,
  (forall u cur', In u l ->
     Forall (fun x => device_fits d (fst x) (snd x)) (trace_devices cur' (f u))) ->
  Forall (fun x => device_fits d (fst x) (snd x)) (trace_devices cur (flat_map f l)).
Proof.
  induction l as [|u l IH]; intros cur H; [constructor|].
  cbn [flat_map]. rewrite trace_devices_app. apply Forall_app. split.
  - apply H. now left.
  - apply IH. intros v cur' Hv. apply H. now right.
Qed.

Lemma device_fits_concat d : forall rounds cur,
  (forall rd cur', In rd rounds ->
     Forall (fun x => device_fits d (fst x) (snd x)) (trace_devices cur' rd)) ->
  Forall (fun x => device_fits d (fst x) (snd x)) (trace_devices cur (concat rounds)).
Proof.
  induction rounds as [|rd rounds IH]; intros cur H; [constructor|].
  cbn [concat]. rewrite trace_devices_app. apply Forall_app. split.
  - apply H. now left.
  - apply IH. intros v cur' Hv. apply H. now right.
Qed.

Lemma launch_calls_quiet t :
  Forall (fun c => is_set_device c = false) (launch_calls t).
Proof.
  unfold launch_calls. destruct (type t); destruct (numa_node t >=? 0);
    repeat constructor.
Qed.

(** The calls of one [issue] fit the devices of its transfer. *)
Lemma device_fits_issue d n_bytes is_last t cur :
  created_on_devices d t ->
  Forall (fun x => device_fits d (fst x) (snd x))
    (trace_devices cur (issue_calls n_bytes is_last t)).
Proof.
  intros (H1 & H2 & H3 & H4). unfold issue_calls.
  cbn [trace_devices device_after]. constructor; [exact I|].
  rewrite trace_devices_quiet.
  2:{ apply Forall_app. split.
      - destruct (is_started t); [constructor|].
        apply Forall_app. split; [apply launch_calls_quiet|repeat constructor].
      - constructor; [unfold copy_call; now destruct (type t)|].
        destruct is_last; repeat constructor. }
  apply Forall_map. cbn [fst snd]. apply Forall_app. split.
  - destruct (is_started t); [constructor|]. apply Forall_app. split.
    + unfold launch_calls. destruct (type t); destruct (numa_node t >=? 0);
        repeat constructor.
    + repeat constructor; [discriminate|assumption|assumption].
  - constructor.
    + unfold copy_call. destruct (type t); cbn [device_fits];
        repeat split; try discriminate; tauto.
    + destruct is_last; repeat constructor; [discriminate|assumption|assumption].
Qed.

Lemma created_on_devices_mark_started d t :
  created_on_devices d t -> created_on_devices d (mark_started t).
Proof. unfold mark_started. now destruct (is_started t). Qed.

Lemma current_device_at pre l1 l2 d h :
  d = pre ++ l1 ++ l2 -> h = (length pre + length l1)%nat ->
  current_device d h = device_after (device_after None pre) l1.
Proof.
  intros -> ->. unfold current_device.
  rewrite app_assoc, <- length_app, firstn_app, firstn_all, Nat.sub_diag.
  cbn [firstn]. now rewrite app_nil_r, device_after_app.
Qed.

Lemma common_calls_parts t :
  exists props,
    Forall (fun c => is_set_device c = false) props /\
    (1 <= length props)%nat /\
    common_calls t
    = props ++ [hipSetDevice (device t); hipEventCreate; hipEventCreate;
                hipStreamCreateWithFlags hipStreamNonBlocking].
Proof.
  unfold common_calls.
  exists (hipGetDeviceProperties (device t)
          :: (if device2 t >=? 0 then [hipGetDeviceProperties (device2 t)] else [])).
  split; [|split; [cbn [length]; lia|reflexivity]].
  destruct (device2 t >=? 0); repeat constructor.
Qed.

Lemma numa_calls_quiet dn :
  Forall (fun c => is_numa_call c = true) dn ->
  Forall (fun c => is_set_device c = false) dn.
Proof.
  apply Forall_impl. intros c Hc. now destruct c.
Qed.

(** What a transfer [init] has built holds was created on its devices. *)
Lemma init_devices P argc opts hits d :
  run (init P argc opts) = Ret hits d ->
  forall t, In t (firstn (Z.to_nat (n_transfers hits)) (transfer hits)) ->
    created_on_devices d t.
Proof.
  intros H t' Ht'.
  destruct (init_transfers _ _ _ _ _ H t' Ht') as (t & dj & pre & post & Hj & -> & _).
  pose proof (init_one_keeps _ _ _ _ _ _ _ Hj) as (Hty & Hdev & Hdev2).
  apply init_one_script in Hj. cbv zeta in Hj.
  destruct Hj as (Hstart & Hstop & Hstream & Hj).
  destruct (common_calls_parts t) as (props & Hprops & Hlen & Hcc).
  rewrite Hcc in *. rewrite length_app in *. cbn [length] in *.
  set (cur := device_after None pre).
  assert (Hp : forall l, Forall (fun c => is_set_device c = false) l ->
                 device_after cur (props ++ hipSetDevice (device t) :: l)
                 = Some (device t)).
  { intros l Hl. rewrite device_after_app. cbn [device_after].
    now apply device_after_quiet. }
  unfold created_on_devices. rewrite Hty, Hdev, Hdev2.
  assert (Hev : forall tail,
            current_device (pre ++ ((props ++ [hipSetDevice (device t); hipEventCreate;
                                      hipEventCreate;
                                      hipStreamCreateWithFlags hipStreamNonBlocking])
                                    ++ tail) ++ post) (start t') = Some (device t) /\
            current_device (pre ++ ((props ++ [hipSetDevice (device t); hipEventCreate;
                                      hipEventCreate;
                                      hipStreamCreateWithFlags hipStreamNonBlocking])
                                    ++ tail) ++ post) (stop t') = Some (device t) /\
            current_device (pre ++ ((props ++ [hipSetDevice (device t); hipEventCreate;
                                      hipEventCreate;
                                      hipStreamCreateWithFlags hipStreamNonBlocking])
                                    ++ tail) ++ post) (stream t') = Some (device t)).
  { intros tail. split; [|split].
    - rewrite (current_device_at pre (props ++ [hipSetDevice (device t)])
                 ([hipEventCreate; hipEventCreate;
                   hipStreamCreateWithFlags hipStreamNonBlocking] ++ tail ++ post)).
      + apply Hp. constructor.
      + now rewrite <- !app_assoc.
      + rewrite length_app. cbn [length]. lia.
    - rewrite (current_device_at pre (props ++ [hipSetDevice (device t); hipEventCreate])
                 ([hipEventCreate;
                   hipStreamCreateWithFlags hipStreamNonBlocking] ++ tail ++ post)).
      + apply Hp. repeat constructor.
      + now rewrite <- !app_assoc.
      + rewrite length_app. cbn [length]. lia.
    - rewrite (current_device_at pre
                 (props ++ [hipSetDevice (device t); hipEventCreate; hipEventCreate])
                 ([hipStreamCreateWithFlags hipStreamNonBlocking] ++ tail ++ post)).
      + apply Hp. repeat constructor.
      + now rewrite <- !app_assoc.
      + rewrite length_app. cbn [length]. lia. }
  destruct (type t).
  - destruct Hj as (dn & Hdn & -> & Hsrc & Hdest). apply numa_calls_quiet in Hdn.
    destruct (Hev (dn ++ [host_alloc_call (alloc_flags hits) (to_size_t (n_size hits));
                          hipMalloc (to_size_t (n_size hits))])) as (E1 & E2 & E3).
    split; [exact E1|]. split; [exact E2|]. split; [exact E3|].
    rewrite (current_device_at pre
               (props ++ hipSetDevice (device t)
                  :: [hipEventCreate; hipEventCreate;
                      hipStreamCreateWithFlags hipStreamNonBlocking]
                  ++ dn ++ [host_alloc_call (alloc_flags hits) (to_size_t (n_size hits))])
               ([hipMalloc (to_size_t (n_size hits))] ++ post)).
    + apply Hp. repeat constructor. apply Forall_app. split; [exact Hdn|].
      repeat constructor. unfold host_alloc_call. now destruct (_ =? 0).
    + rewrite <- !app_assoc. cbn [app]. now rewrite <- !app_assoc.
    + rewrite !length_app. cbn [length]. rewrite !length_app. cbn [length]. lia.
  - destruct Hj as (dn & Hdn & -> & Hdest & Hsrc). apply numa_calls_quiet in Hdn.
    destruct (Hev (dn ++ [host_alloc_call (alloc_flags hits) (to_size_t (n_size hits));
                          hipMalloc (to_size_t (n_size hits))])) as (E1 & E2 & E3).
    split; [exact E1|]. split; [exact E2|]. split; [exact E3|].
    rewrite (current_device_at pre
               (props ++ hipSetDevice (device t)
                  :: [hipEventCreate; hipEventCreate;
                      hipStreamCreateWithFlags hipStreamNonBlocking]
                  ++ dn ++ [host_alloc_call (alloc_flags hits) (to_size_t (n_size hits))])
               ([hipMalloc (to_size_t (n_size hits))] ++ post)).
    + apply Hp. repeat constructor. apply Forall_app. split; [exact Hdn|].
      repeat constructor. unfold host_alloc_call. now destruct (_ =? 0).
    + rewrite <- !app_assoc. cbn [app]. now rewrite <- !app_assoc.
    + rewrite !length_app. cbn [length]. rewrite !length_app. cbn [length]. lia.
  - destruct Hj as (-> & Hdest & Hsrc). unfold peer_calls.
    destruct (Hev (peer_calls (to_size_t (n_size hits)) t)) as (E1 & E2 & E3).
    unfold peer_calls in E1, E2, E3.
    split; [exact E1|]. split; [exact E2|]. split; [exact E3|]. split.
    + rewrite (current_device_at pre
                 ((props ++ [hipSetDevice (device t); hipEventCreate; hipEventCreate;
                             hipStreamCreateWithFlags hipStreamNonBlocking])
                  ++ [hipDeviceCanAccessPeer (device t) (device2 t);
                      hipSetDevice (device t)])
                 ([hipMalloc (to_size_t (n_size hits));
                   hipDeviceEnablePeerAccess (device2 t) 0;
                   hipSetDevice (device2 t); hipMalloc (to_size_t (n_size hits))]
                  ++ post)).
      * now rewrite device_after_app.
      * now rewrite <- !app_assoc.
      * rewrite !length_app. cbn [length]. lia.
    + rewrite (current_device_at pre
                 ((props ++ [hipSetDevice (device t); hipEventCreate; hipEventCreate;
                             hipStreamCreateWithFlags hipStreamNonBlocking])
                  ++ [hipDeviceCanAccessPeer (device t) (device2 t);
                      hipSetDevice (device t); hipMalloc (to_size_t (n_size hits));
                      hipDeviceEnablePeerAccess (device2 t) 0;
                      hipSetDevice (device2 t)])
                 ([hipMalloc (to_size_t (n_size hits))] ++ post)).
      * now rewrite device_after_app.
      * now rewrite <- !app_assoc.
      * rewrite !length_app. cbn [length]. lia.
Qed.

(** *** Decimal arguments *)

Lemma scan_decimal : forall u acc rest,
  no_digit_ahead rest ->
  scan_digits (decimal u ++ rest) (Z.of_nat acc)
  = (Z.of_nat (Nat.of_uint_acc u acc), Decimal.nb_digits u).
Proof.
  unfold decimal.
  induction u as [|u IH|u IH|u IH|u IH|u IH|u IH|u IH|u IH|u IH|u IH];
    intros acc rest Hr;
    cbn [DecimalString.NilEmpty.string_of_uint String.append scan_digits
         Nat.of_uint_acc Decimal.nb_digits].
  - destruct rest as [|c rest]; [reflexivity|]. simpl in Hr.
    cbn [scan_digits]. now rewrite Hr.
  - change (digit_of "0") with (Some 0). cbv beta iota.
    replace (10 * Z.of_nat acc + 0) with (Z.of_nat (Nat.tail_mul 10 acc))
      by (rewrite Nat.tail_mul_spec; lia).
    now rewrite IH.
  - change (digit_of "1") with (Some 1). cbv beta iota.
    replace (10 * Z.of_nat acc + 1) with (Z.of_nat (1 + Nat.tail_mul 10 acc))
      by (rewrite Nat.tail_mul_spec; lia).
    now rewrite IH.
  - change (digit_of "2") with (Some 2). cbv beta iota.
    replace (10 * Z.of_nat acc + 2) with (Z.of_nat (2 + Nat.tail_mul 10 acc))
      by (rewrite Nat.tail_mul_spec; lia).
    now rewrite IH.
  - change (digit_of "3") with (Some 3). cbv beta iota.
    replace (10 * Z.of_nat acc + 3) with (Z.of_nat (3 + Nat.tail_mul 10 acc))
      by (rewrite Nat.tail_mul_spec; lia).
    now rewrite IH.
  - change (digit_of "4") with (Some 4). cbv beta iota.
    replace (10 * Z.of_nat acc + 4) with (Z.of_nat (4 + Nat.tail_mul 10 acc))
      by (rewrite Nat.tail_mul_spec; lia).
    now rewrite IH.
  - change (digit_of "5") with (Some 5). cbv beta iota.
    replace (10 * Z.of_nat acc + 5) with (Z.of_nat (5 + Nat.tail_mul 10 acc))
      by (rewrite Nat.tail_mul_spec; lia).
    now rewrite IH.
  - change (digit_of "6") with (Some 6). cbv beta iota.
    replace (10 * Z.of_nat acc + 6) with (Z.of_nat (6 + Nat.tail_mul 10 acc))
      by (rewrite Nat.tail_mul_spec; lia).
    now rewrite IH.
  - change (digit_of "7") with (Some 7). cbv beta iota.
    replace (10 * Z.of_nat acc + 7) with (Z.of_nat (7 + Nat.tail_mul 10 acc))
      by (rewrite Nat.tail_mul_spec; lia).
    now rewrite IH.
  - change (digit_of "8") with (Some 8). cbv beta iota.
    replace (10 * Z.of_nat acc + 8) with (Z.of_nat (8 + Nat.tail_mul 10 acc))
      by (rewrite Nat.tail_mul_spec; lia).
    now rewrite IH.
  - change (digit_of "9") with (Some 9). cbv beta iota.
    replace (10 * Z.of_nat acc + 9) with (Z.of_nat (9 + Nat.tail_mul 10 acc))
      by (rewrite Nat.tail_mul_spec; lia).
    now rewrite IH.
Qed.

(** A numeral with a digit starts with neither a space nor a sign. *)
Lemma decimal_head u rest :
  u <> Decimal.Nil ->
  skip_spaces (decimal u ++ rest) = (O, (decimal u ++ rest)%string) /\
  scan_sign (decimal u ++ rest) = (false, O, (decimal u ++ rest)%string) /\
  (1 <= Decimal.nb_digits u)%nat.
Proof.
  unfold decimal. intros Hu.
  destruct u; [congruence| | | | | | | | | |];
    cbn [DecimalString.NilEmpty.string_of_uint String.append Decimal.nb_digits];
    (split; [reflexivity|split; [reflexivity|lia]]).
Qed.

(** [strtol] on a decimal numeral, followed by anything but a digit. *)
Lemma strtol_decimal u rest :
  u <> Decimal.Nil -> no_digit_ahead rest -> value_of u <= LONG_MAX ->
  strtol (decimal u ++ rest)
  = {| st_val := value_of u; st_end := Decimal.nb_digits u; st_erange := false |}.
Proof.
  intros Hu Hr Hv. unfold strtol.
  destruct (decimal_head u rest Hu) as (-> & -> & Hn).
  change 0 with (Z.of_nat 0). rewrite (scan_decimal u O rest Hr).
  fold (Nat.of_uint u). fold (value_of u).
  destruct (Decimal.nb_digits u) as [|n] eqn:En; [lia|].
  destruct (Z.ltb_spec LONG_MAX (value_of u)); [lia|].
  destruct (Z.ltb_spec (value_of u) LONG_MIN);
    [unfold value_of, LONG_MIN in *; lia|].
  reflexivity.
Qed.

Lemma drop_add : forall a b s, drop (a + b) s = drop b (drop a s).
Proof.
  induction a as [|a IH]; intros b s; [reflexivity|].
  destruct s as [|c s]; cbn [Nat.add drop]; [|apply IH].
  now destruct b.
Qed.

Lemma drop_append : forall s1 s2, drop (String.length s1) (s1 ++ s2) = s2.
Proof.
  induction s1 as [|c s1 IH]; intros s2; [reflexivity|apply IH].
Qed.

Lemma append_empty : forall s, (s ++ "")%string = s.
Proof.
  induction s as [|c s IH]; [reflexivity|]. cbn [String.append]. now rewrite IH.
Qed.

Lemma length_decimal u : String.length (decimal u) = Decimal.nb_digits u.
Proof.
  unfold decimal. induction u; cbn; congruence.
Qed.

Lemma token_length_decimal : forall u rest,
  token_length (decimal u ++ rest) = (Decimal.nb_digits u + token_length rest)%nat.
Proof.
  unfold decimal. induction u; intros rest;
    cbn [DecimalString.NilEmpty.string_of_uint String.append token_length
         Decimal.nb_digits Nat.add Ascii.eqb Bool.eqb];
    try reflexivity; now rewrite IHu.
Qed.

Lemma skip_commas_decimal u rest :
  u <> Decimal.Nil -> skip_commas (decimal u ++ rest) = O.
Proof.
  unfold decimal. intros Hu. destruct u; [congruence| | | | | | | | | |]; reflexivity.
Qed.

Lemma decimal_not_empty u rest :
  u <> Decimal.Nil -> (decimal u ++ rest)%string <> EmptyString.
Proof.
  unfold decimal. intros Hu. destruct u; [congruence| | | | | | | | | |]; discriminate.
Qed.

Lemma id_end_no_digit rest : id_end rest -> no_digit_ahead rest.
Proof. intros [->|(r & ->)]; [exact I|reflexivity]. Qed.

(** [strtok] from an offset where a numeral starts. *)
Lemma strtok_decimal arg o u rest :
  drop o arg = (decimal u ++ rest)%string -> u <> Decimal.Nil -> id_end rest ->
  strtok arg o
  = (Some o, (o + Decimal.nb_digits u
              + match rest with EmptyString => 0 | _ => 1 end)%nat).
Proof.
  intros Hd Hu Hr. unfold strtok.
  rewrite Hd, skip_commas_decimal, Nat.add_0_r, Hd by exact Hu.
  assert (Hq : drop (o + token_length (decimal u ++ rest)) arg = rest).
  { rewrite token_length_decimal, Nat.add_assoc, !drop_add, Hd.
    rewrite <- length_decimal, drop_append.
    destruct Hr as [->|(r & ->)]; reflexivity. }
  rewrite Hq, token_length_decimal.
  pose proof (decimal_not_empty u rest Hu) as Hne.
  destruct (decimal u ++ rest)%string; [congruence|].
  destruct Hr as [->|(r & ->)]; cbn [token_length Ascii.eqb Bool.eqb].
  - now rewrite !Nat.add_0_r.
  - now rewrite Nat.add_0_r, Nat.add_1_r.
Qed.

Lemma strtok_at_end arg o :
  drop o arg = EmptyString -> strtok arg o = (None, o).
Proof.
  intros Hd. unfold strtok. rewrite Hd. cbn [skip_commas].
  now rewrite Nat.add_0_r, Hd.
Qed.

Lemma to_int_small v : 0 <= v < 2 ^ 31 -> to_int v = v.
Proof.
  intros Hv. unfold to_int. rewrite Z.mod_small; lia.
Qed.

(** The case ['p'] of [parse_opt]. *)
Lemma parse_opt_dtod arg state :
  parse_opt (key "p") arg state
  = let hits := input state in
    let idx := Z.to_nat (n_transfers hits) in
    match nth_error (transfer hits) idx with
    | None => halt Undefined
    | Some t =>
        let t := set_type t DTOD in
        let (token, save) := strtok arg O in
        let '(v, endptr, e) := strtol_token arg token None (errno state) in
        let t := set_device t (to_int v) in
        if errno_bad e || ptr_eqb token endptr || (device t <? 0) then
          call (fprintf_stderr Err_dtod_first) ;; exit 1
        else
          let (token, save) := strtok arg save in
          let '(v, endptr, e) := strtol_token arg token endptr e in
          let t := set_device2 t (to_int v) in
          if errno_bad e || ptr_eqb token endptr || (device2 t <? 0) then
            call (fprintf_stderr Err_dtod_second) ;; exit 1
          else
            let (token, save) := strtok arg save in
            if negb (ptr_eqb token endptr) && not_null token then
              call (fprintf_stderr Err_dtod_extra) ;; exit 1
            else
              let hits := set_transfer hits (store idx t (transfer hits)) in
              let hits := set_n_transfers hits (n_transfers hits + 1) in
              ret (0, {| input := hits; errno := e |})
    end.
Proof. reflexivity. Qed.

Lemma drop_past_id u rest :
  drop (Decimal.nb_digits u + 1) (decimal u ++ String "," rest) = rest.
Proof.
  now rewrite drop_add, <- length_decimal, drop_append.
Qed.

(** The first id of a [--dtod] argument that starts with a numeral. *)
Lemma dtod_first_id u rest e :
  u <> Decimal.Nil -> id_end rest -> 0 <= value_of u < 2 ^ 31 ->
  let arg := (decimal u ++ rest)%string in
  strtok arg O
  = (Some O, (Decimal.nb_digits u + match rest with EmptyString => 0 | _ => 1 end)%nat) /\
  strtol_token arg (Some O) None e
  = (value_of u, Some (Decimal.nb_digits u), e).
Proof.
  intros Hu Hr Hv. cbv zeta. split.
  - now rewrite (strtok_decimal _ O u rest eq_refl Hu Hr).
  - unfold strtol_token. cbn [drop].
    rewrite (strtol_decimal u rest Hu (id_end_no_digit _ Hr))
      by (unfold LONG_MAX; lia).
    reflexivity.
Qed.

(** The cases ['d'], ['h'] and ['i'] of [parse_opt]. *)
Lemma parse_opt_direct k ty msg arg state :
  (k = key "d" /\ ty = DTOH /\ msg = Err_dtoh) \/
  (k = key "h" /\ ty = HTOD /\ msg = Err_htod) ->
  parse_opt k arg state
  = let hits := input state in
    let idx := Z.to_nat (n_transfers hits) in
    match nth_error (transfer hits) idx with
    | None => halt Undefined
    | Some t =>
        let r := strtol arg in
        let t := set_device (set_type t ty) (to_int (st_val r)) in
        let e := errno_after (errno state) r in
        if errno_bad e || (device t <? 0) then
          call (fprintf_stderr msg) ;; exit 1
        else
          let t := set_device2 t (-1) in
          let hits := set_transfer hits (store idx t (transfer hits)) in
          let hits := set_n_transfers hits (n_transfers hits + 1) in
          ret (0, {| input := hits; errno := e |})
    end.
Proof. intros [(-> & -> & ->)|(-> & -> & ->)]; reflexivity. Qed.

Lemma parse_opt_iter arg state :
  parse_opt (key "i") arg state
  = let r := strtol arg in
    let hits := set_n_iter (input state) (st_val r) in
    let e := errno_after (errno state) r in
    if errno_bad e || (n_iter hits <? 0) then
      call (fprintf_stderr Err_iter) ;; exit 1
    else ret (0, {| input := hits; errno := e |}).
Proof. reflexivity. Qed.

Lemma strtol_no_number s :
  no_number s -> strtol s = {| st_val := 0; st_end := O; st_erange := false |}.
Proof.
  destruct s as [|c s]; [reflexivity|]. intros (H1 & H2 & H3 & H4).
  unfold strtol. cbn [skip_spaces]. rewrite H1.
  assert (Hs : scan_sign (String c s) = (false, O, String c s)).
  { unfold scan_sign.
    destruct c as [[|] [|] [|] [|] [|] [|] [|] [|]]; try reflexivity; congruence. }
  rewrite Hs. cbn [scan_digits]. now rewrite H4.
Qed.

(** *** The values of [--iter] and [--size] *)

Lemma parse_opt_keeps k arg state pos r d :
  parse_opt k arg state pos = Ret r d ->
  (k <> key "i" -> n_iter (input (snd r)) = n_iter (input state)) /\
  (k <> key "s" -> n_size (input (snd r)) = n_size (input state)) /\
  (k = key "i" -> n_iter (input (snd r)) = st_val (strtol arg)) /\
  (k = key "s" -> n_size (input (snd r)) = st_val (strtol arg)).
Proof.
  unfold parse_opt. cbv zeta.
  destruct (k =? key "d") eqn:Ed.
  { apply Z.eqb_eq in Ed. subst k.
    destruct (nth_error _ _) as [t|]; [|discriminate].
    case_if Ec; [now_stops|]. intros H. apply ret_Ret in H as (-> & _).
    simpl. repeat split; auto; discriminate. }
  destruct (k =? key "h") eqn:Eh.
  { apply Z.eqb_eq in Eh. subst k.
    destruct (nth_error _ _) as [t|]; [|discriminate].
    case_if Ec; [now_stops|]. intros H. apply ret_Ret in H as (-> & _).
    simpl. repeat split; auto; discriminate. }
  destruct (k =? key "i") eqn:Ei.
  { apply Z.eqb_eq in Ei. subst k.
    case_if Ec; [now_stops|]. intros H. apply ret_Ret in H as (-> & _).
    simpl. repeat split; auto; try discriminate; congruence. }
  destruct (k =? key "n") eqn:En.
  { apply Z.eqb_eq in En. subst k.
    intros H. apply ret_Ret in H as (-> & _). simpl.
    repeat split; auto; discriminate. }
  destruct (k =? key "m") eqn:Em.
  { apply Z.eqb_eq in Em. subst k.
    intros H. apply ret_Ret in H as (-> & _). simpl.
    repeat split; auto; discriminate. }
  destruct (k =? key "p") eqn:Ep.
  { apply Z.eqb_eq in Ep. subst k.
    destruct (nth_error _ _) as [t|]; [|discriminate].
    destruct (strtok arg 0) as [token save].
    destruct (strtol_token arg token None (errno state)) as [[v endptr] e].
    case_if Ec1; [now_stops|].
    destruct (strtok arg save) as [token2 save2].
    destruct (strtol_token arg token2 endptr e) as [[v2 endptr2] e2].
    case_if Ec2; [now_stops|].
    destruct (strtok arg save2) as [token3 save3].
    case_if Ec3; [now_stops|].
    intros H. apply ret_Ret in H as (-> & _). simpl.
    repeat split; auto; discriminate. }
  destruct (k =? key "s") eqn:Es.
  { apply Z.eqb_eq in Es. subst k.
    case_if Ec; [now_stops|]. case_if Ec'; [now_stops|].
    intros H. apply ret_Ret in H as (-> & _). simpl.
    repeat split; auto; try discriminate; congruence. }
  apply Z.eqb_neq in Ei, Es.
  destruct (k =? ARGP_KEY_END).
  { case_if Ec; [now_stops|].
    intros H. apply ret_Ret in H as (-> & _). simpl.
    repeat split; auto; contradiction. }
  intros H. apply ret_Ret in H as (-> & _). simpl.
  repeat split; auto; contradiction.
Qed.

Lemma argp_options_keeps : forall opts state pos state' d,
  argp_options opts state pos = Ret state' d ->
  (has_key (key "i") opts = false ->
   n_iter (input state') = n_iter (input state)) /\
  (has_key (key "s") opts = false ->
   n_size (input state') = n_size (input state)).
Proof.
  induction opts as [|[k arg] rest IH]; intros state pos state' d H;
    cbn [argp_options] in H.
  - apply ret_Ret in H as (-> & _). auto.
  - repeat step_ret.
    + match goal with H : parse_opt _ _ _ _ = _ |- _ =>
        apply parse_opt_keeps in H as (H1 & H2 & _) end.
      match goal with H : argp_options _ _ _ = _ |- _ =>
        apply IH in H as (H3 & H4) end.
      unfold has_key in *. cbn [existsb fst].
      split; intros Hk; apply orb_false_elim in Hk as (Hk1 & Hk2);
        apply Z.eqb_neq in Hk1.
      * rewrite H3, H1; auto.
      * rewrite H4, H2; auto.
    + match goal with H : argp_options _ _ _ = _ |- _ =>
        apply IH in H as (H3 & H4) end.
      unfold has_key in *. cbn [existsb fst].
      split; intros Hk; apply orb_false_elim in Hk as (_ & Hk); auto.
Qed.

Lemma argp_options_split : forall pre post state pos state' d,
  argp_options (pre ++ post) state pos = Ret state' d ->
  exists mid,
    argp_options pre state pos = Ret mid [] /\
    argp_options post mid pos = Ret state' [].
Proof.
  induction pre as [|[k arg] pre IH]; intros post state pos state' d H.
  - cbn [app] in H. exists state. split; [reflexivity|].
    pose proof (argp_options_Ret _ _ _ _ _ H) as (-> & _). exact H.
  - cbn [app] in H.
    destruct (argp_options_cons k)
      as [(_ & E)|[(_ & _ & E)|[(_ & text & _ & E)|(_ & text & _ & E)]]];
      rewrite E in H; rewrite E; try discriminate H; clear E.
    + destruct (parse_opt k arg state pos) as [r d1|s d1] eqn:Hp; [|discriminate].
      pose proof (parse_opt_Ret _ _ _ _ _ _ Hp) as (-> & _).
      cbn [length app] in *. rewrite Nat.add_0_r in *.
      destruct (argp_options (pre ++ post) (snd r) pos) as [b d'|s d'] eqn:Hr;
        [|discriminate].
      injection H as -> ->.
      apply IH in Hr as (mid & H1 & H2).
      exists mid. split; [|exact H2]. now rewrite H1.
    + now apply IH in H.
Qed.

(** *** NUMA files *)

Lemma files_run_app P : forall d1 d2 st pos,
  files_run P st pos (d1 ++ d2)
  = match files_run P st pos d1 with
    | Some st' => files_run P st' (pos + length d1) d2
    | None => None
    end.
Proof.
  induction d1 as [|c d1 IH]; intros d2 st pos.
  - cbn [app files_run length]. now rewrite Nat.add_0_r.
  - cbn [app files_run length].
    replace (pos + S (length d1))%nat with (S pos + length d1)%nat by lia.
    destruct st, c; try reflexivity; try apply IH;
      destruct (Nat.eqb _ _); try reflexivity; apply IH.
Qed.

Lemma closes_files_ret P {A} (a : A) : closes_files P (ret a).
Proof. intros pos. reflexivity. Qed.

Lemma closes_files_halt P {A} s : closes_files P (@halt A s).
Proof. intros pos. reflexivity. Qed.

Lemma closes_files_call P c : is_numa_call c = false -> closes_files P (call c).
Proof. intros Hc pos. now destruct c. Qed.

Lemma closes_files_bind P {A B} (m : M A) (f : A -> M B) :
  closes_files P m -> (forall a, closes_files P (f a)) ->
  closes_files P (bind m f).
Proof.
  intros Hm Hf pos. specialize (Hm pos). unfold bind.
  destruct (m pos) as [a d1|s d1]; cbn [calls] in *; [|exact Hm].
  specialize (Hf a (pos + length d1)%nat).
  destruct (f a (pos + length d1)%nat) as [b d2|s d2]; cbn [calls] in *;
    now rewrite files_run_app, Hm.
Qed.

Lemma closes_files_if P {A} (c : bool) (m1 m2 : M A) :
  closes_files P m1 -> closes_files P m2 -> closes_files P (if c then m1 else m2).
Proof. now destruct c. Qed.

Lemma closes_files_checkHip P c :
  is_numa_call c = false -> closes_files P (checkHip P c).
Proof.
  intros Hc pos. unfold checkHip, bind, call, assertHip.
  destruct (hip_ret P pos =? hipSuccess); cbn [calls app]; now destruct c.
Qed.

Lemma closes_files_assert_not_null P p : closes_files P (assert_not_null P p).
Proof. intros pos. unfold assert_not_null. now destruct (null_result P p). Qed.

Lemma closes_files_for_from P body :
  (forall i t, closes_files P (body i t)) ->
  forall n i a, closes_files P (for_from body i n a).
Proof.
  intros Hb. induction n as [|n IH]; intros i a; cbn [for_from].
  - apply closes_files_ret.
  - destruct a as [|t rest]; [apply closes_files_halt|].
    apply closes_files_bind; [apply Hb|]. intros t'.
    apply closes_files_bind; [apply IH|]. intros rest'. apply closes_files_ret.
Qed.

(** [set_numa_affinity] reads and closes the file it has opened. *)
Lemma closes_files_set_numa_affinity P t :
  closes_files P (set_numa_affinity P t).
Proof.
  intros pos. unfold set_numa_affinity, bind, call. cbn [length Nat.add].
  destruct (sysfs P (numa_file (prop_device t))) as [content|] eqn:Es.
  - destruct (fscanf_d content) as [r v].
    destruct (r =? 1); cbn [calls app files_run length Nat.add ret];
      rewrite Es, ?Nat.eqb_refl; cbn [files_run]; now rewrite ?Nat.eqb_refl.
  - cbn [calls app files_run ret]. now rewrite Es.
Qed.

Ltac closes_files_step :=
  match goal with
  | |- closes_files _ (ret _) => apply closes_files_ret
  | |- closes_files _ (halt _) => apply closes_files_halt
  | |- closes_files _ (exit _) => apply closes_files_halt
  | |- closes_files _ (set_numa_affinity _ _) => apply closes_files_set_numa_affinity
  | |- closes_files _ (call _) => apply closes_files_call; reflexivity
  | |- closes_files _ (checkHip _ _) => apply closes_files_checkHip; reflexivity
  | |- closes_files _ (assert_not_null _ _) => apply closes_files_assert_not_null
  | |- closes_files _ (bind _ _) => apply closes_files_bind; [|intros ?]
  | |- closes_files _ (for_each _ _ _) => apply closes_files_for_from; intros ? ?
  | |- closes_files _ (if _ then _ else _) => apply closes_files_if
  | |- closes_files _ (match ?x with _ => _ end) => destruct x
  end.

Lemma closes_files_parse_opt P k arg state : closes_files P (parse_opt k arg state).
Proof. unfold parse_opt. cbv zeta. repeat closes_files_step. Qed.

Lemma closes_files_argp_options P : forall opts state,
  closes_files P (argp_options opts state).
Proof.
  induction opts as [|[k arg] rest IH]; intros state; cbn [argp_options].
  - apply closes_files_ret.
  - repeat first [apply IH | apply closes_files_parse_opt | closes_files_step].
Qed.

Lemma closes_files_issue_loop P n_iter n_bytes n : forall count i a,
  closes_files P (issue_loop P n_iter n_bytes n count i a).
Proof.
  induction count as [|count IH]; intros i a; cbn [issue_loop].
  - apply closes_files_ret.
  - apply closes_files_bind; [|intros a'; apply IH].
    unfold issue_round. apply closes_files_for_from. intros j t.
    unfold issue, direct_transfer, dtod_transfer. repeat closes_files_step.
Qed.

Lemma closes_files_main P argc opts : closes_files P (main P argc opts).
Proof.
  unfold main, init, argp_parse, transfer_init, init_one, dtoh_transfer_init,
    htod_transfer_init, dtod_transfer_init, _transfer_init_common,
    synchronize, report, fini, fini_one.
  cbv zeta.
  repeat first
    [ apply closes_files_argp_options
    | apply closes_files_parse_opt
    | apply closes_files_issue_loop
    | closes_files_step ].
Qed.

(** *** The NUMA path *)

Lemma length_append : forall s1 s2,
  String.length (s1 ++ s2) = (String.length s1 + String.length s2)%nat.
Proof.
  induction s1 as [|c s1 IH]; intros s2; [reflexivity|].
  cbn [String.append String.length]. now rewrite IH.
Qed.

Lemma length_hex_low : forall n z, String.length (hex_low n z) = n.
Proof.
  induction n as [|n IH]; intros z; [reflexivity|].
  cbn [hex_low]. rewrite length_append, IH. cbn [String.length]. lia.
Qed.

Lemma hex_length_le : forall fuel z, (hex_length fuel z <= fuel)%nat.
Proof.
  induction fuel as [|fuel IH]; intros z; cbn [hex_length]; [lia|].
  destruct (z =? 0); [lia|]. specialize (IH (z / 16)). lia.
Qed.

Lemma hex_length_small : forall fuel k z,
  0 <= z < 16 ^ Z.of_nat k -> (hex_length fuel z <= k)%nat.
Proof.
  induction fuel as [|fuel IH]; intros k z Hz; cbn [hex_length]; [lia|].
  destruct (Z.eqb_spec z 0) as [|Hne]; [lia|].
  destruct k as [|k]; [simpl in Hz; lia|].
  assert (Hk : (hex_length fuel (z / 16) <= k)%nat); [|lia].
  apply IH. rewrite Nat2Z.inj_succ, Z.pow_succ_r in Hz by lia.
  split; [apply Z.div_pos; lia|]. apply Z.div_lt_upper_bound; lia.
Qed.

(** *** After the loop *)

Lemma synchronize_script P n a pos a' d :
  for_each (fun _ => synchronize P) n a pos = Ret a' d ->
  a' = a /\ d = flat_map sync_calls (firstn n a).
Proof.
  intros H. pose proof H as Hk. apply for_each_keep in Hk.
  2:{ intros i t p t' d'. apply synchronize_Ret. }
  split; [exact Hk|]. unfold for_each in H.
  apply (for_from_Ret _ (fun _ t => t) (fun _ => sync_calls)) in H.
  - destruct H as (_ & _ & ->). apply calls_from_flat_map.
  - intros i t p t' d'. unfold synchronize, sync_calls. intros Hs.
    repeat step_ret. auto.
Qed.

Lemma results_app d1 d2 : results (d1 ++ d2) = results d1 ++ results d2.
Proof. unfold results. apply flat_map_app. Qed.

Lemma report_results P g n_iter : forall n i a pos a' d,
  for_from (report P g n_iter) i n a pos = Ret a' d ->
  a' = a /\ results d = expected_results i (firstn n a) /\
  length d = (3 * length (firstn n a))%nat.
Proof.
  induction n as [|n IH]; intros i a pos a' d H; cbn [for_from] in H.
  - apply ret_Ret in H as (-> & ->). auto.
  - destruct a as [|t rest]; [discriminate|]. repeat step_ret.
    match goal with H : for_from _ _ _ _ _ = _ |- _ => rename H into Hfor end.
    match goal with H : report _ _ _ _ _ _ = _ |- _ => rename H into Hrep end.
    apply IH in Hfor as (-> & Hr & Hl).
    pose proof (report_Ret _ _ _ _ _ _ _ _ Hrep) as ->.
    unfold report in Hrep. repeat step_ret.
    all: cbn [firstn expected_results length].
    all: rewrite !results_app, !length_app, Hr, Hl; cbn [length].
    all: split; [reflexivity|]; split; [|lia].
    all: unfold results, expected_result; cbn [flat_map app result_of option_list].
    all: match goal with H : match type _ with _ => _ end = _ |- _ => rewrite H end.
    all: now rewrite ?app_nil_r.
Qed.

Lemma emits_issue_loop Q P n_iter n_bytes n :
  (forall is_last t, emits Q (issue P n_bytes is_last t)) ->
  forall count i a, emits Q (issue_loop P n_iter n_bytes n count i a).
Proof.
  intros Hi. induction count as [|count IH]; intros i a; cbn [issue_loop].
  - apply emits_ret.
  - apply emits_bind; [|intros a'; apply IH].
    unfold issue_round. apply emits_for_each. intros j t. apply Hi.
Qed.

Lemma results_none d :
  Forall (fun c => result_of c = None) d -> results d = [].
Proof.
  induction 1 as [|c d Hc _ IH]; [reflexivity|].
  unfold results in *. cbn [flat_map]. now rewrite Hc, IH.
Qed.

Lemma sync_calls_started : forall l,
  flat_map sync_calls (map mark_started l) = flat_map sync_calls l.
Proof.
  induction l as [|t l IH]; [reflexivity|]. cbn [map flat_map]. rewrite IH.
  f_equal. unfold sync_calls, mark_started. now destruct (is_started t).
Qed.

Lemma expected_results_started : forall l i,
  expected_results i (map mark_started l) = expected_results i l.
Proof.
  induction l as [|t l IH]; intros i; [reflexivity|].
  cbn [map expected_results]. rewrite IH. f_equal.
  unfold expected_result, mark_started. now destruct (is_started t).
Qed.

Lemma expected_results_length : forall l i,
  length (expected_results i l) = length l.
Proof.
  induction l as [|t l IH]; intros i; [reflexivity|].
  cbn [expected_results length]. now rewrite IH.
Qed.

(** *** The bodies of the two loops over a transfer *)

Ltac unfold_transfer :=
  unfold init_one, fini_one, dtoh_transfer_init, htod_transfer_init,
    dtod_transfer_init, _transfer_init_common, set_numa_affinity.

(** *** Runs that do not depend on fresh cells *)

Lemma same_run_eq {A} (o o' : Outcome A) : same_run eq o o' -> o = o'.
Proof.
  destruct o, o'; simpl; try tauto; intros (-> & ->); reflexivity.
Qed.

Lemma alike_refl {A} (m : M A) : alike eq m m.
Proof. intros pos. destruct (m pos); simpl; auto. Qed.

Lemma alike_ret {A} (R : A -> A -> Prop) (a a' : A) :
  R a a' -> alike R (ret a) (ret a').
Proof. intros H pos. simpl. auto. Qed.

Lemma alike_halt {A} (R : A -> A -> Prop) (s : Stop) : alike R (halt s) (halt s).
Proof. intros pos. simpl. auto. Qed.

Lemma alike_bind {A B} (R : A -> A -> Prop) (R' : B -> B -> Prop)
    (m m' : M A) (f f' : A -> M B) :
  alike R m m' ->
  (forall a a', R a a' -> alike R' (f a) (f' a')) ->
  alike R' (bind m f) (bind m' f').
Proof.
  intros Hm Hf pos. unfold bind. specialize (Hm pos).
  destruct (m pos) as [a d|s d], (m' pos) as [a' d'|s' d']; simpl in Hm;
    try tauto.
  - destruct Hm as (<- & Ha). specialize (Hf a a' Ha (pos + length d)%nat).
    destruct (f a _), (f' a' _); simpl in *; try tauto.
    + destruct Hf as (-> & Hb). auto.
    + destruct Hf as (-> & ->). auto.
  - exact Hm.
Qed.

Lemma alike_bind_eq {A B} (R' : B -> B -> Prop) (m : M A) (f f' : A -> M B) :
  (forall a, alike R' (f a) (f' a)) ->
  alike R' (bind m f) (bind m f').
Proof.
  intros Hf. apply (alike_bind eq); [apply alike_refl|]. intros a a' <-. apply Hf.
Qed.

Lemma alike_weaken {A} (R R' : A -> A -> Prop) (m m' : M A) :
  (forall a a', R a a' -> R' a a') -> alike R m m' -> alike R' m m'.
Proof.
  intros HR H pos. specialize (H pos).
  destruct (m pos), (m' pos); simpl in *; try tauto.
  destruct H. auto.
Qed.

Lemma alike_for_from (R R' : Transfer_t -> Transfer_t -> Prop)
    (body body' : nat -> Transfer_t -> M Transfer_t) :
  (forall i t t', R t t' -> alike R' (body i t) (body' i t')) ->
  forall n i0 a a',
    alike_cells R n a a' ->
    alike (alike_cells R' n) (for_from body i0 n a) (for_from body' i0 n a').
Proof.
  intros Hb. induction n as [|n IH]; intros i0 a a' (Hl & HF).
  - simpl. apply alike_ret. split; [exact Hl|constructor].
  - destruct a as [|t a], a' as [|t' a']; try discriminate Hl.
    + simpl. apply alike_halt.
    + cbn [for_from]. cbn [firstn] in HF. inversion HF; subst.
      apply (alike_bind R'); [now apply Hb|]. intros u u' Hu.
      apply (alike_bind (alike_cells R' n)).
      * apply IH. split; [simpl in Hl; lia|assumption].
      * intros b b' (Hbl & HbF). apply alike_ret. split; [simpl; lia|].
        cbn [firstn]. now constructor.
Qed.
Lemma alike_cells_nth (R : Transfer_t -> Transfer_t -> Prop) (n k : nat)
    (a a' : list Transfer_t) :
  alike_cells R n a a' ->
  match nth_error a k, nth_error a' k with
  | Some _, Some _ | None, None => True
  | _, _ => False
  end.
Proof.
  intros (Hl & _).
  destruct (nth_error a k) eqn:E, (nth_error a' k) eqn:E'; auto.
  - apply nth_error_None in E'. assert (nth_error a k <> None) by congruence.
    apply nth_error_Some in H. lia.
  - apply nth_error_None in E. assert (nth_error a' k <> None) by congruence.
    apply nth_error_Some in H. lia.
Qed.

Lemma alike_cells_store (R : Transfer_t -> Transfer_t -> Prop) (n : nat)
    (v v' : Transfer_t) :
  R v v' ->
  forall a a',
    alike_cells R n a a' -> (n < length a)%nat ->
    alike_cells R (S n) (store n v a) (store n v' a').
Proof.
  intros Hv. induction n as [|n IH]; intros a a' (Hl & HF) Hn.
  - destruct a as [|t a], a' as [|t' a']; try discriminate Hl; [simpl in Hn; lia|].
    split; [exact Hl|]. cbn. constructor; [exact Hv|constructor].
  - destruct a as [|t a], a' as [|t' a']; try discriminate Hl; [simpl in Hn; lia|].
    cbn [firstn] in HF. inversion HF; subst.
    destruct (IH a a') as (Hl' & HF'); [split; [simpl in Hl; lia|assumption]
                                        |simpl in Hn; lia|].
    split; [cbn [store length]; lia|].
    cbn [store]. change (firstn (S (S n)) (?x :: ?l)) with (x :: firstn (S n) l).
    now constructor.
Qed.

Lemma alike_hits_store (R : Transfer_t -> Transfer_t -> Prop) (h h' : Hits_t)
    (v v' : Transfer_t) :
  alike_hits R h h' -> R v v' ->
  (Z.to_nat (n_transfers h) < length (transfer h))%nat ->
  alike_hits R
    (set_n_transfers
       (set_transfer h (store (Z.to_nat (n_transfers h)) v (transfer h)))
       (n_transfers h + 1))
    (set_n_transfers
       (set_transfer h' (store (Z.to_nat (n_transfers h')) v' (transfer h')))
       (n_transfers h' + 1)).
Proof.
  intros (Hp & Hn & Hi & Hs & Hf & H0 & Hc) Hv Hlt.
  unfold alike_hits. cbn. rewrite <- Hn.
  split; [exact Hp|]. split; [reflexivity|]. split; [exact Hi|].
  split; [exact Hs|]. split; [exact Hf|]. split; [lia|].
  replace (Z.to_nat (n_transfers h + 1)) with (S (Z.to_nat (n_transfers h)))
    by lia.
  now apply alike_cells_store.
Qed.

Lemma alike_hits_scalars (R : Transfer_t -> Transfer_t -> Prop) (h h' : Hits_t)
    (f : Hits_t -> Hits_t) :
  alike_hits R h h' ->
  (exists v, f = fun x => set_n_iter x v) \/
  (exists v, f = fun x => set_n_size x v) \/
  (exists g, f = fun x => set_alloc_flags x (g (alloc_flags x))) ->
  alike_hits R (f h) (f h').
Proof.
  intros (Hp & Hn & Hi & Hs & Hf & H0 & Hc) [(v & ->)|[(v & ->)|(g & ->)]];
    unfold alike_hits; cbn; rewrite ?Hf; tauto.
Qed.

Ltac alike_go :=
  repeat first
    [ apply alike_halt
    | apply alike_bind_eq; intros ?
    | match goal with
      | |- alike _ (if ?c then _ else _) (if ?c then _ else _) => destruct c
      end ].

(** An option is parsed alike, whatever the cells held before. *)
Lemma parse_opt_alike (k : Z) (arg : string) (s s' : argp_state) :
  alike_state assigned s s' ->
  alike (fun r r' => fst r = fst r' /\ alike_state assigned (snd r) (snd r'))
    (parse_opt k arg s) (parse_opt k arg s').
Proof.
  destruct s as [h e], s' as [h' e'].
  intros (He & Hh). cbn [errno input] in *. subst e'.
  pose proof Hh as (Hp & Hn & Hi & Hs & Hf & H0 & Hc).
  pose proof (alike_cells_nth _ _ (Z.to_nat (n_transfers h)) _ _ Hc) as Hnth.
  assert (Hi' : forall v e1,
            alike (fun r r' => fst r = fst r' /\ alike_state assigned (snd r) (snd r'))
              (ret (0, {| input := set_n_iter h v; errno := e1 |}))
              (ret (0, {| input := set_n_iter h' v; errno := e1 |}))).
  { intros v e1. apply alike_ret. split; [reflexivity|]. split; [reflexivity|].
    apply (alike_hits_scalars _ _ _ (fun x => set_n_iter x v) Hh). eauto. }
  assert (Hs' : forall v e1,
            alike (fun r r' => fst r = fst r' /\ alike_state assigned (snd r) (snd r'))
              (ret (0, {| input := set_n_size h v; errno := e1 |}))
              (ret (0, {| input := set_n_size h' v; errno := e1 |}))).
  { intros v e1. apply alike_ret. split; [reflexivity|]. split; [reflexivity|].
    apply (alike_hits_scalars _ _ _ (fun x => set_n_size x v) Hh). eauto. }
  assert (Hf' : forall g e1,
            alike (fun r r' => fst r = fst r' /\ alike_state assigned (snd r) (snd r'))
              (ret (0, {| input := set_alloc_flags h (g (alloc_flags h)); errno := e1 |}))
              (ret (0, {| input := set_alloc_flags h' (g (alloc_flags h'));
                          errno := e1 |}))).
  { intros g e1. apply alike_ret. split; [reflexivity|]. split; [reflexivity|].
    apply (alike_hits_scalars _ _ _ (fun x => set_alloc_flags x (g (alloc_flags x))) Hh).
    eauto. }
  assert (Hk : forall c : Z, alike (fun r r' => fst r = fst r' /\
                                  alike_state assigned (snd r) (snd r'))
                           (ret (c, {| input := h; errno := e |}))
                           (ret (c, {| input := h'; errno := e |}))).
  { intros c. apply alike_ret. split; [reflexivity|]. split; [reflexivity|exact Hh]. }
  assert (Hst : forall v v' e1,
            assigned v v' ->
            (Z.to_nat (n_transfers h) < length (transfer h))%nat ->
            alike (fun r r' => fst r = fst r' /\ alike_state assigned (snd r) (snd r'))
              (ret (0, {| input := set_n_transfers
                                     (set_transfer h
                                        (store (Z.to_nat (n_transfers h)) v (transfer h)))
                                     (n_transfers h + 1);
                          errno := e1 |}))
              (ret (0, {| input := set_n_transfers
                                     (set_transfer h'
                                        (store (Z.to_nat (n_transfers h')) v'
                                           (transfer h')))
                                     (n_transfers h' + 1);
                          errno := e1 |}))).
  { intros v v' e1 Hv Hlt. apply alike_ret. split; [reflexivity|].
    split; [reflexivity|]. now apply alike_hits_store. }
  unfold parse_opt. cbv zeta. cbn [input errno].
  repeat match goal with
         | |- alike _ (if ?c then _ else _) (if ?c then _ else _) =>
             destruct c eqn:?
         end.
  - rewrite <- Hn at 1.
    destruct (nth_error (transfer h) (Z.to_nat (n_transfers h))) as [t|] eqn:Et,
           (nth_error (transfer h') (Z.to_nat (n_transfers h))) as [t'|] eqn:Et';
      try contradiction; [|apply alike_halt].
    cbn [device set_device set_device2 set_type]. alike_go.
    apply Hst; [|apply nth_error_Some; congruence].
    unfold assigned. cbn. repeat split. discriminate.
  - rewrite <- Hn at 1.
    destruct (nth_error (transfer h) (Z.to_nat (n_transfers h))) as [t|] eqn:Et,
           (nth_error (transfer h') (Z.to_nat (n_transfers h))) as [t'|] eqn:Et';
      try contradiction; [|apply alike_halt].
    cbn [device set_device set_device2 set_type]. alike_go.
    apply Hst; [|apply nth_error_Some; congruence].
    unfold assigned. cbn. repeat split. discriminate.
  - cbn [n_iter set_n_iter]. alike_go. apply Hi'.
  - apply (Hf' (fun x => Z.land x (Z.lnot is_numa_aware))).
  - apply (Hf' (fun x => Z.land x (Z.lnot is_pinned))).
  - rewrite <- Hn at 1.
    destruct (nth_error (transfer h) (Z.to_nat (n_transfers h))) as [t|] eqn:Et,
           (nth_error (transfer h') (Z.to_nat (n_transfers h))) as [t'|] eqn:Et';
      try contradiction; [|apply alike_halt].
    destruct (strtok arg O) as (token & save).
    destruct (strtol_token arg token None e) as ((v & endptr) & e1).
    cbn [device set_device set_type].
    destruct (errno_bad e1 || ptr_eqb token endptr || (to_int v <? 0));
      [alike_go|].
    destruct (strtok arg save) as (token2 & save2).
    destruct (strtol_token arg token2 endptr e1) as ((v2 & endptr2) & e2).
    cbn [device2 set_device2].
    destruct (errno_bad e2 || ptr_eqb token2 endptr2 || (to_int v2 <? 0)) eqn:E2;
      [alike_go|].
    destruct (strtok arg save2) as (token3 & save3).
    destruct (negb (ptr_eqb token3 endptr2) && not_null token3); [alike_go|].
    apply Hst; [|apply nth_error_Some; congruence].
    unfold assigned. cbn. repeat split.
    apply orb_false_iff in E2 as (_ & E2). apply Z.ltb_ge in E2. auto.
  - cbn [n_iter n_size set_n_size]. rewrite <- Hi. alike_go; apply Hs'.
  - rewrite <- Hn. alike_go. apply Hk.
  - apply Hk.
Qed.
Ltac fields :=
  cbn [start stop device device2 dest src stream type numa_node is_started
       prop_device prop_device2 set_start set_stop set_device set_device2
       set_dest set_src set_stream set_type set_numa_node set_is_started
       set_prop_device set_prop_device2].

Ltac same_fields :=
  repeat match goal with
         | H : _ /\ _ |- _ => destruct H
         end;
  repeat match goal with
         | H : _ = ?f ?t |- _ => rewrite <- H
         end.

Ltac alike_cell R :=
  apply alike_ret; unfold R, prepared; fields; intuition congruence.

Lemma argp_options_alike (opts : list (Z * string)) :
  forall s s',
    alike_state assigned s s' ->
    alike (alike_state assigned) (argp_options opts s) (argp_options opts s').
Proof.
  induction opts as [|(k, arg) opts IH]; intros s s' H; cbn [argp_options].
  - now apply alike_ret.
  - destruct (is_option k).
    + eapply alike_bind; [now apply parse_opt_alike|].
      intros r r' (Hf & Hr). rewrite <- Hf.
      destruct (fst r =? ARGP_ERR_UNKNOWN); [alike_go|now apply IH].
    + repeat match goal with
             | |- alike _ (if ?c then _ else _) (if ?c then _ else _) => destruct c
             end; try (now apply IH); try (alike_go; fail).
      rewrite !(proj1 (parse_opt_no_argument _ _)),
        !(proj2 (parse_opt_no_argument _ _)).
      apply (alike_bind (fun _ _ => True)); [now apply alike_ret|]. intros _ _ _.
      apply (alike_bind (fun _ _ => True)); [now apply alike_ret|]. intros _ _ _.
      alike_go.
Qed.

Lemma argp_parse_alike (opts : list (Z * string)) (h h' : Hits_t) :
  alike_hits assigned h h' ->
  alike (alike_hits assigned) (argp_parse opts h) (argp_parse opts h').
Proof.
  intros H. unfold argp_parse.
  eapply alike_bind; [apply argp_options_alike; now split|].
  intros s s' Hs.
  eapply alike_bind; [now apply parse_opt_alike|].
  intros r r' (_ & _ & Hr). now apply alike_ret.
Qed.

Lemma common_alike (P : Platform) (t t' : Transfer_t) :
  assigned t t' ->
  alike prepared (_transfer_init_common P t) (_transfer_init_common P t').
Proof.
  intros (Ht & Hd & Hd2 & Hp). unfold _transfer_init_common. cbv zeta. fields.
  rewrite <- Hd, <- Hd2.
  apply alike_bind_eq; intros _.
  apply (alike_bind described).
  - destruct (Z.geb_spec (device2 t) 0).
    + apply alike_bind_eq; intros _. alike_cell described.
    + apply alike_ret. unfold described. fields. repeat split; auto.
      intros HD. apply Hp in HD. lia.
  - intros u u' Hu. unfold described in Hu. same_fields.
    alike_go. alike_cell prepared.
Qed.

Lemma set_numa_affinity_alike (P : Platform) (t t' : Transfer_t) :
  prepared t t' ->
  alike prepared (set_numa_affinity P t) (set_numa_affinity P t').
Proof.
  intros H. unfold set_numa_affinity. cbv zeta.
  pose proof H as (_ & _ & _ & _ & _ & _ & _ & _ & Hprop & _).
  rewrite <- Hprop.
  apply alike_bind_eq; intros file.
  destruct (sysfs P (numa_file (prop_device t))) as [content|]; [|now apply alike_ret].
  apply alike_bind_eq; intros _.
  destruct (fscanf_d content) as (r, [n|]).
  - apply alike_bind_eq; intros _. fields.
    destruct (r =? 1); [apply alike_bind_eq; intros _|];
      unfold prepared in H; alike_cell prepared.
  - apply alike_bind_eq; intros _.
    pose proof H as (_ & _ & _ & _ & _ & _ & Hnode & _). rewrite <- Hnode.
    destruct (r =? 1); [apply alike_bind_eq; intros _|]; now apply alike_ret.
Qed.

Lemma init_one_alike (P : Platform) (n_size alloc_flags : Z) (t t' : Transfer_t) :
  assigned t t' ->
  alike allocated (init_one P n_size alloc_flags t) (init_one P n_size alloc_flags t').
Proof.
  intros H. unfold init_one. pose proof H as (Ht & _). rewrite <- Ht.
  destruct (type t);
    unfold dtoh_transfer_init, htod_transfer_init, dtod_transfer_init;
    (apply (alike_bind prepared); [now apply common_alike|]); intros u u' Hu.
  - apply (alike_bind prepared).
    { destruct (Z.land alloc_flags is_numa_aware =? 0);
        [now apply alike_ret|now apply set_numa_affinity_alike]. }
    intros v v' Hv. apply alike_bind_eq; intros p. fields.
    alike_go. unfold prepared in Hv. alike_cell allocated.
  - apply (alike_bind prepared).
    { destruct (Z.land alloc_flags is_numa_aware =? 0);
        [now apply alike_ret|now apply set_numa_affinity_alike]. }
    intros v v' Hv. apply alike_bind_eq; intros p. fields.
    alike_go. unfold prepared in Hv. alike_cell allocated.
  - pose proof Hu as (_ & _ & Hd & Hd2 & _). rewrite <- Hd, <- Hd2. fields.
    alike_go. rewrite <- Hd2. alike_go. unfold prepared in Hu. alike_cell allocated.
Qed.
Lemma transfer_init_alike (P : Platform) (h h' : Hits_t) :
  alike_hits assigned h h' ->
  alike (alike_hits allocated) (transfer_init P h) (transfer_init P h').
Proof.
  intros (Hp & Hn & Hi & Hs & Hf & H0 & Hc). unfold transfer_init, for_each.
  rewrite <- Hn, <- Hs, <- Hf.
  apply (alike_bind (alike_cells allocated (Z.to_nat (n_transfers h)))).
  - apply (alike_for_from assigned); [|exact Hc].
    intros _ t t'. apply init_one_alike.
  - intros a a' Ha. apply alike_ret. unfold alike_hits. cbn. rewrite <- Hn. tauto.
Qed.

Lemma init_alike (P : Platform) (t0 : Transfer_t) (argc : Z)
    (opts : list (Z * string)) :
  alike (alike_hits allocated)
    (init (with_indeterminate P t0) argc opts) (init P argc opts).
Proof.
  unfold init. cbn [with_indeterminate sizeof_Transfer_t null_result].
  apply alike_bind_eq; intros p.
  destruct (null_result P p); [alike_go|].
  change (transfer_init (with_indeterminate P t0)) with (transfer_init P).
  apply (alike_bind (alike_hits assigned)).
  - apply argp_parse_alike. unfold alike_hits, default_hits. cbn.
    repeat split; try lia; [now rewrite !repeat_length|constructor].
  - intros h h'. apply transfer_init_alike.
Qed.

Lemma issue_alike (P : Platform) (n_bytes : Z) (is_last : bool)
    (t t' : Transfer_t) :
  allocated t t' ->
  alike allocated (issue P n_bytes is_last t) (issue P n_bytes is_last t').
Proof.
  intros H. unfold issue. pose proof H as ((_ & _ & _ & _ & _ & Ht & _) & _).
  rewrite <- Ht. unfold allocated, prepared in H.
  destruct (type t) eqn:Ety; unfold direct_transfer, dtod_transfer;
    same_fields; rewrite ?Ety.
  - apply alike_bind_eq; intros _. apply (alike_bind allocated).
    + destruct (is_started t) eqn:Es; [alike_cell allocated|].
      alike_go; alike_cell allocated.
    + intros u u' Hu. unfold allocated, prepared in Hu. same_fields.
      alike_go; alike_cell allocated.
  - apply alike_bind_eq; intros _. apply (alike_bind allocated).
    + destruct (is_started t) eqn:Es; [alike_cell allocated|].
      alike_go; alike_cell allocated.
    + intros u u' Hu. unfold allocated, prepared in Hu. same_fields.
      alike_go; alike_cell allocated.
  - apply alike_bind_eq; intros _. apply (alike_bind allocated).
    + destruct (is_started t) eqn:Es; [alike_cell allocated|].
      match goal with H : _ -> prop_device2 t = _ |- _ => rewrite <- (H eq_refl) end.
      alike_go; alike_cell allocated.
    + intros u u' Hu. unfold allocated, prepared in Hu. same_fields.
      alike_go; alike_cell allocated.
Qed.

Lemma issue_loop_alike (P : Platform) (n_iter n_bytes : Z) (n : nat) :
  forall count i a a',
    alike_cells allocated n a a' ->
    alike (alike_cells allocated n)
      (issue_loop P n_iter n_bytes n count i a)
      (issue_loop P n_iter n_bytes n count i a').
Proof.
  induction count as [|count IH]; intros i a a' Ha; cbn [issue_loop].
  - now apply alike_ret.
  - apply (alike_bind (alike_cells allocated n)).
    + unfold issue_round, for_each. apply (alike_for_from allocated); [|exact Ha].
      intros _ t t'. apply issue_alike.
    + intros b b'. apply IH.
Qed.

Lemma synchronize_alike (P : Platform) (t t' : Transfer_t) :
  allocated t t' -> alike allocated (synchronize P t) (synchronize P t').
Proof.
  intros H. unfold synchronize. pose proof H as ((_ & _ & Hd & _) & _).
  rewrite <- Hd. alike_go. now apply alike_ret.
Qed.

Lemma report_alike (P : Platform) (n_gbytes : spec_float) (n_iter : Z) (i : nat)
    (t t' : Transfer_t) :
  allocated t t' ->
  alike allocated (report P n_gbytes n_iter i t) (report P n_gbytes n_iter i t').
Proof.
  intros H. unfold report. pose proof H as H'.
  unfold allocated, prepared in H'. same_fields. cbv zeta.
  apply alike_bind_eq; intros _. apply alike_bind_eq; intros k.
  destruct (type t) eqn:Ety.
  - apply alike_bind_eq; intros _. now apply alike_ret.
  - apply alike_bind_eq; intros _. now apply alike_ret.
  - match goal with H : _ -> prop_device2 t = _ |- _ => rewrite <- (H eq_refl) end.
    apply alike_bind_eq; intros _. now apply alike_ret.
Qed.

Lemma fini_one_alike (P : Platform) (alloc_flags : Z) (t t' : Transfer_t) :
  allocated t t' ->
  alike allocated (fini_one P alloc_flags t) (fini_one P alloc_flags t').
Proof.
  intros H. unfold fini_one. pose proof H as H'.
  unfold allocated, prepared in H'. same_fields.
  destruct (type t); alike_go; now apply alike_ret.
Qed.

Lemma fini_alike (P : Platform) (h h' : Hits_t) :
  alike_hits allocated h h' -> alike eq (fini P h) (fini P h').
Proof.
  intros (Hp & Hn & Hi & Hs & Hf & H0 & Hc). unfold fini, for_each.
  rewrite <- Hp, <- Hn, <- Hf.
  apply (alike_bind (alike_cells allocated (Z.to_nat (n_transfers h)))).
  - apply (alike_for_from allocated); [|exact Hc].
    intros _ t t'. apply fini_one_alike.
  - intros _ _ _. apply alike_refl.
Qed.

(** [main] runs alike whatever the fresh cells of the array hold. *)
Lemma main_alike (P : Platform) (t0 : Transfer_t) (argc : Z)
    (opts : list (Z * string)) :
  alike eq (main (with_indeterminate P t0) argc opts) (main P argc opts).
Proof.
  unfold main. apply (alike_bind (alike_hits allocated)); [apply init_alike|].
  intros h h' Hh. cbv zeta.
  change (issue_loop (with_indeterminate P t0)) with (issue_loop P).
  change (synchronize (with_indeterminate P t0)) with (synchronize P).
  change (report (with_indeterminate P t0)) with (report P).
  change (fini (with_indeterminate P t0)) with (fini P).
  pose proof Hh as (Hp & Hn & Hi & Hs & Hf & H0 & Hc).
  rewrite <- Hn, <- Hi, <- Hs.
  apply alike_bind_eq; intros _.
  apply (alike_bind (alike_cells allocated (Z.to_nat (n_transfers h))));
    [now apply issue_loop_alike|].
  intros a a' Ha.
  apply (alike_bind (alike_cells allocated (Z.to_nat (n_transfers h)))).
  { unfold for_each. apply (alike_for_from allocated); [|exact Ha].
    intros _ t t'. apply synchronize_alike. }
  intros b b' Hb. apply alike_bind_eq; intros _.
  apply (alike_bind (alike_cells allocated (Z.to_nat (n_transfers h)))).
  { unfold for_each. apply (alike_for_from allocated); [|exact Hb].
    intros i t t'. apply report_alike. }
  intros c c' Hcc. apply (alike_bind eq).
  - apply fini_alike. unfold alike_hits. cbn. tauto.
  - intros _ _ _. apply alike_refl.
Qed.

(** *** Numerals out of range *)

(** [strtol] on a numeral above [LONG_MAX]. *)
Lemma strtol_overflow u rest :
  u <> Decimal.Nil -> no_digit_ahead rest -> LONG_MAX < value_of u ->
  strtol (decimal u ++ rest)
  = {| st_val := LONG_MAX; st_end := Decimal.nb_digits u; st_erange := true |}.
Proof.
  intros Hu Hr Hv. unfold strtol.
  destruct (decimal_head u rest Hu) as (-> & -> & Hn).
  change 0 with (Z.of_nat 0). rewrite (scan_decimal u O rest Hr).
  fold (Nat.of_uint u). fold (value_of u).
  destruct (Decimal.nb_digits u) as [|n] eqn:En; [lia|].
  destruct (Z.ltb_spec LONG_MAX (value_of u)); [reflexivity|lia].
Qed.

(** [strtol] on a minus sign and a numeral. *)
Lemma strtol_negative u rest :
  u <> Decimal.Nil -> no_digit_ahead rest -> value_of u <= LONG_MAX ->
  strtol ("-" ++ decimal u ++ rest)
  = {| st_val := - value_of u; st_end := S (Decimal.nb_digits u);
       st_erange := false |}.
Proof.
  intros Hu Hr Hv. unfold strtol.
  cbn [String.append skip_spaces scan_sign].
  change (isspace "-") with false. cbv beta iota.
  change (scan_sign (String "-" (decimal u ++ rest)))
    with (true, 1%nat, (decimal u ++ rest)%string).
  cbv beta iota.
  destruct (decimal_head u rest Hu) as (_ & _ & Hn).
  pose proof (scan_decimal u O rest Hr) as Hsd. change (Z.of_nat 0) with 0 in Hsd.
  rewrite Hsd.
  fold (Nat.of_uint u). fold (value_of u).
  destruct (Decimal.nb_digits u) as [|n] eqn:En; [lia|].
  assert (H0 : 0 <= value_of u) by (unfold value_of; lia).
  destruct (Z.ltb_spec LONG_MAX (- value_of u)); [unfold LONG_MAX in *; lia|].
  destruct (Z.ltb_spec (- value_of u) LONG_MIN);
    [unfold LONG_MAX, LONG_MIN in *; lia|].
  reflexivity.
Qed.

Lemma to_int_negative v : - 2 ^ 31 <= v < 0 -> to_int v = v.
Proof.
  intros Hv. unfold to_int.
  replace ((v + 2 ^ 31) mod 2 ^ 32) with (v + 2 ^ 31); [lia|].
  symmetry. apply Z.mod_small. lia.
Qed.

(** *** What [init] returns *)

(** [init] returns with at least one transfer. *)
Lemma init_requested P argc opts pos hits d :
  init P argc opts pos = Ret hits d ->
  n_transfers hits = Z.of_nat (length (requested opts)) /\
  1 <= n_transfers hits.
Proof.
  unfold init, transfer_init. intros H. repeat step_ret.
  match goal with H : argp_parse _ _ _ = _ |- _ =>
    apply argp_parse_requested in H as (Hn & H1 & _); [|reflexivity] end.
  cbn [n_transfers set_transfer]. auto.
Qed.

(** On a well-behaved machine [init] returns whenever [argp_parse] accepts
    the command line. *)
Lemma init_returns P argc opts hits0 d0 :
  well_behaved P ->
  argp_parse opts (default_hits P O argc) 1%nat = Ret hits0 d0 ->
  exists hits d, run (init P argc opts) = Ret hits d.
Proof.
  intros HP Hparse.
  destruct (main_returns P argc opts hits0 d0 HP Hparse) as (d & Hd).
  unfold run in *. apply main_Ret in Hd as (hits & d1 & _ & _ & _ & _ & _ & _ & _ & _ & Hi & _).
  eauto.
Qed.
(** *** Rounding *)

Lemma digits2_pos_size p : digits2_pos p = Pos.size p.
Proof. induction p as [p IH|p IH|]; simpl; now rewrite ?IH. Qed.

Lemma digits2_pos_log2 p : Zpos (digits2_pos p) = Z.log2 (Zpos p) + 1.
Proof.
  rewrite digits2_pos_size. destruct p as [p|p|]; simpl; try reflexivity.
  all: now rewrite Pos.add_1_r.
Qed.

Lemma digits2_pos_spec p :
  2 ^ (Zpos (digits2_pos p) - 1) <= Zpos p < 2 ^ Zpos (digits2_pos p).
Proof.
  rewrite digits2_pos_log2.
  pose proof (Z.log2_spec (Zpos p) ltac:(lia)) as H.
  replace (Z.log2 (Zpos p) + 1 - 1) with (Z.log2 (Zpos p)) by lia.
  exact H.
Qed.

Lemma digits2_pos_unique p d :
  2 ^ (d - 1) <= Zpos p < 2 ^ d -> Zpos (digits2_pos p) = d.
Proof.
  intros H. rewrite digits2_pos_log2.
  assert (Hd : 0 < d).
  { destruct (Z.ltb_spec 0 d) as [|Hle]; [assumption|].
    destruct H as [_ H]. destruct (Z.eqb_spec d 0) as [->|Hne]; [simpl in H; lia|].
    rewrite Z.pow_neg_r in H by lia. lia. }
  rewrite (Z.log2_unique (Zpos p) (d - 1)); [lia|lia|].
  now replace (Z.succ (d - 1)) with d by lia.
Qed.

Lemma shr_1_m r : 0 <= shr_m r -> shr_m (shr_1 r) = shr_m r / 2.
Proof.
  destruct r as [m rb sb]. cbn [shr_m shr_1]. intros H.
  destruct m as [|p|p]; [reflexivity| |lia].
  destruct p as [p|p|]; cbn [shr_m].
  - rewrite Pos2Z.inj_xI. apply Z.div_unique with 1; lia.
  - rewrite Pos2Z.inj_xO. apply Z.div_unique with 0; lia.
  - reflexivity.
Qed.

Lemma iter_pos_shr_m p : forall r,
  0 <= shr_m r -> shr_m (iter_pos shr_1 p r) = shr_m r / 2 ^ Zpos p.
Proof.
  induction p as [p IH|p IH|]; intros r Hr; cbn [iter_pos].
  - assert (H1 : 0 <= shr_m (shr_1 r))
      by (rewrite shr_1_m by assumption; apply Z.div_pos; lia).
    assert (H2 : 0 <= shr_m (iter_pos shr_1 p (shr_1 r)))
      by (rewrite IH by assumption; apply Z.div_pos; lia).
    rewrite IH, IH, shr_1_m by assumption.
    rewrite !Z.div_div by lia. f_equal.
    rewrite Pos2Z.inj_xI, Z.pow_add_r, Z.pow_mul_r, Z.pow_1_r by lia.
    change (2 ^ 2) with 4.
    replace (4 ^ Zpos p) with (2 ^ Zpos p * 2 ^ Zpos p); [lia|].
    rewrite <- Z.pow_add_r by lia. replace (Zpos p + Zpos p) with (2 * Zpos p) by lia.
    now rewrite Z.pow_mul_r by lia.
  - assert (H2 : 0 <= shr_m (iter_pos shr_1 p r))
      by (rewrite IH by assumption; apply Z.div_pos; lia).
    rewrite IH, IH by assumption.
    rewrite !Z.div_div by lia. f_equal.
    rewrite Pos2Z.inj_xO. rewrite <- Z.pow_add_r by lia. f_equal. lia.
  - rewrite shr_1_m by assumption. reflexivity.
Qed.

Lemma shr_record_of_loc_m m l : shr_m (shr_record_of_loc m l) = m.
Proof. destruct l as [|[]]; reflexivity. Qed.

Lemma round_nearest_even_cases m l :
  round_nearest_even m l = m \/ round_nearest_even m l = m + 1.
Proof.
  destruct l as [|[]]; cbn [round_nearest_even]; auto.
  destruct (Z.even m); auto.
Qed.

Section Round.

Variables prec emax : Z.
Hypothesis Hprec : 0 < prec.

Lemma fexp_normal z : 3 - emax - prec + prec <= z -> fexp prec emax z = z - prec.
Proof. unfold fexp, emin. lia. Qed.

Lemma shr_fexp_spec mx ex lx :
  prec <= Zpos (digits2_pos mx) ->
  3 - emax - prec + prec <= Zpos (digits2_pos mx) + ex ->
  exists r,
    shr_fexp prec emax (Zpos mx) ex lx = (r, ex + (Zpos (digits2_pos mx) - prec)) /\
    shr_m r = Zpos mx / 2 ^ (Zpos (digits2_pos mx) - prec).
Proof.
  intros Hd He. unfold shr_fexp. cbn [Zdigits2].
  rewrite fexp_normal by assumption.
  replace (Zpos (digits2_pos mx) + ex - prec - ex)
    with (Zpos (digits2_pos mx) - prec) by lia.
  destruct (Zpos (digits2_pos mx) - prec) as [|n|n] eqn:En; [| |lia].
  - cbn [shr]. eexists. split; [f_equal; lia|].
    rewrite shr_record_of_loc_m. now rewrite Z.div_1_r.
  - cbn [shr]. eexists. split; [reflexivity|].
    rewrite iter_pos_shr_m; rewrite shr_record_of_loc_m; [reflexivity|lia].
Qed.

Lemma binary_round_aux_spec s mx ex lx :
  let d := Zpos (digits2_pos mx) in
  prec <= d ->
  3 - emax - prec + prec <= d + ex ->
  d + ex < emax ->
  exists m e m1 k,
    binary_round_aux prec emax s (Zpos mx) ex lx = S754_finite s m e /\
    Zpos (digits2_pos m) = prec /\
    2 ^ (prec - 1) <= m1 /\
    m1 * 2 ^ (d - prec) <= Zpos mx < (m1 + 1) * 2 ^ (d - prec) /\
    e = ex + (d - prec) + k /\ 0 <= k <= 1 /\
    (Zpos m * 2 ^ k = m1 \/ Zpos m * 2 ^ k = m1 + 1).
Proof.
  intros d Hd He Hmax. unfold binary_round_aux.
  destruct (shr_fexp_spec mx ex lx Hd He) as (r1 & -> & Hr1). fold d in Hr1 |- *.
  pose proof (digits2_pos_spec mx) as Hmx. fold d in Hmx.
  set (n := d - prec) in *.
  set (m1 := shr_m r1) in *.
  assert (Hpow : 2 ^ (d - 1) = 2 ^ (prec - 1) * 2 ^ n)
    by (rewrite <- Z.pow_add_r by lia; f_equal; lia).
  assert (Hpow' : 2 ^ d = 2 ^ prec * 2 ^ n)
    by (rewrite <- Z.pow_add_r by lia; f_equal; lia).
  assert (Hn : 0 < 2 ^ n) by (apply Z.pow_pos_nonneg; lia).
  assert (Hm1 : 2 ^ (prec - 1) <= m1 < 2 ^ prec).
  { rewrite Hr1. split.
    - apply Z.div_le_lower_bound; lia.
    - apply Z.div_lt_upper_bound; lia. }
  assert (Hdiv : m1 * 2 ^ n <= Zpos mx < (m1 + 1) * 2 ^ n).
  { pose proof (Z.div_mod (Zpos mx) (2 ^ n) ltac:(lia)) as E.
    pose proof (Z.mod_pos_bound (Zpos mx) (2 ^ n) Hn) as B.
    rewrite <- Hr1 in E. lia. }
  assert (Hp1 : 0 < 2 ^ (prec - 1)) by (apply Z.pow_pos_nonneg; lia).
  assert (Hpp : 2 ^ prec = 2 * 2 ^ (prec - 1)).
  { replace prec with (1 + (prec - 1)) at 1 by lia.
    now rewrite Z.pow_add_r by lia. }
  set (m2 := round_nearest_even m1 (loc_of_shr_record r1)).
  assert (Hm2 : m2 = m1 \/ m2 = m1 + 1) by apply round_nearest_even_cases.
  destruct m2 as [|p2|p2] eqn:Ep2; [lia| |lia].
  assert (Hcase : Zpos p2 < 2 ^ prec \/ Zpos p2 = 2 ^ prec) by lia.
  assert (Hd2 : Zpos (digits2_pos p2) = prec \/
                (Zpos (digits2_pos p2) = prec + 1 /\ Zpos p2 = 2 ^ prec)).
  { destruct Hcase as [Hlt|Heq].
    - left. apply digits2_pos_unique. lia.
    - right. split; [|assumption]. apply digits2_pos_unique.
      replace (prec + 1 - 1) with prec by lia. rewrite Z.pow_add_r by lia.
      change (2 ^ 1) with 2. lia. }
  destruct (shr_fexp_spec p2 (ex + n) loc_Exact) as (r2 & -> & Hr2); [lia|lia|].
  destruct Hd2 as [Hd2|(Hd2 & Hp2)]; rewrite Hd2 in *.
  - replace (prec - prec) with 0 in * by lia. rewrite Z.div_1_r in Hr2.
    rewrite Hr2.
    replace (ex + n + 0 <=? emax - prec) with true
      by (symmetry; apply Z.leb_le; lia).
    exists p2, (ex + n + 0), m1, 0. rewrite Z.mul_1_r.
    repeat split; try lia; apply digits2_pos_unique; lia.
  - replace (prec + 1 - prec) with 1 in * by lia.
    change (2 ^ 1) with 2 in Hr2.
    assert (E2 : shr_m r2 = 2 ^ (prec - 1)).
    { rewrite Hr2, Hp2, Hpp. rewrite Z.mul_comm. now apply Z.div_mul. }
    destruct (shr_m r2) as [|p3|p3] eqn:Ep3; [lia| |lia].
    replace (ex + n + 1 <=? emax - prec) with true
      by (symmetry; apply Z.leb_le; lia).
    exists p3, (ex + n + 1), m1, 1. change (2 ^ 1) with 2.
    repeat split; try lia; apply digits2_pos_unique; lia.
Qed.

End Round.

Lemma pow2_pos e : (0 < 2 ^ e)%Q.
Proof. apply Qpower_0_lt. reflexivity. Qed.

Lemma pow2_add a b : (2 ^ (a + b) == 2 ^ a * 2 ^ b)%Q.
Proof. apply Qpower_plus. discriminate. Qed.

Lemma pow2_inject n : 0 <= n -> (inject_Z (2 ^ n) == 2 ^ n)%Q.
Proof. intros H. now rewrite Zpower_Qpower. Qed.

Lemma F2Q_shift m k e : 0 <= k -> (F2Q (m * 2 ^ k) e == F2Q m (e + k))%Q.
Proof.
  intros Hk. unfold F2Q. rewrite inject_Z_mult, pow2_inject, pow2_add by assumption.
  ring.
Qed.

Lemma F2Q_le m m' e : m <= m' -> (F2Q m e <= F2Q m' e)%Q.
Proof.
  intros H. unfold F2Q. apply Qmult_le_compat_r.
  - now rewrite <- Zle_Qle.
  - apply Qlt_le_weak, pow2_pos.
Qed.

Lemma F2Q_pos m e : 0 < m -> (0 < F2Q m e)%Q.
Proof.
  intros H. unfold F2Q. apply Qmult_lt_0_compat; [|apply pow2_pos].
  change 0%Q with (inject_Z 0). now rewrite <- Zlt_Qlt.
Qed.

Section RoundQ.

Variables prec emax : Z.
Hypothesis Hprec : 0 < prec.

Lemma binary_round_aux_near s mx ex lx :
  prec <= Zpos (digits2_pos mx) ->
  3 - emax - prec + prec <= Zpos (digits2_pos mx) + ex ->
  Zpos (digits2_pos mx) + ex < emax ->
  exists m e,
    binary_round_aux prec emax s (Zpos mx) ex lx = S754_finite s m e /\
    Zpos (digits2_pos m) = prec /\
    Zpos (digits2_pos mx) + ex <= prec + e <= Zpos (digits2_pos mx) + ex + 1 /\
    forall x, (F2Q (Zpos mx) ex <= x)%Q -> (x <= F2Q (Zpos mx + 1) ex)%Q ->
      near (ulp_rel prec) (F2Q (Zpos m) e) x.
Proof.
  intros Hd He Hmax.
  destruct (binary_round_aux_spec prec emax Hprec s mx ex lx Hd He Hmax)
    as (m & e & m1 & k & Hr & Hdm & Hm1 & Hmx & He' & Hk & Hv).
  exists m, e. split; [exact Hr|]. split; [exact Hdm|]. split; [lia|].
  intros x Hx1 Hx2. subst e.
  set (n := Zpos (digits2_pos mx) - prec) in *.
  assert (Hv' : (F2Q (Zpos m) (ex + n + k) == F2Q m1 (ex + n) \/
                 F2Q (Zpos m) (ex + n + k) == F2Q (m1 + 1) (ex + n))%Q).
  { rewrite <- (F2Q_shift (Zpos m) k) by lia.
    destruct Hv as [-> | ->]; [left|right]; reflexivity. }
  assert (Ha : (F2Q m1 (ex + n) <= x)%Q).
  { eapply Qle_trans; [|exact Hx1]. rewrite <- F2Q_shift by lia.
    apply F2Q_le. lia. }
  assert (Hb : (x <= F2Q (m1 + 1) (ex + n))%Q).
  { eapply Qle_trans; [exact Hx2|]. rewrite <- F2Q_shift by lia.
    apply F2Q_le. lia. }
  assert (HK : (0 < inject_Z (2 ^ (prec - 1)))%Q).
  { change 0%Q with (inject_Z 0). rewrite <- Zlt_Qlt. apply Z.pow_pos_nonneg; lia. }
  assert (HU : (2 ^ (ex + n) <= x * ulp_rel prec)%Q).
  { unfold ulp_rel. apply Qle_shift_div_l; [exact HK|].
    eapply Qle_trans; [|exact Ha]. unfold F2Q. rewrite Qmult_comm.
    apply Qmult_le_compat_r; [|apply Qlt_le_weak, pow2_pos].
    now rewrite <- Zle_Qle. }
  assert (Hs : (F2Q (m1 + 1) (ex + n) == F2Q m1 (ex + n) + 2 ^ (ex + n))%Q).
  { unfold F2Q. rewrite inject_Z_plus. change (inject_Z 1) with 1%Q. ring. }
  unfold near. generalize dependent (ulp_rel prec). intros u HU.
  destruct Hv' as [Hv'|Hv']; rewrite Hv'; split; lra.
Qed.

End RoundQ.

Lemma iter_xO mx k : Zpos (Pos.iter xO mx k) = Zpos mx * 2 ^ Zpos k.
Proof.
  induction k as [|k IH] using Pos.peano_ind.
  - simpl. lia.
  - rewrite Pos.iter_succ, Pos2Z.inj_xO, IH, Pos2Z.inj_succ, Z.pow_succ_r by lia.
    lia.
Qed.

Lemma digits2_pos_shift mx mz k :
  0 <= k -> Zpos mz = Zpos mx * 2 ^ k ->
  Zpos (digits2_pos mz) = Zpos (digits2_pos mx) + k.
Proof.
  intros Hk E. apply digits2_pos_unique. rewrite E.
  pose proof (digits2_pos_spec mx) as [H1 H2].
  assert (0 < 2 ^ k) by (apply Z.pow_pos_nonneg; lia).
  replace (Zpos (digits2_pos mx) + k - 1) with (Zpos (digits2_pos mx) - 1 + k) by lia.
  rewrite !Z.pow_add_r by lia. nia.
Qed.

Lemma pow2_lt_inv a b : 2 ^ a < 2 ^ b -> 0 <= b -> a < b.
Proof.
  intros H Hb. destruct (Z.ltb_spec a b) as [|Hle]; [assumption|].
  apply (Z.pow_le_mono_r 2) in Hle; lia.
Qed.

Section Ops.

Variables prec emax : Z.
Hypothesis Hprec : 0 < prec.

Lemma binary_round_near s mx ex :
  3 - emax - prec + prec <= Zpos (digits2_pos mx) + ex ->
  Zpos (digits2_pos mx) + ex < emax ->
  exists m e,
    binary_round prec emax s mx ex = S754_finite s m e /\
    Zpos (digits2_pos m) = prec /\
    Zpos (digits2_pos mx) + ex <= prec + e <= Zpos (digits2_pos mx) + ex + 1 /\
    near (ulp_rel prec) (F2Q (Zpos m) e) (F2Q (Zpos mx) ex).
Proof.
  intros He Hmax. unfold binary_round. rewrite fexp_normal by assumption.
  unfold shl_align.
  replace (Zpos (digits2_pos mx) + ex - prec - ex)
    with (Zpos (digits2_pos mx) - prec) by lia.
  destruct (Zpos (digits2_pos mx) - prec) as [|n|n] eqn:En.
  - destruct (binary_round_aux_near prec emax Hprec s mx ex loc_Exact)
      as (m & e & Hr & Hd & Hg & Hn); [lia|lia|lia|].
    exists m, e. split; [exact Hr|]. split; [exact Hd|]. split; [lia|].
    apply Hn; [apply Qle_refl|apply F2Q_le; lia].
  - destruct (binary_round_aux_near prec emax Hprec s mx ex loc_Exact)
      as (m & e & Hr & Hd & Hg & Hn); [lia|lia|lia|].
    exists m, e. split; [exact Hr|]. split; [exact Hd|]. split; [lia|].
    apply Hn; [apply Qle_refl|apply F2Q_le; lia].
  - pose proof (iter_xO mx n) as Ez.
    pose proof (digits2_pos_shift mx _ (Zpos n) ltac:(lia) Ez) as Hdz.
    destruct (binary_round_aux_near prec emax Hprec s (Pos.iter xO mx n)
                (Zpos (digits2_pos mx) + ex - prec) loc_Exact)
      as (m & e & Hr & Hd & Hg & Hn); [lia|lia|lia|].
    exists m, e. split; [exact Hr|]. split; [exact Hd|]. split; [lia|].
    assert (E : (F2Q (Zpos (Pos.iter xO mx n)) (Zpos (digits2_pos mx) + ex - prec)
                 == F2Q (Zpos mx) ex)%Q).
    { rewrite Ez, F2Q_shift by lia.
      now replace (Zpos (digits2_pos mx) + ex - prec + Zpos n) with ex by lia. }
    apply Hn; [rewrite E; apply Qle_refl|].
    rewrite <- E. apply F2Q_le. lia.
Qed.

Lemma SFmul_near m1 e1 m2 e2 :
  let d1 := Zpos (digits2_pos m1) in
  let d2 := Zpos (digits2_pos m2) in
  prec <= d1 + d2 - 1 ->
  3 - emax - prec + prec <= d1 + d2 - 1 + (e1 + e2) ->
  d1 + d2 + (e1 + e2) < emax ->
  exists m e,
    SFmul prec emax (S754_finite false m1 e1) (S754_finite false m2 e2)
    = S754_finite false m e /\
    Zpos (digits2_pos m) = prec /\
    d1 + d2 - 1 + (e1 + e2) <= prec + e <= d1 + d2 + (e1 + e2) + 1 /\
    near (ulp_rel prec) (F2Q (Zpos m) e) (F2Q (Zpos m1) e1 * F2Q (Zpos m2) e2).
Proof.
  intros d1 d2 Hd He Hmax. cbn [SFmul xorb].
  pose proof (digits2_pos_spec m1) as H1. pose proof (digits2_pos_spec m2) as H2.
  fold d1 in H1. fold d2 in H2.
  pose proof (digits2_pos_spec (m1 * m2)) as H3.
  set (d := Zpos (digits2_pos (m1 * m2))) in *.
  rewrite Pos2Z.inj_mul in H3.
  assert (Hd1 : 0 < d1) by (unfold d1; lia).
  assert (Hd2 : 0 < d2) by (unfold d2; lia).
  assert (Hdd : d1 + d2 - 1 <= d <= d1 + d2).
  { split.
    - assert (2 ^ (d1 + d2 - 2) < 2 ^ d); [|apply pow2_lt_inv in H; unfold d in *; lia].
      replace (d1 + d2 - 2) with ((d1 - 1) + (d2 - 1)) by lia.
      rewrite Z.pow_add_r by lia.
      assert (0 < 2 ^ (d1 - 1)) by (apply Z.pow_pos_nonneg; lia).
      assert (0 < 2 ^ (d2 - 1)) by (apply Z.pow_pos_nonneg; lia). nia.
    - assert (2 ^ (d - 1) < 2 ^ (d1 + d2)); [|apply pow2_lt_inv in H; lia].
      rewrite Z.pow_add_r by lia. nia. }
  destruct (binary_round_aux_near prec emax Hprec false (m1 * m2) (e1 + e2) loc_Exact)
    as (m & e & Hr & Hdm & Hg & Hn); fold d; [lia|lia|lia|].
  fold d in Hg.
  exists m, e. split; [exact Hr|]. split; [exact Hdm|]. split; [lia|].
  assert (E : (F2Q (Zpos m1) e1 * F2Q (Zpos m2) e2 == F2Q (Zpos (m1 * m2)) (e1 + e2))%Q).
  { unfold F2Q. rewrite Pos2Z.inj_mul, inject_Z_mult, pow2_add. ring. }
  apply Hn; [rewrite E; apply Qle_refl|].
  rewrite E. apply F2Q_le. lia.
Qed.

Lemma SFdiv_near m1 e1 m2 e2 :
  let D := Zpos (digits2_pos m1) + e1 - (Zpos (digits2_pos m2) + e2) in
  3 - emax - prec + prec <= D ->
  D + 1 < emax ->
  exists m e,
    SFdiv prec emax (S754_finite false m1 e1) (S754_finite false m2 e2)
    = S754_finite false m e /\
    Zpos (digits2_pos m) = prec /\
    D <= prec + e <= D + 2 /\
    near (ulp_rel prec) (F2Q (Zpos m) e) (F2Q (Zpos m1) e1 / F2Q (Zpos m2) e2).
Proof.
  intros D He Hmax. cbn [SFdiv xorb]. unfold SFdiv_core_binary. cbn [Zdigits2].
  fold D. rewrite fexp_normal by assumption.
  set (e' := Z.min (D - prec) (e1 - e2)).
  set (s := e1 - e2 - e').
  pose proof (digits2_pos_spec m1) as H1. pose proof (digits2_pos_spec m2) as H2.
  set (d1 := Zpos (digits2_pos m1)) in *. set (d2 := Zpos (digits2_pos m2)) in *.
  assert (Hd1 : 0 < d1) by (unfold d1; lia).
  assert (Hd2 : 0 < d2) by (unfold d2; lia).
  assert (Hs : 0 <= s) by (unfold s, e'; lia).
  assert (Hm' : match s with
                | Zpos _ => Z.shiftl (Zpos m1) s
                | 0 => Zpos m1
                | Zneg _ => 0
                end = Zpos m1 * 2 ^ s).
  { destruct s as [|p|p] eqn:Es; [simpl; lia| |lia].
    now rewrite Z.shiftl_mul_pow2 by lia. }
  rewrite Hm'. clear Hm'.
  pose proof (Z_div_mod (Zpos m1 * 2 ^ s) (Zpos m2) ltac:(lia)) as Hdm.
  destruct (Z.div_eucl (Zpos m1 * 2 ^ s) (Zpos m2)) as [q r].
  destruct Hdm as (Eq & Hr).
  assert (H2s : 0 < 2 ^ s) by (apply Z.pow_pos_nonneg; lia).
  assert (Hlo : 2 ^ (D - e' - 1) <= q).
  { assert (Zpos m2 * 2 ^ (D - e' - 1) <= Zpos m1 * 2 ^ s); [|nia].
    assert (E : 2 ^ d2 * 2 ^ (D - e' - 1) = 2 ^ (d1 - 1) * 2 ^ s).
    { rewrite <- !Z.pow_add_r by (unfold e'; lia). f_equal. unfold s, D. lia. }
    assert (0 < 2 ^ (D - e' - 1)) by (apply Z.pow_pos_nonneg; unfold e'; lia).
    nia. }
  assert (Hhi : q < 2 ^ (D - e' + 1)).
  { assert (Zpos m1 * 2 ^ s < Zpos m2 * 2 ^ (D - e' + 1)); [|nia].
    assert (E : 2 ^ (d2 - 1) * 2 ^ (D - e' + 1) = 2 ^ d1 * 2 ^ s).
    { rewrite <- !Z.pow_add_r by (unfold e'; lia). f_equal. unfold s, D. lia. }
    assert (0 < 2 ^ (D - e' + 1)) by (apply Z.pow_pos_nonneg; unfold e'; lia).
    nia. }
  assert (Hq : 0 < q).
  { assert (0 < 2 ^ (D - e' - 1)) by (apply Z.pow_pos_nonneg; unfold e'; lia). lia. }
  destruct q as [|q|q]; [lia| |lia].
  pose proof (digits2_pos_spec q) as H3.
  set (dq := Zpos (digits2_pos q)) in *.
  assert (Hdq : D - e' <= dq <= D - e' + 1).
  { split.
    - assert (2 ^ (D - e' - 1) < 2 ^ dq) by lia.
      apply pow2_lt_inv in H; unfold dq in *; lia.
    - assert (2 ^ (dq - 1) < 2 ^ (D - e' + 1)) by lia.
      apply pow2_lt_inv in H; unfold e' in *; lia. }
  destruct (binary_round_aux_near prec emax Hprec false q e'
              (new_location (Zpos m2) r))
    as (m & e & Hra & Hdm & Hg & Hn); fold dq; [unfold e' in *; lia|lia|lia|].
  fold dq in Hg.
  exists m, e. split; [exact Hra|]. split; [exact Hdm|]. split; [lia|].
  assert (Hp2 : (0 < F2Q (Zpos m2) e2)%Q) by (apply F2Q_pos; lia).
  assert (E : forall k, (F2Q k e' * F2Q (Zpos m2) e2 == F2Q (k * Zpos m2) (e' + e2))%Q).
  { intros k. unfold F2Q. rewrite inject_Z_mult, pow2_add. ring. }
  assert (E1 : (F2Q (Zpos m1) e1 == F2Q (Zpos m1 * 2 ^ s) (e' + e2))%Q).
  { rewrite F2Q_shift by assumption.
    now replace (e' + e2 + s) with e1 by (unfold s; lia). }
  apply Hn.
  - apply Qle_shift_div_l; [exact Hp2|]. rewrite E, E1. apply F2Q_le. lia.
  - apply Qle_shift_div_r; [exact Hp2|]. rewrite E, E1. apply F2Q_le. lia.
Qed.

End Ops.

Lemma mag_lower m e a : (2 ^ a <= F2Q (Zpos m) e)%Q -> a < Zpos (digits2_pos m) + e.
Proof.
  intros H. pose proof (digits2_pos_spec m) as [_ Hm].
  apply (Qpower_lt_compat_l_inv 2); [|reflexivity].
  eapply Qle_lt_trans; [exact H|]. rewrite pow2_add, <- pow2_inject by lia.
  unfold F2Q. apply Qmult_lt_compat_r; [apply pow2_pos|]. now rewrite <- Zlt_Qlt.
Qed.

Lemma mag_upper m e b : (F2Q (Zpos m) e <= 2 ^ b)%Q -> Zpos (digits2_pos m) + e <= b + 1.
Proof.
  intros H. pose proof (digits2_pos_spec m) as [Hm _].
  assert (Zpos (digits2_pos m) - 1 + e <= b); [|lia].
  apply (Qpower_le_compat_l_inv 2); [|reflexivity].
  eapply Qle_trans; [|exact H]. rewrite pow2_add, <- pow2_inject by lia.
  unfold F2Q. apply Qmult_le_compat_r; [|apply Qlt_le_weak, pow2_pos].
  now rewrite <- Zle_Qle.
Qed.

Section Intervals.

Local Open Scope Q_scope.

Lemma within_eq v x : v == x -> within 1 1 v x.
Proof. intros E. unfold within. rewrite E. split; lra. Qed.

Lemma within_near u v y lo hi x :
  near u v y -> within lo hi y x -> 0 <= u -> u <= 1 ->
  within ((1 - u) * lo) ((1 + u) * hi) v x.
Proof.
  unfold near, within. intros (H1 & H2) (H3 & H4) Hu Hu'. split; nra.
Qed.

Lemma within_mul l1 h1 a x l2 h2 b y :
  within l1 h1 a x -> within l2 h2 b y -> 0 <= l1 -> 0 <= l2 -> 0 <= x -> 0 <= y ->
  within (l1 * l2) (h1 * h2) (a * b) (x * y).
Proof.
  unfold within. intros (H1 & H2) (H3 & H4) ? ? ? ?.
  assert (0 <= l1 * x) by nra. assert (0 <= l2 * y) by nra.
  split; nra.
Qed.

Lemma within_inv l h b y :
  within l h b y -> 0 < l -> 0 < y -> within (/ h) (/ l) (/ b) (/ y).
Proof.
  unfold within. intros (H1 & H2) Hl Hy.
  assert (Hb : 0 < b) by nra.
  assert (Hh : 0 < h) by nra.
  pose proof (Qinv_lt_0_compat _ Hl) as Hil. pose proof (Qinv_lt_0_compat _ Hy) as Hiy.
  pose proof (Qinv_lt_0_compat _ Hh) as Hih. pose proof (Qinv_lt_0_compat _ Hb) as Hib.
  assert (El : l * / l == 1) by (apply Qmult_inv_r; lra).
  assert (Eh : h * / h == 1) by (apply Qmult_inv_r; lra).
  assert (Ey : y * / y == 1) by (apply Qmult_inv_r; lra).
  assert (Eb : b * / b == 1) by (apply Qmult_inv_r; lra).
  split.
  - apply (Qmult_le_r _ _ b Hb). rewrite (Qmult_comm (/ b)), Eb.
    assert (/ h * / y * b <= / h * / y * (h * y)).
    { apply Qmult_le_l; [|exact H2]. nra. }
    assert (E : / h * / y * (h * y) == (h * / h) * (y * / y)) by ring.
    rewrite E, Eh, Ey in H. lra.
  - apply (Qmult_le_r _ _ b Hb). rewrite (Qmult_comm (/ b)), Eb.
    assert (/ l * / y * (l * y) <= / l * / y * b).
    { apply Qmult_le_l; [|exact H1]. nra. }
    assert (E : / l * / y * (l * y) == (l * / l) * (y * / y)) by ring.
    rewrite E, El, Ey in H. lra.
Qed.

Lemma within_weaken lo hi lo' hi' v x :
  within lo hi v x -> 0 <= x -> lo' <= lo -> hi <= hi' -> within lo' hi' v x.
Proof. unfold within. intros (H1 & H2) ? ? ?. split; nra. Qed.

Lemma within_morph lo hi v x x' : within lo hi v x -> x == x' -> within lo hi v x'.
Proof. unfold within. intros H E. now rewrite <- E. Qed.

Lemma Q_of_float_finite m e :
  exists q, Q_of_float (S754_finite false m e) = Some q /\ q == F2Q (Zpos m) e.
Proof.
  unfold Q_of_float, F2Q. eexists. split; [reflexivity|].
  destruct e as [|p|p].
  - rewrite inject_Z_mult. reflexivity.
  - rewrite inject_Z_mult, pow2_inject by lia. reflexivity.
  - rewrite Qmake_Qdiv. unfold Qdiv. apply Qmult_comp; [reflexivity|].
    change (2 ^ Zneg p) with (/ 2 ^ Zpos p). apply Qinv_comp.
    rewrite <- pow2_inject by lia. unfold Pos.shiftl. rewrite iter_xO.
    now rewrite Z.mul_1_l.
Qed.

Lemma Q_of_float_positive x dt :
  Q_of_float x = Some dt -> 0 < dt ->
  exists m e, x = S754_finite false m e /\ dt == F2Q (Zpos m) e.
Proof.
  intros H Hdt. destruct x as [s|s| |s m e]; try discriminate.
  - injection H as <-. lra.
  - destruct s.
    + exfalso. destruct (Q_of_float_finite m e) as (q & Hq & E).
      assert (Hp : 0 < F2Q (Zpos m) e) by (apply F2Q_pos; lia).
      unfold Q_of_float in H, Hq. injection Hq as Hq. injection H as H.
      rewrite Hq in H. rewrite <- H in Hdt. lra.
    + exists m, e. split; [reflexivity|].
      destruct (Q_of_float_finite m e) as (q & Hq & E). rewrite H in Hq.
      injection Hq as <-. exact E.
Qed.

End Intervals.

Ltac qclosed :=
  unfold Qle, Qlt; vm_compute; first [reflexivity | discriminate | intro; discriminate].

Lemma inject_Z_nonneg n : 0 <= n -> (0 <= inject_Z n)%Q.
Proof. intros H. change 0%Q with (inject_Z 0). now rewrite <- Zle_Qle. Qed.

Lemma f32_of_Z_near n :
  1 <= n < 2 ^ 64 ->
  exists m e,
    f32_of_Z n = S754_finite false m e /\
    Zpos (digits2_pos m) = 24 /\
    1 <= 24 + e <= 65 /\
    near (ulp_rel 24) (F2Q (Zpos m) e) (inject_Z n).
Proof.
  intros Hn. destruct n as [|p|p]; [lia| |lia].
  unfold f32_of_Z, binary_normalize.
  pose proof (digits2_pos_spec p) as Hp.
  assert (Hd : Zpos (digits2_pos p) <= 64).
  { assert (H : 2 ^ (Zpos (digits2_pos p) - 1) < 2 ^ 64) by lia.
    apply pow2_lt_inv in H; lia. }
  destruct (binary_round_near 24 128 ltac:(lia) false p 0)
    as (m & e & Hr & Hdm & Hg & Hnear); [lia|lia|].
  exists m, e. split; [exact Hr|]. split; [exact Hdm|]. split; [lia|].
  assert (E : (F2Q (Zpos p) 0 == inject_Z (Zpos p))%Q)
    by (unfold F2Q; change (2 ^ 0)%Q with 1%Q; ring).
  unfold near in *. now rewrite E in Hnear.
Qed.

Lemma f64_of_f32_near m e :
  -1021 <= Zpos (digits2_pos m) + e < 1024 ->
  exists m' e',
    f64_of_f32 (S754_finite false m e) = S754_finite false m' e' /\
    Zpos (digits2_pos m') = 53 /\
    Zpos (digits2_pos m) + e <= 53 + e' <= Zpos (digits2_pos m) + e + 1 /\
    near (ulp_rel 53) (F2Q (Zpos m') e') (F2Q (Zpos m) e).
Proof.
  intros H. cbn [f64_of_f32].
  apply (binary_round_near 53 1024 ltac:(lia) false m e); lia.
Qed.

Lemma f32_of_f64_near m e :
  -125 <= Zpos (digits2_pos m) + e < 128 ->
  exists m' e',
    f32_of_f64 (S754_finite false m e) = S754_finite false m' e' /\
    Zpos (digits2_pos m') = 24 /\
    Zpos (digits2_pos m) + e <= 24 + e' <= Zpos (digits2_pos m) + e + 1 /\
    near (ulp_rel 24) (F2Q (Zpos m') e') (F2Q (Zpos m) e).
Proof.
  intros H. cbn [f32_of_f64].
  apply (binary_round_near 24 128 ltac:(lia) false m e); lia.
Qed.

(** [x / c] in double precision, stored in a [float], for the double [c] of
    an integer constant. *)
Lemma scale_near (c : Z) (mc : positive) (ec gc : Z) (k : Q) m e :
  f64_of_Z c = S754_finite false mc ec ->
  (F2Q (Zpos mc) ec * k == 1)%Q -> (0 < k)%Q ->
  Zpos (digits2_pos mc) + ec = gc ->
  0 <= gc <= 64 ->
  -100 <= Zpos (digits2_pos m) + e <= 100 ->
  -125 <= Zpos (digits2_pos m) + e - gc <= 123 ->
  exists m' e',
    f32_of_f64 (f64_div (f64_of_f32 (S754_finite false m e)) (f64_of_Z c))
    = S754_finite false m' e' /\
    Zpos (digits2_pos m') = 24 /\
    Zpos (digits2_pos m) + e - gc <= 24 + e'
      <= Zpos (digits2_pos m) + e - gc + 4 /\
    within ((1 - ulp_rel 24) * ((1 - ulp_rel 53) * ((1 - ulp_rel 53) * 1)))
           ((1 + ulp_rel 24) * ((1 + ulp_rel 53) * ((1 + ulp_rel 53) * 1)))
           (F2Q (Zpos m') e') (F2Q (Zpos m) e * k).
Proof.
  intros Hc Hk Hk0 Hgc Hmc Hm Hmm.
  destruct (f64_of_f32_near m e) as (m2 & e2 & -> & Hd2 & Hg2 & N2); [lia|].
  rewrite Hc. unfold f64_div.
  destruct (SFdiv_near 53 1024 ltac:(lia) m2 e2 mc ec)
    as (m3 & e3 & -> & Hd3 & Hg3 & N3); [lia|lia|].
  cbv zeta in Hg3.
  destruct (f32_of_f64_near m3 e3) as (m4 & e4 & -> & Hd4 & Hg4 & N4); [lia|].
  exists m4, e4. split; [reflexivity|]. split; [exact Hd4|]. split; [lia|].
  assert (Hx : (0 <= F2Q (Zpos m) e)%Q) by (apply Qlt_le_weak, F2Q_pos; lia).
  assert (Ek : (/ F2Q (Zpos mc) ec == k)%Q).
  { assert (Hp : (0 < F2Q (Zpos mc) ec)%Q) by (apply F2Q_pos; lia).
    apply (Qmult_inj_l _ _ (F2Q (Zpos mc) ec)); [lra|].
    rewrite Qmult_inv_r by lra. now rewrite Hk. }
  apply (within_near _ _ _ _ _ _ N4); [|qclosed|qclosed].
  unfold Qdiv in N3.
  apply (within_near _ _ _ _ _ _ N3); [|qclosed|qclosed].
  apply (within_morph _ _ _ (F2Q (Zpos m) e * / F2Q (Zpos mc) ec)%Q);
    [|now rewrite Ek].
  assert (W2 : within ((1 - ulp_rel 53) * 1) ((1 + ulp_rel 53) * 1)
                 (F2Q (Zpos m2) e2) (F2Q (Zpos m) e)).
  { apply (within_near _ _ _ _ _ _ N2); [|qclosed|qclosed].
    apply within_eq. reflexivity. }
  assert (Hik : (0 <= / F2Q (Zpos mc) ec)%Q) by (rewrite Ek; lra).
  assert (W : within ((1 - ulp_rel 53) * 1 * 1) ((1 + ulp_rel 53) * 1 * 1)
                (F2Q (Zpos m2) e2 * / F2Q (Zpos mc) ec)
                (F2Q (Zpos m) e * / F2Q (Zpos mc) ec)).
  { apply within_mul; [exact W2|now apply within_eq|qclosed|qclosed|exact Hx|exact Hik]. }
  eapply within_weaken; [exact W| |qclosed|qclosed].
  apply Qmult_le_0_compat; assumption.
Qed.

Lemma gbytes_of_within n_bytes :
  1 <= n_bytes < 2 ^ 64 ->
  exists m e,
    gbytes_of n_bytes = S754_finite false m e /\
    Zpos (digits2_pos m) = 24 /\
    -29 <= 24 + e <= 39 /\
    within ((1 - ulp_rel 24) * ((1 - ulp_rel 53) * ((1 - ulp_rel 53) * 1))
              * ((1 - ulp_rel 24) * 1))
           ((1 + ulp_rel 24) * ((1 + ulp_rel 53) * ((1 + ulp_rel 53) * 1))
              * ((1 + ulp_rel 24) * 1))
           (F2Q (Zpos m) e) (inject_Z n_bytes * (1 # 1000000000)).
Proof.
  intros Hn. unfold gbytes_of.
  destruct (f32_of_Z_near n_bytes Hn) as (m1 & e1 & -> & Hd1 & Hg1 & N1).
  destruct (scale_near 1000000000 8388608000000000 (-23) 30 (1 # 1000000000) m1 e1)
    as (m & e & -> & Hd & Hg & W);
    [reflexivity|qclosed|qclosed|reflexivity|lia|lia|lia|].
  exists m, e. split; [reflexivity|]. split; [exact Hd|].
  split; [lia|].
  assert (Hnb : (0 <= inject_Z n_bytes)%Q) by (apply inject_Z_nonneg; lia).
  assert (W1 : within ((1 - ulp_rel 24) * 1) ((1 + ulp_rel 24) * 1)
                 (F2Q (Zpos m1) e1) (inject_Z n_bytes)).
  { apply (within_near _ _ _ _ _ _ N1); [|qclosed|qclosed].
    apply within_eq. reflexivity. }
  unfold within in *. destruct W as (Wl & Wh), W1 as (Wl1 & Wh1).
  set (lo := ((1 - ulp_rel 24) * ((1 - ulp_rel 53) * ((1 - ulp_rel 53) * 1)))%Q) in *.
  set (hi := ((1 + ulp_rel 24) * ((1 + ulp_rel 53) * ((1 + ulp_rel 53) * 1)))%Q) in *.
  set (lo1 := ((1 - ulp_rel 24) * 1)%Q) in *.
  set (hi1 := ((1 + ulp_rel 24) * 1)%Q) in *.
  assert (0 <= lo)%Q by qclosed. assert (0 <= hi)%Q by qclosed.
  assert (0 <= lo1)%Q by qclosed.
  clearbody lo hi lo1 hi1.
  split; nra.
Qed.

Lemma sec_of_within x dt :
  Q_of_float x = Some dt -> ((1 # 1024) <= dt)%Q -> (dt <= 1099511627776)%Q ->
  exists m e,
    sec_of x = S754_finite false m e /\
    Zpos (digits2_pos m) = 24 /\
    -19 <= 24 + e <= 35 /\
    within ((1 - ulp_rel 24) * ((1 - ulp_rel 53) * ((1 - ulp_rel 53) * 1)))
           ((1 + ulp_rel 24) * ((1 + ulp_rel 53) * ((1 + ulp_rel 53) * 1)))
           (F2Q (Zpos m) e) (dt * (1 # 1000)).
Proof.
  intros Hx Hlo Hhi.
  destruct (Q_of_float_positive x dt Hx ltac:(lra)) as (m0 & e0 & -> & E).
  assert (Hg0 : -10 < Zpos (digits2_pos m0) + e0 <= 41).
  { split.
    - apply mag_lower. rewrite <- E. exact Hlo.
    - apply (mag_upper m0 e0 40). rewrite <- E. exact Hhi. }
  unfold sec_of.
  destruct (scale_near 1000 8796093022208000 (-43) 10 (1 # 1000) m0 e0)
    as (m & e & -> & Hd & Hg & W);
    [reflexivity|qclosed|qclosed|reflexivity|lia|lia|lia|].
  exists m, e. split; [reflexivity|]. split; [exact Hd|].
  split; [lia|].
  eapply within_morph; [exact W|]. now rewrite E.
Qed.

Lemma bandwidth_within n_bytes n_iter x dt :
  0 <= n_bytes < 2 ^ 64 -> 0 <= n_iter < 2 ^ 64 ->
  Q_of_float x = Some dt -> ((1 # 1024) <= dt)%Q -> (dt <= 1099511627776)%Q ->
  exists q,
    Q_of_float (bandwidth (gbytes_of n_bytes) (sec_of x) n_iter) = Some q /\
    within (1 - (1 # 1000000)) (1 + (1 # 1000000)) q
      (inject_Z n_bytes * (1 # 1000000000) * / (dt * (1 # 1000)) * inject_Z n_iter).
Proof.
  intros Hb Hi Hx Hlo Hhi.
  destruct (sec_of_within x dt Hx Hlo Hhi) as (ms & es & -> & Hds & Hgs & Ws).
  destruct (Z.eq_dec n_bytes 0) as [->|Hnb0].
  { exists 0%Q. split.
    - change (gbytes_of 0) with (S754_zero false).
      unfold bandwidth, f32_div, f32_mul. cbn [SFdiv xorb].
      destruct (Z.eq_dec n_iter 0) as [->|Hne]; [reflexivity|].
      destruct (f32_of_Z_near n_iter ltac:(lia)) as (mi & ei & -> & _).
      reflexivity.
    - unfold within. change (inject_Z 0) with 0%Q. split; lra. }
  destruct (gbytes_of_within n_bytes ltac:(lia)) as (mg & eg & -> & Hdg & Hgg & Wg).
  unfold bandwidth, f32_div, f32_mul.
  destruct (SFdiv_near 24 128 ltac:(lia) mg eg ms es)
    as (mq & eq & -> & Hdq & Hgq & Nq); [lia|lia|].
  cbv zeta in Hgq.
  assert (Hnb : (0 <= inject_Z n_bytes * (1 # 1000000000))%Q).
  { pose proof (inject_Z_nonneg n_bytes ltac:(lia)). lra. }
  assert (Hsec : (0 < dt * (1 # 1000))%Q) by lra.
  assert (Hisec : (0 <= / (dt * (1 # 1000)))%Q)
    by (apply Qlt_le_weak, Qinv_lt_0_compat, Hsec).
  pose proof (within_inv _ _ _ _ Ws ltac:(qclosed) Hsec) as Wi.
  pose proof (within_mul _ _ _ _ _ _ _ _ Wg Wi ltac:(qclosed) ltac:(qclosed) Hnb Hisec)
    as Wd.
  unfold Qdiv in Nq.
  pose proof (within_near _ _ _ _ _ _ Nq Wd ltac:(qclosed) ltac:(qclosed)) as Wq.
  assert (Hq0 : (0 <= inject_Z n_bytes * (1 # 1000000000) * / (dt * (1 # 1000)))%Q)
    by (apply Qmult_le_0_compat; assumption).
  destruct (Z.eq_dec n_iter 0) as [->|Hne].
  - exists 0%Q. split; [reflexivity|]. unfold within.
    change (inject_Z 0) with 0%Q. split; lra.
  - destruct (f32_of_Z_near n_iter ltac:(lia)) as (mi & ei & -> & Hdi & Hgi & Ni).
    destruct (SFmul_near 24 128 ltac:(lia) mq eq mi ei)
      as (m & e & -> & Hdm & Hgm & Nm); [lia|lia|lia|].
    destruct (Q_of_float_finite m e) as (q & Hq & Eq). exists q.
    split; [exact Hq|].
    assert (Hni : (0 <= inject_Z n_iter)%Q) by (apply inject_Z_nonneg; lia).
    assert (Wi' : within ((1 - ulp_rel 24) * 1) ((1 + ulp_rel 24) * 1)
                    (F2Q (Zpos mi) ei) (inject_Z n_iter)).
    { apply (within_near _ _ _ _ _ _ Ni); [|qclosed|qclosed].
      apply within_eq. reflexivity. }
    pose proof (within_mul _ _ _ _ _ _ _ _ Wq Wi' ltac:(qclosed) ltac:(qclosed)
                  Hq0 Hni) as Wm.
    pose proof (within_near _ _ _ _ _ _ Nm Wm ltac:(qclosed) ltac:(qclosed)) as Wr.
    assert (Wr' : within (1 - (1 # 1000000)) (1 + (1 # 1000000)) (F2Q (Zpos m) e)
              (inject_Z n_bytes * (1 # 1000000000) * / (dt * (1 # 1000))
               * inject_Z n_iter)).
    { eapply within_weaken; [exact Wr| |qclosed|qclosed].
      apply Qmult_le_0_compat; assumption. }
    unfold within in *. now rewrite Eq.
Qed.

(** *** The result lines *)

Lemma report_lines P g n_iter : forall n i a pos a' d,
  for_from (report P g n_iter) i n a pos = Ret a' d ->
  exists lines,
    d = concat lines /\
    length lines = length (firstn n a) /\
    forall k t,
      nth_error (firstn n a) k = Some t ->
      exists m,
        nth_error lines k
        = Some [hipSetDevice (device t); hipEventElapsedTime (start t) (stop t);
                printf m] /\
        figure m
        = Some (bandwidth g (sec_of (elapsed_msec P (pos + 3 * k + 1)%nat)) n_iter).
Proof.
  induction n as [|n IH]; intros i a pos a' d H; cbn [for_from] in H.
  - apply ret_Ret in H as (-> & ->). exists []. repeat split; try reflexivity.
    intros [|k] t Hk; discriminate.
  - destruct a as [|t rest]; [discriminate|]. repeat step_ret.
    match goal with H : for_from _ _ _ _ _ = _ |- _ => rename H into Hfor end.
    match goal with H : report _ _ _ _ _ _ = _ |- _ => rename H into Hrep end.
    apply report_calls in Hrep as (m & -> & Hm).
    apply IH in Hfor as (lines & -> & Hlen & Hl).
    exists ([hipSetDevice (device t); hipEventElapsedTime (start t) (stop t);
             printf m] :: lines).
    split; [cbn [concat app]; now rewrite ?app_nil_r|].
    split; [cbn [firstn length]; now rewrite Hlen|].
    intros [|k] t0 Hk; cbn [firstn nth_error] in Hk |- *.
    + injection Hk as <-. exists m. split; [reflexivity|].
      rewrite Hm. now replace (pos + 3 * 0 + 1)%nat with (S pos) by lia.
    + destruct (Hl k t0 Hk) as (m' & Hn & Hf). exists m'. split; [exact Hn|].
      rewrite Hf. cbn [length].
      now replace (pos + 3 + 3 * k + 1)%nat with (pos + 3 * S k + 1)%nat by lia.
Qed.

Lemma nth_error_map_started l k t :
  nth_error l k = Some t ->
  (nth_error l k = Some t \/ nth_error (map mark_started l) k = Some (mark_started t)).
Proof. auto. Qed.

Lemma mark_started_handles t :
  device (mark_started t) = device t /\ start (mark_started t) = start t /\
  stop (mark_started t) = stop t.
Proof. unfold mark_started. now destruct (is_started t). Qed.

(** A run of [main] that returns: the result lines, and where they are. *)
Lemma main_report_lines P argc opts r d :
  run (main P argc opts) = Ret r d ->
  exists hits d0 mid lines d_fini,
    run (init P argc opts) = Ret hits d0 /\
    d = d0 ++ mid ++ concat lines ++ d_fini /\
    results d0 = [] /\ results mid = [] /\ results d_fini = [] /\
    length lines = Z.to_nat (n_transfers hits) /\
    forall k t,
      nth_error (firstn (Z.to_nat (n_transfers hits)) (transfer hits)) k = Some t ->
      exists m,
        nth_error lines k
        = Some [hipSetDevice (device t); hipEventElapsedTime (start t) (stop t);
                printf m] /\
        figure m
        = Some (bandwidth (gbytes_of (to_size_t (n_size hits)))
                  (sec_of (elapsed_msec P (length d0 + length mid + 3 * k + 1)%nat))
                  (n_iter hits)).
Proof.
  intros H. unfold run in H. apply main_Ret in H
    as (hits & d0 & a1 & d1 & a2 & d2 & a3 & d3 & d4 & p1 & Hinit & Hloop & Hsync
        & Hrep & Hfini & -> & -> & _).
  set (n := Z.to_nat (n_transfers hits)) in *.
  set (nb := to_size_t (n_size hits)) in *.
  pose proof (init_emits P argc opts O) as Hd0. rewrite Hinit in Hd0.
  cbn [calls] in Hd0.
  pose proof (init_bound _ _ _ _ _ _ Hinit) as Hbound. fold n in Hbound.
  assert (Hq1 : results d1 = []).
  { apply results_none.
    pose proof (emits_issue_loop (fun c => result_of c = None) P (n_iter hits) nb n)
      as He.
    specialize (He ltac:(intros is_last t; unfold issue, direct_transfer,
                           dtod_transfer; emits_all; reflexivity)
                  (Z.to_nat (n_iter hits)) 0 (transfer hits) (0 + length d0 + 1)%nat).
    rewrite Hloop in He. exact He. }
  assert (Hq4 : results d4 = []).
  { apply results_none.
    assert (He : emits (fun c => result_of c = None) (fini P (set_transfer hits a3)))
      by (unfold fini, fini_one; emits_all; reflexivity).
    specialize (He (0 + length d0 + 1 + length d1 + length d2 + 1 + length d3)%nat).
    rewrite Hfini in He. exact He. }
  assert (Hq0 : results d0 = []).
  { apply results_none. eapply Forall_impl; [|exact Hd0].
    intros c Hc. now destruct c. }
  apply issue_loop_Ret in Hloop as (_ & Ha1 & _).
  apply synchronize_script in Hsync as (-> & ->).
  assert (Hqs : results (flat_map sync_calls (firstn n a1)) = []).
  { apply results_none. apply Forall_flat_map, Forall_forall.
    intros t _. repeat constructor. }
  unfold for_each in Hrep. apply report_lines in Hrep as (lines & -> & Hlen & Hl).
  assert (Hts : firstn n a1 = firstn n (transfer hits) \/
                firstn n a1 = map mark_started (firstn n (transfer hits))).
  { rewrite Ha1. destruct (Z.to_nat (n_iter hits)); [now left|right].
    apply firstn_map_from. }
  exists hits, d0, (pthread_create :: d1 ++ flat_map sync_calls (firstn n a1)
                      ++ [printf Completed]), lines, d4.
  split; [exact Hinit|].
  split; [cbn [app]; now rewrite <- !app_assoc|].
  split; [exact Hq0|].
  split.
  { change (pthread_create :: ?l) with ([pthread_create] ++ l).
    now rewrite !results_app, Hq1, Hqs. }
  split; [exact Hq4|].
  split.
  { fold n. rewrite Hlen. destruct Hts as [-> | ->]; rewrite ?length_map, length_firstn; lia. }
  intros k t Hk. fold n nb in Hk |- *.
  assert (Hpos : (0 + length d0 + 1 + length d1
                  + length (flat_map sync_calls (firstn n a1)) + 1
                  = length d0 + length (pthread_create :: d1
                      ++ flat_map sync_calls (firstn n a1) ++ [printf Completed]))%nat).
  { cbn [length]. rewrite !length_app. cbn [length]. lia. }
  rewrite <- Hpos.
  destruct Hts as [Ht | Ht].
  - rewrite <- Ht in Hk. exact (Hl k t Hk).
  - assert (Hk' : nth_error (firstn n a1) k = Some (mark_started t))
      by (rewrite Ht; now apply map_nth_error).
    destruct (Hl _ _ Hk') as (m & Hn & Hf).
    destruct (mark_started_handles t) as (-> & -> & ->) in Hn.
    exists m. split; [exact Hn|exact Hf].
Qed.

Lemma nth_error_concat3 {A} (lines : list (list A)) :
  (forall l, In l lines -> length l = 3%nat) ->
  forall k l j,
    nth_error lines k = Some l -> (j < 3)%nat ->
    nth_error (concat lines) (3 * k + j) = nth_error l j.
Proof.
  induction lines as [|l0 lines IH]; intros Hall k l j Hk Hj.
  - destruct k; discriminate.
  - assert (H0 : length l0 = 3%nat) by (apply Hall; now left).
    cbn [concat]. destruct k as [|k]; cbn [nth_error] in Hk.
    + injection Hk as ->. rewrite nth_error_app1 by lia.
      now replace (3 * 0 + j)%nat with j by lia.
    + rewrite nth_error_app2 by lia.
      replace (3 * S k + j - length l0)%nat with (3 * k + j)%nat by lia.
      apply IH; [|assumption|assumption].
      intros l' Hl'. apply Hall. now right.
Qed.

(** * The properties *)

(** ** The stop event *)

(** C1, as the code has it.  On a well-behaved machine [main] returns 0
    whenever the options are accepted.  In a run of [main] that returns, the
    calls are those of [init], [pthread_create], one round of the issue loop
    for each index 0, ..., [n_iter - 1], and the rest (synchronisation,
    reports, teardown).  For every transfer, the stop event is recorded in the round
    of index [n_iter - 1], once, and nowhere else: once in the whole run when
    [n_iter >= 1], and not at all when [n_iter = 0], where there is no
    round. *)
Theorem stop_mark_recorded_in_last_round (P : Platform) (argc : Z)
    (opts : list (Z * string)) :
  (forall hits0 d0,
     well_behaved P ->
     argp_parse opts (default_hits P O argc) 1%nat = Ret hits0 d0 ->
     exists d, run (main P argc opts) = Ret 0 d) /\
  forall r d,
  run (main P argc opts) = Ret r d ->
  exists hits d0 rounds d1,
    let n := Z.to_nat (n_transfers hits) in
    run (init P argc opts) = Ret hits d0 /\
    0 <= n_iter hits /\
    d = d0 ++ pthread_create :: concat rounds ++ d1 /\
    length rounds = Z.to_nat (n_iter hits) /\
    (forall k rd, nth_error rounds k = Some rd ->
       exists pk,
         issue_round P (n_iter hits) (to_size_t (n_size hits)) n (Z.of_nat k)
           (array_at n k (transfer hits)) pk
         = Ret (array_at n 1 (transfer hits)) rd) /\
    forall t, In t (firstn n (transfer hits)) ->
      records (stop t) d0 = O /\
      records (stop t) d1 = O /\
      (forall k rd, nth_error rounds k = Some rd ->
         records (stop t) rd = if Z.of_nat k =? n_iter hits - 1 then 1%nat else O) /\
      records (stop t) d = if n_iter hits =? 0 then O else 1%nat.
Proof.
  split; [intros hits0 d0 HP Hparse; now apply (main_returns P argc opts hits0 d0)|].
  intros r d H. apply main_rounds in H
    as (hits & d0 & rounds & d1 & d2 & p & Hinit & Hi & -> & Hlen & Hr & Hd0
        & Hd1 & _ & _ & Hnd & Hst & _ & _).
  exists hits, d0, rounds, (d1 ++ d2). cbv zeta.
  split; [exact Hinit|]. split; [lia|]. split; [reflexivity|].
  split; [exact Hlen|]. split; [intros k rd Hk; now apply Hr in Hk|].
  intros t Hin.
  assert (H0 : records (stop t) d0 = O)
    by (eapply Forall_no_records; [exact Hd0|apply init_call_no_record]).
  assert (H1 : records (stop t) (d1 ++ d2) = O)
    by (eapply Forall_no_records; [exact Hd1|apply late_call_no_record]).
  assert (Hk : forall k rd, nth_error rounds k = Some rd ->
            records (stop t) rd = if Z.of_nat k =? n_iter hits - 1 then 1%nat else O).
  { intros k rd Hk.
    assert (Hlt : (k < length rounds)%nat) by (apply nth_error_Some; congruence).
    apply Hr in Hk as (-> & _).
    rewrite records_stop_in_round by assumption.
    replace (to_size_t (n_iter hits - 1)) with (n_iter hits - 1); [reflexivity|].
    unfold to_size_t. symmetry. apply Z.mod_small. unfold LONG_MAX in Hi. lia. }
  split; [exact H0|]. split; [exact H1|]. split; [exact Hk|].
  change (pthread_create :: ?l) with ([pthread_create] ++ l).
  rewrite records_app, H0, records_app, records_app, H1.
  rewrite (records_concat_one _ _ _ Hk), Hlen.
  change (records (stop t) [pthread_create]) with O.
  rewrite Nat.add_0_r. cbn [Nat.add].
  destruct (Z.eqb_spec (n_iter hits) 0) as [E|E].
  - rewrite E. reflexivity.
  - destruct (Z.leb_spec 0 (n_iter hits - 1)); [|lia].
    destruct (Z.ltb_spec (n_iter hits - 1) (Z.of_nat (Z.to_nat (n_iter hits)))); [|lia].
    reflexivity.
Qed.

(** The run of [--htod=0 --iter=3 --size=1024] on [two_gpus] returns. *)
Lemma stop_mark_recorded_in_last_round_witness :
  exists r d,
    run (main two_gpus 4 argv_htod) = Ret r d /\
    exists hits d0 rounds d1,
      let n := Z.to_nat (n_transfers hits) in
      run (init two_gpus 4 argv_htod) = Ret hits d0 /\
      0 <= n_iter hits /\
      d = d0 ++ pthread_create :: concat rounds ++ d1 /\
      length rounds = Z.to_nat (n_iter hits) /\
      (forall k rd, nth_error rounds k = Some rd ->
         exists pk,
           issue_round two_gpus (n_iter hits) (to_size_t (n_size hits)) n (Z.of_nat k)
             (array_at n k (transfer hits)) pk
           = Ret (array_at n 1 (transfer hits)) rd) /\
      forall t, In t (firstn n (transfer hits)) ->
        records (stop t) d0 = O /\
        records (stop t) d1 = O /\
        (forall k rd, nth_error rounds k = Some rd ->
           records (stop t) rd = if Z.of_nat k =? n_iter hits - 1 then 1%nat else O) /\
        records (stop t) d = if n_iter hits =? 0 then O else 1%nat.
Proof.
  eexists. eexists. split.
  - vm_compute. reflexivity.
  - apply (proj2 (stop_mark_recorded_in_last_round two_gpus 4 argv_htod) 0).
    vm_compute. reflexivity.
Defined.

(** With [--iter=0] the run returns and the stop event of the transfer
    (event 4) is never recorded. *)
Lemma stop_mark_not_recorded_without_rounds :
  exists d,
    run (main two_gpus 4 argv_htod_iter0) = Ret 0 d /\
    exists hits d0,
      run (init two_gpus 4 argv_htod_iter0) = Ret hits d0 /\
      n_iter hits = 0 /\
      firstn (Z.to_nat (n_transfers hits)) (transfer hits) = [htod0] /\
      records (stop htod0) d = O /\ records (stop htod0) d <> 1%nat.
Proof.
  eexists. split; [vm_compute; reflexivity|].
  eexists. eexists. split; [vm_compute; reflexivity|].
  repeat split; vm_compute; congruence.
Qed.

(** ** Peer access before buffers *)

(** C2.  In any run of [dtod_transfer_init], whatever its outcome, a buffer
    allocation is preceded by the query [hipDeviceCanAccessPeer] on the two
    devices of the transfer.  When that capability is absent the function
    does not return: no buffer is allocated, and the process exits, with
    code 1 as soon as the query is reached, that is whenever
    [_transfer_init_common] has returned (before that, only a failing
    runtime call of the common initialisation stops the run, with the
    runtime's code). *)
Theorem peer_access_checked_before_buffers (P : Platform) (t : Transfer_t)
    (n_bytes : Z) (pos : nat) :
  let o := dtod_transfer_init P t n_bytes pos in
  let query := hipDeviceCanAccessPeer (device t) (device2 t) in
  (forall d1 c d2,
     calls o = d1 ++ c :: d2 -> is_buffer_alloc c = true -> In query d1) /\
  (peer_access P (device t) (device2 t) = 0 ->
   (exists s, o = Halt s (calls o)) /\
   Forall (fun c => is_buffer_alloc c = false) (calls o) /\
   (In query (calls o) -> o = Halt (Exit 1) (calls o)) /\
   (forall t1 d1, _transfer_init_common P t pos = Ret t1 d1 ->
      o = Halt (Exit 1)
            (d1 ++ [query; fprintf_stderr (Err_p2p (device t) (device2 t))]))).
Proof.
  cbv zeta.
  pose proof (common_emits P t pos) as Hc.
  unfold dtod_transfer_init.
  destruct (_transfer_init_common P t pos) as [t1 d1|s d1] eqn:E; simpl in Hc.
  - (* the common initialisation returned *)
    pose proof (common_Ret _ _ _ _ _ E) as (_ & _ & _ & _ & _ & _ & Hd & Hd2 & _).
    rewrite (bind_run _ _ _ _ _ E).
    assert (Hna : forall c, In c d1 -> is_buffer_alloc c = false).
    { intros c Hin. rewrite Forall_forall in Hc. apply Hc in Hin.
      destruct c; simpl in *; auto; discriminate. }
    assert (Hnq : ~ In (hipDeviceCanAccessPeer (device t) (device2 t)) d1).
    { intros Hin. rewrite Forall_forall in Hc. apply Hc in Hin. discriminate. }
    split.
    + intros x c y Hsplit Halloc.
      match type of Hsplit with calls ?o = _ =>
        assert (Hex : exists rest, calls o
                  = d1 ++ hipDeviceCanAccessPeer (device t) (device2 t) :: rest) end.
      { rewrite calls_prefixed, Hd, Hd2.
        match goal with |- context [bind (call ?q) ?f ?p] =>
          destruct (calls_call_bind q f p) as (rest & ->) end.
        eauto. }
      destruct Hex as (rest & Hex). rewrite Hex in Hsplit.
      eapply In_before; [exact Hsplit| |].
      * intros Hin. apply Hna in Hin. congruence.
      * intros ->. discriminate.
    + intros Hno. rewrite <- Hd, <- Hd2 in Hno.
      unfold bind at 1, call. cbn [length]. rewrite Hno. simpl.
      rewrite Hd, Hd2.
      split; [eauto|]. split; [|split].
      * apply Forall_app. split; [now apply Forall_forall|].
        repeat constructor.
      * reflexivity.
      * intros t1' d1' E'. inversion E'; subst. reflexivity.
  - (* a runtime call of the common initialisation failed *)
    rewrite (bind_stop _ _ _ _ _ E). simpl.
    assert (Hna : forall c, In c d1 -> is_buffer_alloc c = false).
    { intros c Hin. rewrite Forall_forall in Hc. apply Hc in Hin.
      destruct c; simpl in *; auto; discriminate. }
    split.
    + intros x c y Hsplit Halloc. exfalso.
      assert (Hin : In c d1) by (rewrite Hsplit; apply in_elt).
      apply Hna in Hin. congruence.
    + intros _. split; [eauto|]. split; [now apply Forall_forall|]. split.
      * intros Hin. rewrite Forall_forall in Hc. apply Hc in Hin. discriminate.
      * intros t1' d1' E'. discriminate.
Qed.

(** [--dtod=1,0] on a machine without peer access: the allocation of the
    transfer exits with code 1 after the query, and no buffer is allocated. *)
Lemma peer_access_checked_before_buffers_witness :
  let t := set_device2 (set_device (set_type blank_transfer DTOD) 1) 0 in
  let o := dtod_transfer_init no_peer_access t 1024 1%nat in
  let query := hipDeviceCanAccessPeer (device t) (device2 t) in
  peer_access no_peer_access (device t) (device2 t) = 0 /\
  (exists s, o = Halt s (calls o)) /\
  Forall (fun c => is_buffer_alloc c = false) (calls o) /\
  (In query (calls o) -> o = Halt (Exit 1) (calls o)) /\
  (forall t1 d1, _transfer_init_common no_peer_access t 1%nat = Ret t1 d1 ->
     o = Halt (Exit 1)
           (d1 ++ [query; fprintf_stderr (Err_p2p (device t) (device2 t))])).
Proof.
  cbv zeta. split; [reflexivity|].
  apply (proj2 (peer_access_checked_before_buffers no_peer_access
                  (set_device2 (set_device (set_type blank_transfer DTOD) 1) 0)
                  1024 1%nat)).
  reflexivity.
Defined.

(** ** Teardown *)

(** C3, as the code has it.  On a well-behaved machine [main] returns 0
    whenever the options are accepted.  A run of [main] that returns is, in
    this order: [init], [pthread_create], the issue loop, the synchronisation of
    every transfer, the reports, and [fini].  The run acquires the transfer
    array and, for every transfer, two events, a stream and two buffers.
    Nothing is released before [fini]; [fini] releases the host buffer of
    every host-to-device and device-to-host transfer, in array order, and
    then the transfer array, and nothing else: no call of the run releases a
    device buffer, a stream or an event. *)
Theorem teardown_releases_host_buffers_only (P : Platform) (argc : Z)
    (opts : list (Z * string)) :
  (forall hits0 d0,
     well_behaved P ->
     argp_parse opts (default_hits P O argc) 1%nat = Ret hits0 d0 ->
     exists d, run (main P argc opts) = Ret 0 d) /\
  forall r d,
  run (main P argc opts) = Ret r d ->
  exists hits d0 a1 di ds dr df p1 p2 p3 p4,
    let n := Z.to_nat (n_transfers hits) in
    let bufs := map (host_buffer (alloc_flags hits))
                  (filter is_direct (firstn n (transfer hits))) in
    run (init P argc opts) = Ret hits d0 /\
    issue_loop P (n_iter hits) (to_size_t (n_size hits)) n
      (Z.to_nat (n_iter hits)) 0 (transfer hits) p1 = Ret a1 di /\
    for_each (fun _ => synchronize P) n a1 p2 = Ret a1 ds /\
    for_each (report P (gbytes_of (to_size_t (n_size hits))) (n_iter hits)) n a1 p3
    = Ret a1 dr /\
    fini P (set_transfer hits a1) p4 = Ret tt df /\
    d = d0 ++ pthread_create :: di ++ ds ++ printf Completed :: dr ++ df /\
    acquired O d
    = HostBuffer (transfer_p hits)
      :: flat_map (resources_of (alloc_flags hits)) (firstn n (transfer hits)) /\
    released (d0 ++ pthread_create :: di ++ ds ++ printf Completed :: dr) = [] /\
    released df = bufs ++ [HostBuffer (transfer_p hits)] /\
    released d = bufs ++ [HostBuffer (transfer_p hits)] /\
    Forall (fun c => is_device_release c = false) d.
Proof.
  split; [intros hits0 d0 HP Hparse; now apply (main_returns P argc opts hits0 d0)|].
  unfold run. intros r d H.
  apply main_Ret in H
    as (hits & d0 & a1 & d1 & a2 & d2 & a3 & d3 & d4 & p1 & Hinit & Hloop
        & Hsync & Hrep & Hfini & -> & -> & ->).
  pose proof (issue_loop_Ret _ _ _ _ _ _ _ _ _ _ Hloop) as (_ & Ha1 & _).
  assert (Ea2 : a2 = a1).
  { eapply for_each_keep; [|exact Hsync].
    intros i t p t' d' Hb. simpl in Hb. now apply synchronize_Ret in Hb. }
  assert (Ea3 : a3 = a2).
  { eapply for_each_keep; [|exact Hrep].
    intros i t p t' d' Hb. now apply report_Ret in Hb. }
  subst a3 a2.
  (* what each part can call *)
  assert (Q0 : Forall (fun c => init_call c = true) d0).
  { pose proof (init_emits P argc opts O) as He. now rewrite Hinit in He. }
  assert (Q1 : Forall (fun c => issue_call c = true) d1).
  { pose proof (issue_loop_emits P (n_iter hits) (to_size_t (n_size hits))
                  (Z.to_nat (n_transfers hits)) (Z.to_nat (n_iter hits)) 0
                  (transfer hits) (O + length d0 + 1)%nat) as He.
    now rewrite Hloop in He. }
  assert (Q2 : Forall (fun c => report_call c = true) d2).
  { pose proof (emits_for_each (fun c => report_call c = true)
                  (fun _ => synchronize P) (Z.to_nat (n_transfers hits)) a1
                  (fun _ t => synchronize_quiet P t)) as He.
    specialize (He (O + length d0 + 1 + length d1)%nat). now rewrite Hsync in He. }
  assert (Q3 : Forall (fun c => report_call c = true) d3).
  { pose proof (emits_for_each (fun c => report_call c = true) _
                  (Z.to_nat (n_transfers hits)) a1
                  (fun i t => report_quiet P (gbytes_of (to_size_t (n_size hits)))
                                (n_iter hits) i t)) as He.
    specialize (He (O + length d0 + 1 + length d1 + length d2 + 1)%nat).
    now rewrite Hrep in He. }
  assert (Q4 : Forall (fun c => late_call c = true) d4).
  { pose proof (fini_emits P (set_transfer hits a1)
                  (O + length d0 + 1 + length d1 + length d2 + 1 + length d3)%nat)
      as He.
    now rewrite Hfini in He. }
  pose proof (init_acquired P argc opts hits d0 Hinit) as (Hacq & Hrel0).
  assert (Hrelf : released d4
                  = map (host_buffer (alloc_flags hits))
                      (filter is_direct
                         (firstn (Z.to_nat (n_transfers hits)) (transfer hits)))
                    ++ [HostBuffer (transfer_p hits)]).
  { rewrite (fini_Ret P _ _ _ _ Hfini). simpl.
    rewrite released_app, released_fini_calls. f_equal.
    rewrite Ha1. destruct (Z.to_nat (n_iter hits)); [reflexivity|].
    apply (host_buffers_array_at (alloc_flags hits)
             (Z.to_nat (n_transfers hits)) 1). }
  assert (Hrel1 : released (d0 ++ pthread_create :: d1 ++ d2
                            ++ printf Completed :: d3) = []).
  { change (pthread_create :: ?l) with ([pthread_create] ++ l).
    change (printf Completed :: ?l) with ([printf Completed] ++ l).
    rewrite !released_app, Hrel0.
    rewrite (quiet_released _ _ Q1 issue_call_releases).
    rewrite (quiet_released _ _ Q2 report_call_releases).
    rewrite (quiet_released _ _ Q3 report_call_releases). reflexivity. }
  do 11 eexists. cbv zeta.
  split; [exact Hinit|]. split; [exact Hloop|]. split; [exact Hsync|].
  split; [exact Hrep|]. split; [exact Hfini|]. split; [reflexivity|].
  split; [|split; [exact Hrel1|split; [exact Hrelf|split]]].
  - change (pthread_create :: ?l) with ([pthread_create] ++ l).
    change (printf Completed :: ?l) with ([printf Completed] ++ l).
    rewrite !acquired_app, Hacq.
    rewrite (quiet_acquired _ _ Q1 issue_call_acquires).
    rewrite (quiet_acquired _ _ Q2 report_call_acquires).
    rewrite (quiet_acquired _ _ Q3 report_call_acquires).
    rewrite (quiet_acquired _ _ Q4 late_call_acquires).
    simpl. now rewrite !app_nil_r.
  - replace (d0 ++ pthread_create :: d1 ++ d2 ++ printf Completed :: d3 ++ d4)
      with ((d0 ++ pthread_create :: d1 ++ d2 ++ printf Completed :: d3) ++ d4)
      by (rewrite <- !app_assoc; simpl; now rewrite <- !app_assoc).
    now rewrite released_app, Hrel1, Hrelf.
  - apply Forall_app. split.
    { eapply Forall_impl; [|exact Q0]. intros c Hc. now destruct c. }
    constructor; [reflexivity|]. apply Forall_app. split.
    { eapply Forall_impl; [|exact Q1]. intros c Hc. now destruct c. }
    apply Forall_app. split.
    { eapply Forall_impl; [|exact Q2]. intros c Hc. now destruct c. }
    constructor; [reflexivity|]. apply Forall_app. split.
    { eapply Forall_impl; [|exact Q3]. intros c Hc. now destruct c. }
    eapply Forall_impl; [|exact Q4]. intros c Hc. now destruct c.
Qed.

(** The run of [--htod=0 --iter=3 --size=1024] on [two_gpus]. *)
Lemma teardown_releases_host_buffers_only_witness :
  exists r d,
    run (main two_gpus 4 argv_htod) = Ret r d /\
    exists hits d0 a1 di ds dr df p1 p2 p3 p4,
      let P := two_gpus in
      let n := Z.to_nat (n_transfers hits) in
      let bufs := map (host_buffer (alloc_flags hits))
                    (filter is_direct (firstn n (transfer hits))) in
      run (init P 4 argv_htod) = Ret hits d0 /\
      issue_loop P (n_iter hits) (to_size_t (n_size hits)) n
        (Z.to_nat (n_iter hits)) 0 (transfer hits) p1 = Ret a1 di /\
      for_each (fun _ => synchronize P) n a1 p2 = Ret a1 ds /\
      for_each (report P (gbytes_of (to_size_t (n_size hits))) (n_iter hits)) n a1 p3
      = Ret a1 dr /\
      fini P (set_transfer hits a1) p4 = Ret tt df /\
      d = d0 ++ pthread_create :: di ++ ds ++ printf Completed :: dr ++ df /\
      acquired O d
      = HostBuffer (transfer_p hits)
        :: flat_map (resources_of (alloc_flags hits)) (firstn n (transfer hits)) /\
      released (d0 ++ pthread_create :: di ++ ds ++ printf Completed :: dr) = [] /\
      released df = bufs ++ [HostBuffer (transfer_p hits)] /\
      released d = bufs ++ [HostBuffer (transfer_p hits)] /\
      Forall (fun c => is_device_release c = false) d.
Proof.
  eexists. eexists. split.
  - vm_compute. reflexivity.
  - apply (proj2 (teardown_releases_host_buffers_only two_gpus 4 argv_htod) 0).
    vm_compute. reflexivity.
Defined.

(** The run of [--htod=0 --iter=3 --size=1024] on [two_gpus] returns, and
    of the six resources it acquires it releases two: the events 3 and 4,
    the stream 5 and the device buffer 8 are not released. *)
Lemma teardown_leaves_device_resources :
  exists d,
    run (main two_gpus 4 argv_htod) = Ret 0 d /\
    acquired O d
    = [HostBuffer 0%nat; TimingEvent 3%nat; TimingEvent 4%nat; Stream 5%nat;
       PinnedBuffer 7%nat; DeviceBuffer 8%nat] /\
    released d = [PinnedBuffer 7%nat; HostBuffer 0%nat] /\
    all_released d = false.
Proof.
  eexists. split; [vm_compute; reflexivity|].
  repeat split; vm_compute; reflexivity.
Qed.

(** ** NUMA lookup that fails *)

(** C4.  Allocation of a host-to-device or device-to-host transfer with the
    NUMA-aware flag set, on a machine where the NUMA file of the device
    cannot be opened, once [_transfer_init_common] has returned:
    [set_numa_affinity] returns after the [fopen] attempt and leaves the
    transfer as it was, with [numa_node] at -1; the next call is the host
    allocation; no call of the whole allocation is [numa_set_preferred];
    [numa_node] is still -1 if the allocation returns; and it does return
    when the two buffer allocations succeed. *)
Theorem numa_lookup_failure_is_soft (P : Platform)
    (init_fn : Transfer_t -> Z -> Z -> M Transfer_t)
    (t : Transfer_t) (n_bytes alloc_flags : Z) (pos : nat)
    (t1 : Transfer_t) (d1 : list Call) :
  init_fn = htod_transfer_init P \/ init_fn = dtoh_transfer_init P ->
  Z.land alloc_flags is_numa_aware <> 0 ->
  _transfer_init_common P t pos = Ret t1 d1 ->
  sysfs P (numa_file (device_prop P (device t))) = None ->
  let o := init_fn t n_bytes alloc_flags pos in
  let p := (pos + length d1)%nat in
  let path := numa_file (device_prop P (device t)) in
  set_numa_affinity P t1 p = Ret t1 [fopen path] /\
  numa_node t1 = -1 /\
  (exists rest,
     calls o = d1 ++ fopen path :: host_alloc_call alloc_flags n_bytes :: rest) /\
  Forall (fun c => is_numa_preference c = false) (calls o) /\
  (forall t' d, o = Ret t' d -> numa_node t' = -1) /\
  (hip_ret P (S p) = hipSuccess -> null_result P (S p) = false ->
   hip_ret P (S (S p)) = hipSuccess ->
   exists t',
     o = Ret t' (d1 ++ [fopen path; host_alloc_call alloc_flags n_bytes;
                        hipMalloc n_bytes])).
Proof.
  intros Hfn Hflag E Hsys. cbv zeta.
  pose proof (common_Ret _ _ _ _ _ E) as (_ & _ & _ & _ & Hnuma & _ & _ & _ & Hprop).
  rewrite <- Hprop in *.
  pose proof (set_numa_affinity_no_file P t1 (pos + length d1) Hsys) as Hs.
  apply Z.eqb_neq in Hflag.
  assert (Hc : Forall (fun c => is_numa_preference c = false) d1).
  { pose proof (common_emits P t pos) as Hc. rewrite E in Hc. simpl in Hc.
    eapply Forall_impl; [|exact Hc]. intros c Hcc. now destruct c. }
  split; [exact Hs|]. split; [exact Hnuma|].
  destruct Hfn as [-> | ->];
    unfold htod_transfer_init, dtoh_transfer_init;
    rewrite (bind_run _ _ _ _ _ E), Hflag, (bind_run _ _ _ _ _ Hs);
    rewrite !calls_prefixed; cbn [length];
    match goal with |- context [calls (?m (pos + length d1 + 1)%nat)] =>
      set (tail := m) end;
    (assert (Htail : emits (fun c => is_numa_preference c = false) tail)
       by (subst tail; emits_all; reflexivity));
    (split; [|split; [|split]]).
  all: try (apply Forall_app; split; [exact Hc|]; apply Forall_app; split;
            [repeat constructor|apply Htail]).
  all: try (intros t' d Ho;
            destruct (tail (pos + length d1 + 1)%nat) as [t2 d2|] eqn:Et;
            [|discriminate]; inversion Ho; subst t' d; subst tail;
            repeat step_ret; simpl; exact Hnuma).
  all: try (unfold host_alloc_call; subst tail; apply first_call_after;
            destruct (Z.land alloc_flags is_pinned =? 0);
            [apply calls_call_bind|apply calls_checkHip_bind]).
  all: intros H1 H2 H3; subst tail; unfold host_alloc_call;
    destruct (Z.land alloc_flags is_pinned =? 0);
    cbv [bind call checkHip assertHip assert_not_null ret exit halt];
    simpl;
    repeat (answer_at H1 || answer_at H2 || answer_at H3; simpl);
    eexists; reflexivity.
Qed.

(** The allocation of [--htod=0] on [two_gpus], which has no NUMA file. *)
Lemma numa_lookup_failure_is_soft_witness :
  let P := two_gpus in
  let t := set_device2 (set_device (set_type blank_transfer HTOD) 0) (-1) in
  exists t1 d1,
    _transfer_init_common P t 1%nat = Ret t1 d1 /\
    Z.land 3 is_numa_aware <> 0 /\
    sysfs P (numa_file (device_prop P (device t))) = None /\
    let o := htod_transfer_init P t 1024 3 1%nat in
    let p := (1 + length d1)%nat in
    let path := numa_file (device_prop P (device t)) in
    set_numa_affinity P t1 p = Ret t1 [fopen path] /\
    numa_node t1 = -1 /\
    (exists rest, calls o = d1 ++ fopen path :: host_alloc_call 3 1024 :: rest) /\
    Forall (fun c => is_numa_preference c = false) (calls o) /\
    (forall t' d, o = Ret t' d -> numa_node t' = -1) /\
    (hip_ret P (S p) = hipSuccess -> null_result P (S p) = false ->
     hip_ret P (S (S p)) = hipSuccess ->
     exists t',
       o = Ret t' (d1 ++ [fopen path; host_alloc_call 3 1024; hipMalloc 1024])).
Proof.
  cbv zeta. eexists. eexists.
  split; [vm_compute; reflexivity|].
  split; [vm_compute; discriminate|].
  split; [reflexivity|].
  apply (numa_lookup_failure_is_soft two_gpus (htod_transfer_init two_gpus)
           (set_device2 (set_device (set_type blank_transfer HTOD) 0) (-1))
           1024 3 1%nat).
  - left. reflexivity.
  - vm_compute. discriminate.
  - vm_compute. reflexivity.
  - reflexivity.
Defined.

(** ** The reported bandwidth *)

(** C5, as the code has it.  On a well-behaved machine [main] returns 0
    whenever the options are accepted.  In a run of [main] that returns, the
    result lines are the calls [lines], one block of three calls for every
    transfer, in the order of the array, after the calls [d0] of [init] and
    the calls [mid] of the two loops before; no other call of the run is a
    result line.  The block of the transfer [t] is the selection of its
    device, the call of [hipEventElapsedTime] on its two events, and the
    result line.  With [dt_msec] the interval the runtime answers to that
    very call, [n_bytes] the size [main] passes to the copies and [n_iter]
    the number of rounds:

    - when [dt_msec] is a number between 2^-10 and 2^40 milliseconds, the
      figure of the line is a number [q] of GB/s, units of 10^9 bytes per
      second, and [q * 10^9] is the bandwidth of the specification,
      [n_bytes * n_iter / elapsed] with [elapsed = dt_msec / 1000] seconds,
      up to one part in 10^6;
    - for 10^9 bytes, 10 rounds and an interval of 2000 ms the figure is the
      [float] 5, that is 5 * 10^9 bytes per second, exactly. *)
Theorem reported_bandwidth_formula (P : Platform) (argc : Z)
    (opts : list (Z * string)) :
  (forall hits0 d0,
     well_behaved P ->
     argp_parse opts (default_hits P O argc) 1%nat = Ret hits0 d0 ->
     exists d, run (main P argc opts) = Ret 0 d) /\
  forall r d,
    run (main P argc opts) = Ret r d ->
    exists hits d0 mid lines d_fini,
      let n := Z.to_nat (n_transfers hits) in
      let n_bytes := to_size_t (n_size hits) in
      run (init P argc opts) = Ret hits d0 /\
      d = d0 ++ mid ++ concat lines ++ d_fini /\
      results d0 = [] /\ results mid = [] /\ results d_fini = [] /\
      (1 <= n)%nat /\ length lines = n /\
      forall k t,
        nth_error (firstn n (transfer hits)) k = Some t ->
        exists m gbs,
          let pos := (length d0 + length mid + 3 * k + 1)%nat in
          let dt_msec := elapsed_msec P pos in
          nth_error lines k
          = Some [hipSetDevice (device t);
                  hipEventElapsedTime (start t) (stop t); printf m] /\
          nth_error d pos = Some (hipEventElapsedTime (start t) (stop t)) /\
          figure m = Some gbs /\
          (forall dt,
             Q_of_float dt_msec = Some dt ->
             ((1 # 1024) <= dt)%Q -> (dt <= inject_Z (2 ^ 40))%Q ->
             exists q,
               let exact :=
                 spec_bandwidth n_bytes (n_iter hits) (dt / inject_Z 1000) in
               Q_of_float gbs = Some q /\
               (exact * (1 - (1 # 1000000)) <= q * inject_Z 1000000000)%Q /\
               (q * inject_Z 1000000000 <= exact * (1 + (1 # 1000000)))%Q) /\
          (n_bytes = 1000000000 -> n_iter hits = 10 ->
           dt_msec = f32_of_Z 2000 ->
           gbs = f32_of_Z 5 /\
           exists q,
             Q_of_float gbs = Some q /\
             (q * inject_Z 1000000000 == inject_Z 5000000000)%Q /\
             (q * inject_Z 1000000000
              == spec_bandwidth 1000000000 10 (inject_Z 2))%Q).
Proof.
  split; [intros hits0 d0 HP Hparse; now apply main_returns with hits0 d0|].
  intros r d H. apply main_report_lines in H
    as (hits & d0 & mid & lines & d_fini & Hinit & -> & H0 & H1 & H2 & Hlen & Hl).
  pose proof (init_requested _ _ _ _ _ _ Hinit) as (_ & Hn1).
  pose proof (init_Ret _ _ _ _ _ _ Hinit) as (Hi & _).
  exists hits, d0, mid, lines, d_fini. cbv zeta.
  split; [exact Hinit|]. split; [reflexivity|].
  split; [exact H0|]. split; [exact H1|]. split; [exact H2|].
  split; [lia|]. split; [exact Hlen|].
  intros k t Hk. destruct (Hl k t Hk) as (m & Hn & Hf).
  eexists m, _. cbv zeta. split; [exact Hn|]. split; [|split; [exact Hf|split]].
  - rewrite !nth_error_app2 by lia.
    replace (length d0 + length mid + 3 * k + 1 - length d0 - length mid)%nat
      with (3 * k + 1)%nat by lia.
    assert (H3 : nth_error (concat lines) (3 * k + 1)
                 = nth_error [hipSetDevice (device t);
                              hipEventElapsedTime (start t) (stop t); printf m] 1).
    { apply nth_error_concat3; [|exact Hn|lia].
      intros l Hin. apply In_nth_error in Hin as (k' & Hk').
      assert (Hlt : (k' < length lines)%nat)
        by (apply nth_error_Some; congruence).
      destruct (nth_error (firstn (Z.to_nat (n_transfers hits)) (transfer hits)) k')
        as [t'|] eqn:Et.
      - destruct (Hl k' t' Et) as (m' & Hn' & _). rewrite Hk' in Hn'.
        injection Hn' as ->. reflexivity.
      - apply nth_error_None in Et.
        pose proof (init_bound _ _ _ _ _ _ Hinit) as Hb.
        rewrite length_firstn in Et. lia. }
    rewrite nth_error_app1; [exact H3|].
    apply nth_error_Some. rewrite H3. discriminate.
  - intros dt Hdt Hlo Hhi.
    change (inject_Z (2 ^ 40)) with 1099511627776%Q in Hhi.
    assert (Hb : 0 <= to_size_t (n_size hits) < 2 ^ 64)
      by (unfold to_size_t; apply Z.mod_pos_bound; lia).
    destruct (bandwidth_within (to_size_t (n_size hits)) (n_iter hits) _ dt Hb
                ltac:(unfold LONG_MAX in Hi; lia) Hdt Hlo Hhi) as (q & Hq & Hw).
    exists q. split; [exact Hq|].
    assert (E : (spec_bandwidth (to_size_t (n_size hits)) (n_iter hits)
                   (dt / inject_Z 1000)
                 == inject_Z (to_size_t (n_size hits)) * (1 # 1000000000)
                    * / (dt * (1 # 1000)) * inject_Z (n_iter hits)
                    * inject_Z 1000000000)%Q).
    { unfold spec_bandwidth. rewrite inject_Z_mult. field. lra. }
    rewrite E. unfold within in Hw. destruct Hw as (Hw1 & Hw2).
    change (inject_Z 1000000000) with 1000000000%Q.
    clear E. revert Hw1 Hw2.
    generalize (inject_Z (to_size_t (n_size hits)) * (1 # 1000000000)
                * / (dt * (1 # 1000)) * inject_Z (n_iter hits))%Q.
    intros X Hw1 Hw2. split; lra.
  - intros Eb Ei Edt. rewrite Eb, Ei, Edt. split; [vm_compute; reflexivity|].
    eexists. split; [vm_compute; reflexivity|]. split; reflexivity.
Qed.

(** [--htod=0 --iter=10 --size=1000000000] on [two_gpus], where every
    interval is measured as 2000 ms: the figure is 5. *)
Lemma reported_bandwidth_formula_witness :
  well_behaved two_gpus /\
  exists d hits d0 mid lines d_fini m gbs dt q,
    run (main two_gpus 4 argv_billion) = Ret 0 d /\
    run (init two_gpus 4 argv_billion) = Ret hits d0 /\
    d = d0 ++ mid ++ concat lines ++ d_fini /\
    to_size_t (n_size hits) = 1000000000 /\ n_iter hits = 10 /\
    nth_error lines 0
    = Some [hipSetDevice 0; hipEventElapsedTime 3%nat 4%nat; printf m] /\
    nth_error d (length d0 + length mid + 3 * 0 + 1)
    = Some (hipEventElapsedTime 3%nat 4%nat) /\
    figure m = Some gbs /\
    Q_of_float (elapsed_msec two_gpus (length d0 + length mid + 3 * 0 + 1)) = Some dt /\
    ((1 # 1024) <= dt)%Q /\ (dt <= inject_Z (2 ^ 40))%Q /\
    (dt == inject_Z 2000)%Q /\
    gbs = f32_of_Z 5 /\
    Q_of_float gbs = Some q /\
    (spec_bandwidth 1000000000 10 (dt / inject_Z 1000) * (1 - (1 # 1000000))
     <= q * inject_Z 1000000000)%Q /\
    (q * inject_Z 1000000000
     <= spec_bandwidth 1000000000 10 (dt / inject_Z 1000) * (1 + (1 # 1000000)))%Q.
Proof.
  assert (HP : well_behaved two_gpus)
    by (repeat split; intros; try reflexivity; discriminate).
  split; [exact HP|].
  destruct (proj1 (reported_bandwidth_formula two_gpus 4 argv_billion) _ _ HP
              ltac:(vm_compute; reflexivity)) as (d & Hd).
  destruct (proj2 (reported_bandwidth_formula two_gpus 4 argv_billion) 0 d Hd)
    as (hits & d0 & mid & lines & d_fini & Hinit & Ed & _ & _ & _ & _ & _ & Hl).
  pose proof Hinit as Hc. vm_compute in Hc. injection Hc as Eh E0.
  assert (Eb : to_size_t (n_size hits) = 1000000000) by (now rewrite <- Eh).
  assert (Ei : n_iter hits = 10) by (now rewrite <- Eh).
  destruct (Hl O htod0 ltac:(now rewrite <- Eh))
    as (m & gbs & Hn & Hp & Hf & Hbound & Hexact).
  destruct (Hexact Eb Ei eq_refl) as (Eg & _).
  destruct (Hbound (16384000 # 8192)%Q eq_refl ltac:(qclosed) ltac:(qclosed))
    as (q & Hq & Hq1 & Hq2).
  rewrite Eb, Ei in Hq1, Hq2.
  exists d, hits, d0, mid, lines, d_fini, m, gbs, (16384000 # 8192)%Q, q.
  split; [exact Hd|]. split; [exact Hinit|]. split; [exact Ed|].
  split; [exact Eb|]. split; [exact Ei|]. split; [exact Hn|]. split; [exact Hp|].
  split; [exact Hf|]. split; [reflexivity|]. split; [qclosed|]. split; [qclosed|].
  split; [reflexivity|]. split; [exact Eg|]. split; [exact Hq|].
  split; [exact Hq1|exact Hq2].
Defined.

(** With the default size (1 GiB) and the default 100 rounds on [two_gpus],
    where the interval is 2000 ms, the figure of the result line is
    14073748 / 2^18 GB/s, which is not [size * n_iter / elapsed]; and for
    10^9 bytes, 16777217 rounds and 1000 ms the expression of [main] gives
    16777216 GB/s, not 16777217. *)
Lemma reported_bandwidth_is_rounded :
  (exists d dt_sec dt q,
     run (main two_gpus 2 [(key "h", "0"%string)]) = Ret 0 d /\
     nth_error d 218 = Some (hipEventElapsedTime 3%nat 4%nat) /\
     nth_error d 219
     = Some (printf (Result_direct 0 HTOD 0 195
                       (S754_finite false 14073748 (-18)) dt_sec)) /\
     Q_of_float (elapsed_msec two_gpus 218) = Some dt /\
     (dt == inject_Z 2000)%Q /\
     Q_of_float (S754_finite false 14073748 (-18)) = Some q /\
     (q == 14073748 # 262144)%Q /\
     ~ (q * inject_Z 1000000000
        == spec_bandwidth N_SIZE_DEFAULT N_ITER_DEFAULT (dt / inject_Z 1000))%Q) /\
  (exists q,
     Q_of_float (bandwidth (gbytes_of 1000000000) (sec_of (f32_of_Z 1000)) 16777217)
     = Some q /\
     (q == inject_Z 16777216)%Q /\
     ~ (q * inject_Z 1000000000
        == spec_bandwidth 1000000000 16777217 (inject_Z 1))%Q).
Proof.
  split.
  - eexists. eexists. eexists. eexists.
    split; [vm_compute; reflexivity|].
    split; [reflexivity|]. split; [reflexivity|].
    split; [reflexivity|]. split; [reflexivity|].
    split; [reflexivity|]. split; [reflexivity|]. vm_compute. discriminate.
  - eexists. split; [vm_compute; reflexivity|]. split; [reflexivity|].
    vm_compute. discriminate.
Qed.

(** ** The started flag *)

(** C6.  On a well-behaved machine [main] returns 0 whenever the options
    are accepted.  In a run of [main] that returns, with the calls split as
    for the stop event: the [is_started] flag of every transfer is false in the
    array [init] returns, which is the array at the start of round 0, and
    true in the array at the start of every later round and in the array
    that is left when the loop ends and goes on to teardown; the start event
    of every transfer is recorded in round 0, once, and nowhere else, so once
    in the whole run when [n_iter >= 1]. *)
Theorem started_flag_set_in_first_round (P : Platform) (argc : Z)
    (opts : list (Z * string)) :
  (forall hits0 d0,
     well_behaved P ->
     argp_parse opts (default_hits P O argc) 1%nat = Ret hits0 d0 ->
     exists d, run (main P argc opts) = Ret 0 d) /\
  forall r d,
  run (main P argc opts) = Ret r d ->
  exists hits d0 rounds d1 d2 p,
    let n := Z.to_nat (n_transfers hits) in
    let a := transfer hits in
    run (init P argc opts) = Ret hits d0 /\
    d = d0 ++ pthread_create :: concat rounds ++ d1 ++ d2 /\
    length rounds = Z.to_nat (n_iter hits) /\
    (forall k rd, nth_error rounds k = Some rd ->
       exists pk,
         issue_round P (n_iter hits) (to_size_t (n_size hits)) n (Z.of_nat k)
           (array_at n k a) pk
         = Ret (array_at n 1 a) rd) /\
    fini P (set_transfer hits (array_at n (Z.to_nat (n_iter hits)) a)) p
    = Ret tt d2 /\
    (forall k t, In t (firstn n (array_at n k a)) ->
       is_started t = match k with O => false | S _ => true end) /\
    forall t, In t (firstn n a) ->
      records (start t) d0 = O /\
      records (start t) (d1 ++ d2) = O /\
      (forall k rd, nth_error rounds k = Some rd ->
         records (start t) rd = match k with O => 1%nat | S _ => O end) /\
      (1 <= n_iter hits -> records (start t) d = 1%nat).
Proof.
  split; [intros hits0 d0 HP Hparse; now apply (main_returns P argc opts hits0 d0)|].
  intros r d H. apply main_rounds in H
    as (hits & d0 & rounds & d1 & d2 & p & Hinit & Hi & -> & Hlen & Hr & Hd0
        & Hd1 & _ & _ & Hnd & Hst & Hfini & _).
  exists hits, d0, rounds, d1, d2, p. cbv zeta.
  split; [exact Hinit|]. split; [reflexivity|]. split; [exact Hlen|].
  split; [intros k rd Hk; now apply Hr in Hk|]. split; [exact Hfini|].
  split; [intros k t; now apply started_array_at|].
  intros t Hin.
  assert (H0 : records (start t) d0 = O)
    by (eapply Forall_no_records; [exact Hd0|apply init_call_no_record]).
  assert (H1 : records (start t) (d1 ++ d2) = O)
    by (eapply Forall_no_records; [exact Hd1|apply late_call_no_record]).
  assert (Hk : forall k rd, nth_error rounds k = Some rd ->
            records (start t) rd = match k with O => 1%nat | S _ => O end).
  { intros k rd Hk. apply Hr in Hk as (-> & _).
    apply records_start_in_round; auto. }
  split; [exact H0|]. split; [exact H1|]. split; [exact Hk|].
  intros Hge.
  change (pthread_create :: ?l) with ([pthread_create] ++ l).
  rewrite records_app, H0, records_app, records_app, H1.
  change (records (start t) [pthread_create]) with O.
  rewrite Nat.add_0_r. cbn [Nat.add].
  rewrite (records_concat_one _ rounds 0).
  - rewrite Hlen.
    destruct (Z.ltb_spec 0 (Z.of_nat (Z.to_nat (n_iter hits)))); [reflexivity|lia].
  - intros k rd Hk'. rewrite (Hk k rd Hk'). now destruct k.
Qed.

Lemma started_flag_set_in_first_round_witness :
  exists r d,
    run (main two_gpus 4 argv_htod) = Ret r d /\
    exists hits d0 rounds d1 d2 p,
      let n := Z.to_nat (n_transfers hits) in
      let a := transfer hits in
      run (init two_gpus 4 argv_htod) = Ret hits d0 /\
      d = d0 ++ pthread_create :: concat rounds ++ d1 ++ d2 /\
      length rounds = Z.to_nat (n_iter hits) /\
      (forall k rd, nth_error rounds k = Some rd ->
         exists pk,
           issue_round two_gpus (n_iter hits) (to_size_t (n_size hits)) n
             (Z.of_nat k) (array_at n k a) pk
           = Ret (array_at n 1 a) rd) /\
      fini two_gpus (set_transfer hits (array_at n (Z.to_nat (n_iter hits)) a)) p
      = Ret tt d2 /\
      (forall k t, In t (firstn n (array_at n k a)) ->
         is_started t = match k with O => false | S _ => true end) /\
      forall t, In t (firstn n a) ->
        records (start t) d0 = O /\
        records (start t) (d1 ++ d2) = O /\
        (forall k rd, nth_error rounds k = Some rd ->
           records (start t) rd = match k with O => 1%nat | S _ => O end) /\
        (1 <= n_iter hits -> records (start t) d = 1%nat).
Proof.
  eexists. eexists. split.
  - vm_compute. reflexivity.
  - apply (proj2 (started_flag_set_in_first_round two_gpus 4 argv_htod) 0).
    vm_compute. reflexivity.
Defined.

(** ** Copies, round by round *)

(** C7.  On a well-behaved machine [main] returns whenever [argp_parse]
    accepts the command line.  In a run of [main] that returns, the calls
    between the start of the heartbeat thread and the synchronisation are
    those of [n_iter] rounds, one for each index 0, 1, ..., [n_iter - 1], in
    that order; the copy submissions of every round are one per transfer of
    the run, in the order of the transfer array, each of [n_size] bytes (as a
    [size_t]); and [main] submits no copy outside the rounds.  So the copies
    of the whole run are that list of [n_transfers] copies, [n_iter]
    times. *)
Theorem issue_loop_copies_in_order (P : Platform) (argc : Z)
    (opts : list (Z * string)) :
  (forall hits0 d0,
     well_behaved P ->
     argp_parse opts (default_hits P O argc) 1%nat = Ret hits0 d0 ->
     exists d, run (main P argc opts) = Ret 0 d) /\
  forall r d,
  run (main P argc opts) = Ret r d ->
  exists hits d0 rounds d1,
    let n := Z.to_nat (n_transfers hits) in
    let a := transfer hits in
    let copies := map (copy_call (to_size_t (n_size hits))) (firstn n a) in
    run (init P argc opts) = Ret hits d0 /\
    d = d0 ++ pthread_create :: concat rounds ++ d1 /\
    length rounds = Z.to_nat (n_iter hits) /\
    (forall k rd, nth_error rounds k = Some rd ->
       (exists pk,
          issue_round P (n_iter hits) (to_size_t (n_size hits)) n (Z.of_nat k)
            (array_at n k a) pk
          = Ret (array_at n 1 a) rd) /\
       filter is_copy rd = copies) /\
    (1 <= n)%nat /\ length copies = n /\
    filter is_copy d0 = [] /\ filter is_copy d1 = [] /\
    filter is_copy d = concat (repeat copies (Z.to_nat (n_iter hits))).
Proof.
  split; [intros hits0 d0 HP Hparse; now apply main_returns with hits0 d0|].
  intros r d H. apply main_rounds in H
    as (hits & d0 & rounds & d1 & d2 & p & Hinit & Hi & -> & Hlen & Hr & Hd0
        & Hd1 & _).
  cbv zeta in Hr.
  set (n := Z.to_nat (n_transfers hits)) in *.
  set (nb := to_size_t (n_size hits)) in *.
  assert (Hc : forall k rd, nth_error rounds k = Some rd ->
                 filter is_copy rd = map (copy_call nb) (firstn n (transfer hits))).
  { intros k rd Hk. apply Hr in Hk as (-> & _). apply copies_round. }
  assert (H0 : filter is_copy d0 = [])
    by (apply (filter_none _ init_call d0 Hd0); intros c Hc0; now destruct c).
  assert (H1 : filter is_copy (d1 ++ d2) = [])
    by (apply (filter_none _ late_call _ Hd1); intros c Hc0; now destruct c).
  exists hits, d0, rounds, (d1 ++ d2). cbv zeta. fold n nb.
  split; [exact Hinit|]. split; [reflexivity|]. split; [exact Hlen|]. split.
  { intros k rd Hk. split; [|now apply Hc with k].
    apply Hr in Hk as (_ & Hk). exact Hk. }
  pose proof (init_requested _ _ _ _ _ _ Hinit) as (_ & Hn1).
  pose proof (init_bound _ _ _ _ _ _ Hinit) as Hb. fold n in Hb.
  split; [lia|]. split; [rewrite length_map, length_firstn; lia|].
  split; [exact H0|]. split; [exact H1|].
  rewrite filter_app, H0. cbn [app filter is_copy].
  rewrite filter_app, H1, app_nil_r, filter_concat, <- Hlen. f_equal.
  apply map_const_repeat. intros rd Hin.
  apply In_nth_error in Hin as (k & Hk). now apply Hc with k.
Qed.

(** [--htod=0 --iter=3 --size=1024] on [two_gpus]. *)
Lemma issue_loop_copies_in_order_witness :
  well_behaved two_gpus /\
  exists d,
    run (main two_gpus 4 argv_htod) = Ret 0 d /\
    exists hits d0 rounds d1,
      let n := Z.to_nat (n_transfers hits) in
      let a := transfer hits in
      let copies := map (copy_call (to_size_t (n_size hits))) (firstn n a) in
      run (init two_gpus 4 argv_htod) = Ret hits d0 /\
      d = d0 ++ pthread_create :: concat rounds ++ d1 /\
      length rounds = Z.to_nat (n_iter hits) /\
      (forall k rd, nth_error rounds k = Some rd ->
         (exists pk,
            issue_round two_gpus (n_iter hits) (to_size_t (n_size hits)) n
              (Z.of_nat k) (array_at n k a) pk
            = Ret (array_at n 1 a) rd) /\
         filter is_copy rd = copies) /\
      (1 <= n)%nat /\ length copies = n /\
      filter is_copy d0 = [] /\ filter is_copy d1 = [] /\
      filter is_copy d = concat (repeat copies (Z.to_nat (n_iter hits))).
Proof.
  assert (HP : well_behaved two_gpus)
    by (repeat split; intros; try reflexivity; discriminate).
  split; [exact HP|].
  destruct (proj1 (issue_loop_copies_in_order two_gpus 4 argv_htod) _ _ HP
              ltac:(vm_compute; reflexivity)) as (d & Hd).
  exists d. split; [exact Hd|].
  exact (proj2 (issue_loop_copies_in_order two_gpus 4 argv_htod) 0 d Hd).
Defined.

(** The copies of that run: three copies of 1024 bytes from the host buffer,
    the call at position 7, to the device buffer, the call at position 8, on
    the stream created at position 5. *)
Example three_copies_of_one_transfer :
  exists d,
    run (main two_gpus 4 argv_htod) = Ret 0 d /\
    filter is_copy d
    = repeat (hipMemcpyAsync 8%nat 7%nat 1024 hipMemcpyHostToDevice 5%nat) 3.
Proof. eexists. split; vm_compute; reflexivity. Qed.

(** ** Default and maximum size *)

(** C8.  The default of the transfer size is 1073741824 bytes (1 GiB),
    which is also [N_SIZE_MAX].  For a command line without [--size]: on a
    well-behaved machine [init] returns whenever [argp_parse] accepts the
    command line, and whenever [init] returns, [n_size] is 1073741824 and the
    two buffers of every transfer have been allocated with 1073741824 bytes.
    A [--size] option whose argument [strtol] reads as more than
    [N_SIZE_MAX], coming after options that were accepted, makes [init] print
    an error and exit with code 1; the run then consists of the [malloc] of
    the transfer array, with which [init] starts before it parses anything,
    and the message: no buffer, event or stream has been allocated. *)
Theorem size_default_and_maximum (P : Platform) (argc : Z) :
  N_SIZE_DEFAULT = 1073741824 /\ N_SIZE_MAX = 1073741824 /\
  (forall opts,
     (forall k arg, In (k, arg) opts -> k <> key "s") ->
     (forall hits0 d0,
        well_behaved P ->
        argp_parse opts (default_hits P O argc) 1%nat = Ret hits0 d0 ->
        exists hits d, run (init P argc opts) = Ret hits d) /\
     (forall hits d,
        run (init P argc opts) = Ret hits d ->
        n_size hits = 1073741824 /\
        forall t,
          In t (firstn (Z.to_nat (n_transfers hits)) (transfer hits)) ->
          exists place_src place_dest,
            buffer_of d (src t) = Some (place_src, 1073741824) /\
            buffer_of d (dest t) = Some (place_dest, 1073741824))) /\
  (forall pre arg post state d0,
     null_result P O = false ->
     argp_options pre {| input := default_hits P O argc; errno := 0 |} 1%nat
     = Ret state d0 ->
     st_val (strtol arg) > N_SIZE_MAX ->
     exists m,
       (m = Err_size \/ m = Err_size_max N_SIZE_MAX) /\
       run (init P argc (pre ++ (key "s", arg) :: post))
       = Halt (Exit 1)
           [malloc (to_size_t (sizeof_Transfer_t P * (argc - 1)));
            fprintf_stderr m]).
Proof.
  split; [reflexivity|]. split; [reflexivity|]. split.
  - intros opts Hk. split.
    + intros hits0 d0 HP Hparse. now apply init_returns with hits0 d0.
    + intros hits d H.
      assert (Hs : n_size hits = 1073741824).
      { unfold run in H. apply init_Ret in H as (_ & _ & _ & _ & _ & Hs).
        now apply Hs. }
      split; [exact Hs|]. intros t Ht.
      pose proof (init_handles _ _ _ _ _ H t Ht) as Hh. cbv zeta in Hh.
      rewrite Hs in Hh. change (to_size_t 1073741824) with 1073741824 in Hh.
      destruct Hh as (_ & _ & _ & _ & _ & _ & _ & Hb).
      destruct (type t); destruct Hb as (H1 & H2); eauto.
  - intros pre arg post state d0 Hnull Hpre Hbig.
    pose proof (argp_options_Ret _ _ _ _ _ Hpre) as (-> & _).
    assert (Hp : exists m,
              (m = Err_size \/ m = Err_size_max N_SIZE_MAX) /\
              parse_opt (key "s") arg state 1%nat
              = Halt (Exit 1) [fprintf_stderr m]).
    { rewrite parse_opt_size. cbv zeta.
      destruct (errno_bad _ || _)%bool; [eauto|].
      destruct (Z.gtb_spec (st_val (strtol arg)) N_SIZE_MAX); [eauto|lia]. }
    destruct Hp as (m & Hm & Hp). exists m. split; [exact Hm|].
    unfold run, init. unfold bind at 1, call. cbn [length Nat.add].
    rewrite Hnull. unfold argp_parse.
    rewrite (bind_stop _ _ 1%nat (Exit 1) [fprintf_stderr m]); [reflexivity|].
    apply bind_stop. rewrite (argp_options_app _ _ _ _ _ Hpre).
    cbn [argp_options]. change (is_option (key "s")) with true. cbv iota.
    now apply bind_stop.
Qed.

(** [--htod=0] on [two_gpus]: [init] returns with the default size, and the
    two buffers have 1073741824 bytes; [--htod=0 --size=1073741825]: exit
    with code 1. *)
Lemma size_default_and_maximum_witness :
  let P := two_gpus in
  (well_behaved P /\
   (forall k arg, In (k, arg) [(key "h", "0"%string)] -> k <> key "s") /\
   exists hits d,
     run (init P 2 [(key "h", "0"%string)]) = Ret hits d /\
     n_size hits = 1073741824 /\
     forall t,
       In t (firstn (Z.to_nat (n_transfers hits)) (transfer hits)) ->
       exists place_src place_dest,
         buffer_of d (src t) = Some (place_src, 1073741824) /\
         buffer_of d (dest t) = Some (place_dest, 1073741824)) /\
  null_result P O = false /\
  st_val (strtol "1073741825") > N_SIZE_MAX /\
  exists state d0,
    argp_options [(key "h", "0"%string)]
      {| input := default_hits P O 3; errno := 0 |} 1%nat = Ret state d0 /\
    exists m,
      (m = Err_size \/ m = Err_size_max N_SIZE_MAX) /\
      run (init P 3 ([(key "h", "0"%string)] ++ (key "s", "1073741825"%string) :: []))
      = Halt (Exit 1)
          [malloc (to_size_t (sizeof_Transfer_t P * (3 - 1))); fprintf_stderr m].
Proof.
  cbv zeta.
  assert (HP : well_behaved two_gpus)
    by (repeat split; intros; try reflexivity; discriminate).
  assert (Hk : forall k arg, In (k, arg) [(key "h", "0"%string)] -> k <> key "s")
    by (intros k arg [E|[]]; injection E as <- _; discriminate).
  split.
  - split; [exact HP|]. split; [exact Hk|].
    destruct (proj1 (proj1 (proj2 (proj2 (size_default_and_maximum two_gpus 2)))
                       [(key "h", "0"%string)] Hk) _ _ HP
                ltac:(vm_compute; reflexivity)) as (hits & d & H).
    exists hits, d. split; [exact H|].
    exact (proj2 (proj1 (proj2 (proj2 (size_default_and_maximum two_gpus 2)))
                    [(key "h", "0"%string)] Hk) hits d H).
  - split; [reflexivity|]. split; [reflexivity|].
    eexists. eexists. split; [vm_compute; reflexivity|].
    eapply (proj2 (proj2 (proj2 (size_default_and_maximum two_gpus 3)))
             [(key "h", "0"%string)] "1073741825"%string []).
    + reflexivity.
    + vm_compute. reflexivity.
    + reflexivity.
Defined.

(** That run of [init]: the pinned host buffer and the device buffer of
    1073741824 bytes. *)
Example default_size_allocated :
  exists hits,
    run (init two_gpus 2 [(key "h", "0"%string)])
    = Ret hits
        [malloc 1552; hipGetDeviceProperties 0; hipSetDevice 0; hipEventCreate;
         hipEventCreate; hipStreamCreateWithFlags 1;
         fopen "/sys/class/pci_bus/0000:c3/device/numa_node";
         hipHostMalloc 1073741824 536870912; hipMalloc 1073741824] /\
    n_size hits = 1073741824.
Proof. eexists. split; vm_compute; reflexivity. Qed.

(** ** Negative sizes *)

(** C9.  A [--size] option whose argument [strtol] reads as a negative
    number, without a range error, coming after options that were accepted
    (from the defaults of [init]): [parse_opt] returns 0, makes no call, so
    prints no error, and the transfer size is that negative number.  The
    first check of the ['s'] case rejects exactly when [errno] is [EINVAL] or
    [ERANGE] or [n_iter] is negative; the size is not looked at. *)
Theorem negative_size_accepted (P : Platform) (argc : Z) (p : Handle)
    (pre : list (Z * string)) (pos : nat) (state : argp_state) (d0 : list Call)
    (arg : string) :
  argp_options pre {| input := default_hits P p argc; errno := 0 |} pos
  = Ret state d0 ->
  st_erange (strtol arg) = false ->
  st_val (strtol arg) < 0 ->
  parse_opt (key "s") arg state pos
  = Ret (0, {| input := set_n_size (input state) (st_val (strtol arg));
               errno := errno state |}) [] /\
  (forall state' pos',
     parse_opt (key "s") arg state' pos' = Halt (Exit 1) [fprintf_stderr Err_size]
     <-> errno_bad (errno_after (errno state') (strtol arg))
         || (n_iter (input state') <? 0) = true).
Proof.
  intros Hpre Her Hneg. split.
  - apply argp_options_Ret in Hpre as (_ & Hinv & _).
    destruct Hinv as (He & Hn & _).
    { unfold parse_inv. simpl. unfold N_ITER_DEFAULT, LONG_MAX. repeat split; lia. }
    rewrite parse_opt_size. cbv zeta.
    unfold errno_after. rewrite Her, He.
    destruct (Z.ltb_spec (n_iter (input state)) 0); [lia|]. simpl.
    destruct (Z.gtb_spec (st_val (strtol arg)) N_SIZE_MAX);
      [unfold N_SIZE_MAX in *; lia|reflexivity].
  - intros state' pos'. rewrite parse_opt_size. cbv zeta.
    destruct (errno_bad _ || _)%bool; [tauto|].
    split; [|discriminate].
    destruct (_ >? _); discriminate.
Qed.

(** [--htod=0 --size=-5] on [two_gpus]: the option is accepted. *)
Lemma negative_size_accepted_witness :
  exists state d0,
    argp_options [(key "h", "0"%string)]
      {| input := default_hits two_gpus O 3; errno := 0 |} 1%nat = Ret state d0 /\
    st_erange (strtol "-5") = false /\
    st_val (strtol "-5") < 0 /\
    parse_opt (key "s") "-5" state 1%nat
    = Ret (0, {| input := set_n_size (input state) (st_val (strtol "-5"));
                 errno := errno state |}) [] /\
    (forall state' pos',
       parse_opt (key "s") "-5" state' pos' = Halt (Exit 1) [fprintf_stderr Err_size]
       <-> errno_bad (errno_after (errno state') (strtol "-5"))
           || (n_iter (input state') <? 0) = true).
Proof.
  eexists. eexists. split; [vm_compute; reflexivity|].
  split; [reflexivity|]. split; [reflexivity|].
  eapply (negative_size_accepted two_gpus 3 O [(key "h", "0"%string)] 1%nat).
  - vm_compute. reflexivity.
  - reflexivity.
  - reflexivity.
Defined.

(** The whole [init] of [--htod=0 --size=-5] returns, with size -5. *)
Example init_negative_size :
  exists hits d, run (init two_gpus 3 argv_negative_size) = Ret hits d /\ n_size hits = -5.
Proof. eexists. eexists. split; [vm_compute; reflexivity|reflexivity]. Qed.

(** ** NUMA node -1 *)

(** C10.  When the NUMA file opens and [fscanf] reads an integer [v] from
    it, [set_numa_affinity] stores [v] in [numa_node] and calls
    [numa_set_preferred v], whatever [v] is.  In particular a file that
    holds -1 gives [numa_set_preferred (-1)], and the transfer that comes
    out is the one that went in, [numa_node] being -1 since
    [_transfer_init_common]; so [direct_transfer] prints no NUMA node for
    it. *)
Theorem numa_preference_for_any_node (P : Platform) (t : Transfer_t) (pos : nat)
    (content : string) (v : Z) :
  sysfs P (numa_file (prop_device t)) = Some content ->
  fscanf_d content = (1, Some v) ->
  set_numa_affinity P t pos
  = Ret (set_numa_node t v)
      [fopen (numa_file (prop_device t)); fscanf pos; fclose pos;
       numa_set_preferred v] /\
  (fscanf_d minus_one_line = (1, Some (-1))) /\
  (v = -1 -> numa_node t = -1 ->
   set_numa_node t v = t /\
   filter (fun c => match c with printf (Host_buffer_numa _) => true | _ => false end)
     (launch_calls (set_numa_node t v)) = []).
Proof.
  intros Hf Hs. split; [|split].
  - unfold set_numa_affinity, bind, call. rewrite Hf, Hs. reflexivity.
  - reflexivity.
  - intros -> Hn. split.
    + destruct t; simpl in *. now subst.
    + unfold launch_calls. simpl. now destruct (type t).
Qed.

(** [--htod=0] on a machine whose NUMA files hold -1. *)
Lemma numa_preference_for_any_node_witness :
  let P := with_numa_files minus_one_line in
  sysfs P (numa_file (prop_device htod0)) = Some minus_one_line /\
  fscanf_d minus_one_line = (1, Some (-1)) /\
  set_numa_affinity P htod0 6%nat
  = Ret (set_numa_node htod0 (-1))
      [fopen (numa_file (prop_device htod0)); fscanf 6%nat; fclose 6%nat;
       numa_set_preferred (-1)] /\
  (fscanf_d minus_one_line = (1, Some (-1))) /\
  (-1 = -1 -> numa_node htod0 = -1 ->
   set_numa_node htod0 (-1) = htod0 /\
   filter (fun c => match c with printf (Host_buffer_numa _) => true | _ => false end)
     (launch_calls (set_numa_node htod0 (-1))) = []).
Proof.
  cbv zeta. split; [reflexivity|]. split; [reflexivity|].
  apply (numa_preference_for_any_node (with_numa_files minus_one_line) htod0 6%nat
           minus_one_line (-1)); reflexivity.
Defined.

(** ** The scenarios of the specification *)

(** Scenario A: [--htod=0 --iter=3 --size=1024] runs to the end and returns
    0; one start and one stop record, three copies. *)
Example scenario_A :
  exists d,
    run (main two_gpus 4 argv_htod) = Ret 0 d /\
    records (start htod0) d = 1%nat /\ records (stop htod0) d = 1%nat /\
    filter is_copy d = repeat (copy_call 1024 htod0) 3.
Proof. eexists. split; [vm_compute; reflexivity|]. repeat split. Qed.

(** Scenario B: [--dtod=1,0] without peer access exits with code 1; no
    buffer of the transfer has been allocated (the one [malloc] is that of
    the transfer array). *)
Example scenario_B :
  run (main no_peer_access 2 argv_dtod)
  = Halt (Exit 1)
      [malloc 1552; hipGetDeviceProperties 1; hipGetDeviceProperties 0;
       hipSetDevice 1; hipEventCreate; hipEventCreate;
       hipStreamCreateWithFlags 1; hipDeviceCanAccessPeer 1 0;
       fprintf_stderr (Err_p2p 1 0)].
Proof. vm_compute. reflexivity. Qed.

(** [--htod=0] on a machine whose NUMA files hold -1: [init] calls
    [numa_set_preferred (-1)], and the transfer it builds is the one it
    builds without a NUMA file, but for the handles of its buffers. *)
Example init_numa_minus_one :
  exists hits d,
    run (init (with_numa_files minus_one_line) 4 argv_htod) = Ret hits d /\
    In (numa_set_preferred (-1)) d /\
    map numa_node (firstn 1 (transfer hits)) = [-1].
Proof.
  eexists. eexists. split; [vm_compute; reflexivity|].
  split; [|reflexivity]. simpl. tauto.
Qed.

(** * Further properties *)
(** ** The transfer array *)

(** X1.  [init] allocates [argc - 1] cells for the transfers, and every
    option that adds a transfer takes at least one argument of the command
    line.  When the command line has at most [argc - 1] such options, no run
    of [main], on any machine, reads or writes a cell outside the array:
    neither [parse_opt], which fills the cell of index [n_transfers], nor the
    loops of [transfer_init], [main] and [fini] over the first
    [n_transfers] cells. *)
Theorem transfer_array_never_overrun (P : Platform) (argc : Z)
    (opts : list (Z * string)) :
  (length (requested opts) <= Z.to_nat (argc - 1))%nat ->
  forall d, run (main P argc opts) <> Halt Undefined d.
Proof.
  intros Hn d. now apply in_bounds_main.
Qed.

Lemma transfer_array_never_overrun_witness :
  (length (requested argv_htod) <= Z.to_nat (4 - 1))%nat /\
  forall d, run (main two_gpus 4 argv_htod) <> Halt Undefined d.
Proof.
  split; [simpl; lia |].
  apply (transfer_array_never_overrun two_gpus 4 argv_htod). simpl. lia.
Defined.

(** The bound is needed: two transfers in an array of one cell. *)
Example transfer_array_overrun :
  run (main two_gpus 2 [(key "h", "0"%string); (key "d", "1"%string)])
  = Halt Undefined [malloc 1552].
Proof. vm_compute. reflexivity. Qed.

(** ** Fresh cells *)

(** X2.  [init] takes the transfer array from [malloc], which leaves its cells
    indeterminate.  No run of [main] depends on what they hold: its calls,
    with their arguments, and its outcome are the same whatever the contents
    of the fresh cells.  So what [main] does with a field of a transfer is
    decided by what [parse_opt] and the allocation of the transfer wrote
    there, never by what [malloc] left. *)
Theorem fresh_cells_do_not_matter (P : Platform) (t : Transfer_t) (argc : Z)
    (opts : list (Z * string)) :
  run (main (with_indeterminate P t) argc opts) = run (main P argc opts).
Proof. apply same_run_eq, main_alike. Qed.

(** ** Command lines without a transfer *)

(** X3.  A command line without [--dtoh], [--htod] and [--dtod]: [main]
    allocates the transfer array and stops while the command line is parsed,
    and it makes no other call.  It stops with code 0 after what argp prints
    for [--help], [--usage] or [--version]; with [EX_USAGE] after the usage
    message of [argp_usage] or after what argp prints for a command line it
    rejects; or with code 1 after an error message about [--iter] or [--size]
    (or about the array, when [malloc] gave NULL). *)
Theorem no_transfer_no_run (P : Platform) (argc : Z) (opts : list (Z * string)) :
  requested opts = [] ->
  let array := malloc (to_size_t (sizeof_Transfer_t P * (argc - 1))) in
  let o := run (main P argc opts) in
  (exists text,
     o = Halt (Exit 0) [array; argp_print text] /\
     (text = Help \/ text = Usage \/ text = Version)) \/
  o = Halt (Exit EX_USAGE) [array; argp_usage] \/
  (exists text,
     o = Halt (Exit EX_USAGE) [array; argp_print text] /\
     (text = Bad_option \/ text = Too_many_arguments)) \/
  (exists m,
     o = Halt (Exit 1) [array; fprintf_stderr m] /\
     (m = Err_iter \/ m = Err_size \/ m = Err_size_max N_SIZE_MAX \/
      m = Err_main_alloc /\ null_result P O = true)).
Proof.
  intros Hr. cbv zeta.
  set (array := malloc (to_size_t (sizeof_Transfer_t P * (argc - 1)))).
  assert (Hi : exists s d,
             run (init P argc opts) = Halt s (array :: d) /\
             (quiet_stop s d \/
              s = Exit 1 /\ d = [fprintf_stderr Err_main_alloc] /\
              null_result P O = true)).
  { unfold run, init. rewrite (bind_run _ _ O O [array] eq_refl).
    cbn [length Nat.add].
    destruct (null_result P O) eqn:Hnull.
    { exists (Exit 1), [fprintf_stderr Err_main_alloc]. auto. }
    pose proof (argp_options_no_transfer opts
                  {| input := default_hits P O argc; errno := 0 |} 1%nat Hr) as Ho.
    unfold argp_parse.
    destruct (argp_options opts _ 1%nat) as [state' d'|s d'] eqn:Eo.
    - destruct Ho as (-> & Hn). simpl in Hn.
      exists (Exit EX_USAGE), [argp_usage]. split.
      + rewrite (bind_stop _ _ 1%nat (Exit EX_USAGE) [argp_usage]); [reflexivity|].
        rewrite (bind_run _ _ _ _ _ Eo). cbn [length Nat.add].
        rewrite (bind_stop _ _ _ (Exit EX_USAGE) [argp_usage]); [reflexivity|].
        unfold parse_opt. cbv zeta. rewrite Hn. reflexivity.
      + left. right. left. auto.
    - assert (Hp : argp_parse opts (default_hits P O argc) 1%nat = Halt s d')
        by (unfold argp_parse; now apply bind_stop).
      unfold argp_parse in Hp. rewrite (bind_stop _ _ _ _ _ Hp).
      exists s, d'. auto. }
  destruct Hi as (s & d & Hi & Hs).
  assert (Hm : run (main P argc opts) = Halt s (array :: d))
    by (unfold run, main in *; now apply bind_stop).
  rewrite Hm.
  destruct Hs as [[(-> & text & -> & Ht)|[(-> & [->|(text & -> & Ht)])
                                          |(-> & m & -> & Hmsg)]]
                 |(-> & -> & Hn)].
  - left. now exists text.
  - right. now left.
  - right. right. left. now exists text.
  - right. right. right. exists m. split; [reflexivity|tauto].
  - right. right. right. exists Err_main_alloc. auto 6.
Qed.

(** [--iter=5 --disable-pinned-memory]: the usage message. *)
Lemma no_transfer_no_run_witness :
  run (main two_gpus 3 [(key "i", "5"%string); (key "m", ""%string)])
  = Halt (Exit EX_USAGE) [malloc 3104; argp_usage].
Proof.
  destruct (no_transfer_no_run two_gpus 3
              [(key "i", "5"%string); (key "m", ""%string)] eq_refl)
    as [(text & H & _)|[H|[(text & H & _)|(m & H & _)]]];
    try exact H; vm_compute in H; discriminate H.
Defined.

(** [--help] stops the program with code 0, also behind a transfer option
    that was accepted; an argument that is no option stops it with
    [EX_USAGE]. *)
Example help_exits_with_0 :
  run (main two_gpus 2 [(key "?", ""%string)])
  = Halt (Exit 0) [malloc 1552; argp_print Help] /\
  run (main two_gpus 3 [(key "h", "0"%string); (key "?", ""%string)])
  = Halt (Exit 0) [malloc 3104; argp_print Help] /\
  run (main two_gpus 3 [(key "h", "0"%string); (ARGP_KEY_ARG, "x"%string)])
  = Halt (Exit EX_USAGE) [malloc 3104; argp_print Too_many_arguments].
Proof. vm_compute. auto. Qed.

(** ** Runtime calls that fail *)

(** X4.  [main] stops at the first runtime call under [checkHip] that does
    not return [hipSuccess]: the calls of the run end with that call and the
    message of [assertHip], and the exit code is the status the call
    returned.  So a run that returns had [hipSuccess] from every such call.
    (The status of [hipDeviceCanAccessPeer] is not looked at.) *)
Theorem first_failing_call_stops (P : Platform) (argc : Z)
    (opts : list (Z * string)) :
  let o := run (main P argc opts) in
  (forall k,
     first_failure P O (calls o) = Some k ->
     o = Halt (Exit (hip_ret P k))
           (firstn (S k) (calls o) ++ [fprintf_stderr (CheckHip (hip_ret P k))]) /\
     hip_ret P k <> hipSuccess /\
     (exists c, nth_error (calls o) k = Some c /\ is_checked c = true) /\
     (forall j c, (j < k)%nat -> nth_error (calls o) j = Some c ->
        is_checked c = true -> hip_ret P j = hipSuccess)) /\
  (forall r d,
     o = Ret r d ->
     forall j c, nth_error d j = Some c -> is_checked c = true ->
       hip_ret P j = hipSuccess).
Proof.
  cbv zeta. split.
  - intros k Hk.
    pose proof (fail_stop_main P argc opts O) as H. unfold run in *.
    rewrite Hk in H. rewrite Nat.sub_0_r in H. split; [exact H|].
    apply first_failure_Some in Hk as (H1 & (c & H2 & H3) & H4).
    rewrite Nat.sub_0_r in H2. split; [exact H1|]. split; [now exists c|].
    intros j c0 Hj Hc0. apply (H4 j c0); [lia|]. now rewrite Nat.sub_0_r.
  - intros r d Ho j c Hj Hc.
    pose proof (fail_stop_main P argc opts O) as H. unfold run in *.
    rewrite Ho in H. cbn [calls] in H.
    destruct (first_failure P O d) eqn:E; [discriminate|].
    now apply (first_failure_None P d O E j c).
Qed.

(** [--htod=0 --iter=3 --size=1024] on a machine whose device allocation,
    the call at position 8, is out of memory. *)
Lemma first_failing_call_stops_witness :
  let P := failing_at 8 hipErrorOutOfMemory in
  let o := run (main P 4 argv_htod) in
  o = Halt (Exit (hip_ret P 8))
        (firstn 9 (calls o) ++ [fprintf_stderr (CheckHip (hip_ret P 8))]) /\
  hip_ret P 8 <> hipSuccess /\
  (exists c, nth_error (calls o) 8 = Some c /\ is_checked c = true) /\
  (forall j c, (j < 8)%nat -> nth_error (calls o) j = Some c ->
     is_checked c = true -> hip_ret P j = hipSuccess).
Proof.
  apply (proj1 (first_failing_call_stops (failing_at 8 hipErrorOutOfMemory) 4
                  argv_htod) 8%nat).
  vm_compute. reflexivity.
Defined.

(** That run: the exit code is 2, and the last runtime call is the
    [hipMalloc] of the device buffer. *)
Example out_of_device_memory :
  run (main (failing_at 8 hipErrorOutOfMemory) 4 argv_htod)
  = Halt (Exit 2)
      [malloc 4656; hipGetDeviceProperties 0; hipSetDevice 0; hipEventCreate;
       hipEventCreate; hipStreamCreateWithFlags 1;
       fopen "/sys/class/pci_bus/0000:c3/device/numa_node";
       hipHostMalloc 1024 536870912; hipMalloc 1024;
       fprintf_stderr (CheckHip 2)].
Proof. vm_compute. reflexivity. Qed.

(** ** Exit codes *)

(** X5.  When [main] stops by [exit], the last call before it is the
    message that goes with the exit code: what argp prints for [--help],
    [--usage] or [--version], with code 0; the usage message of
    [argp_usage], or what argp prints for a command line it rejects, with
    [EX_USAGE]; the message of [assertHip], with the status of the failed
    runtime call, which is not 0, as code; or one of the program's error
    messages, with code 1.  So the exit code is 0 for [--help], [--usage]
    and [--version] only, and every error has a code that is not 0.  A run
    that returns, returns 0. *)
Theorem exit_code_and_diagnostic (P : Platform) (argc : Z)
    (opts : list (Z * string)) :
  (forall r d, run (main P argc opts) = Ret r d -> r = 0) /\
  forall code d,
    run (main P argc opts) = Halt (Exit code) d ->
    exists d' c,
      d = d' ++ [c] /\
      ((exists text,
          c = argp_print text /\ code = 0 /\
          (text = Help \/ text = Usage \/ text = Version)) \/
       (c = argp_usage /\ code = EX_USAGE) \/
       (exists text,
          c = argp_print text /\ code = EX_USAGE /\
          (text = Bad_option \/ text = Too_many_arguments)) \/
       (c = fprintf_stderr (CheckHip code) /\ code <> 0) \/
       (exists m, c = fprintf_stderr m /\ code = 1)) /\
      (code = 0 ->
       exists text,
         c = argp_print text /\ (text = Help \/ text = Usage \/ text = Version)).
Proof.
  split.
  - intros r d H. unfold run in H. now apply main_Ret in H as (? & ? & ? & ? & ? & ? & ? & ? & ? & ? & ? & ? & ? & ? & ? & ? & ?).
  - intros code d H. apply explained_main in H. simpl in H.
    destruct H as (d' & c & -> & Hc). exists d', c. split; [reflexivity|].
    destruct c; try discriminate Hc; simpl in Hc.
    + apply Z.eqb_eq in Hc. subst code. split; [auto|discriminate].
    + destruct text; apply Z.eqb_eq in Hc; subst code;
        (split; [eauto 9|]); try discriminate; eauto.
    + destruct m;
        try (apply Z.eqb_eq in Hc; subst code; split; [eauto 9|discriminate]).
      apply andb_prop in Hc as (H1 & H2). apply Z.eqb_eq in H1. subst code0.
      apply negb_true_iff, Z.eqb_neq in H2. unfold hipSuccess in H2.
      split; [auto 6|contradiction].
Qed.

(** [--dtod=1,0] between two devices without peer access: code 1. *)
Lemma exit_code_and_diagnostic_witness :
  exists d,
    run (main no_peer_access 2 argv_dtod) = Halt (Exit 1) d /\
    exists d' c,
      d = d' ++ [c] /\
      ((exists text,
          c = argp_print text /\ 1 = 0 /\
          (text = Help \/ text = Usage \/ text = Version)) \/
       (c = argp_usage /\ 1 = EX_USAGE) \/
       (exists text,
          c = argp_print text /\ 1 = EX_USAGE /\
          (text = Bad_option \/ text = Too_many_arguments)) \/
       (c = fprintf_stderr (CheckHip 1) /\ 1 <> 0) \/
       (exists m, c = fprintf_stderr m /\ 1 = 1)) /\
      (1 = 0 ->
       exists text,
         c = argp_print text /\ (text = Help \/ text = Usage \/ text = Version)).
Proof.
  eexists. split; [vm_compute; reflexivity|].
  eapply (proj2 (exit_code_and_diagnostic no_peer_access 2 argv_dtod) 1).
  vm_compute. reflexivity.
Defined.

(** [--help]: code 0. *)
Example help_message_before_exit :
  exists d,
    run (main two_gpus 2 [(key "?", ""%string)]) = Halt (Exit 0) (d ++ [argp_print Help]).
Proof. exists [malloc 1552]. vm_compute. reflexivity. Qed.

(** ** Failed assertions *)

(** X6.  [main] stops on a failed [assert] only right after the host
    allocation of a buffer ([malloc] or [hipHostMalloc]) that gave NULL: that
    allocation is the last call of the run, so the device buffer of the
    transfer is not requested; it is not the [malloc] of the transfer array,
    whose NULL is reported with an error message and code 1. *)
Theorem abort_only_for_null_host_buffer (P : Platform) (argc : Z)
    (opts : list (Z * string)) (d : list Call) :
  run (main P argc opts) = Halt Abort d ->
  exists d' c,
    d = d' ++ [c] /\ d' <> [] /\ is_host_alloc c = true /\
    null_result P (length d') = true.
Proof.
  intros H. pose proof (explained_main P argc opts _ _ _ H) as He. simpl in He.
  destruct He as (d' & c & -> & Hc & Hn). exists d', c.
  split; [reflexivity|]. split; [|auto].
  intros ->. simpl in Hn. unfold run, main, init in H.
  rewrite (bind_stop _ _ O (Exit 1)
             [malloc (to_size_t (sizeof_Transfer_t P * (argc - 1)));
              fprintf_stderr Err_main_alloc]) in H; [discriminate|].
  rewrite (bind_run _ _ O O [malloc _] eq_refl). cbn [length Nat.add].
  now rewrite Hn.
Qed.

(** [--htod=0 --iter=3 --size=1024] on a machine whose pinned allocation,
    the call at position 7, gives NULL. *)
Lemma abort_only_for_null_host_buffer_witness :
  exists d,
    run (main (null_at 7) 4 argv_htod) = Halt Abort d /\
    exists d' c,
      d = d' ++ [c] /\ d' <> [] /\ is_host_alloc c = true /\
      null_result (null_at 7) (length d') = true.
Proof.
  eexists. split; [vm_compute; reflexivity|].
  eapply (abort_only_for_null_host_buffer (null_at 7) 4 argv_htod).
  vm_compute. reflexivity.
Defined.

(** ** The configuration *)

(** X7.  When [init] returns, the transfers of the run are those the command
    line asks for, in its order: [n_transfers] is the number of [--dtoh],
    [--htod] and [--dtod] options, it is at least 1 and at most [argc - 1],
    and the type of the cell of index [i] is the type of the [i]-th of
    these options.  Every device of a transfer is a non-negative number, and
    [device2] is -1 for a direct transfer, so that [_transfer_init_common]
    asks for the properties of a second device for device-to-device
    transfers only. *)
Theorem transfers_follow_command_line (P : Platform) (argc : Z)
    (opts : list (Z * string)) (hits : Hits_t) (d : list Call) :
  run (init P argc opts) = Ret hits d ->
  let ts := firstn (Z.to_nat (n_transfers hits)) (transfer hits) in
  n_transfers hits = Z.of_nat (length (requested opts)) /\
  1 <= n_transfers hits <= argc - 1 /\
  map type ts = requested opts /\
  Forall devices_set ts.
Proof.
  unfold run, init, transfer_init, for_each. intros H. repeat step_ret.
  match goal with H : argp_parse _ _ ?p = Ret ?h _ |- _ =>
    rename h into hits1;
    pose proof (argp_parse_bound _ _ _ _ _ H) as Hb;
    apply argp_parse_requested in H; [|reflexivity];
    destruct H as (Hn & H1 & Hl & Hreq) end.
  match goal with H : for_from _ _ _ _ _ = Ret ?a _ |- _ =>
    rename a into a1;
    apply (for_from_pointwise
             (fun t t' => type t' = type t /\ device t' = device t /\
                          device2 t' = device2 t)) in H;
      [|intros i t p t' d' Hi; now apply init_one_keeps in Hi];
    destruct H as (HF & _) end.
  simpl in Hb, Hl. rewrite repeat_length in *. specialize (Hb ltac:(lia)).
  cbv zeta. simpl.
  set (n := Z.to_nat (n_transfers hits1)) in *.
  assert (Hmap : map type (firstn n (transfer hits1)) = requested opts).
  { replace n with (length (requested opts)) by lia.
    apply map_firstn_nth; [lia|].
    intros i ty Hi. apply Hreq in Hi as (t & Ht & Hty & _). eauto. }
  assert (Hdev : Forall devices_set (firstn n (transfer hits1))).
  { apply Forall_forall. intros t Ht. apply In_nth_error in Ht as (i & Hi).
    assert (Hlt : (i < length (firstn n (transfer hits1)))%nat)
      by (apply nth_error_Some; congruence).
    rewrite length_firstn in Hlt.
    rewrite nth_error_firstn in Hi.
    destruct (Nat.ltb_spec i n); [|discriminate].
    destruct (nth_error (requested opts) i) as [ty|] eqn:Ety.
    - apply Hreq in Ety as (t0 & Ht0 & _ & Hd). congruence.
    - apply nth_error_None in Ety. lia. }
  split; [exact Hn|]. split; [lia|]. split.
  - rewrite <- Hmap. clear -HF. induction HF as [|t t' l l' (Ht & _) _ IH]; simpl;
      congruence.
  - clear -HF Hdev. induction HF as [|t t' l l' (Ht & Hd1 & Hd2) _ IH];
      [constructor|].
    inversion Hdev; subst. constructor; [|auto].
    unfold devices_set in *. now rewrite Ht, Hd1, Hd2.
Qed.

(** [--htod=0 --iter=3 --size=1024]: one transfer, host to device. *)
Lemma transfers_follow_command_line_witness :
  exists hits d,
    run (init two_gpus 4 argv_htod) = Ret hits d /\
    let ts := firstn (Z.to_nat (n_transfers hits)) (transfer hits) in
    n_transfers hits = Z.of_nat (length (requested argv_htod)) /\
    1 <= n_transfers hits <= 4 - 1 /\
    map type ts = requested argv_htod /\
    Forall devices_set ts.
Proof.
  eexists. eexists. split; [vm_compute; reflexivity|].
  eapply (transfers_follow_command_line two_gpus 4 argv_htod).
  vm_compute. reflexivity.
Defined.

(** ** The values of [--iter] and [--size] *)

(** X8.  Options are applied from left to right, so the last [--iter] and
    the last [--size] of the command line decide: when [init] returns,
    [n_iter] is what [strtol] read from the argument of the rightmost
    [--iter] option, and 100 when there is none; [n_size] is what it read
    from the argument of the rightmost [--size] option, and 1073741824 when
    there is none. *)
Theorem rightmost_option_decides (P : Platform) (argc : Z)
    (opts : list (Z * string)) (hits : Hits_t) (d : list Call) :
  run (init P argc opts) = Ret hits d ->
  (has_key (key "i") opts = false -> n_iter hits = N_ITER_DEFAULT) /\
  (has_key (key "s") opts = false -> n_size hits = N_SIZE_DEFAULT) /\
  (forall pre arg post,
     opts = pre ++ (key "i", arg) :: post -> has_key (key "i") post = false ->
     n_iter hits = st_val (strtol arg)) /\
  (forall pre arg post,
     opts = pre ++ (key "s", arg) :: post -> has_key (key "s") post = false ->
     n_size hits = st_val (strtol arg)).
Proof.
  unfold run, init, transfer_init, argp_parse. intros H. repeat step_ret.
  match goal with H : parse_opt _ _ _ _ = _ |- _ =>
    apply parse_opt_keeps in H as (H1 & H2 & _) end.
  cbn [n_iter n_size set_transfer]. rewrite H1, H2 by discriminate.
  match goal with H : argp_options _ _ _ = _ |- _ => rename H into Ho end.
  split; [|split; [|split]].
  - intros Hk. apply argp_options_keeps in Ho as (Ho & _). now rewrite Ho.
  - intros Hk. apply argp_options_keeps in Ho as (_ & Ho). now rewrite Ho.
  - intros pre arg post -> Hk.
    apply argp_options_split in Ho as (mid & _ & Ho).
    cbn [argp_options] in Ho. change (is_option (key "i")) with true in Ho.
    cbv iota in Ho. repeat step_ret.
    match goal with H : parse_opt _ _ _ _ = _ |- _ =>
      apply parse_opt_keeps in H as (_ & _ & Hi & _) end.
    match goal with H : argp_options _ _ _ = _ |- _ =>
      apply argp_options_keeps in H as (Hpost & _) end.
    rewrite Hpost, Hi; auto.
  - intros pre arg post -> Hk.
    apply argp_options_split in Ho as (mid & _ & Ho).
    cbn [argp_options] in Ho. change (is_option (key "s")) with true in Ho.
    cbv iota in Ho. repeat step_ret.
    match goal with H : parse_opt _ _ _ _ = _ |- _ =>
      apply parse_opt_keeps in H as (_ & _ & _ & Hs) end.
    match goal with H : argp_options _ _ _ = _ |- _ =>
      apply argp_options_keeps in H as (_ & Hpost) end.
    rewrite Hpost, Hs; auto.
Qed.

(** [--iter=7 --htod=0 --iter=3 --size=1024]: three rounds. *)
Lemma rightmost_option_decides_witness :
  exists hits d,
    run (init two_gpus 5 ((key "i", "7"%string) :: argv_htod)) = Ret hits d /\
    n_iter hits = st_val (strtol "3").
Proof.
  eexists. eexists. split; [vm_compute; reflexivity|].
  eapply (rightmost_option_decides two_gpus 5 ((key "i", "7"%string) :: argv_htod)).
  - vm_compute. reflexivity.
  - instantiate (2 := [(key "i", "7"%string); (key "h", "0"%string)]).
    reflexivity.
  - reflexivity.
Defined.

(** ** Numbers in arguments *)

(** X9.  [parse_opt] reads the decimal numeral at the start of the argument
    of [--iter], [--size], [--htod] and [--dtoh] and never looks at what
    follows it.  With no pending [errno], a numeral [u] followed by anything
    but a digit is accepted without a message: [--iter] stores its value when
    it is at most [LONG_MAX], [--size] when it is at most [N_SIZE_MAX], and
    [--htod] and [--dtoh] fill the free cell of the transfer array with a
    direct transfer on that device when it is below 2^31. *)
Theorem number_argument_parsed (u : Decimal.uint) (rest : string)
    (state : argp_state) (pos : nat) :
  u <> Decimal.Nil -> no_digit_ahead rest ->
  errno_bad (errno state) = false ->
  let arg := (decimal u ++ rest)%string in
  let hits := input state in
  let idx := Z.to_nat (n_transfers hits) in
  (value_of u <= LONG_MAX ->
   parse_opt (key "i") arg state pos
   = Ret (0, {| input := set_n_iter hits (value_of u); errno := errno state |}) []) /\
  (value_of u <= N_SIZE_MAX -> 0 <= n_iter hits ->
   parse_opt (key "s") arg state pos
   = Ret (0, {| input := set_n_size hits (value_of u); errno := errno state |}) []) /\
  (forall k ty msg t,
     (k = key "d" /\ ty = DTOH /\ msg = Err_dtoh) \/
     (k = key "h" /\ ty = HTOD /\ msg = Err_htod) ->
     value_of u < 2 ^ 31 ->
     nth_error (transfer hits) idx = Some t ->
     parse_opt k arg state pos
     = Ret (0, {| input :=
                    set_n_transfers
                      (set_transfer hits
                         (store idx
                            (set_device2 (set_device (set_type t ty) (value_of u)) (-1))
                            (transfer hits)))
                      (n_transfers hits + 1);
                  errno := errno state |}) []).
Proof.
  intros Hu Hr He. cbv zeta.
  assert (H0 : 0 <= value_of u) by (unfold value_of; lia).
  split; [|split].
  - intros Hv. rewrite parse_opt_iter. cbv zeta.
    rewrite (strtol_decimal u rest Hu Hr Hv).
    cbn [st_val errno_after st_erange n_iter set_n_iter]. rewrite He.
    destruct (Z.ltb_spec (value_of u) 0); [lia|]. reflexivity.
  - intros Hv Hi. rewrite parse_opt_size. cbv zeta.
    rewrite (strtol_decimal u rest Hu Hr)
      by (unfold N_SIZE_MAX, LONG_MAX in *; lia).
    cbn [st_val errno_after st_erange]. rewrite He.
    destruct (Z.ltb_spec (n_iter (input state)) 0); [lia|].
    destruct (Z.gtb_spec (value_of u) N_SIZE_MAX); [lia|]. reflexivity.
  - intros k ty msg t Hk Hv Hcell.
    rewrite (parse_opt_direct k ty msg _ state Hk).
    cbv zeta. rewrite Hcell.
    rewrite (strtol_decimal u rest Hu Hr) by (unfold LONG_MAX; lia).
    cbn [st_val errno_after st_erange device set_device]. rewrite He.
    rewrite to_int_small by lia.
    destruct (Z.ltb_spec (value_of u) 0); [lia|]. reflexivity.
Qed.

(** X10.  An argument that starts with no number (it is empty, or starts
    with a character that is neither white space, a sign nor a digit) is not
    an error for [--iter], [--size], [--htod] and [--dtoh]: [strtol] returns 0
    and leaves [errno] alone, and [parse_opt] compares neither [endptr] with
    the argument nor the argument with anything.  So [--iter=x] asks for 0
    rounds, [--size=x] for 0 bytes, and [--htod=x] for device 0.  [--dtod]
    does compare [endptr] with the token, and rejects such an argument
    (unless it starts with a comma, which [strtok] skips). *)
Theorem argument_without_number (arg : string) (state : argp_state) (pos : nat) :
  no_number arg ->
  errno_bad (errno state) = false ->
  let hits := input state in
  let idx := Z.to_nat (n_transfers hits) in
  parse_opt (key "i") arg state pos
  = Ret (0, {| input := set_n_iter hits 0; errno := errno state |}) [] /\
  (0 <= n_iter hits ->
   parse_opt (key "s") arg state pos
   = Ret (0, {| input := set_n_size hits 0; errno := errno state |}) []) /\
  (forall k ty msg t,
     (k = key "d" /\ ty = DTOH /\ msg = Err_dtoh) \/
     (k = key "h" /\ ty = HTOD /\ msg = Err_htod) ->
     nth_error (transfer hits) idx = Some t ->
     parse_opt k arg state pos
     = Ret (0, {| input :=
                    set_n_transfers
                      (set_transfer hits
                         (store idx (set_device2 (set_device (set_type t ty) 0) (-1))
                            (transfer hits)))
                      (n_transfers hits + 1);
                  errno := errno state |}) []) /\
  (forall t,
     (forall s, arg <> String "," s) ->
     nth_error (transfer hits) idx = Some t ->
     parse_opt (key "p") arg state pos
     = Halt (Exit 1) [fprintf_stderr Err_dtod_first]).
Proof.
  intros Hn He. cbv zeta.
  pose proof (strtol_no_number arg Hn) as Hs.
  split; [|split; [|split]].
  - rewrite parse_opt_iter. cbv zeta. rewrite Hs.
    cbn [st_val errno_after st_erange n_iter set_n_iter]. now rewrite He.
  - intros Hi. rewrite parse_opt_size. cbv zeta. rewrite Hs.
    cbn [st_val errno_after st_erange]. rewrite He.
    destruct (Z.ltb_spec (n_iter (input state)) 0); [lia|]. reflexivity.
  - intros k ty msg t Hk Hcell. rewrite (parse_opt_direct k ty msg arg state Hk).
    cbv zeta. rewrite Hcell, Hs.
    cbn [st_val errno_after st_erange device set_device]. now rewrite He.
  - intros t Hcomma Hcell. rewrite parse_opt_dtod. cbv zeta. rewrite Hcell.
    destruct arg as [|c s].
    + cbn [strtok drop skip_commas Nat.add strtol_token]. cbv beta iota.
      rewrite He. reflexivity.
    + assert (Hne : c <> ","%char) by (intros ->; now apply (Hcomma s)).
      assert (Hc : strtok (String c s) O = (Some O, snd (strtok (String c s) O))).
      { unfold strtok. cbn [drop Nat.add].
        assert (Hk : skip_commas (String c s) = O).
        { cbn [skip_commas].
          destruct c as [[|] [|] [|] [|] [|] [|] [|] [|]]; try reflexivity; congruence. }
        rewrite Hk. cbn [drop Nat.add].
        now destruct (drop (token_length (String c s)) (String c s)). }
      rewrite Hc. cbv beta iota. cbn [strtol_token drop].
      rewrite Hs.
      cbn [st_val st_end errno_after st_erange Nat.add ptr_eqb Nat.eqb].
      rewrite He. reflexivity.
Qed.

(** [--iter=x] as the first option on [two_gpus]: zero rounds. *)
Lemma argument_without_number_witness :
  let state := {| input := default_hits two_gpus O 3; errno := 0 |} in
  parse_opt (key "i") "x" state 1%nat
  = Ret (0, {| input := set_n_iter (input state) 0; errno := 0 |}) [].
Proof.
  cbv zeta.
  apply (argument_without_number "x" {| input := default_hits two_gpus O 3; errno := 0 |}
           1%nat).
  - cbn. repeat split; discriminate.
  - reflexivity.
Defined.

(** [--size=4096 bytes] after the defaults of [init]: 4096 bytes. *)
Lemma number_argument_parsed_witness :
  let state := {| input := default_hits two_gpus O 3; errno := 0 |} in
  let u := Decimal.D4 (Decimal.D0 (Decimal.D9 (Decimal.D6 Decimal.Nil))) in
  parse_opt (key "s") (decimal u ++ " bytes") state 1%nat
  = Ret (0, {| input := set_n_size (input state) (value_of u); errno := 0 |}) [].
Proof.
  cbv zeta.
  apply (number_argument_parsed
           (Decimal.D4 (Decimal.D0 (Decimal.D9 (Decimal.D6 Decimal.Nil)))) " bytes"
           {| input := default_hits two_gpus O 3; errno := 0 |} 1%nat).
  - discriminate.
  - reflexivity.
  - reflexivity.
  - vm_compute. discriminate.
  - vm_compute. discriminate.
Defined.

(** X11.  Numbers out of range.  A numeral above [LONG_MAX] makes [strtol] set
    [ERANGE], and [--iter], [--size], [--htod] and [--dtoh] then stop with
    their error message and exit code 1, whatever the parser state.  A
    negative number is rejected in the same way by [--iter], and by [--htod]
    and [--dtoh] when it is not below -2^31 (the device is an [int]). *)
Theorem number_out_of_range_rejected (u : Decimal.uint) (rest : string)
    (state : argp_state) (pos : nat) :
  u <> Decimal.Nil -> no_digit_ahead rest ->
  let hits := input state in
  let idx := Z.to_nat (n_transfers hits) in
  let big := (decimal u ++ rest)%string in
  let negative := ("-" ++ decimal u ++ rest)%string in
  (LONG_MAX < value_of u ->
   parse_opt (key "i") big state pos = Halt (Exit 1) [fprintf_stderr Err_iter] /\
   parse_opt (key "s") big state pos = Halt (Exit 1) [fprintf_stderr Err_size] /\
   forall k ty msg t,
     (k = key "d" /\ ty = DTOH /\ msg = Err_dtoh) \/
     (k = key "h" /\ ty = HTOD /\ msg = Err_htod) ->
     nth_error (transfer hits) idx = Some t ->
     parse_opt k big state pos = Halt (Exit 1) [fprintf_stderr msg]) /\
  (0 < value_of u <= LONG_MAX ->
   parse_opt (key "i") negative state pos
   = Halt (Exit 1) [fprintf_stderr Err_iter] /\
   forall k ty msg t,
     (k = key "d" /\ ty = DTOH /\ msg = Err_dtoh) \/
     (k = key "h" /\ ty = HTOD /\ msg = Err_htod) ->
     value_of u <= 2 ^ 31 ->
     nth_error (transfer hits) idx = Some t ->
     parse_opt k negative state pos = Halt (Exit 1) [fprintf_stderr msg]).
Proof.
  intros Hu Hr. cbv zeta. split.
  - intros Hv. pose proof (strtol_overflow u rest Hu Hr Hv) as Hs.
    split; [|split].
    + rewrite parse_opt_iter. cbv zeta. rewrite Hs. reflexivity.
    + rewrite parse_opt_size. cbv zeta. rewrite Hs. reflexivity.
    + intros k ty msg t Hk Hcell. rewrite (parse_opt_direct k ty msg _ state Hk).
      cbv zeta. rewrite Hcell, Hs. reflexivity.
  - intros Hv. pose proof (strtol_negative u rest Hu Hr ltac:(lia)) as Hs.
    split.
    + rewrite parse_opt_iter. cbv zeta. rewrite Hs.
      cbn [st_val st_erange errno_after n_iter set_n_iter].
      destruct (Z.ltb_spec (- value_of u) 0); [|lia].
      rewrite orb_true_r. reflexivity.
    + intros k ty msg t Hk Hv' Hcell.
      rewrite (parse_opt_direct k ty msg _ state Hk).
      cbv zeta. rewrite Hcell, Hs.
      cbn [st_val st_erange errno_after device set_device].
      rewrite to_int_negative by lia.
      destruct (Z.ltb_spec (- value_of u) 0); [|lia].
      rewrite orb_true_r. reflexivity.
Qed.

(** [--iter=-5] as the first option on [two_gpus]. *)
Lemma number_out_of_range_rejected_witness :
  parse_opt (key "i") "-5" {| input := default_hits two_gpus O 3; errno := 0 |} 1%nat
  = Halt (Exit 1) [fprintf_stderr Err_iter].
Proof.
  apply (number_out_of_range_rejected (Decimal.D5 Decimal.Nil) ""
           {| input := default_hits two_gpus O 3; errno := 0 |} 1%nat).
  - discriminate.
  - exact I.
  - vm_compute. split; [reflexivity|discriminate].
Defined.

(** ** The argument of [--dtod] *)

(** X12.  [parse_opt] on [--dtod=<a>,<b>], for two decimal numerals below
    2^31, with a free cell in the transfer array and no pending [errno]:
    the option is accepted without a message, the cell becomes a
    device-to-device transfer whose destination [device] is [a] and whose
    source [device2] is [b], and [n_transfers] grows by one.  With one id
    only, the second id is reported missing; a third id is rejected; both
    with exit code 1. *)
Theorem dtod_argument_parsed (u1 u2 : Decimal.uint) (state : argp_state)
    (t : Transfer_t) (pos : nat) :
  u1 <> Decimal.Nil -> u2 <> Decimal.Nil ->
  0 <= value_of u1 < 2 ^ 31 -> 0 <= value_of u2 < 2 ^ 31 ->
  errno_bad (errno state) = false ->
  let hits := input state in
  let idx := Z.to_nat (n_transfers hits) in
  nth_error (transfer hits) idx = Some t ->
  parse_opt (key "p") (decimal u1 ++ "," ++ decimal u2) state pos
  = Ret (0, {| input :=
                 set_n_transfers
                   (set_transfer hits
                      (store idx
                         (set_device2 (set_device (set_type t DTOD) (value_of u1))
                            (value_of u2))
                         (transfer hits)))
                   (n_transfers hits + 1);
               errno := errno state |}) [] /\
  parse_opt (key "p") (decimal u1) state pos
  = Halt (Exit 1) [fprintf_stderr Err_dtod_second] /\
  (forall u3, u3 <> Decimal.Nil ->
     parse_opt (key "p") (decimal u1 ++ "," ++ decimal u2 ++ "," ++ decimal u3)
       state pos
     = Halt (Exit 1) [fprintf_stderr Err_dtod_extra]).
Proof.
  intros Hu1 Hu2 Hv1 Hv2 He. cbv zeta. intros Hcell.
  assert (Hn1 : (1 <= Decimal.nb_digits u1)%nat)
    by (destruct u1; [congruence| | | | | | | | | |]; cbn; lia).
  assert (Hn2 : (1 <= Decimal.nb_digits u2)%nat)
    by (destruct u2; [congruence| | | | | | | | | |]; cbn; lia).
  assert (Hsecond : forall rest, id_end rest ->
            let arg := (decimal u1 ++ "," ++ decimal u2 ++ rest)%string in
            let o := (Decimal.nb_digits u1 + 1)%nat in
            strtok arg o
            = (Some o, (o + Decimal.nb_digits u2
                        + match rest with EmptyString => 0 | _ => 1 end)%nat) /\
            strtol_token arg (Some o) (Some (Decimal.nb_digits u1)) (errno state)
            = (value_of u2, Some (o + Decimal.nb_digits u2)%nat, errno state) /\
            drop (o + Decimal.nb_digits u2) arg = rest).
  { intros rest Hr. cbv zeta.
    assert (Hd : drop (Decimal.nb_digits u1 + 1)
                   (decimal u1 ++ "," ++ decimal u2 ++ rest)
                 = (decimal u2 ++ rest)%string) by apply drop_past_id.
    split; [|split].
    - now apply strtok_decimal.
    - unfold strtol_token. rewrite Hd.
      rewrite (strtol_decimal u2 rest Hu2 (id_end_no_digit _ Hr))
        by (unfold LONG_MAX; lia).
      reflexivity.
    - now rewrite drop_add, Hd, <- length_decimal, drop_append. }
  assert (Hfirst : forall rest,
            let arg := (decimal u1 ++ "," ++ rest)%string in
            strtok arg O = (Some O, (Decimal.nb_digits u1 + 1)%nat) /\
            strtol_token arg (Some O) None (errno state)
            = (value_of u1, Some (Decimal.nb_digits u1), errno state)).
  { intros rest.
    apply (dtod_first_id u1 ("," ++ rest) (errno state) Hu1); [|exact Hv1].
    right. eexists. reflexivity. }
  split; [|split].
  - rewrite parse_opt_dtod. cbv zeta. rewrite Hcell.
    destruct (Hfirst (decimal u2)) as (E1 & E2). cbv zeta in E1, E2.
    rewrite E1, E2. cbv beta iota.
    rewrite He. cbn [ptr_eqb device set_device orb].
    rewrite to_int_small by lia.
    destruct (Nat.eqb_spec 0 (Decimal.nb_digits u1)) as [|_]; [lia|].
    destruct (Z.ltb_spec (value_of u1) 0) as [|_]; [lia|]. cbv beta iota.
    destruct (Hsecond EmptyString ltac:(now left)) as (E3 & E4 & E5).
    cbv zeta in E3, E4, E5. rewrite append_empty in E3, E4, E5.
    rewrite E3, E4. cbv beta iota.
    rewrite He. cbn [ptr_eqb device2 set_device2 orb].
    rewrite to_int_small by lia.
    destruct (Nat.eqb_spec (Decimal.nb_digits u1 + 1)
                (Decimal.nb_digits u1 + 1 + Decimal.nb_digits u2)) as [|_]; [lia|].
    destruct (Z.ltb_spec (value_of u2) 0) as [|_]; [lia|]. cbv beta iota.
    rewrite Nat.add_0_r, (strtok_at_end _ _ E5). reflexivity.
  - rewrite parse_opt_dtod. cbv zeta. rewrite Hcell.
    destruct (dtod_first_id u1 EmptyString (errno state) Hu1 ltac:(now left) Hv1)
      as (E1 & E2).
    cbv zeta in E1, E2. rewrite append_empty in E1, E2.
    rewrite E1, E2. cbv beta iota.
    rewrite He. cbn [ptr_eqb device set_device orb].
    rewrite to_int_small by lia.
    destruct (Nat.eqb_spec 0 (Decimal.nb_digits u1)) as [|_]; [lia|].
    destruct (Z.ltb_spec (value_of u1) 0) as [|_]; [lia|]. cbv beta iota.
    assert (Hend : drop (Decimal.nb_digits u1) (decimal u1) = EmptyString).
    { rewrite <- length_decimal.
      pose proof (drop_append (decimal u1) EmptyString) as Hx.
      now rewrite append_empty in Hx. }
    rewrite Nat.add_0_r, (strtok_at_end _ _ Hend).
    cbn [strtol_token]. cbv beta iota. rewrite He. reflexivity.
  - intros u3 Hu3. rewrite parse_opt_dtod. cbv zeta. rewrite Hcell.
    destruct (Hfirst (decimal u2 ++ "," ++ decimal u3)%string) as (E1 & E2).
    cbv zeta in E1, E2. rewrite E1, E2. cbv beta iota.
    rewrite He. cbn [ptr_eqb device set_device orb].
    rewrite to_int_small by lia.
    destruct (Nat.eqb_spec 0 (Decimal.nb_digits u1)) as [|_]; [lia|].
    destruct (Z.ltb_spec (value_of u1) 0) as [|_]; [lia|]. cbv beta iota.
    destruct (Hsecond ("," ++ decimal u3)%string
                ltac:(right; eexists; reflexivity)) as (E3 & E4 & E5).
    cbv zeta in E3, E4, E5. rewrite E3, E4. cbv beta iota.
    rewrite He. cbn [ptr_eqb device2 set_device2 orb].
    rewrite to_int_small by lia.
    destruct (Nat.eqb_spec (Decimal.nb_digits u1 + 1)
                (Decimal.nb_digits u1 + 1 + Decimal.nb_digits u2)) as [|_]; [lia|].
    destruct (Z.ltb_spec (value_of u2) 0) as [|_]; [lia|]. cbv beta iota.
    cbn [String.append].
    rewrite (strtok_decimal _ _ u3 EmptyString); [| |exact Hu3|now left].
    + cbn [ptr_eqb not_null].
      destruct (Nat.eqb_spec (Decimal.nb_digits u1 + 1 + Decimal.nb_digits u2 + 1)
                  (Decimal.nb_digits u1 + 1 + Decimal.nb_digits u2)) as [|_]; [lia|].
      reflexivity.
    + rewrite append_empty, drop_add. cbn [String.append] in E5.
      now rewrite E5.
Qed.

(** [--dtod=1,0] as the first option on [two_gpus]. *)
Lemma dtod_argument_parsed_witness :
  let state := {| input := default_hits two_gpus O 2; errno := 0 |} in
  let u1 := Decimal.D1 Decimal.Nil in
  let u2 := Decimal.D0 Decimal.Nil in
  let idx := Z.to_nat (n_transfers (input state)) in
  parse_opt (key "p") (decimal u1 ++ "," ++ decimal u2) state 1%nat
  = Ret (0, {| input :=
                 set_n_transfers
                   (set_transfer (input state)
                      (store idx
                         (set_device2
                            (set_device (set_type blank_transfer DTOD) (value_of u1))
                            (value_of u2))
                         (transfer (input state))))
                   (n_transfers (input state) + 1);
               errno := errno state |}) [] /\
  idx = O /\ value_of u1 = 1 /\ value_of u2 = 0.
Proof.
  cbv zeta. split; [|repeat split].
  refine (proj1 (dtod_argument_parsed (Decimal.D1 Decimal.Nil)
                   (Decimal.D0 Decimal.Nil)
                   {| input := default_hits two_gpus O 2; errno := 0 |}
                   blank_transfer 1%nat _ _ _ _ _ _)).
  - discriminate.
  - discriminate.
  - vm_compute. split; [discriminate|reflexivity].
  - vm_compute. split; [discriminate|reflexivity].
  - reflexivity.
  - reflexivity.
Defined.

(** ** Pinned and pageable host memory *)

(** X13.  With [--disable-pinned-memory] on the command line, no run of [main]
    calls [hipHostMalloc] or [hipHostFree].  Without it, host buffers are
    never pageable: the only [malloc] of a run is the first call, that of the
    transfer array, and the only [free] is the release of that array. *)
Theorem pinned_memory_option (P : Platform) (argc : Z) (opts : list (Z * string)) :
  let d := calls (run (main P argc opts)) in
  (has_key (key "m") opts = true ->
   Forall (fun c => is_pinned_call c = false) d) /\
  (has_key (key "m") opts = false ->
   exists rest,
     d = malloc (to_size_t (sizeof_Transfer_t P * (argc - 1))) :: rest /\
     Forall (fun c => match c with
                      | malloc _ => False
                      | free p => p = O
                      | _ => True
                      end) rest).
Proof.
  cbv zeta. split; intros Hm.
  - destruct (main_calls_after_malloc (fun c => is_pinned_call c = false) P argc opts)
      as (rest & -> & Hrest); [| | |now constructor].
    + intros flags H1 _ t _. rewrite Hm in H1. unfold_transfer.
      split; [intros n|]; destruct (type t); rewrite ?H1; cbv beta iota;
        emits_all; reflexivity.
    + reflexivity.
    + intros c [Hc|[Hc|[->|[->|(text & ->)]]]]; try reflexivity; now destruct c.
  - apply main_calls_after_malloc.
    + intros flags H1 _ t _. rewrite Hm in H1. unfold_transfer.
      split; [intros n|]; destruct (type t); rewrite ?H1; cbv beta iota;
        emits_all; exact I.
    + reflexivity.
    + intros c [Hc|[Hc|[->|[->|(text & ->)]]]]; try exact I; now destruct c.
Qed.

Lemma pinned_memory_option_witness :
  let opts := (key "m", ""%string) :: argv_htod in
  has_key (key "m") opts = true /\
  Forall (fun c => is_pinned_call c = false) (calls (run (main two_gpus 5 opts))).
Proof.
  cbv zeta. split; [reflexivity|].
  apply (proj1 (pinned_memory_option two_gpus 5 ((key "m", ""%string) :: argv_htod))).
  reflexivity.
Defined.

(** ** NUMA lookups *)

(** X14.  With [--disable-numa-affinity] on the command line, or when the
    command line asks for device-to-device transfers only, no run of [main]
    opens a NUMA file or calls [numa_set_preferred]. *)
Theorem numa_lookup_only_when_asked (P : Platform) (argc : Z)
    (opts : list (Z * string)) :
  has_key (key "n") opts = true \/ Forall (fun ty => ty = DTOD) (requested opts) ->
  Forall (fun c => is_numa_call c = false) (calls (run (main P argc opts))).
Proof.
  intros Hn.
  destruct (main_calls_after_malloc (fun c => is_numa_call c = false) P argc opts)
    as (rest & -> & Hrest); [| | |now constructor].
  - intros flags _ H2 t Ht. unfold_transfer.
    destruct Hn as [Hn|Hn].
    + rewrite Hn in H2.
      split; [intros n|]; destruct (type t); rewrite ?H2; cbv beta iota;
        emits_all; reflexivity.
    + rewrite Forall_forall in Hn. rewrite (Hn _ Ht).
      split; [intros n|]; emits_all; reflexivity.
  - reflexivity.
  - intros c [Hc|[Hc|[->|[->|(text & ->)]]]]; try reflexivity; now destruct c.
Qed.

Lemma numa_lookup_only_when_asked_witness :
  Forall (fun c => is_numa_call c = false)
    (calls (run (main two_gpus 2 argv_dtod))).
Proof.
  apply (numa_lookup_only_when_asked two_gpus 2 argv_dtod).
  right. repeat constructor.
Defined.

(** X15.  A run that only has device-to-device transfers uses no host buffer:
    after the [malloc] of the transfer array it never calls [malloc],
    [hipHostMalloc] or [hipHostFree], and its only [free] is the release of
    that array. *)
Theorem peer_transfers_use_no_host_buffer (P : Platform) (argc : Z)
    (opts : list (Z * string)) :
  Forall (fun ty => ty = DTOD) (requested opts) ->
  exists rest,
    calls (run (main P argc opts))
    = malloc (to_size_t (sizeof_Transfer_t P * (argc - 1))) :: rest /\
    Forall (fun c => match c with
                     | malloc _ | hipHostMalloc _ _ | hipHostFree _ => False
                     | free p => p = O
                     | _ => True
                     end) rest.
Proof.
  intros Hn. apply main_calls_after_malloc.
  - intros flags _ _ t Ht. unfold_transfer.
    rewrite Forall_forall in Hn. rewrite (Hn _ Ht).
    split; [intros n|]; emits_all; exact I.
  - reflexivity.
  - intros c [Hc|[Hc|[->|[->|(text & ->)]]]]; try exact I; now destruct c.
Qed.

Lemma peer_transfers_use_no_host_buffer_witness :
  exists rest,
    calls (run (main two_gpus 2 argv_dtod)) = malloc (to_size_t (1552 * (2 - 1))) :: rest /\
    Forall (fun c => match c with
                     | malloc _ | hipHostMalloc _ _ | hipHostFree _ => False
                     | free p => p = O
                     | _ => True
                     end) rest.
Proof.
  apply (peer_transfers_use_no_host_buffer two_gpus 2 argv_dtod).
  repeat constructor.
Defined.

(** ** NUMA files *)

(** X16.  No run of [main], whatever its outcome, leaves a NUMA file open or
    touches a file it has not opened: every [fopen] that succeeds is followed
    at once by one [fscanf] and one [fclose] on the file it returned, and
    there is no other [fscanf] or [fclose]. *)
Theorem numa_files_are_closed (P : Platform) (argc : Z) (opts : list (Z * string)) :
  files_run P Closed O (calls (run (main P argc opts))) = Some Closed.
Proof. apply closes_files_main. Qed.

(** The run of [--htod=0] on a machine whose NUMA files hold -1 opens a
    file. *)
Example numa_file_opened :
  In (fclose 6%nat)
    (calls (run (main (with_numa_files minus_one_line) 4 argv_htod))).
Proof. vm_compute. tauto. Qed.

(** X17.  The path [set_numa_affinity] prints into [numa_file], an array of
    [PATH_MAX] characters, has between 43 and 53 characters, whatever the
    PCI domain and bus of the device: [sprintf] stays inside the array.  For
    a domain below 2^16 and a bus below 2^8 it has 43 characters. *)
Theorem numa_path_fits (prop : hipDeviceProp_t) :
  (43 <= String.length (numa_file prop) <= 53)%nat /\
  Z.of_nat (String.length (numa_file prop)) + 1 <= PATH_MAX /\
  (0 <= pciDomainID prop < 2 ^ 16 -> 0 <= pciBusID prop < 2 ^ 8 ->
   String.length (numa_file prop) = 43%nat).
Proof.
  unfold numa_file, fmt_0x. rewrite !length_append, !length_hex_low.
  cbn [String.length].
  pose proof (hex_length_le 8 (to_uint (pciDomainID prop))) as H1.
  pose proof (hex_length_le 8 (to_uint (pciBusID prop))) as H2.
  unfold PATH_MAX. split; [lia|]. split; [lia|].
  intros Hd Hb.
  pose proof (hex_length_small 8 4 (to_uint (pciDomainID prop))) as H3.
  pose proof (hex_length_small 8 2 (to_uint (pciBusID prop))) as H4.
  unfold to_uint in *. rewrite !Z.mod_small in * by lia.
  specialize (H3 ltac:(simpl; lia)). specialize (H4 ltac:(simpl; lia)). lia.
Qed.

Lemma numa_path_fits_witness :
  String.length (numa_file {| pciDomainID := 0; pciBusID := 195 |}) = 43%nat.
Proof.
  apply (numa_path_fits {| pciDomainID := 0; pciBusID := 195 |}); simpl; lia.
Defined.

(** ** Copies and buffers *)

(** X18.  In a run of [main] that returns, every copy that is submitted is
    between two distinct buffers that were allocated earlier in the run,
    each with exactly the number of bytes of the copy: from a host buffer
    ([malloc] or [hipHostMalloc]) to a device buffer ([hipMalloc]) for a
    host-to-device copy, from a device buffer to a host buffer for a
    device-to-host copy, between two device buffers for a peer copy. *)
Theorem copies_fit_their_buffers (P : Platform) (argc : Z)
    (opts : list (Z * string)) (r : Z) (d : list Call) :
  run (main P argc opts) = Ret r d ->
  forall k c, nth_error d k = Some c -> copy_fits d k c.
Proof.
  intros H k c Hk.
  destruct (is_copy c) eqn:Hc; [|now destruct c].
  destruct (copy_of_run _ _ _ _ _ H) as (hits & d0 & rest & Hinit & -> & Hcopy).
  destruct (Hcopy k c Hk Hc) as (Hlt & t & Ht & ->).
  pose proof (init_handles _ _ _ _ _ Hinit t Ht) as Hh. cbv zeta in Hh.
  destruct Hh as (Hsrc & Hdest & Hne & _ & _ & _ & _ & Hty).
  assert (Hb : forall h, (h < length d0)%nat ->
                 buffer_of (d0 ++ rest) h = buffer_of d0 h)
    by (intros h Hh; unfold buffer_of; now rewrite nth_error_app1).
  unfold copy_call, copy_fits. destruct (type t); destruct Hty as (H1 & H2);
    rewrite !Hb by lia; repeat split; auto; lia.
Qed.

Lemma copies_fit_their_buffers_witness :
  exists r d,
    run (main two_gpus 4 argv_htod) = Ret r d /\
    forall k c, nth_error d k = Some c -> copy_fits d k c.
Proof.
  eexists. eexists. split; [vm_compute; reflexivity|].
  apply (copies_fit_their_buffers two_gpus 4 argv_htod 0).
  vm_compute. reflexivity.
Defined.

(** ** The current device *)

(** X19.  In a run of [main] that returns, every event record and every copy
    is made while the current device is the device on which its stream was
    created; the events of a record and the device buffer of a copy between
    host and device were created on that device too.  A peer copy is made on
    the device of its destination buffer, and the two devices it names are
    those on which its two buffers were allocated. *)
Theorem calls_on_the_device_of_their_stream (P : Platform) (argc : Z)
    (opts : list (Z * string)) (r : Z) (d : list Call) :
  run (main P argc opts) = Ret r d ->
  Forall (fun x => device_fits d (fst x) (snd x)) (trace_devices None d).
Proof.
  intros H. pose proof H as Hm. apply main_rounds in H
    as (hits & d0 & rounds & d1 & d2 & p & Hinit & _ & Hd & _ & Hr & Hd0
        & Hd1 & _ & _ & _ & _ & _ & _).
  assert (Hc : forall t,
            In t (firstn (Z.to_nat (n_transfers hits)) (transfer hits)) ->
            created_on_devices d t).
  { intros t Ht. pose proof (init_devices _ _ _ _ _ Hinit t Ht) as Hcd.
    pose proof (init_handles _ _ _ _ _ Hinit t Ht) as Hh. cbv zeta in Hh.
    destruct Hh as (Hsrc & Hdest & _ & Hstream & Hss & Hlt & _ & _).
    unfold created_on_devices in *. rewrite Hd.
    rewrite !current_device_prefix by lia.
    destruct (type t); rewrite ?current_device_prefix by lia; exact Hcd. }
  set (Q := fun x : option Z * Call => device_fits d (fst x) (snd x)).
  rewrite Hd. subst Q. rewrite trace_devices_app. apply Forall_app. split.
  { apply device_fits_others. eapply Forall_impl; [|exact Hd0].
    intros c Hc0. now destruct c. }
  cbn [trace_devices]. constructor; [exact I|].
  rewrite trace_devices_app. apply Forall_app. split.
  2:{ apply device_fits_others. eapply Forall_impl; [|exact Hd1].
      intros c Hc0. now destruct c. }
  apply device_fits_concat. intros rd cur Hrd.
  apply In_nth_error in Hrd as (k & Hk). apply Hr in Hk as (-> & _).
  unfold round_calls. rewrite calls_from_flat_map.
  apply device_fits_flat_map. intros u cur' Hu.
  apply device_fits_issue. rewrite firstn_array_at in Hu. destruct k.
  - now apply Hc.
  - apply in_map_iff in Hu as (t & <- & Ht).
    apply created_on_devices_mark_started. now apply Hc.
Qed.

Lemma calls_on_the_device_of_their_stream_witness :
  exists r d,
    run (main two_gpus 2 argv_dtod) = Ret r d /\
    Forall (fun x => device_fits d (fst x) (snd x)) (trace_devices None d).
Proof.
  eexists. eexists. split; [vm_compute; reflexivity|].
  apply (calls_on_the_device_of_their_stream two_gpus 2 argv_dtod 0).
  vm_compute. reflexivity.
Defined.

(** ** Streams *)

(** X20.  In a run of [main] that returns, with at least one round, the work
    put on the stream of a transfer is: the record of its start event, then
    its [n_iter] copies, then the record of its stop event, and nothing
    else.  So the interval [hipEventElapsedTime] measures for a transfer
    spans all the copies of that transfer and only them. *)
Theorem stream_holds_timed_copies (P : Platform) (argc : Z)
    (opts : list (Z * string)) (r : Z) (d : list Call) :
  run (main P argc opts) = Ret r d ->
  exists hits d0,
    run (init P argc opts) = Ret hits d0 /\
    forall t,
      In t (firstn (Z.to_nat (n_transfers hits)) (transfer hits)) ->
      1 <= n_iter hits ->
      filter (on_stream (stream t)) d
      = hipEventRecord (start t) (stream t)
        :: repeat (copy_call (to_size_t (n_size hits)) t) (Z.to_nat (n_iter hits))
        ++ [hipEventRecord (stop t) (stream t)].
Proof.
  intros H. apply main_rounds in H
    as (hits & d0 & rounds & d1 & d2 & p & Hinit & Hi & -> & Hlen & Hr & Hd0
        & Hd1 & _ & _ & Hnd & Hst & _ & _).
  exists hits, d0. split; [exact Hinit|]. intros t Ht Hge.
  set (n := Z.to_nat (n_transfers hits)) in *.
  set (nb := to_size_t (n_size hits)) in *.
  assert (Hs : NoDup (map stream (firstn n (transfer hits)))).
  { replace (map stream (firstn n (transfer hits)))
      with (map S (map stop (firstn n (transfer hits)))).
    - apply NoDup_map_S, NoDup_stops, Hnd.
    - rewrite map_map. apply map_ext_in. intros u Hu.
      pose proof (init_handles _ _ _ _ _ Hinit u Hu) as Hh. cbv zeta in Hh.
      symmetry. tauto. }
  rewrite filter_app. cbn [filter on_stream]. rewrite !filter_app.
  rewrite (filter_none _ init_call d0 Hd0) by (intros c Hc; now destruct c).
  rewrite <- filter_app.
  rewrite (filter_none _ late_call (d1 ++ d2) Hd1) by (intros c Hc; now destruct c).
  rewrite app_nil_r. cbn [app].
  rewrite filter_concat.
  set (g := fun k : nat =>
              (match k with O => [hipEventRecord (start t) (stream t)] | S _ => [] end)
              ++ copy_call nb t
              :: (if Nat.eqb k (Z.to_nat (n_iter hits) - 1)
                  then [hipEventRecord (stop t) (stream t)] else [])).
  rewrite (list_by_nth g (map (filter (on_stream (stream t))) rounds)).
  - rewrite length_map, Hlen. apply concat_blocks. lia.
  - intros k x Hk. rewrite nth_error_map in Hk.
    destruct (nth_error rounds k) as [rd|] eqn:Erd; [|discriminate].
    inversion Hk; subst x.
    assert (Hkn : (k < Z.to_nat (n_iter hits))%nat)
      by (rewrite <- Hlen; apply nth_error_Some; congruence).
    apply Hr in Erd as (-> & _).
    unfold round_calls. rewrite calls_from_flat_map, firstn_array_at.
    replace (Z.of_nat k =? to_size_t (n_iter hits - 1))
      with (Nat.eqb k (Z.to_nat (n_iter hits) - 1)).
    2:{ unfold to_size_t, LONG_MAX in *. rewrite Z.mod_small by lia.
        destruct (Nat.eqb_spec k (Z.to_nat (n_iter hits) - 1)),
          (Z.eqb_spec (Z.of_nat k) (n_iter hits - 1)); auto; lia. }
    destruct k as [|k].
    + rewrite on_stream_round by assumption. now rewrite (Hst t Ht).
    + replace (stream t) with (stream (mark_started t))
        by (unfold mark_started; now destruct (is_started t)).
      rewrite on_stream_round.
      * unfold g, mark_started. rewrite (Hst t Ht). reflexivity.
      * rewrite map_map.
        replace (map (fun u => stream (mark_started u)) (firstn n (transfer hits)))
          with (map stream (firstn n (transfer hits))); [exact Hs|].
        apply map_ext. intros u. unfold mark_started. now destruct (is_started u).
      * now apply in_map.
Qed.

Lemma stream_holds_timed_copies_witness :
  exists r d,
    run (main two_gpus 4 argv_htod) = Ret r d /\
    exists hits d0,
      run (init two_gpus 4 argv_htod) = Ret hits d0 /\
      forall t,
        In t (firstn (Z.to_nat (n_transfers hits)) (transfer hits)) ->
        1 <= n_iter hits ->
        filter (on_stream (stream t)) d
        = hipEventRecord (start t) (stream t)
          :: repeat (copy_call (to_size_t (n_size hits)) t) (Z.to_nat (n_iter hits))
          ++ [hipEventRecord (stop t) (stream t)].
Proof.
  eexists. eexists. split; [vm_compute; reflexivity|].
  apply (stream_holds_timed_copies two_gpus 4 argv_htod 0).
  vm_compute. reflexivity.
Defined.

(** ** After the loop *)

(** X21.  In a run of [main] that returns, what follows the issue loop is:
    for every transfer, in the order of the array, the synchronisation of
    its device; then the line "Completed."; then three calls for every
    transfer; then the calls of [fini].  The result lines of the whole run
    are one per transfer, in the order of the array, each with the index of
    its transfer and its device, in the peer-to-peer form exactly for a
    device-to-device transfer. *)
Theorem results_follow_synchronisation (P : Platform) (argc : Z)
    (opts : list (Z * string)) (r : Z) (d : list Call) :
  run (main P argc opts) = Ret r d ->
  exists hits d0 d_loop d_results d_fini,
    let ts := firstn (Z.to_nat (n_transfers hits)) (transfer hits) in
    run (init P argc opts) = Ret hits d0 /\
    d = d0 ++ pthread_create :: d_loop
           ++ flat_map sync_calls ts
           ++ printf Completed :: d_results ++ d_fini /\
    Forall (fun c => issue_call c = true) d_loop /\
    length d_results = (3 * length ts)%nat /\
    results d_results = expected_results O ts /\
    results d = expected_results O ts.
Proof.
  intros H. unfold run in H. apply main_Ret in H
    as (hits & d0 & a1 & d1 & a2 & d2 & a3 & d3 & d4 & p1 & Hinit & Hloop & Hsync
        & Hrep & Hfini & -> & -> & _).
  set (n := Z.to_nat (n_transfers hits)) in *.
  set (nb := to_size_t (n_size hits)) in *.
  pose proof (init_emits P argc opts O) as Hd0. rewrite Hinit in Hd0.
  cbn [calls] in Hd0.
  pose proof (issue_loop_emits P (n_iter hits) nb n (Z.to_nat (n_iter hits)) 0
                (transfer hits) (0 + length d0 + 1)%nat) as Hd1.
  rewrite Hloop in Hd1. cbn [calls] in Hd1.
  assert (Hq1 : results d1 = []).
  { apply results_none.
    pose proof (emits_issue_loop (fun c => result_of c = None) P (n_iter hits) nb n)
      as He.
    specialize (He ltac:(intros is_last t; unfold issue, direct_transfer,
                           dtod_transfer; emits_all; reflexivity)
                  (Z.to_nat (n_iter hits)) 0 (transfer hits) (0 + length d0 + 1)%nat).
    rewrite Hloop in He. exact He. }
  assert (Hq4 : results d4 = []).
  { apply results_none.
    assert (He : emits (fun c => result_of c = None) (fini P (set_transfer hits a3)))
      by (unfold fini, fini_one; emits_all; reflexivity).
    specialize (He (0 + length d0 + 1 + length d1 + length d2 + 1 + length d3)%nat).
    rewrite Hfini in He. exact He. }
  assert (Hq0 : results d0 = []).
  { apply results_none. eapply Forall_impl; [|exact Hd0].
    intros c Hc. now destruct c. }
  apply issue_loop_Ret in Hloop as (_ & Ha1 & _).
  apply synchronize_script in Hsync as (-> & ->).
  unfold for_each in Hrep. apply report_results in Hrep as (-> & Hr & Hl).
  assert (Hts : firstn n a1 = firstn n (transfer hits) \/
                firstn n a1 = map mark_started (firstn n (transfer hits))).
  { rewrite Ha1. destruct (Z.to_nat (n_iter hits)); [now left|right].
    apply firstn_map_from. }
  assert (Hsy : flat_map sync_calls (firstn n a1)
                = flat_map sync_calls (firstn n (transfer hits)))
    by (destruct Hts as [->| ->]; [reflexivity|apply sync_calls_started]).
  assert (Hex : expected_results O (firstn n a1)
                = expected_results O (firstn n (transfer hits)))
    by (destruct Hts as [->| ->]; [reflexivity|apply expected_results_started]).
  assert (Hlen : length (firstn n a1) = length (firstn n (transfer hits)))
    by (destruct Hts as [->| ->]; [reflexivity|apply length_map]).
  assert (Hqs : results (flat_map sync_calls (firstn n (transfer hits))) = []).
  { apply results_none. apply Forall_flat_map, Forall_forall.
    intros t _. repeat constructor. }
  exists hits, d0, d1, d3, d4. cbv zeta. fold n.
  split; [exact Hinit|]. rewrite Hsy.
  split; [reflexivity|]. split; [exact Hd1|].
  split; [now rewrite Hl, Hlen|]. rewrite Hr, Hex. split; [reflexivity|].
  rewrite results_app, Hq0. cbn [app].
  change (pthread_create :: ?l) with ([pthread_create] ++ l).
  rewrite !results_app, Hq1, Hqs. cbn [app].
  change (printf Completed :: ?l) with ([printf Completed] ++ l).
  rewrite !results_app, Hr, Hex, Hq4. cbn. now rewrite app_nil_r.
Qed.

Lemma results_follow_synchronisation_witness :
  exists r d,
    run (main two_gpus 2 argv_dtod) = Ret r d /\
    exists hits d0 d_loop d_results d_fini,
      let ts := firstn (Z.to_nat (n_transfers hits)) (transfer hits) in
      run (init two_gpus 2 argv_dtod) = Ret hits d0 /\
      d = d0 ++ pthread_create :: d_loop
             ++ flat_map sync_calls ts
             ++ printf Completed :: d_results ++ d_fini /\
      Forall (fun c => issue_call c = true) d_loop /\
      length d_results = (3 * length ts)%nat /\
      results d_results = expected_results O ts /\
      results d = expected_results O ts.
Proof.
  eexists. eexists. split; [vm_compute; reflexivity|].
  apply (results_follow_synchronisation two_gpus 2 argv_dtod 0).
  vm_compute. reflexivity.
Defined.
